(* ===== verification/_CoqProject ===== *)
-Q . S2P
Prelude.v
GoStrings.v
Metrics.v
Tracing.v
RepServer.v
Replication.v
Utf8.v
Json.v
ReplProtocol.v
ReplFair.v
ConnMgr.v
Types.v
EventBus.v
JsonPrefix.v
Logging.v
JsonCodec.v
MemberState.v
Effects.v
Cluster.v
ClusterSpec.v
Discovery.v
Http.v
RaftNode.v
Gossip.v
Memdemo.v
Grpc.v
Network.v
Tls.v
Bootstrap.v
Convergence.v
Node.v
Observe.v
Journal.v
Window.v
ReplRefine.v
RepWire.v
Lifecycle.v
RaftLifecycle.v
Routes.v
Cli.v
Flags.v
Library.v
