(* ===== verification/Prelude.v ===== *)
(** * go-cluster: a verification development

    go-cluster lets a Go application run as a group of nodes with one leader.  A node is a
    facade ([pkg/cluster]) over four kinds of components it is given: a consensus engine
    ([pkg/consensus/raft], an adapter of a Raft library with the membership state
    [pkg/state/membership] as its replicated state machine), a gossip membership
    ([pkg/membership/memberlist]), a management transport ([pkg/transport/grpc] or
    [pkg/transport/httpjson]) through which nodes ask each other to join, leave, report
    their status and write, and a source of seed addresses ([pkg/discovery]).  The leader
    also replicates application messages to followers: it numbers and buffers them
    ([Publish] and the retry loop in [pkg/cluster/cluster.go]) and streams them through the
    replication service of the gRPC server ([pkg/transport/grpc/server.go]), whose
    subscribers acknowledge.  [pkg/bootstrap] builds a node from a configuration and
    [pkg/cli] runs one from the command line or asks a running one.

    ** Files

    Foundations: [Prelude] (Go values, 64-bit integers, maps, buffered channels, the hint
    databases), [GoStrings] (the functions of [strings], [strconv] and [net] that are used),
    [Utf8], [Json] and [JsonPrefix] (the text of [encoding/json], and that it reads a value the
    same way whatever follows it), [Types] (the structures that travel
    between components), [JsonCodec] (their encodings, class [CodecOk]), [Metrics] (the
    collectors and their registration).

    - [RepServer]: the replication service, [server.go] lines 20 to 34 and 222 to 369.  State
      [Server]; operations [addSub], [removeSub], [Ack], [BroadcastWithSeq], [AckedAll].
    - [Replication]: the leader's buffer, [cluster.go] lines 433 to 641.  State [rep] and the
      files of the buffer directory; [publish_wait], [publish_commit], [retry_topics],
      [restoreBufferFromDisk].
    - [ReplProtocol]: leader, service and subscribers together, as the step relation [step]
      with any number of calls of [Publish] and the retry loop's ticks split into their
      critical sections; its parameter [serial] says that calls of [Publish] on one topic do
      not overlap.  The subscriber is [replication_client.go]; topics and node names are
      read as JSON carries them ([msg_read], [ack_read]).
    - [ConnMgr]: [connmgr.go], each critical section a function, interleaved by [mgr_step].
    - [EventBus]: [events.go], interleaved by [bus_step].
    - [MemberState]: [state.go], [membership/state.go] and [raft/fsm.go].  The class
      [MembershipState] with [MembershipStateLaws] is the interface, module [State] its
      implementation, the section [FSM] the client proved against the interface.
    - [Effects], [Cluster], [ClusterSpec]: the facade.  A method is a program [prog] whose
      calls to other components are data ([call]); [exec] relates it to every trace of calls
      and answers, so a theorem over [exec] holds whatever the components answer and
      whatever happens between two calls.
    - [Network]: several nodes running these programs; a remote call goes through the HTTP or
      the gRPC client and the handlers of the addressed node, and a plan says what becomes of
      every attempt: it may be refused, or served and its reply lost.
    - [Discovery] (modules [Static], [File], [Dns]), [RaftNode], [Gossip], [Http], [Grpc], [Tls],
      [Bootstrap]: one file per package.  The handlers of [Http] run their functions on a
      state, so that a request which runs nothing leaves it as it was; the handshakes of [Tls]
      are interleaved by [tls_step].  [Grpc] also holds the interface [HonestRPC] of a
      management transport, of which HTTP and gRPC are instances.
    - [RepWire]: the replication service and its subscriber on the bytes they exchange.
    - [Routes]: the mux of the HTTP server, the dispatch of the gRPC one and the addresses
      and credentials of the clients; [Lifecycle]: starting and stopping both servers, the
      goroutines interleaved on the field they share; [RaftLifecycle]: the same of the Raft node.
    - [Cli], [Flags]: the commands of [pkg/cli/cli.go] and their flags; [Flags] has the class
      [FlagSet] of flag sets in which every flag sets its own variable.
    - [Logging], [Tracing]: [pkg/internal/logutil] and [pkg/observability/tracing].
    - [Memdemo], [Library]: the programs [cmd/memdemo], [examples/library] and
      [examples/hello].

    Systems composed of these parts:

    - [Convergence]: the goroutines of all nodes ([task]), interleaved call by call, the
      Raft log they write, and replicas of the state machine that apply it, restart and
      exchange snapshots ([sys_step]).
    - [Node]: the facade's programs on one node's concrete components ([serve]), with
      interference between two calls; the history of an execution lists each call with the
      state before and after it ([visit]).  [Observe]: the metrics of such a node, where the
      interference is the other operations of the node ([moves]).
    - [Journal]: the log calls and spans of the facade's programs.
    - [ReplFair]: infinite runs of [ReplProtocol] that are fair to its goroutines.
    - [Window]: concurrent calls of [Publish] on one buffer ([shared_step]), beside
      acknowledgements of any sequence, lower ones too.
    - [ReplRefine]: the facade's programs [Publish] and [retry_tick], any number of them, run
      call by call on the shared buffer and tables beside the subscribers ([code_step]).

    ** What the theorems show

    Safety of the cluster: only a node that was told it is leader changes the cluster
    ([only_leader_writes]); a request to join that is delivered reaches the leader through any
    node and acts there once, a write is performed at most once whatever the network does and
    exactly once when it is delivered ([join_reaches_leader], [write_forwarded_once], and down
    to the Raft configuration [join_adds_voter]); the replies of the handlers and what the facade and
    the command line report are true over every transport ([facade_outcome_true],
    [post_at_most_once], [join_cmd_truthful], [run_cmd_lifecycle]); every flag ends in its own
    field of the configuration ([flags_bound]); exactly the requests with
    the wrong method, an unreadable body or no function behind them are refused, and those run
    nothing ([refused_request_runs_nothing]).  The replicated state machine: a snapshot
    and the rest of the log are as good as the whole log ([fsm_snapshot_prefix]), snapshots
    are deterministic and restored exactly.  The whole system: replicas agree and can catch
    up ([replicas_agree]), their states follow one sequence of additions and removals that some
    node was told of, of which every replica has made a first part ([membership_refines]); it
    holds only what was reported ([membership_reported]), and a steady leader turns gossip
    events into that history ([events_converge]).  Replication: the running programs refine the
    protocol ([code_refines_protocol]); nothing is delivered that was not published, however
    many goroutines publish ([delivered_was_published]); when calls on one topic do not overlap, acknowledgements are
    cumulative ([code_acks_cumulative]) and the buffer loses only what its receivers have
    ([retry_drops_only_received]); the buffer survives a restart; in a fair run a node that
    stays subscribed is given every message published since ([subscribed_node_gets_all]), what
    the buffer holds is delivered, or dropped when every acknowledging node has passed it
    ([buffered_delivered_or_dropped]), and so it
    goes on the wire ([stream_acknowledged]); [Publish] on a whole node
    stores what it is given under the next number and sends it to every stream ([publish_on_node]), the retry loop drops what is
    acknowledged and sends the rest again ([retry_on_node]), [Publish] ends
    ([publish_returns]) and keeps the messages in flight within the window plus the other
    publishers, counted from the highest acknowledgement there was ([window_bound]); and the
    limits of this: [at_least_once_fails], [overlapping_publishers_lose],
    [colliding_topics_lose], [stale_ack_widens].
    Concurrency: connections in use stay open, no send on a closed channel, bounded queues
    in order ([held_connection_open], [publish_never_panics], [gossip_events_in_order]),
    a subscription gives its connection back ([subscription_balanced]), a server started and
    stopped in turn, each call after the goroutines of the one before have run, never
    dereferences nil ([serial_lifecycle_safe]); however many handshakes load at once, a
    certificate is presented for less than ten seconds after it was stored ([reload_fresh]).
    Metrics keep the labels and kinds of their collectors ([metrics_well_typed]), the log
    tells exactly the reconfigurations that were made, in JSON mode as one readable line per call
    ([log_tells_reconfigurations]), spans nest ([spans_nest], [facade_spans_nest]).  Peers see the
    metadata of a node whole or not at all ([metadata_whole_or_none]).  The demo stops its
    membership exactly once, and panics exactly when it leaves after that
    ([memdemo_lifecycle]).
    Assembly: a built node is coherent and its management address is what peers resolve
    ([built_node_coherent], [built_node_resolved]).  Some theorems record behaviour that is
    probably not meant, such as [resend_never_ends], [sanitized_topics_collide],
    [publish_without_acks_blocks], [status_disagreement_loops], [failed_start_not_retried],
    [server_error_lost], [start_outcome], [missed_departure_stays],
    [invalid_topic_never_acknowledged], [concurrent_stop_panics], [cancelled_stop_panics],
    [failed_run_leaks], [departure_races], [default_log_not_json],
    [stop_races_read], [old_context_stops_restarted].

    ** Bounds and fuel

    Sequence numbers are 64-bit with their wrap-around.  The resend loop gets one round per
    sequence number; [retry_correct] proves that it ends below the largest value and
    [resend_never_ends] that it does not at it.  The JSON parser gets twice the length of
    the text and [decode_first_fuel] and [parse_string_fuel] prove that more changes nothing.
    [Network.run] takes the depth of nested remote calls: the theorems need one or two.
    [Publish] takes the number of rounds of its waiting loop and is undecided when they run
    out; [publish_returns] says how many are enough and that more change nothing.  Decimal numbers have at most twenty digits.

    ** Parameters

    The Raft, memberlist and gRPC libraries, the DNS resolver, the file system, the clock and
    certificate files are parameters; what is assumed of them is in [LibConfig], [conveys],
    [announced] and the premises of the theorems.

    ** Not modelled

    The splitting of command-line arguments and the conversion of their texts, keep-alive
    options and interceptors (none is installed), help texts, formats with flags or other verbs
    than [%s], [%d] and [%v], and time limits of calls, which appear as errors that may be
    returned.  The Raft library itself is not
    modelled: that one log is agreed on is where [Convergence] starts.  Go maps that are
    accessed without a lock ([reps] in [server.go]) are modelled with atomic operations: a data race is
    outside the model.  Metrics are exact integers.  [ConnManager.Close], which the
    repository never calls, is not a step of [mgr_step], and the gauges of [ConnMgr] are those
    of one manager.  In [Node] and [Convergence] the library calls of one operation of the Raft
    adapter, as in [AddVoter], are one step.  The serial lifecycle of [Lifecycle] is a
    restriction of the callers; the code does not enforce it. *)
From Stdlib Require Export Ascii.
From stdpp Require Export base tactics numbers option list gmap strings sorting.
From stdpp Require Import options.

(** ** Go values *)

(** A Go [string] and a Go [[]byte] are both finite sequences of bytes: they are
    modelled by [string], whose characters are the 256 bytes. *)
Abbreviation bytes := string (only parsing).

(** The two-valued result [(T, error)] of a Go function that returns a useful
    value only when the error is nil. *)
Inductive gores (A : Type) : Type :=
  | Ok (a : A)
  | Err (e : string).
Arguments Ok {A} a.
Arguments Err {A} e.

Global Instance gores_eq_dec `{EqDecision A} : EqDecision (gores A).
Proof. solve_decision. Defined.

Global Instance gores_ret : MRet gores := λ A a, Ok a.
Global Instance gores_bind : MBind gores := λ A B f r,
  match r with Ok a => f a | Err e => Err e end.

(** ** Machine integers *)

Definition w64 : Z := 2 ^ 64.

(** [uint64] arithmetic wraps modulo 2^64. *)
Definition u64 (z : Z) : Z := z `mod` w64.

(** The conversion [int(x)] of a [uint64] on a 64-bit platform. *)
Definition int_of_u64 (z : Z) : Z := (if z <? 2 ^ 63 then z else z - w64)%Z.

(** The values a [uint64] variable holds. *)
Definition is_u64 (z : Z) : Prop := (0 ≤ z < w64)%Z.

Global Instance is_u64_dec z : Decision (is_u64 z).
Proof. unfold is_u64. apply _. Defined.

(** [m[k]] for a map of integers: zero when the key is absent. *)
Definition get0 `{Countable K} (m : gmap K Z) (k : K) : Z := default 0%Z (m !! k).

(** [m[k]] for a map of maps: the nil map when absent, which reads like an
    empty one. *)
Definition getm `{Countable K, Countable K'} {A} (m : gmap K (gmap K' A)) (k : K) : gmap K' A :=
  default ∅ (m !! k).

(** ** Iterating over Go maps *)

(** A [for k, v := range m] loop visits the entries of [m] once each, in an order
    the language leaves open: any listing of the entries. *)
Definition ranges `{Countable K} {A} (m : gmap K A) (l : list (K * A)) : Prop :=
  l ≡ₚ map_to_list m.

(** ** Buffered channels *)

(** [select { case ch <- x: default: }] on a channel with room for [cap] values:
    the value is queued when there is room and dropped otherwise. *)
Definition try_send {A} (cap : nat) (q : list A) (x : A) : list A :=
  if decide (length q < cap) then q ++ [x] else q.

(** ** Automation *)

Create HintDb gocluster.
Create Rewrite HintDb gocluster.

Lemma w64_pos : (0 < w64)%Z.
Proof. done. Qed.

Lemma u64_small z : is_u64 z → u64 z = z.
Proof. intros. by apply Z.mod_small. Qed.

Lemma u64_is_u64 z : is_u64 (u64 z).
Proof. apply Z.mod_pos_bound, w64_pos. Qed.

Lemma int_of_u64_small z : (0 ≤ z < 2 ^ 63)%Z → int_of_u64 z = z.
Proof. intros [_ ?]. unfold int_of_u64. by rewrite (proj2 (Z.ltb_lt _ _)). Qed.

Lemma get0_insert_eq `{Countable K} (m : gmap K Z) k v : get0 (<[k:=v]> m) k = v.
Proof. unfold get0. by rewrite lookup_insert_eq. Qed.

Lemma get0_insert_ne `{Countable K} (m : gmap K Z) k k' v :
  k ≠ k' → get0 (<[k:=v]> m) k' = get0 m k'.
Proof. intros. unfold get0. by rewrite lookup_insert_ne. Qed.

Lemma get0_empty `{Countable K} (k : K) : get0 ∅ k = 0%Z.
Proof. unfold get0. by rewrite lookup_empty. Qed.

Lemma getm_insert_eq `{Countable K, Countable K'} {A} (m : gmap K (gmap K' A)) k v :
  getm (<[k:=v]> m) k = v.
Proof. unfold getm. by rewrite lookup_insert_eq. Qed.

Lemma getm_insert_ne `{Countable K, Countable K'} {A} (m : gmap K (gmap K' A)) k k' v :
  k ≠ k' → getm (<[k:=v]> m) k' = getm m k'.
Proof. intros. unfold getm. by rewrite lookup_insert_ne. Qed.

(** A key of an association list without duplicate keys has one value. *)
Lemma NoDup_fst_eq {K A} (l : list (K * A)) k a b : NoDup l.*1 → (k, a) ∈ l → (k, b) ∈ l → a = b.
Proof.
  induction l as [|[k' c] l IH]; cbn; [set_solver|]. intros [Hk Hnd]%NoDup_cons.
  rewrite !elem_of_cons. intros [Ea|Ha] [Eb|Hb]; simplify_eq; [done| | |by apply IH];
    destruct Hk; apply list_elem_of_fmap; by eexists (_, _).
Qed.

#[export] Hint Rewrite @get0_insert_eq @get0_empty @getm_insert_eq : gocluster.
#[export] Hint Rewrite @get0_insert_ne @getm_insert_ne using done : gocluster.
#[export] Hint Resolve u64_small u64_is_u64 w64_pos : gocluster.

(** Normalise reads of maps that were just written. *)
Ltac mapsimp := autorewrite with gocluster in *; simplify_map_eq.
