(* ===== verification/GoStrings.v ===== *)
(** * Go's string functions

    The part of Go's packages [strings], [strconv] and [net] that the repository
    calls, on byte strings: cutting prefixes and suffixes, searching, splitting,
    trimming white space, decimal numbers and host:port pairs.  These are models of
    the standard library; the components use them under their Go names. *)
From S2P Require Import Prelude.
From stdpp Require Import options.


Create Rewrite HintDb gostr.

(** ** Definitions *)

(** [s] with the prefix [p] removed, when it has it. *)
Fixpoint cut_prefix (p s : string) : option string :=
  match p, s with
  | EmptyString, _ => Some s
  | String a p', String b s' => if decide (a = b) then cut_prefix p' s' else None
  | String _ _, EmptyString => None
  end.

(** [s] with the suffix [x] removed, when it has it. *)
Fixpoint cut_suffix (s x : string) : option string :=
  if decide (s = x) then Some EmptyString
  else match s with
       | EmptyString => None
       | String a s' => String a <$> cut_suffix s' x
       end.

Definition HasPrefix (s p : string) : bool := bool_decide (is_Some (cut_prefix p s)).
Definition HasSuffix (s x : string) : bool := bool_decide (is_Some (cut_suffix s x)).
Definition TrimPrefix (s p : string) : string := default s (cut_prefix p s).
Definition TrimSuffix (s x : string) : string := default s (cut_suffix s x).

(** [strings.LastIndex(s, c)] for a one-byte needle; [None] is Go's [-1]. *)
Fixpoint LastIndexByte (s : string) (c : ascii) : option nat :=
  match s with
  | EmptyString => None
  | String a s' =>
      match LastIndexByte s' c with
      | Some i => Some (S i)
      | None => if decide (a = c) then Some 0 else None
      end
  end.

(** Whether a byte occurs in a string. *)
Fixpoint has_byte (c : ascii) (s : string) : bool :=
  match s with
  | EmptyString => false
  | String a s' => bool_decide (a = c) || has_byte c s'
  end.

(** [s[:n]] and [s[n:]], for [n] at most the length of [s]. *)
Fixpoint str_take (n : nat) (s : string) : string :=
  match n, s with
  | S n', String a s' => String a (str_take n' s')
  | _, _ => EmptyString
  end.

Fixpoint str_drop (n : nat) (s : string) : string :=
  match n, s with
  | O, _ => s
  | S n', String _ s' => str_drop n' s'
  | S _, EmptyString => EmptyString
  end.

(** Replace every byte: what a [strings.Replacer] over one-byte pairs does. *)
Fixpoint str_map (f : ascii → ascii) (s : string) : string :=
  match s with
  | EmptyString => EmptyString
  | String a s' => String (f a) (str_map f s')
  end.

(** [strings.Split(s, c)] for a one-byte separator: never the empty list. *)
Fixpoint Split (s : string) (c : ascii) : list string :=
  match s with
  | EmptyString => [EmptyString]
  | String a s' =>
      if decide (a = c) then EmptyString :: Split s' c
      else match Split s' c with
           | x :: r => String a x :: r
           | [] => [String a EmptyString]
           end
  end.

(** *** White space *)

(** [unicode.IsSpace] on the one, two and three byte encodings it accepts: the
    ASCII blanks, U+0085, U+00A0, U+1680, U+2000 to U+200A, U+2028, U+2029, U+202F,
    U+205F and U+3000. *)
Definition space1 (a : ascii) : bool := Ascii.is_space a.

Definition space2 (a b : ascii) : bool :=
  bool_decide (a = "194"%char) && (bool_decide (b = "133"%char) || bool_decide (b = "160"%char)).

Definition space3 (a b c : ascii) : bool :=
  let n := nat_of_ascii c in
  if decide (a = "225"%char) then bool_decide (b = "154"%char) && bool_decide (c = "128"%char)
  else if decide (a = "226"%char) then
    (bool_decide (b = "128"%char) &&
       (bool_decide (128 ≤ n ≤ 138) || bool_decide (n = 168) || bool_decide (n = 169) || bool_decide (n = 175)))
    || (bool_decide (b = "129"%char) && bool_decide (n = 159))
  else bool_decide (a = "227"%char) && bool_decide (b = "128"%char) && bool_decide (c = "128"%char).

Fixpoint trim_left (s : string) : string :=
  match s with
  | EmptyString => EmptyString
  | String a s1 =>
      if space1 a then trim_left s1
      else match s1 with
           | EmptyString => s
           | String b s2 =>
               if space2 a b then trim_left s2
               else match s2 with
                    | EmptyString => s
                    | String c s3 => if space3 a b c then trim_left s3 else s
                    end
           end
  end.

(** The same on a reversed string, whose encodings are reversed too. *)
Fixpoint trim_left_rev (s : string) : string :=
  match s with
  | EmptyString => EmptyString
  | String a s1 =>
      if space1 a then trim_left_rev s1
      else match s1 with
           | EmptyString => s
           | String b s2 =>
               if space2 b a then trim_left_rev s2
               else match s2 with
                    | EmptyString => s
                    | String c s3 => if space3 c b a then trim_left_rev s3 else s
                    end
           end
  end.

Definition trim_right (s : string) : string := String.rev (trim_left_rev (String.rev s)).
Definition TrimSpace (s : string) : string := trim_right (trim_left s).

(** *** Decimal numbers *)

Definition digit_char (d : Z) : ascii := ascii_of_nat (48 + Z.to_nat d).

Definition digit_val (a : ascii) : option Z :=
  let n := Z.of_nat (nat_of_ascii a) in
  if decide (48 ≤ n ≤ 57)%Z then Some (n - 48)%Z else None.

Global Arguments digit_char : simpl never.
Global Arguments digit_val : simpl never.

(** The digit loop of [strconv.FormatUint], least significant digit first. *)
Fixpoint format_digits (fuel : nat) (n : Z) (acc : string) : string :=
  match fuel with
  | O => acc
  | S f =>
      let acc' := String (digit_char (n `mod` 10)) acc in
      if decide (n < 10)%Z then acc' else format_digits f (n `div` 10) acc'
  end.

(** [strconv.FormatUint(n, 10)]: twenty digits hold every 64-bit value. *)
Definition FormatUint (n : Z) : string := format_digits 20 n EmptyString.

(** The digit loop of [strconv.ParseUint], which stops at the first byte that is
    not a digit and at the first value that does not fit. *)
Fixpoint parse_digits (limit : Z) (s : string) (acc : Z) : option Z :=
  match s with
  | EmptyString => Some acc
  | String a s' =>
      d ← digit_val a;
      let acc' := (acc * 10 + d)%Z in
      if decide (acc' < limit)%Z then parse_digits limit s' acc' else None
  end.

(** [strconv.ParseUint(s, 10, 64)]: [None] is a syntax or a range error. *)
Definition ParseUint (s : string) : option Z :=
  match s with
  | EmptyString => None
  | _ => parse_digits w64 s 0
  end.

(** ** Lemmas *)

Lemma app_String a s t : String a s +:+ t = String a (s +:+ t).
Proof. done. Qed.

Lemma app_Empty t : EmptyString +:+ t = t.
Proof. done. Qed.

Lemma str_app_assoc s t u : (s +:+ t) +:+ u = s +:+ (t +:+ u).
Proof. induction s; rewrite ?app_String, ?app_Empty; by f_equal. Qed.

Lemma str_app_nil_r s : s +:+ EmptyString = s.
Proof. induction s; rewrite ?app_String; by f_equal. Qed.

Lemma length_app_str s t : String.length (s +:+ t) = String.length s + String.length t.
Proof. induction s as [|a s IH]; [done|]. rewrite app_String; simpl. by rewrite IH. Qed.

#[export] Hint Rewrite app_String app_Empty str_app_assoc str_app_nil_r length_app_str : gostr.

Lemma cut_suffix_app x y : cut_suffix (x +:+ y) y = Some x.
Proof.
  induction x as [|a x IH]; rewrite ?app_Empty, ?app_String.
  - destruct y; unfold cut_suffix; by rewrite decide_True.
  - simpl. rewrite decide_False, IH; [done|].
    intros Heq%(f_equal String.length). simpl in Heq.
    rewrite length_app_str in Heq. lia.
Qed.

Lemma cut_suffix_Some s y x : cut_suffix s y = Some x → s = x +:+ y.
Proof.
  revert x. induction s as [|a s IH]; intros x; simpl; case_decide; intros Hs; simplify_eq; try done.
  destruct (cut_suffix s y) eqn:E; simplify_eq/=. rewrite app_String. f_equal. eauto.
Qed.

Lemma HasSuffix_app x y : HasSuffix (x +:+ y) y = true.
Proof. unfold HasSuffix. rewrite cut_suffix_app. by apply bool_decide_eq_true_2. Qed.

Lemma TrimSuffix_app x y : TrimSuffix (x +:+ y) y = x.
Proof. unfold TrimSuffix. by rewrite cut_suffix_app. Qed.

Lemma has_byte_app c s t : has_byte c (s +:+ t) = has_byte c s || has_byte c t.
Proof.
  induction s as [|a s IH]; [done|]. rewrite app_String; simpl. by rewrite IH, orb_assoc.
Qed.

Lemma LastIndexByte_None s c : has_byte c s = false → LastIndexByte s c = None.
Proof.
  induction s as [|a s IH]; simpl; [done|]. intros [Ha Hs]%orb_false_iff.
  rewrite IH by done. apply bool_decide_eq_false_1 in Ha. by rewrite decide_False.
Qed.

Lemma LastIndexByte_app x c y :
  has_byte c y = false → LastIndexByte (x +:+ String c y) c = Some (String.length x).
Proof.
  intros Hy. induction x as [|a x IH]; rewrite ?app_Empty, ?app_String; simpl.
  - rewrite LastIndexByte_None by done. by rewrite decide_True.
  - by rewrite IH.
Qed.

Lemma str_take_app x y : str_take (String.length x) (x +:+ y) = x.
Proof. induction x as [|a x IH]; rewrite ?app_String; simpl; by f_equal. Qed.

Lemma str_drop_app x y : str_drop (String.length x) (x +:+ y) = y.
Proof. induction x as [|a x IH]; rewrite ?app_String; simpl; by f_equal. Qed.

Lemma str_drop_app_S x c y : str_drop (S (String.length x)) (x +:+ String c y) = y.
Proof. induction x as [|a x IH]; rewrite ?app_String; simpl; by f_equal. Qed.

Lemma has_byte_str_map c f s :
  (∀ a, f a ≠ c) → has_byte c (str_map f s) = false.
Proof.
  intros Hf. induction s as [|a s IH]; simpl; [done|].
  rewrite IH, bool_decide_eq_false_2; [done|]. apply Hf.
Qed.

(** *** Decimal numbers *)

Lemma digit_val_char d : (0 ≤ d < 10)%Z → digit_val (digit_char d) = Some d.
Proof.
  intros Hd. unfold digit_val, digit_char. rewrite nat_ascii_embedding by lia.
  rewrite decide_True by lia. f_equal. lia.
Qed.

Lemma digit_char_ne d c : (0 ≤ d < 10)%Z → digit_val c = None → digit_char d ≠ c.
Proof. intros Hd Hc Heq. by rewrite <-Heq, digit_val_char in Hc. Qed.

Lemma parse_digits_cons limit a s acc d :
  digit_val a = Some d → (acc * 10 + d < limit)%Z →
  parse_digits limit (String a s) acc = parse_digits limit s (acc * 10 + d).
Proof. intros Hd Hl. cbn [parse_digits]. rewrite Hd. cbn -[Z.mul Z.add]. by rewrite decide_True. Qed.

(** Reading back what was written, whatever the digits that follow. *)
Lemma parse_format_digits limit fuel n acc :
  (0 ≤ n < 10 ^ Z.of_nat fuel)%Z → (n < limit)%Z → fuel ≠ 0 →
  parse_digits limit (format_digits fuel n acc) 0 = parse_digits limit acc n.
Proof.
  revert n acc. induction fuel as [|f IH]; intros n acc Hn Hl Hf; [done|].
  cbn [format_digits].
  pose proof (Z.mod_pos_bound n 10 ltac:(lia)) as Hm.
  pose proof (Z.div_mod n 10 ltac:(lia)) as Hdm.
  case_decide.
  - rewrite (parse_digits_cons _ _ _ _ (n `mod` 10)); [|by apply digit_val_char|].
    + f_equal. rewrite Z.mod_small; lia.
    + rewrite Z.mod_small; lia.
  - assert (f ≠ 0) by (intros ->; change (10 ^ Z.of_nat 1)%Z with 10%Z in Hn; lia).
    rewrite Nat2Z.inj_succ, Z.pow_succ_r in Hn by lia.
    rewrite IH; [| |lia|done].
    + rewrite (parse_digits_cons _ _ _ _ (n `mod` 10)); [|by apply digit_val_char|lia].
      f_equal. lia.
    + split; [apply Z.div_pos; lia | apply Z.div_lt_upper_bound; lia].
Qed.

Lemma format_digits_no_byte c fuel n acc :
  digit_val c = None → has_byte c (format_digits fuel n acc) = has_byte c acc.
Proof.
  intros Hc. revert n acc. induction fuel as [|f IH]; intros n acc; cbn [format_digits]; [done|].
  assert (has_byte c (String (digit_char (n `mod` 10)) acc) = has_byte c acc) as E.
  { cbn [has_byte]. rewrite bool_decide_eq_false_2; [done|].
    apply digit_char_ne; [apply Z.mod_pos_bound; lia|done]. }
  case_decide; [done|]. by rewrite IH.
Qed.

Lemma format_digits_nonempty fuel n acc : fuel ≠ 0 → format_digits fuel n acc ≠ EmptyString.
Proof.
  assert (∀ fuel n a acc, format_digits fuel n (String a acc) ≠ EmptyString) as H.
  { clear. induction fuel as [|f IH]; intros n a acc; cbn [format_digits]; [done|]. case_decide; [done|apply IH]. }
  destruct fuel; [done|]. intros _. cbn [format_digits]. case_decide; [done|apply H].
Qed.

Lemma ParseUint_FormatUint n : is_u64 n → ParseUint (FormatUint n) = Some n.
Proof.
  intros [H0 Hw]. unfold ParseUint, FormatUint.
  assert (parse_digits w64 (format_digits 20 n EmptyString) 0 = Some n) as E.
  { rewrite parse_format_digits; [done| |done..]. split; [done|]. by etrans. }
  pose proof (format_digits_nonempty 20 n EmptyString ltac:(done)) as Hne.
  by destruct (format_digits 20 n EmptyString).
Qed.

Lemma FormatUint_no_byte c n : digit_val c = None → has_byte c (FormatUint n) = false.
Proof. intros. unfold FormatUint. by rewrite format_digits_no_byte. Qed.

Lemma FormatUint_inj n m : is_u64 n → is_u64 m → FormatUint n = FormatUint m → n = m.
Proof. intros Hn Hm E%(f_equal ParseUint). rewrite !ParseUint_FormatUint in E; congruence. Qed.

Lemma parse_digits_bounds limit s acc n :
  (0 ≤ acc < limit)%Z → parse_digits limit s acc = Some n → (0 ≤ n < limit)%Z.
Proof.
  revert acc. induction s as [|a s IH]; intros acc Hacc; simpl; [naive_solver|].
  destruct (digit_val a) as [d|] eqn:Hd; simpl; [|done].
  case_decide; [|done]. apply IH.
  unfold digit_val in Hd. case_decide; simplify_eq. lia.
Qed.

Lemma ParseUint_is_u64 s n : ParseUint s = Some n → is_u64 n.
Proof.
  unfold ParseUint. destruct s; [done|]. by apply parse_digits_bounds.
Qed.

(** *** The order of strings *)

(** [s <= t] on Go strings: byte by byte. *)
Fixpoint str_leb (s t : string) : bool :=
  match s, t with
  | EmptyString, _ => true
  | String _ _, EmptyString => false
  | String a s', String b t' =>
      (N_of_ascii a <? N_of_ascii b)%N || bool_decide (a = b) && str_leb s' t'
  end.

Definition str_le (s t : string) : Prop := str_leb s t = true.

Global Instance str_le_dec s t : Decision (str_le s t).
Proof. unfold str_le. apply _. Defined.

Global Instance str_le_total : Total str_le.
Proof.
  unfold str_le. intros s. induction s as [|a s IH]; intros [|b t]; cbn [str_leb]; auto.
  destruct (decide (a = b)) as [->|Hne].
  - rewrite N.ltb_irrefl, bool_decide_eq_true_2 by done. simpl. apply IH.
  - assert (N_of_ascii a ≠ N_of_ascii b).
    { intros E. apply Hne. by rewrite <-(ascii_N_embedding a), <-(ascii_N_embedding b), E. }
    destruct (decide (N_of_ascii a < N_of_ascii b)%N); [left|right]; apply orb_true_iff; left;
      apply N.ltb_lt; lia.
Qed.

Global Instance str_le_trans : Transitive str_le.
Proof.
  unfold str_le. intros s. induction s as [|a s IH]; intros [|b t] [|c u]; cbn [str_leb]; try done.
  intros [H1|[->%bool_decide_eq_true H1]%andb_prop]%orb_prop
    [H2|[->%bool_decide_eq_true H2]%andb_prop]%orb_prop; apply orb_true_iff.
  - left. apply N.ltb_lt in H1, H2. apply N.ltb_lt. lia.
  - by left.
  - by left.
  - right. rewrite bool_decide_eq_true_2 by done. by apply (IH t).
Qed.

Global Instance str_le_antisymm : AntiSymm (=) str_le.
Proof.
  unfold str_le. intros s. induction s as [|a s IH]; intros [|b t]; cbn [str_leb]; try done.
  intros [H1|[->%bool_decide_eq_true H1]%andb_prop]%orb_prop
    [H2|[E%bool_decide_eq_true H2]%andb_prop]%orb_prop.
  - apply N.ltb_lt in H1, H2. lia.
  - subst. apply N.ltb_lt in H1. lia.
  - apply N.ltb_lt in H2. lia.
  - f_equal. by apply IH.
Qed.

(** ** More of [strings], [strconv] and [net] *)

(** [strings.Contains]. *)
Fixpoint Contains (s sub : string) : bool :=
  HasPrefix s sub || match s with EmptyString => false | String _ s' => Contains s' sub end.

(** [strings.SplitN(s, c, n)] for a one-byte separator and [n > 0]. *)
Fixpoint SplitN (s : string) (c : ascii) (n : nat) : list string :=
  match n with
  | O | 1 => [s]
  | S n' =>
      let fix cut (s : string) : option (string * string) :=
        match s with
        | EmptyString => None
        | String a s' => if decide (a = c) then Some (EmptyString, s')
                         else '(h, t) ← cut s'; Some (String a h, t)
        end in
      match cut s with
      | Some (h, t) => h :: SplitN t c n'
      | None => [s]
      end
  end.

(** [strconv.ParseInt(s, 10, 64)]; a leading plus sign is accepted. *)
Definition ParseInt (s : string) : option Z :=
  match s with
  | String "+" s' => n ← ParseUint s'; if decide (n < 2 ^ 63)%Z then Some n else None
  | String "-" s' => n ← ParseUint s'; if decide (n ≤ 2 ^ 63)%Z then Some (- n)%Z else None
  | _ => n ← ParseUint s; if decide (n < 2 ^ 63)%Z then Some n else None
  end.

(** [strconv.Itoa]. *)
Definition FormatInt (n : Z) : string :=
  if decide (n < 0)%Z then String "-" (FormatUint (- n)) else FormatUint n.

(** [net.JoinHostPort]: a host with a colon is put in brackets. *)
Definition JoinHostPort (host port : string) : string :=
  if has_byte ":" host then "[" +:+ (host +:+ ("]:" +:+ port)) else host +:+ (":" +:+ port).

(** [sort.Strings]. *)
Definition sort_strings (l : list string) : list string := merge_sort str_le l.

(** *** Trimming twice is trimming once *)

Lemma rev_app_spec s t u : String.rev_app s (t +:+ u) = String.rev_app s t +:+ u.
Proof. revert t. induction s as [|a s IH]; intros t; [done|]. cbn. by rewrite <-(IH (String a t)). Qed.

Lemma rev_cons a s : String.rev (String a s) = String.rev s +:+ String a EmptyString.
Proof. unfold String.rev. cbn. by rewrite <-(rev_app_spec s EmptyString (String a EmptyString)). Qed.

Lemma rev_app_str s t : String.rev (s +:+ t) = String.rev t +:+ String.rev s.
Proof.
  induction s as [|a s IH]; [by rewrite app_Empty, str_app_nil_r|].
  rewrite app_String, !rev_cons, IH. by rewrite str_app_assoc.
Qed.

Lemma rev_involutive s : String.rev (String.rev s) = s.
Proof. induction s as [|a s IH]; [done|]. rewrite rev_cons, rev_app_str, IH. done. Qed.

(** Induction on the length of a string. *)
Lemma string_length_ind (P : string → Prop) :
  (∀ s, (∀ t, String.length t < String.length s → P t) → P s) → ∀ s, P s.
Proof.
  intros H s. remember (String.length s) as n eqn:E. assert (String.length s ≤ n) as Hn by lia. clear E.
  revert s Hn. induction n as [|n IH]; intros s Hn; apply H; intros t Ht; [lia|]. apply IH. lia.
Qed.

Lemma trim_left_suffix s : ∃ p, s = p +:+ trim_left s.
Proof.
  induction s as [s IH] using string_length_ind. destruct s as [|a s1]; [by exists EmptyString|].
  cbn [trim_left]. cbn [String.length] in IH.
  destruct (space1 a); [destruct (IH s1) as [p Hp]; [lia|]; exists (String a p); by rewrite app_String, <-Hp|].
  destruct s1 as [|b s2]; [by exists EmptyString|]. cbn [String.length] in IH.
  destruct (space2 a b).
  { destruct (IH s2) as [p Hp]; [lia|]. exists (String a (String b p)). by rewrite !app_String, <-Hp. }
  destruct s2 as [|c s3]; [by exists EmptyString|]. cbn [String.length] in IH.
  destruct (space3 a b c); [|by exists EmptyString].
  destruct (IH s3) as [p Hp]; [lia|]. exists (String a (String b (String c p))). by rewrite !app_String, <-Hp.
Qed.

Lemma trim_left_rev_suffix s : ∃ p, s = p +:+ trim_left_rev s.
Proof.
  induction s as [s IH] using string_length_ind. destruct s as [|a s1]; [by exists EmptyString|].
  cbn [trim_left_rev]. cbn [String.length] in IH.
  destruct (space1 a); [destruct (IH s1) as [p Hp]; [lia|]; exists (String a p); by rewrite app_String, <-Hp|].
  destruct s1 as [|b s2]; [by exists EmptyString|]. cbn [String.length] in IH.
  destruct (space2 b a).
  { destruct (IH s2) as [p Hp]; [lia|]. exists (String a (String b p)). by rewrite !app_String, <-Hp. }
  destruct s2 as [|c s3]; [by exists EmptyString|]. cbn [String.length] in IH.
  destruct (space3 c b a); [|by exists EmptyString].
  destruct (IH s3) as [p Hp]; [lia|]. exists (String a (String b (String c p))). by rewrite !app_String, <-Hp.
Qed.

Lemma trim_left_length s : String.length (trim_left s) ≤ String.length s.
Proof. destruct (trim_left_suffix s) as [p Hp]. rewrite Hp at 2. rewrite length_app_str. lia. Qed.

Lemma trim_left_rev_idem s : trim_left_rev (trim_left_rev s) = trim_left_rev s.
Proof.
  induction s as [s IH] using string_length_ind. destruct s as [|a s1]; [done|].
  cbn [String.length] in IH. cbn [trim_left_rev]. destruct (space1 a) eqn:E1; [apply IH; lia|].
  destruct s1 as [|b s2]; [cbn [trim_left_rev]; by rewrite E1|]. cbn [String.length] in IH.
  destruct (space2 b a) eqn:E2; [apply IH; lia|].
  destruct s2 as [|c s3]; [cbn [trim_left_rev]; by rewrite E1, E2|]. cbn [String.length] in IH.
  destruct (space3 c b a) eqn:E3; [apply IH; lia|]. cbn [trim_left_rev]. by rewrite E1, E2, E3.
Qed.

Lemma trim_left_idem s : trim_left (trim_left s) = trim_left s.
Proof.
  induction s as [s IH] using string_length_ind. destruct s as [|a s1]; [done|].
  cbn [String.length] in IH. cbn [trim_left]. destruct (space1 a) eqn:E1; [apply IH; lia|].
  destruct s1 as [|b s2]; [cbn [trim_left]; by rewrite E1|]. cbn [String.length] in IH.
  destruct (space2 a b) eqn:E2; [apply IH; lia|].
  destruct s2 as [|c s3]; [cbn [trim_left]; by rewrite E1, E2|]. cbn [String.length] in IH.
  destruct (space3 a b c) eqn:E3; [apply IH; lia|]. cbn [trim_left]. by rewrite E1, E2, E3.
Qed.

(** A string without leading space keeps that when its end is cut off. *)
Lemma trim_left_prefix p q : trim_left (p +:+ q) = p +:+ q → trim_left p = p.
Proof.
  intros H. destruct p as [|a p1]; [done|]. rewrite app_String in H. cbn [trim_left] in H |- *.
  pose proof (trim_left_length (p1 +:+ q)) as L1.
  destruct (space1 a); [apply (f_equal String.length) in H; cbn [String.length] in H; lia|].
  destruct p1 as [|b p2]; [done|]. rewrite app_String in H, L1.
  pose proof (trim_left_length (p2 +:+ q)) as L2.
  destruct (space2 a b); [apply (f_equal String.length) in H; cbn [String.length] in H; lia|].
  destruct p2 as [|c p3]; [done|]. rewrite app_String in H, L2.
  pose proof (trim_left_length (p3 +:+ q)) as L3.
  destruct (space3 a b c); [apply (f_equal String.length) in H; cbn [String.length] in H; lia|done].
Qed.

Lemma trim_right_prefix s : ∃ q, s = trim_right s +:+ q.
Proof.
  destruct (trim_left_rev_suffix (String.rev s)) as [p Hp]. exists (String.rev p).
  unfold trim_right. rewrite <-rev_app_str, <-Hp. by rewrite rev_involutive.
Qed.

Lemma trim_right_idem s : trim_right (trim_right s) = trim_right s.
Proof. unfold trim_right. by rewrite rev_involutive, trim_left_rev_idem. Qed.

Lemma TrimSpace_idem s : TrimSpace (TrimSpace s) = TrimSpace s.
Proof.
  unfold TrimSpace. assert (trim_left (trim_right (trim_left s)) = trim_right (trim_left s)) as ->.
  { destruct (trim_right_prefix (trim_left s)) as [q Hq]. apply (trim_left_prefix _ q).
    rewrite <-Hq. apply trim_left_idem. }
  apply trim_right_idem.
Qed.
