(* ===== verification/Metrics.v ===== *)
(** * Metrics registry

    The collectors of [pkg/observability/metrics/metrics.go] and the Prometheus
    operations the code performs on them.  A registry maps a collector and its label
    values to a number; a series that was never touched reads as zero.  Values are
    exact integers: the code only ever stores counts and 64-bit sequence numbers,
    which Go converts to [float64]. *)
From S2P Require Import Prelude.
From stdpp Require Import options.

Inductive metric : Type :=
  | ClusterMembers | IsLeader | LeaderChanges | JoinRequests
  | GRPCConnDials | GRPCConnReuse | GRPCConnEvictions | GRPCConnActive
  | ReplicationPublishedTotal | ReplicationBroadcastTotal | ReplicationAckTotal
  | ReplicationAckPerNodeTotal | ReplicationAckSeqPerNode | ReplicationLagPerNode
  | ReplicationSeq | ReplicationAckSeq | ReplicationLag | ReplicationSubs.

Global Instance metric_eq_dec : EqDecision metric.
Proof. solve_decision. Defined.

Definition all_metrics : list metric :=
  [ClusterMembers; IsLeader; LeaderChanges; JoinRequests; GRPCConnDials; GRPCConnReuse;
   GRPCConnEvictions; GRPCConnActive; ReplicationPublishedTotal; ReplicationBroadcastTotal;
   ReplicationAckTotal; ReplicationAckPerNodeTotal; ReplicationAckSeqPerNode;
   ReplicationLagPerNode; ReplicationSeq; ReplicationAckSeq; ReplicationLag; ReplicationSubs].

Definition metric_index (c : metric) : nat :=
  default 0 (fst <$> list_find (λ d, d = c) all_metrics).

Global Instance metric_countable : Countable metric.
Proof.
  refine (inj_countable metric_index (λ n, all_metrics !! n) _).
  by intros [].
Defined.

(** What a collector is: only a gauge may go down. *)
Inductive metric_kind : Type := Counter | Gauge.

Definition kind_of (c : metric) : metric_kind :=
  match c with
  | ClusterMembers | IsLeader | GRPCConnActive | ReplicationAckSeqPerNode | ReplicationLagPerNode
  | ReplicationSeq | ReplicationAckSeq | ReplicationLag | ReplicationSubs => Gauge
  | _ => Counter
  end.

(** The names of its labels. *)
Definition metric_labels (c : metric) : list string :=
  match c with
  | JoinRequests => ["result"]
  | ReplicationPublishedTotal | ReplicationBroadcastTotal | ReplicationAckTotal
  | ReplicationSeq | ReplicationAckSeq | ReplicationLag => ["topic"]
  | ReplicationAckPerNodeTotal | ReplicationAckSeqPerNode | ReplicationLagPerNode => ["topic"; "node"]
  | _ => []
  end.

(** The name under which it is exported: namespace, subsystem and name. *)
Definition metric_name (c : metric) : string :=
  match c with
  | ClusterMembers => "go_cluster_members_total"
  | IsLeader => "go_cluster_is_leader"
  | LeaderChanges => "go_cluster_leader_changes_total"
  | JoinRequests => "go_cluster_join_requests_total"
  | GRPCConnDials => "go_cluster_grpc_conn_dials_total"
  | GRPCConnReuse => "go_cluster_grpc_conn_reuse_total"
  | GRPCConnEvictions => "go_cluster_grpc_conn_evictions_total"
  | GRPCConnActive => "go_cluster_grpc_conn_active"
  | ReplicationPublishedTotal => "go_cluster_repl_published_total"
  | ReplicationBroadcastTotal => "go_cluster_repl_broadcast_total"
  | ReplicationAckTotal => "go_cluster_repl_acks_total"
  | ReplicationAckPerNodeTotal => "go_cluster_repl_acks_per_node_total"
  | ReplicationAckSeqPerNode => "go_cluster_repl_ack_seq_per_node"
  | ReplicationLagPerNode => "go_cluster_repl_lag_per_node"
  | ReplicationSeq => "go_cluster_repl_seq"
  | ReplicationAckSeq => "go_cluster_repl_ack_seq"
  | ReplicationLag => "go_cluster_repl_lag"
  | ReplicationSubs => "go_cluster_repl_subs"
  end.

(** ** Registration *)

(** The default registry: [once], the names that are taken, and whether [MustRegister]
    has panicked. *)
Record registry := mkRegistry { reg_once : bool; reg_names : list string; reg_panicked : bool }.

Definition registry_new : registry := mkRegistry false [] false.

(** A name that is taken makes [MustRegister] panic. *)
Definition MustRegister (r : registry) (c : metric) : registry :=
  if reg_panicked r then r
  else if bool_decide (metric_name c ∈ reg_names r) then mkRegistry (reg_once r) (reg_names r) true
  else mkRegistry (reg_once r) (metric_name c :: reg_names r) false.

(** [Register]: the collectors in the order of the source, once. *)
Definition Register (r : registry) : registry :=
  if reg_once r then r
  else
    let r' := foldl MustRegister r
      [ClusterMembers; IsLeader; LeaderChanges; JoinRequests; GRPCConnDials; GRPCConnReuse;
       GRPCConnEvictions; GRPCConnActive; ReplicationPublishedTotal; ReplicationBroadcastTotal;
       ReplicationAckTotal; ReplicationAckPerNodeTotal; ReplicationAckSeqPerNode;
       ReplicationLagPerNode; ReplicationSeq; ReplicationAckSeq; ReplicationLag; ReplicationSubs] in
    mkRegistry true (reg_names r') (reg_panicked r').

(** Every collector is exported under a name of its own however often [Register] is
    called: the first call registers all of them without a panic, and the following ones
    change nothing. *)
Theorem all_collectors_registered n :
  let r := Nat.iter (S n) Register registry_new in
  reg_panicked r = false ∧ (∀ c, metric_name c ∈ reg_names r) ∧ NoDup (reg_names r).
Proof.
  assert (Nat.iter (S n) Register registry_new = Register registry_new) as ->.
  { induction n as [|n IH]; [done|]. change (Register (Nat.iter (S n) Register registry_new) = Register registry_new).
    by rewrite IH. }
  split_and!; [by vm_compute| |].
  - intros c. apply (bool_decide_unpack (metric_name c ∈ _)). by destruct c; vm_compute.
  - apply (bool_decide_unpack (NoDup _)). by vm_compute.
Qed.

(** ** Values *)

Abbreviation Metrics := (gmap (metric * list string) Z).

Definition metric_value (m : Metrics) (c : metric) (labels : list string) : Z :=
  get0 m (c, labels).

(** [c.WithLabelValues(labels...).Set(v)]. *)
Definition mSet (c : metric) (labels : list string) (v : Z) (m : Metrics) : Metrics :=
  <[(c, labels) := v]> m.

(** [c.WithLabelValues(labels...).Add(v)]; [Inc] and [Dec] add one and minus one. *)
Definition mAdd (c : metric) (labels : list string) (v : Z) (m : Metrics) : Metrics :=
  mSet c labels (metric_value m c labels + v) m.
Definition mInc (c : metric) (labels : list string) (m : Metrics) : Metrics := mAdd c labels 1 m.
Definition mDec (c : metric) (labels : list string) (m : Metrics) : Metrics := mAdd c labels (-1) m.

Lemma metric_value_mSet_eq c ls v m : metric_value (mSet c ls v m) c ls = v.
Proof. apply get0_insert_eq. Qed.

Lemma metric_value_mSet_ne c ls v m c' ls' :
  (c, ls) ≠ (c', ls') → metric_value (mSet c ls v m) c' ls' = metric_value m c' ls'.
Proof. apply get0_insert_ne. Qed.

Lemma metric_value_mAdd_eq c ls v m :
  metric_value (mAdd c ls v m) c ls = (metric_value m c ls + v)%Z.
Proof. apply metric_value_mSet_eq. Qed.

Lemma metric_value_mAdd_ne c ls v m c' ls' :
  (c, ls) ≠ (c', ls') → metric_value (mAdd c ls v m) c' ls' = metric_value m c' ls'.
Proof. apply metric_value_mSet_ne. Qed.

Create Rewrite HintDb metrics.
#[export] Hint Rewrite metric_value_mSet_eq metric_value_mAdd_eq : metrics.
#[export] Hint Rewrite metric_value_mSet_ne metric_value_mAdd_ne using congruence : metrics.
