(* ===== verification/Tracing.v ===== *)
(** * Tracing

    [pkg/observability/tracing/tracing.go] and the spans the handlers open.  The OpenTelemetry
    library is a parameter: what its exporter gives, and the context and span a tracer of the
    installed provider starts. *)
From S2P Require Import Prelude.
From stdpp Require Import options.

Section tracing.
  Context {Ctx Span Prov : Type} `{EqDecision Span}.
  Context (Tracer_Start : Prov → Ctx → string → Ctx * Span).

(** The package's variable and the provider [otel] has installed. *)
Record tracing := mkTracing { enabled : bool; provider : Prov }.

(** [Setup]: the error of the exporter, or the provider to shut down in the end ([None] when
    there is nothing to do). *)
Definition Setup (enable : bool) (exporter : gores Prov) (st : tracing) : gores (option Prov) * tracing :=
  if enable then
    match exporter with
    | Err e => (Err e, mkTracing true (provider st))
    | Ok tp => (Ok (Some tp), mkTracing true tp)
    end
  else (Ok None, mkTracing false (provider st)).

(** [StartSpan]: the context to go on with, and the span its second result ends. *)
Definition StartSpan (st : tracing) (ctx : Ctx) (name : string) : Ctx * option Span :=
  if enabled st then let '(ctx', span) := Tracer_Start (provider st) ctx name in (ctx', Some span)
  else (ctx, None).

(** ** Spans of requests *)

Inductive spanEvent : Type := SpanStart (s : Span) | SpanEnd (s : Span).

(** A handler opens a span, does its work, in which it may call other handlers, and ends the
    span by a deferred call. *)
Inductive handler : Type := Handler (name : string) (calls : list handler).

Definition span_events (s : option Span) (mk : Span → spanEvent) : list spanEvent :=
  match s with Some s => [mk s] | None => [] end.

Fixpoint handle (st : tracing) (ctx : Ctx) (h : handler) : list spanEvent :=
  match h with
  | Handler name calls =>
      let '(ctx', span) := StartSpan st ctx name in
      span_events span SpanStart ++ flat_map (handle st ctx') calls ++ span_events span SpanEnd
  end.

(** The handlers of the two servers and the facade's handlers they call. *)
Definition http_status : handler := Handler "http.status" [].
Definition http_join : handler := Handler "http.join" [Handler "cluster.handleJoin" []].
Definition http_leave : handler := Handler "http.leave" [Handler "cluster.handleLeave" []].
Definition grpc_status : handler := Handler "grpc.status" [].
Definition grpc_join : handler := Handler "grpc.join" [Handler "cluster.handleJoin" []].
Definition grpc_leave : handler := Handler "grpc.leave" [Handler "cluster.handleLeave" []].

(** Ending spans in the opposite order of their starts: the open spans after [evs]. *)
Fixpoint open_spans (evs : list spanEvent) (stack : list Span) : option (list Span) :=
  match evs with
  | [] => Some stack
  | SpanStart s :: evs' => open_spans evs' (s :: stack)
  | SpanEnd s :: evs' =>
      match stack with
      | s' :: stack' => if decide (s = s') then open_spans evs' stack' else None
      | [] => None
      end
  end.

Lemma open_spans_app evs evs' stack :
  open_spans (evs ++ evs') stack = open_spans evs stack ≫= open_spans evs'.
Proof using Type.
  revert stack. induction evs as [|[s|s] evs IH]; intros stack; cbn [open_spans app]; [done|apply IH|].
  destruct stack as [|s' stack]; [done|]. case_decide; [apply IH|done].
Qed.

(** Handlers nest, which their recursion does not see through the list. *)
Fixpoint handler_size (h : handler) : nat :=
  match h with Handler _ calls => S (foldr (λ h n, handler_size h + n) 0 calls) end.

(** Whatever a request does, every span it opens is ended, in the opposite order of their
    starts, and the spans open before are left alone; without tracing there is none. *)
Theorem spans_nest st ctx h stack :
  open_spans (handle st ctx h) stack = Some stack ∧ (enabled st = false → handle st ctx h = []).
Proof using Type.
  remember (handler_size h) as n eqn:En. assert (handler_size h ≤ n) as Hn by lia. clear En.
  revert h ctx stack Hn. induction n as [|n IH]; intros [name calls] ctx stack Hn; [cbn in Hn; lia|].
  cbn [handle]. destruct (StartSpan st ctx name) as [ctx' span] eqn:E.
  assert (∀ k, open_spans (flat_map (handle st ctx') calls) k = Some k ∧
    (enabled st = false → flat_map (handle st ctx') calls = [])) as Hc.
  { cbn [handler_size] in Hn. intros k. induction calls as [|h calls IHc]; [done|].
    cbn [flat_map foldr] in *. destruct (IH h ctx' k) as [H1 H2]; [lia|].
    destruct IHc as [H3 H4]; [lia|]. split; [by rewrite open_spans_app, H1|]. intros Hd. by rewrite H2, H4. }
  split.
  - destruct span as [s|]; cbn [span_events app open_spans]; rewrite open_spans_app.
    + rewrite (proj1 (Hc (s :: stack))). cbn [mbind option_bind open_spans]. by rewrite decide_True.
    + by rewrite (proj1 (Hc stack)).
  - intros Hd. unfold StartSpan in E. rewrite Hd in E. injection E as <- <-. cbn.
    by rewrite (proj2 (Hc [])).
Qed.

(** When the exporter fails, tracing stays enabled: spans then go to the provider that was
    installed before. *)
Lemma failed_setup e st : Setup true (Err e) st = (Err e, mkTracing true (provider st)).
Proof using Type. done. Qed.

End tracing.
