(* ===== verification/RepServer.v ===== *)
(** * The replication half of the gRPC management server

    [pkg/transport/grpc/server.go], lines 222 to 335: the set of live subscriber
    streams, the last broadcast sequence per topic, the acknowledgements per topic
    and node, and the handlers that change them.  A subscriber is the pointer
    [*repSub] the map is keyed by, modelled as a natural number.  Sending on a gRPC
    stream belongs to the gRPC library: whether each send succeeds is an argument. *)
From S2P Require Import Prelude Metrics.
From stdpp Require Import options.

(** ** Data *)

Record repMsg := mkRepMsg { m_topic : string; m_data : bytes; m_seq : Z }.
Record repAck := mkRepAck { a_topic : string; a_seq : Z; a_node : string }.

Global Instance repMsg_eq_dec : EqDecision repMsg.
Proof. solve_decision. Defined.

(** [subs] is nil ([None]) until [Start] makes it; a nil [seq] or [ack] map reads
    like an empty one.  [srv] says whether the gRPC server pointer is set. *)
Record Server := mkServer {
  srv : bool;
  subs : option (gset nat);
  rseq : gmap string Z;
  ack : gmap string (gmap string Z);
}.

Definition NewServer : Server := mkServer false None ∅ ∅.

(** The state [Server.Start] leaves once the listener is open. *)
Definition server_start (s : Server) : Server := mkServer true (Some ∅) ∅ ∅.

(** [Server.Stop]: the gRPC server goes, the replication maps stay. *)
Definition server_stop (s : Server) : Server := mkServer false (subs s) (rseq s) (ack s).

Definition set_subs (x : option (gset nat)) (s : Server) : Server :=
  mkServer (srv s) x (rseq s) (ack s).

(** ** Subscribers *)

Definition addSub (sub : nat) (s : Server) (m : Metrics) : Server * Metrics :=
  if srv s then
    (set_subs (Some ({[sub]} ∪ default ∅ (subs s))) s, mInc ReplicationSubs [] m)
  else (s, m).

Definition removeSub (sub : nat) (s : Server) (m : Metrics) : Server * Metrics :=
  match subs s with
  | None => (s, m)
  | Some ss => (set_subs (Some (ss ∖ {[sub]})) s, mDec ReplicationSubs [] m)
  end.

(** ** Acknowledgements *)

(** The loop [for _, v := range acks { if first || v < min { min = v; first = false } }]. *)
Fixpoint min_loop (l : list (string * Z)) (first : bool) (min : Z) : bool * Z :=
  match l with
  | [] => (first, min)
  | (_, v) :: l' =>
      if first || (v <? min)%Z then min_loop l' false v else min_loop l' first min
  end.

Definition minAck (s : Server) (topic : string) : Z :=
  let '(first, min) := min_loop (map_to_list (getm (ack s) topic)) true 0 in
  if first then 0%Z else min.

Definition AckedAll (s : Server) : gmap string Z :=
  map_imap (λ topic _, Some (minAck s topic)) (ack s).

(** [replicationImpl.Ack]: the whole handler, metrics included. *)
Definition Ack (a : repAck) (s : Server) (m : Metrics) : Server * Metrics :=
  if decide (a_topic a = "" ∨ a_node a = "") then (s, m)
  else
    let acks := <[a_node a := a_seq a]> (getm (ack s) (a_topic a)) in
    let s' := mkServer (srv s) (subs s) (rseq s) (<[a_topic a := acks]> (ack s)) in
    let m1 := mInc ReplicationAckTotal [a_topic a] m in
    let m2 := mInc ReplicationAckPerNodeTotal [a_topic a; a_node a] m1 in
    let '(first, min) := min_loop (map_to_list acks) true 0 in
    let sq := get0 (rseq s) (a_topic a) in
    if (min <=? sq)%Z && negb first then
      (s', mSet ReplicationLagPerNode [a_topic a; a_node a] (u64 (sq - a_seq a))
          (mSet ReplicationAckSeqPerNode [a_topic a; a_node a] (a_seq a)
          (mSet ReplicationLag [a_topic a] (u64 (sq - min))
          (mSet ReplicationAckSeq [a_topic a] min m2))))
    else (s', m2).

(** ** Broadcasting *)

(** [BroadcastWithSeq]: the subscribers whose stream accepts the message keep their
    place, the others are deleted; the result also names the streams that took it. *)
Definition BroadcastWithSeq (send_ok : nat → bool) (topic : string) (data : bytes) (seq : Z)
    (s : Server) (m : Metrics) : Server * Metrics * gset nat * Z :=
  match subs s with
  | None => (s, m, ∅, 0%Z)
  | Some ss =>
      let sent := filter (λ sub, send_ok sub = true) ss in
      let cnt := Z.of_nat (size sent) in
      let s' := mkServer (srv s) (Some sent) (<[topic := seq]> (rseq s)) (ack s) in
      let m1 := mAdd ReplicationBroadcastTotal [topic] cnt m in
      let m2 := mSet ReplicationSeq [topic] seq m1 in
      let mn := minAck s' topic in
      let m3 := if (0 <? mn)%Z && (mn <=? seq)%Z
                then mSet ReplicationLag [topic] (u64 (seq - mn)) m2 else m2 in
      (s', m3, sent, cnt)
  end.

(** [Broadcast], the wrapper without a sequence number. *)
Definition Broadcast (send_ok : nat → bool) (topic : string) (data : bytes)
    (s : Server) (m : Metrics) : Server * Metrics * gset nat * Z :=
  match subs s with
  | None => (s, m, ∅, 0%Z)
  | Some _ => BroadcastWithSeq send_ok topic data 0 s m
  end.

(** ** Lemmas *)

(** [r] is the least acknowledgement of a topic, zero when there is none. *)
Definition is_min_ack (acks : gmap string Z) (r : Z) : Prop :=
  (acks = ∅ ∧ r = 0%Z) ∨
  ((∃ n, acks !! n = Some r) ∧ ∀ n v, acks !! n = Some v → (r ≤ v)%Z).

Lemma is_min_ack_unique acks r r' : is_min_ack acks r → is_min_ack acks r' → r = r'.
Proof.
  intros [[-> ->]|[[n Hn] Hle]] [[E ->]|[[n' Hn'] Hle']]; simplify_map_eq; try done.
  apply Z.le_antisymm; eauto.
Qed.

Lemma min_loop_false l mn :
  ∃ r, min_loop l false mn = (false, r) ∧ (r = mn ∨ ∃ n, (n, r) ∈ l) ∧ (r ≤ mn)%Z ∧
       ∀ n v, (n, v) ∈ l → (r ≤ v)%Z.
Proof.
  revert mn. induction l as [|[n v] l IH]; intros mn; simpl.
  { exists mn. split_and!; [done|by left|done|]. by intros ?? ?%elem_of_nil. }
  destruct (Z.ltb_spec v mn) as [Hlt|Hge].
  - destruct (IH v) as (r & -> & Hr & Hle & Hall). exists r. split_and!; [done| |lia|].
    + right. destruct Hr as [->|[n' ?]]; [exists n|exists n']; set_solver.
    + intros n' v' [[= -> ->]|?]%elem_of_cons; eauto.
  - destruct (IH mn) as (r & -> & Hr & Hle & Hall). exists r. split_and!; [done| |lia|].
    + destruct Hr as [->|[n' ?]]; [by left|right; exists n'; set_solver].
    + intros n' v' [[= -> ->]|?]%elem_of_cons; [lia|eauto].
Qed.

(** The value the loop leaves, in either of its two uses, whatever the order. *)
Definition loop_result (l : list (string * Z)) : Z :=
  let '(first, min) := min_loop l true 0 in if first then 0%Z else min.

Lemma loop_result_is_min acks l : ranges acks l → is_min_ack acks (loop_result l).
Proof.
  unfold ranges, loop_result. intros Hl. destruct l as [|[n v] l]; simpl.
  - left. apply Permutation_nil_l in Hl. symmetry in Hl. by apply map_to_list_empty_iff in Hl.
  - right. destruct (min_loop_false l v) as (r & -> & Hr & Hle & Hall).
    assert (∀ n' v', acks !! n' = Some v' ↔ (n', v') ∈ (n, v) :: l) as Hlook.
    { intros. by rewrite Hl, elem_of_map_to_list. }
    setoid_rewrite Hlook. split.
    + destruct Hr as [->|[n' ?]]; eexists; rewrite elem_of_cons; eauto.
    + intros n' v' [[= -> ->]|?]%elem_of_cons; eauto.
Qed.

Lemma minAck_loop s t : minAck s t = loop_result (map_to_list (getm (ack s) t)).
Proof. done. Qed.

Lemma minAck_is_min s t : is_min_ack (getm (ack s) t) (minAck s t).
Proof. apply loop_result_is_min. unfold ranges. done. Qed.

Lemma minAck_le s t n v : getm (ack s) t !! n = Some v → (minAck s t ≤ v)%Z.
Proof.
  intros Hn. destruct (minAck_is_min s t) as [[E _]|[_ Hle]]; [|eauto].
  by rewrite E, lookup_empty in Hn.
Qed.

Lemma get0_AckedAll s t : get0 (AckedAll s) t = minAck s t.
Proof.
  unfold get0, AckedAll. rewrite map_lookup_imap. destruct (ack s !! t) as [a|] eqn:E; [done|].
  simpl. unfold minAck, getm. by rewrite E.
Qed.

(** ** Properties *)

(** The minimum-acknowledgement loop, written over a Go map, computes the least
    acknowledgement of the topic (zero when there is none) whatever the order of
    iteration, and [AckedAll] reports it. *)
Theorem minAck_correct s t :
  is_min_ack (getm (ack s) t) (minAck s t) ∧
  get0 (AckedAll s) t = minAck s t ∧
  ∀ l, ranges (getm (ack s) t) l → loop_result l = minAck s t.
Proof.
  split_and!; [apply minAck_is_min|apply get0_AckedAll|].
  intros l Hl. eapply is_min_ack_unique; [by apply loop_result_is_min|apply minAck_is_min].
Qed.

(** A broadcast reaches exactly the subscribers whose stream takes the message,
    counts them, keeps only them, and leaves the acknowledgements alone. *)
Theorem BroadcastWithSeq_correct send_ok t d q s m ss :
  subs s = Some ss →
  let '(s', m', sent, cnt) := BroadcastWithSeq send_ok t d q s m in
  (∀ sub, sub ∈ sent ↔ sub ∈ ss ∧ send_ok sub = true) ∧
  cnt = Z.of_nat (size sent) ∧ subs s' = Some sent ∧ ack s' = ack s ∧
  get0 (rseq s') t = q ∧ (∀ t', t' ≠ t → get0 (rseq s') t' = get0 (rseq s) t') ∧
  metric_value m' ReplicationSeq [t] = q ∧
  metric_value m' ReplicationBroadcastTotal [t] =
    (metric_value m ReplicationBroadcastTotal [t] + cnt)%Z.
Proof.
  intros Hss. unfold BroadcastWithSeq. rewrite Hss. cbn zeta.
  split_and!; simpl; try done.
  - intros sub. rewrite elem_of_filter. tauto.
  - apply get0_insert_eq.
  - intros t' Hne. by rewrite get0_insert_ne.
  - case_match; by autorewrite with metrics.
  - case_match; autorewrite with metrics; done.
Qed.

(** The gauges an acknowledgement writes, in terms of the least acknowledgement. *)
Lemma Ack_metrics a s m :
  a_topic a ≠ "" → a_node a ≠ "" →
  let '(s', m') := Ack a s m in
  getm (ack s') (a_topic a) = <[a_node a := a_seq a]> (getm (ack s) (a_topic a)) ∧
  ((minAck s' (a_topic a) ≤ get0 (rseq s) (a_topic a))%Z →
   metric_value m' ReplicationLag [a_topic a] =
     u64 (get0 (rseq s) (a_topic a) - minAck s' (a_topic a)) ∧
   metric_value m' ReplicationLagPerNode [a_topic a; a_node a] =
     u64 (get0 (rseq s) (a_topic a) - a_seq a)).
Proof.
  intros Ht Hn. unfold Ack. rewrite decide_False by tauto.
  set (acks := <[a_node a := a_seq a]> (getm (ack s) (a_topic a))).
  set (s' := mkServer _ _ _ (<[a_topic a := acks]> (ack s))).
  assert (getm (ack s') (a_topic a) = acks) as Eacks by apply getm_insert_eq.
  assert (acks !! a_node a = Some (a_seq a)) as Hin by (subst acks; by simplify_map_eq).
  pose proof (minAck_loop s' (a_topic a)) as Hmin. rewrite Eacks in Hmin.
  unfold loop_result in Hmin.
  pose proof (loop_result_is_min acks (map_to_list acks) (reflexivity _)) as His.
  unfold loop_result in His.
  destruct (map_to_list acks) as [|[n v] l] eqn:El.
  { apply map_to_list_empty_iff in El. rewrite El in Hin. by rewrite lookup_empty in Hin. }
  simpl in *. destruct (min_loop_false l v) as (r & E & _). rewrite E in *. simpl.
  rewrite andb_true_r.
  destruct (Z.leb_spec r (get0 (rseq s) (a_topic a))); (split; [done|]); rewrite Hmin; intros; [|lia].
  split; by autorewrite with metrics.
Qed.

(** While no node acknowledges beyond the last broadcast sequence, both lag gauges
    hold the true difference. *)
Theorem Ack_lag_exact a s m :
  a_topic a ≠ "" → a_node a ≠ "" →
  is_u64 (get0 (rseq s) (a_topic a)) →
  (0 ≤ a_seq a ≤ get0 (rseq s) (a_topic a))%Z →
  (∀ n v, getm (ack s) (a_topic a) !! n = Some v → (0 ≤ v)%Z) →
  let '(s', m') := Ack a s m in
  metric_value m' ReplicationLag [a_topic a] =
    (get0 (rseq s) (a_topic a) - minAck s' (a_topic a))%Z ∧
  metric_value m' ReplicationLagPerNode [a_topic a; a_node a] =
    (get0 (rseq s) (a_topic a) - a_seq a)%Z.
Proof.
  intros Ht Hn [Hs0 Hsw] Ha Hpos. pose proof (Ack_metrics a s m Ht Hn) as H.
  destruct (Ack a s m) as [s' m']. destruct H as [Eacks H].
  assert (minAck s' (a_topic a) ≤ a_seq a)%Z.
  { apply (minAck_le _ _ (a_node a)). rewrite Eacks. by simplify_map_eq. }
  assert (0 ≤ minAck s' (a_topic a))%Z.
  { destruct (minAck_is_min s' (a_topic a)) as [[_ ->]|[[n Hmn] _]]; [done|].
    rewrite Eacks in Hmn. apply lookup_insert_Some in Hmn as [[? <-]|[? ?]]; [lia|eauto]. }
  destruct H as [-> ->]; [lia|]. split; apply u64_small; unfold is_u64; lia.
Qed.

(** An acknowledgement of a sequence above the last broadcast one (a retry sets
    the broadcast sequence back to the message it resends) wraps the per-node lag
    around to a value of at least 2^63. *)
Theorem Ack_lag_per_node_wraps a s m :
  a_topic a ≠ "" → a_node a ≠ "" →
  (0 ≤ get0 (rseq s) (a_topic a) < a_seq a)%Z → (a_seq a < 2 ^ 63)%Z →
  (minAck (Ack a s m).1 (a_topic a) ≤ get0 (rseq s) (a_topic a))%Z →
  (2 ^ 63 ≤ metric_value (Ack a s m).2 ReplicationLagPerNode [a_topic a; a_node a])%Z.
Proof.
  intros Ht Hn Hlt Hb. pose proof (Ack_metrics a s m Ht Hn) as H.
  destruct (Ack a s m) as [s' m']. destruct H as [_ H]. simpl. intros Hmin.
  destruct (H Hmin) as [_ ->]. unfold u64, w64.
  rewrite <-(Z.mod_add _ 1) by lia. rewrite Z.mod_small; lia.
Qed.

(** ** Witnesses *)

(** A server with two subscribers and two acknowledging nodes. *)
Definition demo_server : Server :=
  mkServer true (Some {[1; 2]}) {["t" := 5%Z]} {["t" := {["A" := 5%Z; "B" := 2%Z]}]}.

Lemma BroadcastWithSeq_correct_witness :
  (BroadcastWithSeq (λ sub, bool_decide (sub = 1)) "t" "x" 6 demo_server ∅).2 = 1%Z ∧
  metric_value (BroadcastWithSeq (λ sub, bool_decide (sub = 1)) "t" "x" 6 demo_server ∅).1.1.2
    ReplicationSeq ["t"] = 6%Z.
Proof.
  split; [reflexivity|].
  apply (BroadcastWithSeq_correct (λ sub, bool_decide (sub = 1)) "t" "x" 6 demo_server ∅ {[1; 2]}).
  reflexivity.
Defined.

Lemma Ack_lag_exact_witness :
  metric_value (Ack (mkRepAck "t" 3 "B") demo_server ∅).2 ReplicationLagPerNode ["t"; "B"] = 2%Z.
Proof.
  apply (Ack_lag_exact (mkRepAck "t" 3 "B") demo_server ∅); [done..|by split| |].
  - done.
  - intros n v. unfold getm, demo_server. simpl.
    rewrite lookup_singleton_eq. simpl.
    rewrite lookup_insert_Some, lookup_singleton_Some. naive_solver lia.
Defined.

Lemma Ack_lag_per_node_wraps_witness :
  (2 ^ 63 ≤ metric_value (Ack (mkRepAck "t" 5 "A")
     (mkServer true (Some ∅) {["t" := 3%Z]} {["t" := {["B" := 2%Z]}]}) ∅).2
     ReplicationLagPerNode ["t"; "A"])%Z.
Proof.
  apply (Ack_lag_per_node_wraps (mkRepAck "t" 5 "A")
    (mkServer true (Some ∅) {["t" := 3%Z]} {["t" := {["B" := 2%Z]}]}) ∅); done.
Defined.
