(* ===== verification/Replication.v ===== *)
(** * The leader's replication buffer

    The [rep] field of [Cluster] ([pkg/cluster/cluster.go]) and everything that
    touches it: sequence assignment and buffering in [Publish], the back-pressure
    window, the retry tick, the disk copy of the buffer and its restoration.

    The buffer directory is modelled by its entries: [bufFileName] proves to be a
    single path component, so [filepath.Join(dir, name)] names the entry [name] of
    [dir].  What the operating system decides (whether a write or a removal
    succeeds, what a failed write leaves behind) is an argument. *)
From S2P Require Import Prelude GoStrings Metrics RepServer.
From stdpp Require Import options.

(** ** Data *)

Record rep := mkRep {
  seq : gmap string Z;
  buf : gmap string (gmap Z bytes);
}.

Definition rep_new : rep := mkRep ∅ ∅.

(** Entries of the buffer directory that are regular files. *)
Abbreviation disk := (gmap string bytes).

(** What [os.WriteFile] did: wrote the file, or failed and left the given contents
    (nothing, or a truncated file). *)
Inductive write_outcome : Type :=
  | Written
  | WriteFailed (rest : option bytes).

Definition WriteFile (o : write_outcome) (name : string) (data : bytes) (d : disk) : disk :=
  match o with
  | Written => <[name := data]> d
  | WriteFailed (Some rest) => <[name := rest]> d
  | WriteFailed None => delete name d
  end.

(** ** File names *)

Definition sanitize_byte (a : ascii) : ascii :=
  if decide (a = "/"%char ∨ a = "\"%char ∨ a = " "%char) then "_"%char else a.

Definition sanitizeTopic (topic : string) : string := str_map sanitize_byte topic.

Definition bufFileName (topic : string) (s : Z) : string :=
  sanitizeTopic topic +:+ ("_" +:+ (FormatUint s +:+ ".bin")).

(** ** Publishing *)

Definition window_of (ReplWindow : Z) : Z := if (ReplWindow <=? 0)%Z then 1024%Z else ReplWindow.

(** The test [int(cur-minAck) < window] on unsigned 64-bit values. *)
Definition window_open (ReplWindow cur minAck : Z) : bool :=
  (int_of_u64 (u64 (cur - minAck)) <? window_of ReplWindow)%Z.

(** One round of the waiting loop: what [AckedAll] answered ([None] when the server
    has no such method), the sequence read under the lock, and the error of the
    context when it was found done in the [select] that follows a closed window. *)
Record poll := mkPoll { p_acked : option (gmap string Z); p_cur : Z; p_done : option string }.

(** [minAck], the acknowledged sequence the round read. *)
Definition poll_ack (topic : string) (p : poll) : Z :=
  from_option (λ a, get0 a topic) 0%Z (p_acked p).

Definition poll_open (ReplWindow : Z) (topic : string) (p : poll) : bool :=
  window_open ReplWindow (p_cur p) (poll_ack topic p).

Inductive wait_result : Type := Proceed | Cancelled (err : string) | Blocked.

(** The loop of [Publish] over the rounds that happen; [Blocked] when it is still
    waiting after them. *)
Fixpoint publish_wait (ReplWindow : Z) (topic : string) (ps : list poll) : wait_result :=
  match ps with
  | [] => Blocked
  | p :: ps' =>
      if poll_open ReplWindow topic p then Proceed
      else match p_done p with
           | Some e => Cancelled e
           | None => publish_wait ReplWindow topic ps'
           end
  end.

(** The critical section of [Publish]: assign the next sequence, keep a copy for
    retry and, with a buffer directory, write it to disk. *)
Definition publish_commit (dir : string) (w : write_outcome) (topic : string) (data : bytes)
    (r : rep) (d : disk) : Z * rep * disk :=
  let s := u64 (get0 (seq r) topic + 1) in
  let r' := mkRep (<[topic := s]> (seq r)) (<[topic := <[s := data]> (getm (buf r) topic)]> (buf r)) in
  (s, r', if decide (dir = "") then d else WriteFile w (bufFileName topic s) data d).

(** ** The retry tick *)

(** [for s := a + 1; s <= max; s++ { if data, ok := seqs[s]; ok { broadcast } }], with
    the wrap-around of [uint64]; [None] when the fuel runs out first. *)
Fixpoint resend_loop (fuel : nat) (s max : Z) (seqs : gmap Z bytes) : option (list (Z * bytes)) :=
  match fuel with
  | O => None
  | S f =>
      if (s <=? max)%Z then
        rest ← resend_loop f (u64 (s + 1)) max seqs;
        Some (match seqs !! s with Some data => (s, data) :: rest | None => rest end)
      else Some []
  end.

(** The loop from [a + 1]: one round per value and a last one that finds [s > max]. *)
Definition resend (a max : Z) (seqs : gmap Z bytes) : option (list (Z * bytes)) :=
  let s0 := u64 (a + 1) in resend_loop (S (Z.to_nat (max + 1 - s0))) s0 max seqs.

(** The clean-up of one topic: entries up to [a] leave the buffer and, with a
    buffer directory, their files are removed when the removal succeeds. *)
Definition cleanup_topic (dir : string) (rm_ok : string → bool) (topic : string) (a : Z)
    (seqs : gmap Z bytes) (d : disk) : gmap Z bytes * disk :=
  let gone := filter (λ p, (p.1 ≤ a)%Z) seqs in
  let keep := filter (λ p, ¬ (p.1 ≤ a)%Z) seqs in
  (keep,
   if decide (dir = "") then d
   else foldr (λ s d, let name := bufFileName topic s in
                      if rm_ok name then delete name d else d) d (map_to_list gone).*1).

(** One tick of [replicationRetryLoop] on the leader, for a listing [order] of the
    topics.  [can_bcast] says whether the server has [BroadcastWithSeq]; the result
    lists the broadcasts in the order they are made. *)
Fixpoint retry_topics (dir : string) (rm_ok : string → bool) (can_bcast : bool)
    (acked : gmap string Z) (order : list string) (r : rep) (d : disk) :
    option (rep * disk * list (string * bytes * Z)) :=
  match order with
  | [] => Some (r, d, [])
  | topic :: order' =>
      let a := get0 acked topic in
      let '(keep, d1) := cleanup_topic dir rm_ok topic a (getm (buf r) topic) d in
      let r1 := mkRep (seq r) (<[topic := keep]> (buf r)) in
      sends ← (if can_bcast then resend a (get0 (seq r) topic) keep else Some []);
      '(r2, d2, more) ← retry_topics dir rm_ok can_bcast acked order' r1 d1;
      Some (r2, d2, ((λ p, (topic, p.2, p.1)) <$> sends) ++ more)
  end.

(** ** Restoring from disk *)

(** A directory entry as [os.ReadDir] lists it; [None] when the file cannot be
    read. *)
Record dirent := mkDirent { de_name : string; de_isdir : bool; de_data : option bytes }.

(** The topic and sequence a file name stands for. *)
Definition parse_name (name : string) : option (string * Z) :=
  if HasSuffix name ".bin" then
    let base := TrimSuffix name ".bin" in
    match LastIndexByte base "_"%char with
    | None | Some O => None
    | Some us =>
        s ← ParseUint (str_drop (S us) base);
        Some (str_take us base, s)
    end
  else None.

Definition restore_entry (r : rep) (e : dirent) : rep :=
  if de_isdir e then r
  else match parse_name (de_name e), de_data e with
       | Some (topic, s), Some data =>
           mkRep (if (get0 (seq r) topic <? s)%Z then <[topic := s]> (seq r) else seq r)
                 (<[topic := <[s := data]> (getm (buf r) topic)]> (buf r))
       | _, _ => r
       end.

(** [restoreBufferFromDisk]; [None] is a directory that cannot be read. *)
Definition restoreBufferFromDisk (entries : option (list dirent)) (r : rep) : rep :=
  from_option (foldl restore_entry r) r entries.

(** ** Lemmas: the resend loop *)

(** The reference: the buffered entries among [s0 .. max], in ascending order. *)
Definition resend_ref (s0 max : Z) (seqs : gmap Z bytes) : list (Z * bytes) :=
  omap (λ s, (s,.) <$> seqs !! s) (seqZ s0 (max + 1 - s0)).

Lemma resend_loop_ref fuel s max seqs :
  (0 ≤ s)%Z → (max < w64 - 1)%Z → (max + 1 - s < Z.of_nat fuel)%Z → fuel ≠ 0 →
  resend_loop fuel s max seqs = Some (resend_ref s max seqs).
Proof.
  revert s. induction fuel as [|f IH]; intros s Hs Hmax Hf Hne; [done|]. cbn [resend_loop].
  unfold resend_ref. destruct (Z.leb_spec s max).
  - rewrite u64_small by (unfold is_u64; lia). rewrite IH by lia.
    rewrite (seqZ_cons s) by lia. replace (Z.pred (max + 1 - s)) with (max + 1 - (s + 1))%Z by lia.
    replace (Z.succ s) with (s + 1)%Z by lia. simpl. by destruct (seqs !! s).
  - by rewrite seqZ_nil by lia.
Qed.

Lemma elem_of_resend_ref s0 max seqs s data :
  (s, data) ∈ resend_ref s0 max seqs ↔ (s0 ≤ s ≤ max)%Z ∧ seqs !! s = Some data.
Proof.
  unfold resend_ref. rewrite list_elem_of_omap. setoid_rewrite elem_of_seqZ. split.
  - intros (x & Hx & Hd). destruct (seqs !! x) eqn:E; simplify_eq/=. split; [lia|done].
  - intros [Hs Hd]. exists s. rewrite Hd. split; [lia|done].
Qed.

Lemma resend_eq a max seqs :
  is_u64 a → (max < w64 - 1)%Z → resend a max seqs = Some (resend_ref (u64 (a + 1)) max seqs).
Proof.
  intros Ha Hm. unfold resend. destruct (u64_is_u64 (a + 1)) as [? ?].
  apply resend_loop_ref; lia.
Qed.

Lemma resend_loop_diverges fuel s seqs :
  is_u64 s → resend_loop fuel s (w64 - 1) seqs = None.
Proof.
  revert s. induction fuel as [|f IH]; intros s Hs; [done|]. cbn [resend_loop].
  unfold is_u64 in Hs. rewrite (proj2 (Z.leb_le _ _)) by lia.
  rewrite IH by apply u64_is_u64. done.
Qed.

(** ** Lemmas: the invariant of the buffer *)

(** Sequence numbers are 64-bit and every buffered entry was assigned one of the
    numbers up to the current one. *)
Definition rep_wf (r : rep) : Prop :=
  (∀ t, is_u64 (get0 (seq r) t)) ∧
  ∀ t s data, getm (buf r) t !! s = Some data → (0 ≤ s ≤ get0 (seq r) t)%Z.

(** The acknowledgements a server reports are 64-bit. *)
Definition acks_wf (acked : gmap string Z) : Prop := ∀ t, is_u64 (get0 acked t).

Lemma rep_new_wf : rep_wf rep_new.
Proof.
  split; [intros; unfold rep_new; simpl; rewrite get0_empty; done|].
  intros t s data. unfold rep_new, getm. simpl. by rewrite lookup_empty.
Qed.

Lemma lookup_publish_commit dir w t data r d t' s' :
  let '(s, r', _) := publish_commit dir w t data r d in
  getm (buf r') t' !! s' =
    if decide (t' = t ∧ s' = s) then Some data else getm (buf r) t' !! s'.
Proof.
  unfold publish_commit. simpl. destruct (decide (t' = t)) as [->|Hne].
  - rewrite getm_insert_eq. destruct (decide (s' = u64 (get0 (seq r) t + 1))) as [->|Hs].
    + by rewrite lookup_insert_eq, decide_True.
    + by rewrite lookup_insert_ne, decide_False by naive_solver.
  - by rewrite getm_insert_ne, decide_False by naive_solver.
Qed.

Lemma publish_commit_wf dir w t data r d :
  rep_wf r → (get0 (seq r) t < w64 - 1)%Z → rep_wf (publish_commit dir w t data r d).1.2.
Proof.
  intros [Hseq Hbuf] Hlt. pose proof (Hseq t) as Ht. unfold is_u64 in Ht.
  pose proof (lookup_publish_commit dir w t data r d) as Hlook.
  unfold publish_commit in *. simpl in *. rewrite u64_small in * by (unfold is_u64; lia).
  split; simpl.
  - intros t'. destruct (decide (t = t')) as [->|].
    + rewrite get0_insert_eq. unfold is_u64. lia.
    + by rewrite get0_insert_ne.
  - intros t' s' x. rewrite Hlook. intros Hx. case_decide as Hd; simplify_eq.
    + destruct Hd as [-> ->]. rewrite get0_insert_eq. lia.
    + apply Hbuf in Hx. destruct (decide (t = t')) as [->|].
      * rewrite get0_insert_eq. lia.
      * by rewrite get0_insert_ne.
Qed.

Lemma cleanup_lookup dir rm_ok t a seqs d s :
  (cleanup_topic dir rm_ok t a seqs d).1 !! s = if decide (s ≤ a)%Z then None else seqs !! s.
Proof.
  unfold cleanup_topic. simpl. rewrite map_lookup_filter.
  destruct (seqs !! s) as [x|] eqn:E; simpl; repeat case_guard || case_decide; simpl in *; done || lia.
Qed.

(** What a tick does to the topics it visits: it always finishes, drops exactly the
    acknowledged entries and broadcasts exactly the remaining ones. *)
Lemma retry_topics_spec dir rm_ok cb acked order r d :
  NoDup order → rep_wf r → acks_wf acked → (∀ t, get0 (seq r) t < w64 - 1)%Z →
  ∃ r' d' out, retry_topics dir rm_ok cb acked order r d = Some (r', d', out) ∧
    seq r' = seq r ∧
    (∀ t s, getm (buf r') t !! s =
       if decide (t ∈ order ∧ (s ≤ get0 acked t)%Z) then None else getm (buf r) t !! s) ∧
    (∀ t s data, (t, data, s) ∈ out ↔
       cb = true ∧ t ∈ order ∧ (get0 acked t < s)%Z ∧ getm (buf r) t !! s = Some data).
Proof.
  intros Hnd Hwf Hacks Hmax. revert r d Hwf Hmax.
  induction Hnd as [|t order Hnin Hnd IH]; intros r d Hwf Hmax; cbn [retry_topics].
  { exists r, d, []. split_and!; [done..| |].
    - intros t s. rewrite decide_False; [done|]. set_solver.
    - set_solver. }
  pose proof (cleanup_lookup dir rm_ok t (get0 acked t) (getm (buf r) t) d) as Hkeep.
  destruct (cleanup_topic dir rm_ok t (get0 acked t) (getm (buf r) t) d) as [keep d1].
  simpl in Hkeep.
  assert (rep_wf (mkRep (seq r) (<[t:=keep]> (buf r)))) as Hwf1.
  { destruct Hwf as [Hs Hb]. split; [done|]. simpl. intros t' s x.
    destruct (decide (t = t')) as [->|]; [|rewrite getm_insert_ne by done; apply Hb].
    rewrite getm_insert_eq, Hkeep. case_decide; [done|apply Hb]. }
  destruct (IH _ d1 Hwf1 Hmax) as (r' & d' & out & E & Eseq & Hlook & Hout).
  simpl in Eseq, Hlook, Hout.
  assert (∃ sends, (if cb then resend (get0 acked t) (get0 (seq r) t) keep else Some []) = Some sends
    ∧ ∀ s x, (s, x) ∈ sends ↔ cb = true ∧ (get0 acked t < s)%Z ∧ getm (buf r) t !! s = Some x)
    as (sends & Es & Hsends).
  { destruct cb; [|exists []; set_solver]. pose proof (Hacks t) as Ha.
    rewrite resend_eq by done. eexists; split; [done|]. intros s x.
    rewrite elem_of_resend_ref, Hkeep. destruct Hwf as [_ Hb].
    pose proof (Hb t s x) as Hbs. unfold u64. unfold is_u64 in Ha.
    pose proof (Z.mod_le (get0 acked t + 1) w64 ltac:(lia) w64_pos).
    case_decide; naive_solver lia. }
  rewrite Es. simpl. rewrite E. simpl. eexists _, _, _. split; [done|]. split_and!; [done| |].
  - intros t' s. rewrite Hlook. destruct (decide (t = t')) as [->|].
    + rewrite getm_insert_eq, Hkeep. rewrite (decide_False (P:=t' ∈ order ∧ _)) by naive_solver.
      repeat case_decide; set_solver.
    + rewrite getm_insert_ne by done. repeat case_decide; set_solver.
  - intros t' s x. rewrite elem_of_app, list_elem_of_fmap, Hout. split.
    + intros [([s' x'] & [= -> -> ->] & Hin)|(? & ? & ? & Hb)].
      * apply Hsends in Hin. set_solver.
      * rewrite getm_insert_ne in Hb by naive_solver. set_solver.
    + intros (? & Hin & ? & Hb). destruct (decide (t = t')) as [->|].
      * left. exists (s, x). split; [done|]. by apply Hsends.
      * right. rewrite getm_insert_ne by done. set_solver.
Qed.

(** ** Lemmas: file names *)

Lemma sanitize_byte_ne_slash a : sanitize_byte a ≠ "/"%char.
Proof. unfold sanitize_byte. case_decide; [done|tauto]. Qed.

Lemma sanitizeTopic_empty t : sanitizeTopic t = EmptyString ↔ t = EmptyString.
Proof. by destruct t. Qed.

Lemma bufFileName_no_slash t s : has_byte "/"%char (bufFileName t s) = false.
Proof.
  unfold bufFileName, sanitizeTopic. rewrite !has_byte_app, FormatUint_no_byte by done.
  by rewrite has_byte_str_map by apply sanitize_byte_ne_slash.
Qed.

Lemma parse_bufFileName t s :
  is_u64 s → t ≠ EmptyString → parse_name (bufFileName t s) = Some (sanitizeTopic t, s).
Proof.
  intros Hs Ht. unfold parse_name, bufFileName. rewrite <-!str_app_assoc.
  rewrite HasSuffix_app, TrimSuffix_app, str_app_assoc.
  change ("_" +:+ FormatUint s) with (String "_" (FormatUint s)).
  rewrite LastIndexByte_app by (by apply FormatUint_no_byte).
  rewrite str_take_app.
  destruct (String.length (sanitizeTopic t)) as [|n] eqn:El.
  { destruct t; [done|]. by simpl in El. }
  rewrite <-El, str_drop_app_S, ParseUint_FormatUint by done. done.
Qed.

Lemma bufFileName_inj t t' s s' :
  is_u64 s → is_u64 s' → t ≠ EmptyString → t' ≠ EmptyString →
  bufFileName t s = bufFileName t' s' → sanitizeTopic t = sanitizeTopic t' ∧ s = s'.
Proof.
  intros ? ? ? ? E%(f_equal parse_name). rewrite !parse_bufFileName in E by done. by simplify_eq.
Qed.

(** ** Lemmas: restoring *)

Lemma restore_entry_lookup r name data t s t' s' :
  parse_name name = Some (t, s) →
  getm (buf (restore_entry r (mkDirent name false (Some data)))) t' !! s' =
    if decide (t' = t ∧ s' = s) then Some data else getm (buf r) t' !! s'.
Proof.
  intros Hp. unfold restore_entry. simpl. rewrite Hp. simpl.
  destruct (decide (t' = t)) as [->|].
  - rewrite getm_insert_eq. destruct (decide (s' = s)) as [->|].
    + by rewrite lookup_insert_eq, decide_True.
    + by rewrite lookup_insert_ne, decide_False by naive_solver.
  - by rewrite getm_insert_ne, decide_False by naive_solver.
Qed.

Lemma restore_entry_wf r e : rep_wf r → rep_wf (restore_entry r e).
Proof.
  intros [Hs Hb]. unfold restore_entry. destruct (de_isdir e); [done|].
  destruct (parse_name (de_name e)) as [[t s]|] eqn:Hp; [|done].
  destruct (de_data e) as [data|]; [|done].
  assert (is_u64 s) as Hu.
  { unfold parse_name in Hp. repeat case_match; simplify_eq/=; try done.
    destruct (ParseUint _) eqn:E; simplify_eq/=. by eapply ParseUint_is_u64. }
  split; simpl.
  - intros t'. case_match; [|done]. destruct (decide (t = t')) as [->|].
    + by rewrite get0_insert_eq.
    + by rewrite get0_insert_ne.
  - intros t' s' x. destruct (decide (t = t')) as [->|].
    + rewrite getm_insert_eq. unfold is_u64 in Hu.
      destruct (Z.ltb_spec (get0 (seq r) t') s); rewrite ?get0_insert_eq;
        intros [[<- <-]|[_ Hx%Hb]]%lookup_insert_Some; lia.
    + rewrite getm_insert_ne by done. intros Hx%Hb. case_match; [|done].
      by rewrite get0_insert_ne.
Qed.

Lemma restore_wf es r : rep_wf r → rep_wf (restoreBufferFromDisk es r).
Proof.
  destruct es as [es|]; [|done]. simpl. revert r.
  induction es as [|e es IH]; intros r Hr; simpl; [done|]. apply IH, restore_entry_wf, Hr.
Qed.

(** ** Lemmas: the disk copy *)

(** A topic whose file names can be mapped back to it. *)
Definition clean_topic (t : string) : Prop := t ≠ "" ∧ sanitizeTopic t = t.

Global Instance clean_topic_dec t : Decision (clean_topic t).
Proof. unfold clean_topic. apply _. Defined.

Definition clean_rep (r : rep) : Prop :=
  ∀ t s data, getm (buf r) t !! s = Some data → clean_topic t.

(** The directory holds one file per buffered entry and nothing else. *)
Definition mirrors (r : rep) (d : disk) : Prop :=
  ∀ name data, d !! name = Some data ↔
    ∃ t s, getm (buf r) t !! s = Some data ∧ name = bufFileName t s.

Lemma clean_name_inj t t' s s' :
  clean_topic t → clean_topic t' → is_u64 s → is_u64 s' →
  bufFileName t s = bufFileName t' s' → t = t' ∧ s = s'.
Proof.
  intros [? Ht] [? Ht'] ? ? E%bufFileName_inj; try done. by rewrite Ht, Ht' in E.
Qed.

Lemma rep_wf_is_u64 r t s data : rep_wf r → getm (buf r) t !! s = Some data → is_u64 s.
Proof. intros [Hs Hb] H%Hb. pose proof (Hs t). unfold is_u64 in *. lia. Qed.

Lemma commit_mirrors dir t data r d :
  dir ≠ "" → rep_wf r → (get0 (seq r) t < w64 - 1)%Z → clean_rep r → clean_topic t →
  mirrors r d →
  let '(_, r', d') := publish_commit dir Written t data r d in mirrors r' d' ∧ clean_rep r'.
Proof.
  intros Hdir Hwf Hmax Hclean Ht Hm.
  pose proof (lookup_publish_commit dir Written t data r d) as Hlook.
  pose proof (publish_commit_wf dir Written t data r d Hwf Hmax) as Hwf'.
  pose proof Hwf as [Hs Hb]. specialize (Hs t). unfold is_u64 in Hs.
  unfold publish_commit in *. rewrite decide_False by done.
  rewrite u64_small in * by (unfold is_u64; lia). simpl in *.
  set (s := (get0 (seq r) t + 1)%Z) in *.
  assert (∀ x, getm (buf r) t !! s ≠ Some x) as Hnew by (intros x Hx%Hb; lia).
  assert (is_u64 s) as Hu by (unfold is_u64; lia).
  split.
  - intros name x. setoid_rewrite Hlook. rewrite lookup_insert_Some. rewrite (Hm name x). split.
    + intros [[<- <-]|[Hne (t' & s' & Hx & ->)]].
      * exists t, s. by rewrite decide_True.
      * exists t', s'. rewrite decide_False; naive_solver.
    + intros (t' & s' & Hx & ->). case_decide as Hd; [destruct Hd as [-> ->]; naive_solver|].
      right. split; [|eauto]. intros [-> ->]%clean_name_inj; eauto using rep_wf_is_u64.
  - intros t' s' x. rewrite Hlook. case_decide; [naive_solver|apply Hclean].
Qed.

Lemma foldr_delete_lookup (f : Z → string) (l : list Z) (d : disk) name :
  foldr (λ s d, delete (f s) d) d l !! name = if decide (name ∈ f <$> l) then None else d !! name.
Proof.
  induction l as [|s l IH]; simpl; [done|].
  destruct (decide (name = f s)) as [->|].
  - rewrite lookup_delete_eq, decide_True; set_solver.
  - rewrite lookup_delete_ne by done. rewrite IH. repeat case_decide; set_solver.
Qed.

Lemma cleanup_mirrors dir t a r d :
  dir ≠ "" → rep_wf r → clean_rep r → mirrors r d →
  let '(keep, d') := cleanup_topic dir (λ _, true) t a (getm (buf r) t) d in
  mirrors (mkRep (seq r) (<[t := keep]> (buf r))) d'.
Proof.
  intros Hdir Hwf Hclean Hm.
  pose proof (cleanup_lookup dir (λ _, true) t a (getm (buf r) t) d) as Hkeep.
  unfold cleanup_topic in *. rewrite decide_False by done. simpl in *.
  intros name x. rewrite foldr_delete_lookup.
  assert (∀ s, s ∈ (map_to_list (filter (λ p : Z * string, (p.1 ≤ a)%Z) (getm (buf r) t))).*1 ↔
    (s ≤ a)%Z ∧ is_Some (getm (buf r) t !! s)) as Hgone.
  { intros s. rewrite list_elem_of_fmap. split.
    - intros ([s' y] & -> & [? ?]%elem_of_map_to_list%map_lookup_filter_Some). eauto.
    - intros [? [y Hy]]. exists (s, y). split; [done|].
      by apply elem_of_map_to_list, map_lookup_filter_Some. }
  case_decide as Hd.
  - split; [done|]. apply list_elem_of_fmap in Hd as (s & -> & [Hs [y Hy]]%Hgone).
    intros (t' & s' & Hx & E). simpl in Hx. exfalso. destruct (decide (t = t')) as [->|Hne].
    + rewrite getm_insert_eq, Hkeep in Hx. case_decide; [done|].
      apply clean_name_inj in E as [_ ->]; eauto using rep_wf_is_u64.
    + rewrite getm_insert_ne in Hx by done. apply clean_name_inj in E as [-> _];
        eauto using rep_wf_is_u64.
  - rewrite (Hm name x). simpl. split; intros (t' & s' & Hx & ->); exists t', s';
      (split; [|done]); destruct (decide (t = t')) as [->|Hne].
    + rewrite getm_insert_eq, Hkeep. case_decide; [|done]. destruct Hd.
      apply list_elem_of_fmap. exists s'. rewrite Hgone. eauto.
    + by rewrite getm_insert_ne.
    + rewrite getm_insert_eq, Hkeep in Hx. by case_decide.
    + by rewrite getm_insert_ne in Hx.
Qed.

Lemma retry_mirrors dir cb acked order r d r' d' out :
  dir ≠ "" → rep_wf r → clean_rep r → mirrors r d →
  retry_topics dir (λ _, true) cb acked order r d = Some (r', d', out) →
  mirrors r' d' ∧ clean_rep r' ∧ rep_wf r'.
Proof.
  intros Hdir. revert r d r' d' out.
  induction order as [|t order IH]; intros r d r' d' out Hwf Hclean Hm; cbn [retry_topics].
  { intros [= <- <- <-]. done. }
  pose proof (cleanup_mirrors dir t (get0 acked t) r d Hdir Hwf Hclean Hm) as Hm1.
  pose proof (cleanup_lookup dir (λ _, true) t (get0 acked t) (getm (buf r) t) d) as Hkeep.
  destruct (cleanup_topic dir _ t (get0 acked t) (getm (buf r) t) d) as [keep d1]. simpl in Hkeep.
  assert (∀ t' s x, getm (<[t:=keep]> (buf r)) t' !! s = Some x → getm (buf r) t' !! s = Some x) as Hsub.
  { intros t' s x. destruct (decide (t = t')) as [->|].
    - rewrite getm_insert_eq, Hkeep. by case_decide.
    - by rewrite getm_insert_ne. }
  destruct (if cb then _ else _) as [sends|]; [|done]. simpl.
  destruct (retry_topics _ _ _ _ _ _ _) as [[[r2 d2] more]|] eqn:E; [|done].
  intros [= <- <- <-]. eapply IH; [..|done|exact E].
  - destruct Hwf as [? Hb]. split; simpl; eauto.
  - intros t' s x Hx%Hsub. eauto.
Qed.

(** Restoring a list of files whose names stand for distinct entries. *)
Lemma restore_lookup (l : list (string * bytes)) t s data :
  NoDup l.*1 →
  (∀ n n' p, n ∈ l.*1 → n' ∈ l.*1 → parse_name n = Some p → parse_name n' = Some p → n = n') →
  getm (buf (foldl restore_entry rep_new ((λ p, mkDirent p.1 false (Some p.2)) <$> l))) t !! s = Some data ↔
  ∃ name, (name, data) ∈ l ∧ parse_name name = Some (t, s).
Proof.
  induction l as [|[name x] l IH] using rev_ind; intros Hnd Hinj.
  { simpl. unfold getm. rewrite lookup_empty. simpl. rewrite lookup_empty. set_solver. }
  rewrite fmap_app, foldl_app. simpl.
  rewrite fmap_app in Hnd, Hinj. apply NoDup_app in Hnd as (Hnd & Hdisj & _).
  assert (name ∉ l.*1) as Hnin by (intros Hin; apply (Hdisj _ Hin); set_solver).
  assert (∀ p, (∃ n, (n, data) ∈ l ∧ parse_name n = Some p) → parse_name name ≠ Some p) as Hother.
  { intros p (n & Hn & Hp) Hp'. apply (list_elem_of_fmap_2 fst) in Hn. simpl in Hn.
    assert (name = n) as ->; [|done]. eapply Hinj; [| |done..]; set_solver. }
  specialize (IH Hnd ltac:(set_solver)).
  destruct (parse_name name) as [[t0 s0]|] eqn:Hp.
  - rewrite (restore_entry_lookup _ _ _ _ _ _ _ Hp). setoid_rewrite elem_of_app.
    case_decide as Hd.
    + destruct Hd as [-> ->]. split.
      * intros [= ->]. exists name. set_solver.
      * intros (n & [Hn|Hn] & Hpn); [|set_solver]. destruct (Hother (t0, s0)); eauto.
    + rewrite IH. split; intros (n & Hn & Hpn); exists n; [set_solver|].
      split; [|done]. destruct Hn as [?|?]; [done|]. set_solver.
  - unfold restore_entry. simpl. rewrite Hp. setoid_rewrite elem_of_app. rewrite IH.
    split; intros (n & Hn & Hpn); exists n; [set_solver|].
    split; [|done]. destruct Hn as [?|?]; [done|]. set_solver.
Qed.

(** Every restored sequence is zero or that of a restored entry. *)
Lemma restore_seq_attained es t :
  let r := foldl restore_entry rep_new es in
  get0 (seq r) t = 0%Z ∨ is_Some (getm (buf r) t !! get0 (seq r) t).
Proof.
  induction es as [|e es IH] using rev_ind; simpl; [left; apply get0_empty|].
  rewrite foldl_app. simpl. set (r := foldl restore_entry rep_new es) in *.
  unfold restore_entry. destruct (de_isdir e); [done|].
  destruct (parse_name (de_name e)) as [[t0 s0]|]; [|done]. destruct (de_data e) as [x|]; [|done].
  simpl. destruct (decide (t0 = t)) as [->|].
  - rewrite getm_insert_eq. case_match.
    + right. rewrite get0_insert_eq, lookup_insert_eq. eauto.
    + destruct IH as [?|?]; [by left|right]. rewrite lookup_insert_is_Some'. eauto.
  - rewrite getm_insert_ne by done. case_match; [rewrite get0_insert_ne by done|]; done.
Qed.

(** ** The leader's local runs *)

(** The two operations that change the buffer and its directory, when every file
    operation succeeds: publishing to a clean topic, and a retry tick. *)
Inductive leader_step (dir : string) : rep * disk → rep * disk → Prop :=
  | leader_publish t data r d s r' d' :
      clean_topic t → (get0 (seq r) t < w64 - 1)%Z →
      publish_commit dir Written t data r d = (s, r', d') →
      leader_step dir (r, d) (r', d')
  | leader_retry cb acked order r d r' d' out :
      retry_topics dir (λ _, true) cb acked order r d = Some (r', d', out) →
      leader_step dir (r, d) (r', d').

Definition durable (st : rep * disk) : Prop :=
  rep_wf st.1 ∧ clean_rep st.1 ∧ mirrors st.1 st.2.

Lemma durable_init : durable (rep_new, ∅).
Proof.
  split_and!; [apply rep_new_wf| |]; intros a b; unfold rep_new, getm; simpl.
  - intros c. by rewrite lookup_empty.
  - rewrite lookup_empty. split; [done|]. intros (t & s & Hx & _).
    rewrite lookup_empty in Hx. done.
Qed.

Lemma leader_step_durable dir st st' : dir ≠ "" → leader_step dir st st' → durable st → durable st'.
Proof.
  intros Hdir Hstep (Hwf & Hclean & Hm). destruct Hstep as [t data r d s r' d' Ht Hmax E|]; simpl in *.
  - pose proof (commit_mirrors dir t data r d Hdir Hwf Hmax Hclean Ht Hm) as Hc.
    pose proof (publish_commit_wf dir Written t data r d Hwf Hmax) as Hw.
    rewrite E in Hc, Hw. destruct Hc. done.
  - edestruct retry_mirrors as (? & ? & ?); eauto. by split_and!.
Qed.

Lemma leader_steps_durable dir st st' :
  dir ≠ "" → rtc (leader_step dir) st st' → durable st → durable st'.
Proof. intros Hdir. induction 1; eauto using leader_step_durable. Qed.

(** ** Properties *)

(** Publishing assigns the next sequence of the topic, buffers the data under it,
    leaves every other entry of every topic as it was, and keeps the buffer
    well-formed. *)
Theorem publish_commit_correct dir w t data r d :
  rep_wf r → (get0 (seq r) t < w64 - 1)%Z →
  let '(s, r', _) := publish_commit dir w t data r d in
  s = (get0 (seq r) t + 1)%Z ∧ get0 (seq r') t = s ∧
  (∀ t', t' ≠ t → get0 (seq r') t' = get0 (seq r) t') ∧
  getm (buf r) t !! s = None ∧
  (∀ t' s', getm (buf r') t' !! s' =
     if decide (t' = t ∧ s' = s) then Some data else getm (buf r) t' !! s') ∧
  rep_wf r'.
Proof.
  intros Hwf Hlt. pose proof (publish_commit_wf dir w t data r d Hwf Hlt) as Hwf'.
  pose proof (lookup_publish_commit dir w t data r d) as Hlook.
  destruct Hwf as [Hs Hb]. pose proof (Hs t) as Ht. unfold is_u64 in Ht.
  unfold publish_commit in *. simpl in *. rewrite u64_small in * by (unfold is_u64; lia).
  split_and!; [done|apply get0_insert_eq| |destruct (getm _ _ !! _) eqn:E; [apply Hb in E; lia|done]|done|done].
  intros t' Hne. by apply get0_insert_ne.
Qed.

(** A pass over all the buffered topics. *)
Lemma retry_pass_spec dir rm_ok cb acked order r d :
  order ≡ₚ elements (dom (buf r)) → rep_wf r → acks_wf acked →
  (∀ t, get0 (seq r) t < w64 - 1)%Z →
  ∃ r' d' out, retry_topics dir rm_ok cb acked order r d = Some (r', d', out) ∧
    rep_wf r' ∧ seq r' = seq r ∧
    (∀ t s, getm (buf r') t !! s =
       if decide (s ≤ get0 acked t)%Z then None else getm (buf r) t !! s) ∧
    (∀ t s data, (t, data, s) ∈ out ↔ cb = true ∧ getm (buf r') t !! s = Some data).
Proof.
  intros Horder Hwf Hacks Hmax.
  assert (NoDup order) as Hnd by (rewrite Horder; apply NoDup_elements).
  destruct (retry_topics_spec dir rm_ok cb acked order r d) as (r' & d' & out & E & Eseq & Hlook & Hout);
    [done..|].
  assert (∀ t s x, getm (buf r) t !! s = Some x → t ∈ order) as Hin.
  { intros t s x Hx. rewrite Horder. apply elem_of_elements, elem_of_dom.
    unfold getm in Hx. destruct (buf r !! t); [eauto|]. simpl in Hx. by rewrite lookup_empty in Hx. }
  assert (∀ t s, getm (buf r') t !! s =
    if decide (s ≤ get0 acked t)%Z then None else getm (buf r) t !! s) as Hlook'.
  { intros t s. rewrite Hlook. destruct (getm (buf r) t !! s) eqn:Ex.
    - apply Hin in Ex. repeat case_decide; naive_solver.
    - repeat case_decide; naive_solver. }
  exists r', d', out. split_and!; [done| |done|done|].
  - destruct Hwf as [Hs Hb]. split; [by rewrite Eseq|]. intros t s x. rewrite Eseq, Hlook'.
    case_decide; [done|apply Hb].
  - intros t s x. rewrite Hout, Hlook'. case_decide; naive_solver lia.
Qed.

(** A retry tick over the buffered topics, in whatever order, always finishes; it
    drops exactly the entries up to the least acknowledgement of their topic and,
    when the server can broadcast, resends exactly the entries that remain. *)
Theorem retry_correct dir rm_ok cb acked order r d :
  order ≡ₚ elements (dom (buf r)) → rep_wf r → acks_wf acked →
  (∀ t, get0 (seq r) t < w64 - 1)%Z →
  ∃ r' d' out, retry_topics dir rm_ok cb acked order r d = Some (r', d', out) ∧
    rep_wf r' ∧ seq r' = seq r ∧
    (∀ t s, getm (buf r') t !! s =
       if decide (s ≤ get0 acked t)%Z then None else getm (buf r) t !! s) ∧
    (∀ t s data, (t, data, s) ∈ out ↔ cb = true ∧ getm (buf r') t !! s = Some data).
Proof. apply retry_pass_spec. Qed.

(** The resend loop, written with wrapping 64-bit counters, visits each
    buffered sequence above the acknowledged one once and in ascending order, for
    every top sequence below the largest 64-bit value. *)
Theorem resend_ascending a max seqs :
  is_u64 a → (a < w64 - 1)%Z → (max < w64 - 1)%Z →
  ∃ out, resend a max seqs = Some out ∧ StronglySorted Z.lt out.*1 ∧
    ∀ s data, (s, data) ∈ out ↔ (a < s ≤ max)%Z ∧ seqs !! s = Some data.
Proof.
  intros Ha Ha' Hm. rewrite resend_eq by done. eexists; split; [done|].
  rewrite u64_small by (unfold is_u64 in *; lia). split.
  - unfold resend_ref. generalize (max + 1 - (a + 1))%Z. generalize (a + 1)%Z. intros s0 n. clear.
    destruct (decide (0 ≤ n)%Z) as [Hn|]; [|rewrite seqZ_nil by lia; constructor].
    rewrite <-(Z2Nat.id n) by done. generalize (Z.to_nat n) as k. clear. intros k. revert s0.
    induction k as [|k IH]; intros s0; [constructor|].
    rewrite seqZ_cons by lia. replace (Z.pred (Z.of_nat (S k))) with (Z.of_nat k) by lia.
    simpl. destruct (seqs !! s0) as [x|]; simpl; [|apply IH]. constructor; [apply IH|].
    apply Forall_forall. intros s ([s' y] & -> & Hy)%list_elem_of_fmap.
    apply list_elem_of_omap in Hy as (s & Hs & Hy). apply elem_of_seqZ in Hs.
    destruct (seqs !! s); simplify_eq/=. lia.
  - intros s x. rewrite elem_of_resend_ref. naive_solver lia.
Qed.

(** When a topic's sequence reaches the largest 64-bit value (a buffer file with
    that number is enough), the resend loop never ends: [s <= max] always holds. *)
Theorem resend_never_ends fuel a seqs :
  is_u64 a → resend_loop fuel (u64 (a + 1)) (w64 - 1) seqs = None.
Proof. intros _. apply resend_loop_diverges, u64_is_u64. Qed.

(** Sanitised buffer file names are single path components and can be read back:
    the topic and sequence [restoreBufferFromDisk] derives from the name of a
    buffered message are the sanitised topic and the sequence it was written under. *)
Theorem bufFileName_roundtrip t s :
  t ≠ "" → is_u64 s →
  has_byte "/"%char (bufFileName t s) = false ∧
  parse_name (bufFileName t s) = Some (sanitizeTopic t, s).
Proof. intros. split; [apply bufFileName_no_slash|by apply parse_bufFileName]. Qed.


(** Two topics that differ only in the bytes the file name replaces share their
    files: after both are published, the directory holds the second message under
    that name and a restart loses the first one. *)
Theorem sanitized_topics_collide dir t t' x x' d s r1 d1 r2 d2 :
  dir ≠ "" → t ≠ t' → sanitizeTopic t = sanitizeTopic t' →
  publish_commit dir Written t x rep_new d = (s, r1, d1) →
  publish_commit dir Written t' x' r1 d1 = (s, r2, d2) →
  getm (buf r2) t !! s = Some x ∧ getm (buf r2) t' !! s = Some x' ∧
  bufFileName t s = bufFileName t' s ∧ d2 !! bufFileName t s = Some x'.
Proof.
  intros Hdir Hne Es E1 E2.
  pose proof (lookup_publish_commit dir Written t x rep_new d) as H1.
  pose proof (lookup_publish_commit dir Written t' x' r1 d1) as H2. rewrite E1 in H1. rewrite E2 in H2.
  assert (bufFileName t s = bufFileName t' s) as En by (unfold bufFileName; by rewrite Es).
  split_and!; [|by rewrite H2, decide_True|done|].
  - rewrite H2, decide_False by naive_solver. by rewrite H1, decide_True.
  - unfold publish_commit in E2. rewrite decide_False in E2 by done. simplify_eq. rewrite En.
    simpl. by rewrite lookup_insert_eq.
Qed.

(** ** Back-pressure *)

(** A round whose values are those of a live system: acknowledgements never exceed
    the sequence, which is far from overflowing. *)
Definition poll_sane (t : string) (p : poll) : Prop :=
  (0 ≤ poll_ack t p ≤ p_cur p ∧ p_cur p < 2 ^ 63)%Z.

Lemma poll_open_sane W t p :
  poll_sane t p →
  poll_open W t p = (p_cur p - poll_ack t p <? window_of W)%Z.
Proof.
  intros [H1 H2]. unfold poll_open, window_open.
  rewrite u64_small by (unfold is_u64, w64; lia). by rewrite int_of_u64_small by lia.
Qed.

(** [Publish] goes past its waiting loop exactly when some round finds fewer than
    the window's unacknowledged messages and no earlier round found the context
    done. *)
Theorem publish_waits_for_window W t ps :
  Forall (poll_sane t) ps →
  publish_wait W t ps = Proceed ↔
  ∃ before p after, ps = before ++ p :: after ∧
    (p_cur p - poll_ack t p < window_of W)%Z ∧
    Forall (λ q, (window_of W ≤ p_cur q - poll_ack t q)%Z ∧
                 p_done q = None) before.
Proof.
  induction 1 as [|p ps Hp Hps IH]; simpl.
  { split; [done|]. by intros ([] & ? & ? & ? & _). }
  rewrite poll_open_sane by done.
  destruct (Z.ltb_spec (p_cur p - poll_ack t p) (window_of W)).
  { split; [|done]. intros _. by exists [], p, ps. }
  destruct (p_done p) eqn:Ed; [split; [done|]|rewrite IH; split].
  - intros ([|q before] & p' & after & [= -> ->] & ? & Hall); [lia|].
    apply Forall_cons in Hall as [[_ ?] _]. congruence.
  - intros (before & p' & after & -> & ? & ?). exists (p :: before), p', after.
    split_and!; [done..|]. by constructor.
  - intros ([|q before] & p' & after & [= -> ->] & ? & Hall); [lia|].
    apply Forall_cons in Hall as [_ ?]. eauto 8.
Qed.

(** A management server without [AckedAll] (the HTTP one) reports no
    acknowledgement, so once a topic has as many messages as the window, [Publish]
    on it stays in its loop for as many rounds as are run, until its context is
    done. *)
Theorem publish_without_acks_blocks W t ps :
  Forall (λ p, p_acked p = None ∧ (window_of W ≤ p_cur p < 2 ^ 63)%Z ∧ p_done p = None) ps →
  publish_wait W t ps = Blocked.
Proof.
  induction 1 as [|p ps (Ha & Hc & Hd) _ IH]; simpl; [done|].
  assert (0 < window_of W)%Z by (unfold window_of; case_match; lia).
  rewrite poll_open_sane by (unfold poll_sane, poll_ack; rewrite Ha; simpl; lia).
  unfold poll_ack. rewrite Ha, Hd. simpl. by rewrite (proj2 (Z.ltb_ge _ _)) by lia.
Qed.

(** ** Witnesses *)

Lemma publish_commit_correct_witness :
  rep_wf rep_new ∧ (publish_commit "" Written "t" "x" rep_new ∅).1.1 = 1%Z.
Proof.
  split; [apply rep_new_wf|].
  exact (proj1 (publish_commit_correct "" Written "t" "x" rep_new ∅ rep_new_wf eq_refl)).
Defined.

(** A leader with three messages on one topic, of which the first is acknowledged. *)
Definition demo_rep : rep :=
  mkRep {["t" := 3%Z]} {["t" := {[1%Z := "a"; 2%Z := "b"; 3%Z := "c"]}]}.

Lemma demo_rep_wf : rep_wf demo_rep.
Proof.
  unfold demo_rep. split; simpl.
  - intros t. unfold get0. destruct (decide (t = "t")) as [->|]; simplify_map_eq; done.
  - intros t s x. unfold getm, get0. destruct (decide (t = "t")) as [->|]; simplify_map_eq; [|done].
    rewrite !lookup_insert_Some, lookup_singleton_Some. naive_solver lia.
Qed.

Lemma retry_correct_witness :
  ∃ r' d' out, retry_topics "" (λ _, true) true {["t" := 1%Z]} ["t"] demo_rep ∅ = Some (r', d', out) ∧
    ("t", "b", 2%Z) ∈ out.
Proof.
  destruct (retry_correct "" (λ _, true) true {["t" := 1%Z]} ["t"] demo_rep ∅)
    as (r' & d' & out & E & _ & _ & Hlook & Hout).
  - vm_compute. reflexivity.
  - apply demo_rep_wf.
  - intros t. unfold get0. destruct (decide (t = "t")) as [->|]; simplify_map_eq; done.
  - intros t. unfold get0, demo_rep. simpl. destruct (decide (t = "t")) as [->|]; simplify_map_eq; done.
  - exists r', d', out. split; [exact E|]. apply Hout. split; [done|]. rewrite Hlook. reflexivity.
Defined.

Lemma resend_ascending_witness :
  ∃ out, resend 1 3 {[1%Z := "a"; 2%Z := "b"; 3%Z := "c"]} = Some out ∧ (3%Z, "c") ∈ out.
Proof.
  destruct (resend_ascending 1 3 {[1%Z := "a"; 2%Z := "b"; 3%Z := "c"]}) as (out & E & _ & Hout);
    [done..|].
  exists out. split; [exact E|]. apply Hout. done.
Defined.

Lemma resend_never_ends_witness : resend_loop 5 (u64 (0 + 1)) (w64 - 1) ∅ = None.
Proof. exact (resend_never_ends 5 0 ∅ (conj (Z.le_refl 0) eq_refl)). Defined.

Lemma bufFileName_roundtrip_witness :
  bufFileName "a/b" 7 = "a_b_7.bin" ∧ parse_name (bufFileName "a/b" 7) = Some ("a_b", 7%Z).
Proof.
  split; [reflexivity|]. apply (bufFileName_roundtrip "a/b" 7); [done|]. by split.
Defined.


Lemma sanitized_topics_collide_witness :
  bufFileName "a/b" 1 = bufFileName "a_b" 1 ∧
  (publish_commit "d" Written "a_b" "y" (publish_commit "d" Written "a/b" "x" rep_new ∅).1.2
     (publish_commit "d" Written "a/b" "x" rep_new ∅).2).2 !! bufFileName "a/b" 1 = Some "y".
Proof.
  eapply (sanitized_topics_collide "d" "a/b" "a_b" "x" "y" ∅ 1); done.
Defined.

Lemma publish_waits_for_window_witness :
  publish_wait 2 "t" [mkPoll None 2 None; mkPoll (Some {["t" := 1%Z]}) 2 None] = Proceed.
Proof.
  apply (publish_waits_for_window 2 "t").
  - by repeat constructor.
  - exists [mkPoll None 2 None], (mkPoll (Some {["t" := 1%Z]}) 2 None), [].
    split; [reflexivity|]. split; [done|]. by repeat constructor.
Defined.

Lemma publish_without_acks_blocks_witness :
  publish_wait 0 "t" (replicate 3 (mkPoll None 1024 None)) = Blocked.
Proof. apply (publish_without_acks_blocks 0 "t"). by repeat constructor. Defined.
