(* ===== verification/Utf8.v ===== *)
(** * UTF-8

    How Go's [unicode/utf8] splits a byte string into runes: [encoding/json] replaces
    every byte that starts no well-formed sequence.  A rune is kept with the bytes that
    encode it. *)
From S2P Require Import Prelude GoStrings.
From stdpp Require Import options.


(** ** Bytes *)

Definition code (a : ascii) : Z := Z.of_N (N_of_ascii a).
Definition byte_of (z : Z) : ascii := ascii_of_N (Z.to_N z).

Definition in_range (a : ascii) (lo hi : Z) : bool := ((lo <=? code a) && (code a <=? hi))%Z.

(** ** Runes *)

Inductive rune : Type :=
  | RAscii (a : ascii)
  | R2 (a b : ascii)
  | R3 (a b c : ascii)
  | R4 (a b c d : ascii)
  | RBad (a : ascii).

Global Instance rune_eq_dec : EqDecision rune.
Proof. solve_decision. Defined.

Definition is_ascii (a : ascii) : bool := in_range a 0 127.
Definition is_cont (a : ascii) : bool := in_range a 128 191.

(** The acceptable byte sequences of [utf8.DecodeRune]: no overlong forms, no
    surrogates, nothing above U+10FFFF. *)
Definition ok2 (a b : ascii) : bool := in_range a 194 223 && is_cont b.
Definition ok3 (a b c : ascii) : bool :=
  is_cont c && (in_range a 224 224 && in_range b 160 191
             || in_range a 225 236 && is_cont b
             || in_range a 237 237 && in_range b 128 159
             || in_range a 238 239 && is_cont b).
Definition ok4 (a b c d : ascii) : bool :=
  is_cont c && is_cont d && (in_range a 240 240 && in_range b 144 191
                          || in_range a 241 243 && is_cont b
                          || in_range a 244 244 && in_range b 128 143).

Fixpoint runes (s : string) : list rune :=
  match s with
  | EmptyString => []
  | String a r =>
      if is_ascii a then RAscii a :: runes r else
      match r with
      | EmptyString => [RBad a]
      | String b r1 =>
          if ok2 a b then R2 a b :: runes r1 else
          match r1 with
          | EmptyString => RBad a :: runes r
          | String c r2 =>
              if ok3 a b c then R3 a b c :: runes r2 else
              match r2 with
              | EmptyString => RBad a :: runes r
              | String d r3 => if ok4 a b c d then R4 a b c d :: runes r3 else RBad a :: runes r
              end
          end
      end
  end.

Definition rune_bytes (r : rune) : string :=
  match r with
  | RAscii a | RBad a => String a EmptyString
  | R2 a b => String a (String b EmptyString)
  | R3 a b c => String a (String b (String c EmptyString))
  | R4 a b c d => String a (String b (String c (String d EmptyString)))
  end.

Fixpoint unrunes (l : list rune) : string :=
  match l with
  | [] => EmptyString
  | r :: l' => rune_bytes r +:+ unrunes l'
  end.

Definition rune_ok (r : rune) : bool :=
  match r with
  | RAscii a => is_ascii a
  | R2 a b => ok2 a b
  | R3 a b c => ok3 a b c
  | R4 a b c d => ok4 a b c d
  | RBad _ => false
  end.

(** [utf8.ValidString]. *)
Definition utf8_valid (s : string) : bool := forallb rune_ok (runes s).

(** U+FFFD, which replaces an invalid byte. *)
Definition replacement : rune := R3 "239" "191" "189".

(** [utf8.AppendRune]. *)
Definition encode_rune (z : Z) : rune :=
  (if z <? 128 then RAscii (byte_of z)
   else if z <? 2048 then R2 (byte_of (192 + z / 64)) (byte_of (128 + z `mod` 64))
   else if (55296 <=? z) && (z <=? 57343) then replacement
   else if z <? 65536 then
     R3 (byte_of (224 + z / 4096)) (byte_of (128 + (z / 64) `mod` 64)) (byte_of (128 + z `mod` 64))
   else if z <=? 1114111 then
     R4 (byte_of (240 + z / 262144)) (byte_of (128 + (z / 4096) `mod` 64))
        (byte_of (128 + (z / 64) `mod` 64)) (byte_of (128 + z `mod` 64))
   else replacement)%Z.

(** ** Splitting and joining *)

Lemma unrunes_app l l' : unrunes (l ++ l')%list = unrunes l +:+ unrunes l'.
Proof. induction l as [|r l IH]; simpl; [done|]. by rewrite IH, str_app_assoc. Qed.

Lemma in_range_disjoint a lo hi lo' hi' :
  in_range a lo hi = true → (hi < lo' ∨ hi' < lo)%Z → in_range a lo' hi' = false.
Proof. unfold in_range. lia. Qed.

Lemma in_range_weaken a lo hi lo' hi' :
  in_range a lo hi = true → (lo' ≤ lo ∧ hi ≤ hi')%Z → in_range a lo' hi' = true.
Proof. unfold in_range. lia. Qed.

Lemma ok2_lead a b : ok2 a b = true → in_range a 194 223 = true.
Proof. unfold ok2. intros [? _]%andb_prop. done. Qed.

Lemma ok3_lead a b c : ok3 a b c = true → in_range a 224 239 = true.
Proof. unfold ok3, is_cont, in_range. lia. Qed.

Lemma ok4_lead a b c d : ok4 a b c d = true → in_range a 240 244 = true.
Proof. unfold ok4, is_cont, in_range. lia. Qed.

Lemma ok2_false a b lo hi : in_range a lo hi = true → (223 < lo)%Z → ok2 a b = false.
Proof. unfold ok2, in_range. lia. Qed.

Lemma ok3_false a b c lo hi : in_range a lo hi = true → (239 < lo)%Z → ok3 a b c = false.
Proof. unfold ok3, is_cont, in_range. lia. Qed.

Lemma is_ascii_false a lo hi : in_range a lo hi = true → (127 < lo)%Z → is_ascii a = false.
Proof. unfold is_ascii, in_range. lia. Qed.

(** A well-formed rune at the front is split off. *)
Lemma runes_cons r s : rune_ok r = true → runes (rune_bytes r +:+ s) = r :: runes s.
Proof.
  destruct r as [a|a b|a b c|a b c d|a]; cbn [rune_ok rune_bytes]; intros H; [| | | |done].
  - rewrite app_String, app_Empty. cbn [runes]. by rewrite H.
  - rewrite !app_String, app_Empty. cbn [runes].
    rewrite (is_ascii_false a 194 223) by (eauto using ok2_lead || lia). by rewrite H.
  - rewrite !app_String, app_Empty. cbn [runes].
    rewrite (is_ascii_false a 224 239), (ok2_false a b 224 239) by (eauto using ok3_lead || lia).
    by rewrite H.
  - rewrite !app_String, app_Empty. cbn [runes].
    rewrite (is_ascii_false a 240 244), (ok2_false a b 240 244), (ok3_false a b c 240 244)
      by (eauto using ok4_lead || lia).
    by rewrite H.
Qed.

Lemma runes_unrunes l : forallb rune_ok l = true → runes (unrunes l) = l.
Proof.
  induction l as [|r l IH]; [done|]. cbn [forallb unrunes]. intros [Hr Hl]%andb_prop.
  by rewrite runes_cons, IH.
Qed.

Lemma runes_app_ok l s : forallb rune_ok l = true → runes (unrunes l +:+ s) = (l ++ runes s)%list.
Proof.
  induction l as [|r l IH]; [done|]. cbn [forallb unrunes]. intros [Hr Hl]%andb_prop.
  rewrite str_app_assoc, runes_cons, IH by done. done.
Qed.

(** Splitting loses nothing, whether the string is valid or not. *)
Lemma unrunes_runes s : unrunes (runes s) = s.
Proof.
  remember (String.length s) as n eqn:E. assert (String.length s ≤ n)%nat as Hn by lia. clear E.
  revert s Hn. induction n as [|n IH]; intros s Hn; [destruct s; [done|simpl in Hn; lia]|].
  destruct s as [|a r]; [done|]. cbn [String.length] in Hn.
  assert (unrunes (RBad a :: runes r) = String a r) as Hbad.
  { cbn [unrunes rune_bytes]. rewrite IH by lia. done. }
  cbn [runes]. destruct (is_ascii a); [cbn [unrunes rune_bytes]; by rewrite IH by lia|].
  destruct r as [|b r1]; [done|]. cbn [String.length] in Hn.
  destruct (ok2 a b); [cbn [unrunes rune_bytes]; by rewrite IH by lia|].
  destruct r1 as [|c r2]; [done|]. cbn [String.length] in Hn.
  destruct (ok3 a b c); [cbn [unrunes rune_bytes]; by rewrite IH by lia|].
  destruct r2 as [|d r3]; [done|]. cbn [String.length] in Hn.
  destruct (ok4 a b c d); [cbn [unrunes rune_bytes]; by rewrite IH by lia|done].
Qed.
