(* ===== verification/Json.v ===== *)
(** * JSON text

    The part of Go's [encoding/json] the program relies on: the compact printer of
    [json.Marshal] (HTML-sensitive characters and U+2028/U+2029 escaped, invalid UTF-8
    replaced) and the parser of [json.Unmarshal] (white space, escapes, surrogate pairs,
    number literals, nesting limit), on values.  The codecs of Go types are in
    [JsonCodec].  Texts are handled as lists of runes ([Utf8]). *)
From S2P Require Import Prelude GoStrings Utf8.
From stdpp Require Import options.

(** ** Values *)

(** A number is kept as its literal: what it decodes to depends on the Go type. *)
Inductive json : Type :=
  | JNull
  | JBool (b : bool)
  | JNum (lit : string)
  | JStr (s : string)
  | JArr (l : list json)
  | JObj (l : list (string * json)).

(** Induction with hypotheses for the components of arrays and objects. *)
Section json_ind_nested.
  Variable P : json → Prop.
  Hypothesis HNull : P JNull.
  Hypothesis HBool : ∀ b, P (JBool b).
  Hypothesis HNum : ∀ lit, P (JNum lit).
  Hypothesis HStr : ∀ s, P (JStr s).
  Hypothesis HArr : ∀ l, Forall P l → P (JArr l).
  Hypothesis HObj : ∀ l, Forall (λ kv, P kv.2) l → P (JObj l).

Fixpoint json_nested_ind (v : json) : P v :=
  match v with
  | JNull => HNull
  | JBool b => HBool b
  | JNum lit => HNum lit
  | JStr s => HStr s
  | JArr l => HArr l ((fix go l := match l return Forall P l with
      | [] => Forall_nil_2 P
      | x :: l' => Forall_cons_2 P x l' (json_nested_ind x) (go l')
      end) l)
  | JObj l => HObj l ((fix go l := match l return Forall (λ kv, P kv.2) l with
      | [] => Forall_nil_2 _
      | x :: l' => Forall_cons_2 (λ kv : string * json, P kv.2) x l' (json_nested_ind x.2) (go l')
      end) l)
  end.
End json_ind_nested.

(** ** Printing *)

Definition hex_digit (z : Z) : ascii := byte_of (if (z <? 10)%Z then 48 + z else 87 + z)%Z.

(** ASCII text as runes. *)
Fixpoint ascii_runes (s : string) : list rune :=
  match s with
  | EmptyString => []
  | String a s' => RAscii a :: ascii_runes s'
  end.

Definition esc_u (hi lo : ascii) (a : ascii) : list rune :=
  [RAscii "\"; RAscii "u"; RAscii hi; RAscii lo;
   RAscii (hex_digit (code a / 16)); RAscii (hex_digit (code a `mod` 16))].

(** [appendString] with [escapeHTML]. *)
Definition esc_ascii (a : ascii) : list rune :=
  if Ascii.eqb a "034" then [RAscii "\"; RAscii "034"]
  else if Ascii.eqb a "\" then [RAscii "\"; RAscii "\"]
  else if Ascii.eqb a "008" then [RAscii "\"; RAscii "b"]
  else if Ascii.eqb a "012" then [RAscii "\"; RAscii "f"]
  else if Ascii.eqb a "010" then [RAscii "\"; RAscii "n"]
  else if Ascii.eqb a "013" then [RAscii "\"; RAscii "r"]
  else if Ascii.eqb a "009" then [RAscii "\"; RAscii "t"]
  else if (code a <? 32)%Z || Ascii.eqb a "<" || Ascii.eqb a ">" || Ascii.eqb a "&"
       then esc_u "0" "0" a
  else [RAscii a].

Definition esc_rune (r : rune) : list rune :=
  match r with
  | RAscii a => esc_ascii a
  | RBad _ => ascii_runes "\ufffd"
  | R3 a b c => if bool_decide (r = R3 "226" "128" "168") then ascii_runes "\u2028"
                else if bool_decide (r = R3 "226" "128" "169") then ascii_runes "\u2029"
                else [r]
  | _ => [r]
  end.

Definition quote : rune := RAscii "034".

Definition print_string (s : string) : list rune :=
  quote :: flat_map esc_rune (runes s) ++ [quote].

(** [l] separated by commas. *)
Fixpoint commas (l : list (list rune)) : list rune :=
  match l with
  | [] => []
  | [x] => x
  | x :: l' => x ++ RAscii "," :: commas l'
  end.

Fixpoint print_runes (v : json) : list rune :=
  match v with
  | JNull => ascii_runes "null"
  | JBool true => ascii_runes "true"
  | JBool false => ascii_runes "false"
  | JNum lit => ascii_runes lit
  | JStr s => print_string s
  | JArr l => RAscii "[" :: commas (map print_runes l) ++ [RAscii "]"]
  | JObj l => RAscii "{" ::
      commas (map (λ kv, print_string kv.1 ++ RAscii ":" :: print_runes kv.2) l) ++ [RAscii "}"]
  end.

(** A key with its value. *)
Definition print_member (kv : string * json) : list rune :=
  print_string kv.1 ++ RAscii ":" :: print_runes kv.2.

Definition print_json (v : json) : bytes := unrunes (print_runes v).

(** ** Parsing *)

Definition is_ws (r : rune) : bool :=
  match r with
  | RAscii a => Ascii.eqb a " " || Ascii.eqb a "009" || Ascii.eqb a "010" || Ascii.eqb a "013"
  | _ => false
  end.

Fixpoint skip_ws (l : list rune) : list rune :=
  match l with
  | r :: l' => if is_ws r then skip_ws l' else l
  | [] => []
  end.

Definition hex_val (r : rune) : option Z :=
  match r with
  | RAscii a => let z := code a in
      if in_range a 48 57 then Some (z - 48)%Z
      else if in_range a 97 102 then Some (z - 87)%Z
      else if in_range a 65 70 then Some (z - 55)%Z
      else None
  | _ => None
  end.

(** The four hexadecimal digits after [\u]. *)
Definition hex4 (l : list rune) : option (Z * list rune) :=
  match l with
  | a :: b :: c :: d :: l' =>
      x ← hex_val a; y ← hex_val b; z ← hex_val c; w ← hex_val d;
      Some (((x * 16 + y) * 16 + z) * 16 + w, l')%Z
  | _ => None
  end.

(** [getu4] and [utf16.DecodeRune]: a high surrogate followed by an escaped low one is
    one rune, a lone surrogate is replaced. *)
Definition hex_rune (u : Z) (l : list rune) : rune * list rune :=
  if ((55296 <=? u) && (u <=? 57343))%Z then
    match l with
    | RAscii "\" :: RAscii "u" :: l1 =>
        match hex4 l1 with
        | Some (u2, l2) =>
            if ((u <=? 56319) && (56320 <=? u2) && (u2 <=? 57343))%Z
            then (encode_rune ((u - 55296) * 1024 + (u2 - 56320) + 65536)%Z, l2)
            else (replacement, l)
        | None => (replacement, l)
        end
    | _ => (replacement, l)
    end
  else (encode_rune u, l).

Definition simple_escape (a : ascii) : option ascii :=
  if Ascii.eqb a "034" then Some "034"%char
  else if Ascii.eqb a "\" then Some "\"%char
  else if Ascii.eqb a "/" then Some "/"%char
  else if Ascii.eqb a "b" then Some "008"%char
  else if Ascii.eqb a "f" then Some "012"%char
  else if Ascii.eqb a "n" then Some "010"%char
  else if Ascii.eqb a "r" then Some "013"%char
  else if Ascii.eqb a "t" then Some "009"%char
  else None.

(** The rest of a string literal after its opening quote: the string and what follows
    the closing quote.  A literal of n runes needs at most n rounds. *)
Fixpoint parse_string (fuel : nat) (l : list rune) : option (string * list rune) :=
  match fuel with
  | 0 => None
  | S fuel' =>
      match l with
      | [] => None
      | RAscii a :: l1 =>
          if Ascii.eqb a "034" then Some (EmptyString, l1)
          else if Ascii.eqb a "\" then
            match l1 with
            | RAscii b :: l2 =>
                if Ascii.eqb b "u" then
                  '(u, l3) ← hex4 l2;
                  let '(r, l4) := hex_rune u l3 in
                  '(s, rest) ← parse_string fuel' l4; Some (rune_bytes r +:+ s, rest)
                else
                  c ← simple_escape b;
                  '(s, rest) ← parse_string fuel' l2; Some (String c s, rest)
            | _ => None
            end
          else if (code a <? 32)%Z then None
          else '(s, rest) ← parse_string fuel' l1; Some (String a s, rest)
      | RBad _ :: l1 =>
          '(s, rest) ← parse_string fuel' l1; Some (rune_bytes replacement +:+ s, rest)
      | r :: l1 => '(s, rest) ← parse_string fuel' l1; Some (rune_bytes r +:+ s, rest)
      end
  end.

Definition is_digit (a : ascii) : bool := in_range a 48 57.

(** The longest run of digits at the front. *)
Fixpoint span_digits (l : list rune) : string * list rune :=
  match l with
  | RAscii a :: l' => if is_digit a then let '(d, r) := span_digits l' in (String a d, r) else (EmptyString, l)
  | _ => (EmptyString, l)
  end.

(** At least one digit. *)
Definition digits1 (l : list rune) : option (string * list rune) :=
  match span_digits l with
  | (EmptyString, _) => None
  | p => Some p
  end.

Definition scan_frac (l : list rune) : option (string * list rune) :=
  match l with
  | RAscii "." :: l' => '(d, r) ← digits1 l'; Some (String "." d, r)
  | _ => Some (EmptyString, l)
  end.

Definition scan_exp (l : list rune) : option (string * list rune) :=
  match l with
  | RAscii e :: l' =>
      if Ascii.eqb e "e" || Ascii.eqb e "E" then
        match l' with
        | RAscii s :: l2 =>
            if Ascii.eqb s "+" || Ascii.eqb s "-"
            then '(d, r) ← digits1 l2; Some (String e (String s d), r)
            else '(d, r) ← digits1 l'; Some (String e d, r)
        | _ => None
        end
      else Some (EmptyString, l)
  | _ => Some (EmptyString, l)
  end.

(** The integer part: [0], or digits that do not start with [0]. *)
Definition scan_int (l : list rune) : option (string * list rune) :=
  match l with
  | RAscii a :: l' =>
      if Ascii.eqb a "0" then Some (String a EmptyString, l')
      else digits1 l
  | _ => None
  end.

Definition scan_unsigned (l : list rune) : option (string * list rune) :=
  '(i, l1) ← scan_int l; '(f, l2) ← scan_frac l1; '(e, l3) ← scan_exp l2;
  Some (i +:+ f +:+ e, l3).

Definition scan_number (l : list rune) : option (string * list rune) :=
  match l with
  | RAscii "-" :: l' => '(d, r) ← scan_unsigned l'; Some (String "-" d, r)
  | _ => scan_unsigned l
  end.

(** [w] at the front. *)
Fixpoint expect (w : list rune) (l : list rune) : option (list rune) :=
  match w, l with
  | [], _ => Some l
  | a :: w', b :: l' => if decide (a = b) then expect w' l' else None
  | _, [] => None
  end.

Definition max_depth : Z := 10000.

(** A value; [depth] is the number of enclosing arrays and objects.  The recursion
    consumes at least one rune per level of fuel. *)
Fixpoint parse_value (fuel : nat) (depth : Z) (l0 : list rune) : option (json * list rune) :=
  match fuel with
  | 0 => None
  | S fuel' =>
      let l := skip_ws l0 in
      match l with
      | RAscii a :: l1 =>
          if Ascii.eqb a "034" then
            '(s, r) ← parse_string (length l1) l1; Some (JStr s, r)
          else if Ascii.eqb a "[" then
            if (max_depth <=? depth)%Z then None else
            match skip_ws l1 with
            | RAscii "]" :: r => Some (JArr [], r)
            | _ => '(vs, r) ← parse_elems fuel' (depth + 1) l1; Some (JArr vs, r)
            end
          else if Ascii.eqb a "{" then
            if (max_depth <=? depth)%Z then None else
            match skip_ws l1 with
            | RAscii "}" :: r => Some (JObj [], r)
            | _ => '(vs, r) ← parse_members fuel' (depth + 1) l1; Some (JObj vs, r)
            end
          else if Ascii.eqb a "n" then r ← expect (ascii_runes "null") l; Some (JNull, r)
          else if Ascii.eqb a "t" then r ← expect (ascii_runes "true") l; Some (JBool true, r)
          else if Ascii.eqb a "f" then r ← expect (ascii_runes "false") l; Some (JBool false, r)
          else '(lit, r) ← scan_number l; Some (JNum lit, r)
      | _ => None
      end
  end
with parse_elems (fuel : nat) (depth : Z) (l0 : list rune) : option (list json * list rune) :=
  match fuel with
  | 0 => None
  | S fuel' =>
      '(v, l1) ← parse_value fuel' depth l0;
      match skip_ws l1 with
      | RAscii "," :: l2 => '(vs, r) ← parse_elems fuel' depth l2; Some (v :: vs, r)
      | RAscii "]" :: r => Some ([v], r)
      | _ => None
      end
  end
with parse_members (fuel : nat) (depth : Z) (l0 : list rune)
    : option (list (string * json) * list rune) :=
  match fuel with
  | 0 => None
  | S fuel' =>
      match skip_ws l0 with
      | RAscii "034" :: l1 =>
          '(k, l2) ← parse_string (length l1) l1;
          match skip_ws l2 with
          | RAscii ":" :: l3 =>
              '(v, l4) ← parse_value fuel' depth l3;
              match skip_ws l4 with
              | RAscii "," :: l5 => '(vs, r) ← parse_members fuel' depth l5; Some ((k, v) :: vs, r)
              | RAscii "}" :: r => Some ([(k, v)], r)
              | _ => None
              end
          | _ => None
          end
      | _ => None
      end
  end.

Lemma parse_elems_S fuel depth l0 :
  parse_elems (S fuel) depth l0 =
  '(v, l1) ← parse_value fuel depth l0;
  match skip_ws l1 with
  | RAscii "," :: l2 => '(vs, r) ← parse_elems fuel depth l2; Some (v :: vs, r)
  | RAscii "]" :: r => Some ([v], r)
  | _ => None
  end.
Proof. done. Qed.

(** The first value of a text and what follows it ([json.Decoder.Decode]). *)
Definition decode_first (b : bytes) : option (json * list rune) :=
  let l := runes b in parse_value (2 * S (length l)) 0 l.

(** A whole text ([json.Unmarshal]): only white space may follow the value. *)
Definition parse_json (b : bytes) : option json :=
  '(v, r) ← decode_first b;
  match skip_ws r with [] => Some v | _ => None end.

(** ** Well-formed values *)

(** The literals the program prints: unsigned decimal integers. *)
Definition plain_int (lit : string) : bool :=
  match scan_int (ascii_runes lit) with
  | Some (i, []) => bool_decide (i = lit)
  | _ => false
  end.

Fixpoint jwf (v : json) : bool :=
  match v with
  | JNull | JBool _ => true
  | JNum lit => plain_int lit
  | JStr s => utf8_valid s
  | JArr l => forallb jwf l
  | JObj l => forallb (λ kv, utf8_valid kv.1 && jwf kv.2) l
  end.

(** The same without a condition on strings. *)
Fixpoint jnums (v : json) : bool :=
  match v with
  | JNull | JBool _ | JStr _ => true
  | JNum lit => plain_int lit
  | JArr l => forallb jnums l
  | JObj l => forallb (λ kv, jnums kv.2) l
  end.

(** What becomes of text that is encoded and decoded: an invalid byte is replaced. *)
Definition repair_rune (r : rune) : rune := match r with RBad _ => replacement | _ => r end.
Definition repair_string (s : string) : string := unrunes (map repair_rune (runes s)).

Fixpoint repair (v : json) : json :=
  match v with
  | JStr s => JStr (repair_string s)
  | JArr l => JArr (map repair l)
  | JObj l => JObj (map (λ kv, (repair_string kv.1, repair kv.2)) l)
  | _ => v
  end.

(** How deeply arrays and objects are nested. *)
Fixpoint jdepth (v : json) : Z :=
  match v with
  | JArr l => 1 + foldr (λ x d, Z.max (jdepth x) d) 0 l
  | JObj l => 1 + foldr (λ kv d, Z.max (jdepth kv.2) d) 0 l
  | _ => 0
  end%Z.

Lemma repair_string_id s : utf8_valid s = true → repair_string s = s.
Proof.
  unfold utf8_valid, repair_string. intros H. rewrite <-(unrunes_runes s) at 2. f_equal.
  induction (runes s) as [|r l IH]; [done|]. cbn [forallb map] in *. apply andb_prop in H as [Hr Hl].
  rewrite IH by done. by destruct r.
Qed.

Lemma jwf_jnums v : jwf v = true → jnums v = true ∧ repair v = v.
Proof.
  induction v as [|[]|lit|s|l IH|l IH] using json_nested_ind; cbn [jwf jnums repair]; intros Hw; try done.
  - split; [done|]. by rewrite repair_string_id.
  - induction IH as [|x l Hx Hl IHl]; [done|]. cbn [forallb map] in *. apply andb_prop in Hw as [Hwx Hw].
    destruct (Hx Hwx) as [-> ->]. destruct (IHl Hw) as [-> [= ->]]. done.
  - induction IH as [|[k x] l Hx Hl IHl]; [done|]. cbn [forallb map fst snd] in *.
    apply andb_prop in Hw as [[Hk Hwx]%andb_prop Hw]. destruct (Hx Hwx) as [-> ->].
    destruct (IHl Hw) as [-> [= ->]]. by rewrite repair_string_id.
Qed.

(** ** Printing is valid UTF-8 *)

Lemma forallb_flat_map {A B} (p : B → bool) (f : A → list B) l :
  (∀ x, x ∈ l → forallb p (f x) = true) → forallb p (flat_map f l) = true.
Proof.
  induction l as [|x l IH]; intros H; [done|]. cbn [flat_map]. rewrite forallb_app.
  rewrite H by set_solver. apply IH. set_solver.
Qed.

Lemma forallb_elem {A} (p : A → bool) l x : forallb p l = true → x ∈ l → p x = true.
Proof. intros H Hx. apply (proj1 (List.forallb_forall p l)); [done|]. by apply list_elem_of_In. Qed.

Lemma esc_ascii_ok a : is_ascii a = true → forallb rune_ok (esc_ascii a) = true.
Proof. by destruct a as [[] [] [] [] [] [] [] []]; vm_compute. Qed.

(** A well-formed rune or a single invalid byte: what [runes] can yield. *)
Definition rune_fine (r : rune) : bool :=
  match r with RBad _ => true | _ => rune_ok r end.

(** Escaping yields well-formed runes even from an invalid byte. *)
Lemma esc_rune_ok r :
  rune_fine r = true → forallb rune_ok (esc_rune r) = true.
Proof.
  destruct r; cbn [esc_rune rune_fine rune_ok]; intros H.
  - by apply esc_ascii_ok.
  - cbn [forallb rune_ok]. by rewrite H.
  - repeat case_bool_decide; [done..|]. cbn [forallb rune_ok]. by rewrite H.
  - cbn [forallb rune_ok]. by rewrite H.
  - done.
Qed.

(** The runes [runes] finds are well formed or single invalid bytes. *)
Lemma runes_elem s r : r ∈ runes s → rune_fine r = true.
Proof.
  remember (String.length s) as n eqn:E. assert (String.length s ≤ n) as Hn by lia. clear E.
  revert s Hn. induction n as [|n IH]; intros s Hn; [destruct s; [set_solver|simpl in Hn; lia]|].
  destruct s as [|a s1]; [set_solver|]. cbn [String.length] in Hn. cbn [runes].
  assert (r ∈ RBad a :: runes s1 → rune_fine r = true) as Hbad.
  { intros [->|?]%elem_of_cons; [done|]. apply (IH s1); [lia|done]. }
  destruct (is_ascii a) eqn:Ea;
    [intros [->|?]%elem_of_cons; [done|]; apply (IH s1); [lia|done]|].
  destruct s1 as [|b s2]; [done|]. cbn [String.length] in Hn.
  destruct (ok2 a b) eqn:E2;
    [intros [->|?]%elem_of_cons; [done|]; apply (IH s2); [lia|done]|].
  destruct s2 as [|c s3]; [done|]. cbn [String.length] in Hn.
  destruct (ok3 a b c) eqn:E3;
    [intros [->|?]%elem_of_cons; [done|]; apply (IH s3); [lia|done]|].
  destruct s3 as [|d s4]; [done|]. cbn [String.length] in Hn.
  destruct (ok4 a b c d) eqn:E4;
    [intros [->|?]%elem_of_cons; [done|]; apply (IH s4); [lia|done]|done].
Qed.

(** What holds of every rune that is printed. *)
Section printed.
  Context (P : rune → bool).
  Hypothesis P_escaped : ∀ r, rune_fine r = true → forallb P (esc_rune r) = true.
  Hypothesis P_digit : ∀ a, is_digit a = true → P (RAscii a) = true.
  Hypothesis P_syntax : forallb P (quote :: ascii_runes "nulltruefalse[]{},:") = true.

Lemma P_syntax_elem r : bool_decide (r ∈ quote :: ascii_runes "nulltruefalse[]{},:") = true → P r = true.
Proof using Type*. intros ?%bool_decide_eq_true. by eapply forallb_elem. Qed.

Lemma print_string_all s : forallb P (print_string s) = true.
Proof using Type*.
  unfold print_string. cbn [forallb]. rewrite forallb_app, forallb_flat_map.
  - cbn [forallb]. rewrite !P_syntax_elem by reflexivity. done.
  - intros r Hr. apply P_escaped. by eapply runes_elem.
Qed.

Lemma commas_all l : Forall (λ x, forallb P x = true) l → forallb P (commas l) = true.
Proof using Type*.
  induction 1 as [|x [|y l] Hx Hl IH]; [done|done|].
  change (commas (x :: y :: l)) with (x ++ RAscii "," :: commas (y :: l)).
  rewrite forallb_app, Hx. cbn [forallb]. rewrite P_syntax_elem by reflexivity. done.
Qed.

Lemma digits_all l ds rest : span_digits l = (ds, rest) → forallb P (ascii_runes ds) = true.
Proof using Type*.
  revert ds rest. induction l as [|r l IH]; cbn [span_digits]; intros ds rest; [by intros [= <- <-]|].
  destruct r; try by intros [= <- <-].
  destruct (is_digit a) eqn:Ea; [|by intros [= <- <-]].
  destruct (span_digits l) as [d r]. intros [= <- <-]. cbn [ascii_runes forallb].
  rewrite P_digit by done. by eapply IH.
Qed.

Lemma plain_int_all lit : plain_int lit = true → forallb P (ascii_runes lit) = true.
Proof using Type*.
  unfold plain_int, scan_int, digits1. destruct lit as [|a lit]; [done|]. cbn [ascii_runes].
  destruct (Ascii.eqb_spec a "0") as [->|].
  { destruct lit; [|discriminate]. intros _. cbn. by rewrite P_digit. }
  destruct (span_digits _) as [[|b d] [|? ?]] eqn:E; try done.
  intros H%bool_decide_eq_true. apply digits_all in E. by rewrite H in E.
Qed.

Lemma print_runes_all v : jnums v = true → forallb P (print_runes v) = true.
Proof using Type*.
  induction v as [|[]|lit|s|l IH|l IH] using json_nested_ind; cbn [jnums print_runes]; intros Hw.
  1-3: cbn [ascii_runes forallb]; rewrite !P_syntax_elem by reflexivity; done.
  - by apply plain_int_all.
  - apply print_string_all.
  - cbn [forallb]. rewrite forallb_app, commas_all; cbn [forallb]; [by rewrite !P_syntax_elem by reflexivity|].
    apply Forall_map. rewrite Forall_forall in IH |- *. intros x Hx. apply IH; [done|]. by eapply forallb_elem.
  - cbn [forallb]. rewrite forallb_app, commas_all; cbn [forallb]; [by rewrite !P_syntax_elem by reflexivity|].
    apply Forall_map. rewrite Forall_forall in IH |- *. intros x Hx.
    pose proof (forallb_elem _ _ x Hw Hx) as Hx'. cbn beta in Hx' |- *. rewrite forallb_app, print_string_all.
    cbn [forallb]. rewrite (IH x Hx Hx'), P_syntax_elem by reflexivity. done.
Qed.

End printed.

Lemma print_runes_ok v : jnums v = true → forallb rune_ok (print_runes v) = true.
Proof.
  apply print_runes_all; [apply esc_rune_ok| |done].
  intros a Ha. cbn. unfold is_ascii, is_digit, in_range in *. lia.
Qed.

(** ** Parsing what was printed *)

Lemma esc_ascii_step fuel a l :
  is_ascii a = true →
  parse_string (S fuel) (esc_ascii a ++ l) =
    '(s, rest) ← parse_string fuel l; Some (String a s, rest).
Proof. by destruct a as [[] [] [] [] [] [] [] []]. Qed.

(** One escaped rune is read in one round; an invalid byte was printed as the replacement. *)
Lemma esc_rune_step fuel r l :
  rune_fine r = true →
  parse_string (S fuel) (esc_rune r ++ l) =
    '(s, rest) ← parse_string fuel l; Some (rune_bytes (repair_rune r) +:+ s, rest).
Proof.
  destruct r; cbn [esc_rune rune_fine rune_ok repair_rune]; intros Hr; [by apply esc_ascii_step|done| |done|done].
  case_bool_decide as E1; [by simplify_eq|]. case_bool_decide as E2; [by simplify_eq|]. done.
Qed.

Lemma esc_runes_read ts fuel rest :
  forallb rune_fine ts = true → length ts < fuel →
  parse_string fuel (flat_map esc_rune ts ++ quote :: rest) = Some (unrunes (map repair_rune ts), rest).
Proof.
  revert fuel. induction ts as [|r ts IH]; intros [|fuel] Hok Hf; try (simpl in Hf; lia).
  - done.
  - cbn [forallb] in Hok. apply andb_prop in Hok as [Hr Hts]. cbn [flat_map map unrunes].
    rewrite <-app_assoc, esc_rune_step, IH by (done || (simpl in Hf; lia)). done.
Qed.

Lemma runes_fine s : forallb rune_fine (runes s) = true.
Proof. apply List.forallb_forall. intros r Hr. by eapply runes_elem, list_elem_of_In. Qed.

(** Repaired text is valid, so it is not changed again. *)
Lemma repair_string_valid s : utf8_valid (repair_string s) = true.
Proof.
  assert (forallb rune_ok (map repair_rune (runes s)) = true) as H.
  { pose proof (runes_fine s) as Hf. induction (runes s) as [|r l IH]; [done|]. cbn [forallb map] in *.
    apply andb_prop in Hf as [Hr Hl]. rewrite IH, andb_true_r by done. by destruct r. }
  unfold utf8_valid, repair_string. by rewrite runes_unrunes.
Qed.

Lemma repair_string_idemp s : repair_string (repair_string s) = repair_string s.
Proof. apply repair_string_id, repair_string_valid. Qed.

Lemma esc_rune_nonempty r : 1 ≤ length (esc_rune r).
Proof.
  destruct r; cbn [esc_rune]; repeat case_bool_decide; try (simpl; lia).
  unfold esc_ascii. repeat case_match; simpl; lia.
Qed.

Lemma flat_map_esc_length ts : length ts ≤ length (flat_map esc_rune ts).
Proof.
  induction ts as [|r ts IH]; [done|]. cbn [flat_map]. rewrite length_app. simpl.
  pose proof (esc_rune_nonempty r). lia.
Qed.

(** Reading back a printed string. *)
Lemma parse_print_string s rest l :
  l = flat_map esc_rune (runes s) ++ quote :: rest →
  parse_string (length l) l = Some (repair_string s, rest).
Proof.
  intros ->. rewrite esc_runes_read; [done|apply runes_fine|].
  rewrite length_app. simpl. pose proof (flat_map_esc_length (runes s)). lia.
Qed.

(** What may follow a number: a delimiter or the newline an encoder appends. *)
Definition num_end (rest : list rune) : Prop :=
  match rest with
  | RAscii a :: _ => a = ","%char ∨ a = "]"%char ∨ a = "}"%char ∨ a = "010"%char
  | [] => True
  | _ => False
  end.

Lemma span_digits_app lit rest :
  span_digits (ascii_runes lit) = (lit, []) → num_end rest →
  span_digits (ascii_runes lit ++ rest) = (lit, rest).
Proof.
  intros H He. induction lit as [|a lit IH]; cbn [ascii_runes span_digits app] in *.
  - destruct rest as [|[] ]; try done. simpl in *. by destruct He as [->|[->|[->| ->]]].
  - destruct (is_digit a); [|done]. destruct (span_digits (ascii_runes lit)) as [d r] eqn:E.
    simplify_eq. by rewrite IH.
Qed.

Lemma scan_number_plain lit rest :
  plain_int lit = true → num_end rest → scan_number (ascii_runes lit ++ rest) = Some (lit, rest).
Proof.
  unfold plain_int. intros Hp He.
  assert (scan_int (ascii_runes lit ++ rest) = Some (lit, rest)) as Hs.
  { destruct lit as [|a lit]; [done|]. cbn [ascii_runes app scan_int] in *.
    destruct (Ascii.eqb_spec a "0") as [->|Ha]; [by destruct lit|].
    unfold digits1 in *. destruct (span_digits (RAscii a :: ascii_runes lit)) as [d r] eqn:E.
    destruct d as [|b d]; [done|]. destruct r; [|done].
    apply bool_decide_eq_true in Hp. rewrite Hp in E.
    pose proof (span_digits_app (String a lit) rest E He) as E'. cbn [ascii_runes app] in E'.
    by rewrite E'. }
  assert (scan_number (ascii_runes lit ++ rest) = scan_unsigned (ascii_runes lit ++ rest)) as ->.
  { destruct lit as [|a lit]; [done|]. cbn [ascii_runes app scan_number].
    destruct a as [[] [] [] [] [] [] [] []]; try done. }
  unfold scan_unsigned. rewrite Hs. cbn [mbind option_bind].
  destruct rest as [|[] ]; cbn; rewrite ?str_app_nil_r; try done.
  destruct He as [->|[->|[->| ->]]]; cbn; by rewrite str_app_nil_r.
Qed.

(** A printed value starts with a rune that is no white space. *)
Definition starts_value (l : list rune) : Prop :=
  ∃ a l', l = RAscii a :: l' ∧ is_ws (RAscii a) = false ∧ a ≠ "]"%char.

Lemma plain_int_starts lit :
  plain_int lit = true → ∃ a lit', lit = String a lit' ∧ is_digit a = true.
Proof.
  unfold plain_int. destruct lit as [|a lit]; [done|]. cbn [ascii_runes scan_int].
  destruct (Ascii.eqb_spec a "0") as [->|_]; [by eauto|].
  unfold digits1. cbn [span_digits]. destruct (is_digit a) eqn:E; [by eauto|done].
Qed.

Lemma digit_char_is_digit d : (0 ≤ d < 10)%Z → is_digit (digit_char d) = true.
Proof.
  intros Hd. assert (∃ n, d = Z.of_nat n ∧ n < 10) as (n & -> & Hn) by (exists (Z.to_nat d); lia).
  do 10 (destruct n as [|n]; [done|]). lia.
Qed.

(** A digit starts no other kind of value. *)
Lemma digit_starts_number a :
  is_digit a = true →
  is_ws (RAscii a) = false ∧ a ≠ "]"%char ∧ Ascii.eqb a "034" = false ∧ Ascii.eqb a "[" = false ∧
  Ascii.eqb a "{" = false ∧ Ascii.eqb a "n" = false ∧ Ascii.eqb a "t" = false ∧ Ascii.eqb a "f" = false.
Proof. by destruct a as [[] [] [] [] [] [] [] []]; vm_compute. Qed.

Lemma print_runes_starts v : jnums v = true → starts_value (print_runes v).
Proof.
  destruct v as [|[]|lit|s|l|l]; cbn [jnums print_runes]; intros Hw;
    try (eexists _, _; split; [reflexivity|done]).
  destruct (plain_int_starts lit Hw) as (a & lit' & -> & Ha).
  destruct (digit_starts_number a Ha) as (? & ? & _). by eexists a, _.
Qed.

Lemma skip_ws_starts l rest : starts_value l → skip_ws (l ++ rest) = l ++ rest.
Proof. intros (a & l' & -> & Ha & _). cbn [app skip_ws]. by rewrite Ha. Qed.

Lemma starts_value_length l : starts_value l → 1 ≤ length l.
Proof. intros (a & l' & -> & _). simpl. lia. Qed.

(** What the induction on values provides for one value. *)
Definition reads_back (v : json) : Prop :=
  ∀ fuel depth rest,
    jnums v = true → (depth + jdepth v ≤ max_depth)%Z → 2 * length (print_runes v) ≤ fuel →
    num_end rest → parse_value fuel depth (print_runes v ++ rest) = Some (repair v, rest).

Lemma commas_cons x y l : commas (x :: y :: l) = x ++ RAscii "," :: commas (y :: l).
Proof. done. Qed.

Lemma elems_read_back l fuel depth rest :
  Forall reads_back l → l ≠ [] → forallb jnums l = true →
  (∀ x, x ∈ l → depth + jdepth x ≤ max_depth)%Z →
  2 * length (commas (map print_runes l)) + 1 ≤ fuel →
  parse_elems fuel depth (commas (map print_runes l) ++ RAscii "]" :: rest) = Some (map repair l, rest).
Proof.
  intros Hl. revert fuel. induction Hl as [|x [|y l] Hx Hl IH]; intros [|fuel] Hne Hw Hd Hf; try done;
    try lia; cbn [forallb] in Hw; apply andb_prop in Hw as [Hwx Hwl].
  - cbn [map commas] in *. cbn [parse_elems]. rewrite Hx; [done|done| |lia|simpl; tauto].
    apply Hd. set_solver.
  - cbn [map] in *. rewrite commas_cons in *. rewrite length_app in Hf. cbn [length] in Hf.
    cbn [parse_elems]. rewrite <-app_assoc, <-app_comm_cons.
    rewrite Hx; [|done| |lia|simpl; tauto]; [|apply Hd; set_solver]. cbn -[parse_elems commas].
    rewrite IH; [done|done|done| |lia]. intros z Hz. apply Hd. set_solver.
Qed.

(** One member and what follows it. *)
Lemma member_step fuel depth k x rest :
  reads_back x → jnums x = true → (depth + jdepth x ≤ max_depth)%Z →
  2 * length (print_runes x) ≤ fuel → num_end rest →
  parse_members (S fuel) depth (print_member (k, x) ++ rest) =
    match skip_ws rest with
    | RAscii "," :: l5 =>
        '(vs, r) ← parse_members fuel depth l5; Some ((repair_string k, repair x) :: vs, r)
    | RAscii "}" :: r => Some ([(repair_string k, repair x)], r)
    | _ => None
    end.
Proof.
  intros Hx Hw Hd Hf He. unfold print_member, print_string, quote at 1. cbn [fst snd].
  rewrite <-!app_comm_cons, <-!app_assoc. change ([quote] ++ ?l) with (quote :: l).
  change (parse_members (S fuel) depth (RAscii "034" :: ?l)) with
    ('(k, l2) ← parse_string (length l) l;
     match skip_ws l2 with
     | RAscii ":" :: l3 =>
         '(v, l4) ← parse_value fuel depth l3;
         match skip_ws l4 with
         | RAscii "," :: l5 => '(vs, r) ← parse_members fuel depth l5; Some ((k, v) :: vs, r)
         | RAscii "}" :: r => Some ([(k, v)], r)
         | _ => None
         end
     | _ => None
     end).
  rewrite (parse_print_string k (RAscii ":" :: print_runes x ++ rest)) by done.
  cbn -[parse_members parse_value skip_ws].
  change (skip_ws (RAscii ":" :: ?l)) with (RAscii ":" :: l). cbn match. by rewrite Hx.
Qed.

Lemma members_read_back l fuel depth rest :
  Forall (λ kv, reads_back kv.2) l → l ≠ [] →
  forallb (λ kv, jnums kv.2) l = true →
  (∀ kv, kv ∈ l → depth + jdepth kv.2 ≤ max_depth)%Z →
  2 * length (commas (map print_member l)) + 1 ≤ fuel →
  parse_members fuel depth (commas (map print_member l) ++ RAscii "}" :: rest) =
    Some (map (λ kv, (repair_string kv.1, repair kv.2)) l, rest).
Proof.
  intros Hl. revert fuel.
  induction Hl as [|[k x] l Hx Hl IH]; intros [|fuel] Hne Hw Hd Hf; try done; try lia.
  cbn [forallb fst snd] in Hw. apply andb_prop in Hw as [Hwx Hwl].
  assert (depth + jdepth x ≤ max_depth)%Z by (apply (Hd (k, x)); set_solver).
  assert (length (print_runes x) + 1 ≤ length (print_member (k, x))).
  { unfold print_member. rewrite length_app. simpl. lia. }
  destruct l as [|y l]; cbn [map] in *; [|rewrite commas_cons in *].
  - cbn [commas] in *. rewrite member_step; [done|done|done|done|lia|simpl; tauto].
  - rewrite length_app in Hf. cbn [length] in Hf. rewrite <-app_assoc, <-app_comm_cons.
    rewrite member_step; [|done|done|done|lia|simpl; tauto].
    cbn -[parse_members commas]. rewrite IH; [done|done|done| |lia].
    intros z Hz. apply Hd. set_solver.
Qed.

Lemma jdepth_arr_elem l x : x ∈ l → (jdepth x + 1 ≤ jdepth (JArr l))%Z.
Proof. cbn [jdepth]. induction l as [|y l IH]; [set_solver|]. cbn [foldr]. set_solver by lia. Qed.

Lemma jdepth_obj_elem l kv : kv ∈ l → (jdepth kv.2 + 1 ≤ jdepth (JObj l))%Z.
Proof. cbn [jdepth]. induction l as [|y l IH]; [set_solver|]. cbn [foldr]. set_solver by lia. Qed.

Lemma jdepth_nonneg v : (0 ≤ jdepth v)%Z.
Proof.
  destruct v as [| | | |l|l]; cbn [jdepth]; try lia; induction l as [|y l IH]; cbn [foldr]; lia.
Qed.

Lemma parse_arr_step fuel depth l :
  (depth < max_depth)%Z → (∀ r, skip_ws l ≠ RAscii "]" :: r) →
  parse_value (S fuel) depth (RAscii "[" :: l) =
    '(vs, r) ← parse_elems fuel (depth + 1) l; Some (JArr vs, r).
Proof.
  intros Hd Hl. change (parse_value (S fuel) depth (RAscii "[" :: l)) with
    (if (max_depth <=? depth)%Z then None else
     match skip_ws l with
     | RAscii "]" :: r => Some (JArr [], r)
     | _ => '(vs, r) ← parse_elems fuel (depth + 1) l; Some (JArr vs, r)
     end).
  rewrite (proj2 (Z.leb_gt _ _)) by done.
  destruct (skip_ws l) as [|[a|? ?|? ? ?|? ? ? ?|?] r] eqn:E; try done.
  destruct (decide (a = "]"%char)) as [->|]; [by destruct (Hl r)|].
  by destruct a as [[] [] [] [] [] [] [] []].
Qed.

Lemma parse_obj_step fuel depth l :
  (depth < max_depth)%Z → (∀ r, skip_ws l ≠ RAscii "}" :: r) →
  parse_value (S fuel) depth (RAscii "{" :: l) =
    '(vs, r) ← parse_members fuel (depth + 1) l; Some (JObj vs, r).
Proof.
  intros Hd Hl. change (parse_value (S fuel) depth (RAscii "{" :: l)) with
    (if (max_depth <=? depth)%Z then None else
     match skip_ws l with
     | RAscii "}" :: r => Some (JObj [], r)
     | _ => '(vs, r) ← parse_members fuel (depth + 1) l; Some (JObj vs, r)
     end).
  rewrite (proj2 (Z.leb_gt _ _)) by done.
  destruct (skip_ws l) as [|[a|? ?|? ? ?|? ? ? ?|?] r] eqn:E; try done.
  destruct (decide (a = "}"%char)) as [->|]; [by destruct (Hl r)|].
  by destruct a as [[] [] [] [] [] [] [] []].
Qed.

(** Every printed value is read back with its strings repaired, whatever follows it. *)
Lemma value_reads_back v : reads_back v.
Proof.
  induction v as [|[]|lit|s|l IH|l IH] using json_nested_ind; intros fuel depth rest Hw Hd Hf He;
    pose proof (starts_value_length _ (print_runes_starts _ Hw)) as Hlen;
    (destruct fuel as [|fuel]; [lia|]); clear Hlen; try done.
  - destruct (plain_int_starts lit Hw) as (a & lit' & E & Ha).
    destruct (digit_starts_number a Ha) as (H1 & _ & H2 & H3 & H4 & H5 & H6 & H7).
    pose proof (scan_number_plain lit rest Hw He) as Hs. cbn [print_runes]. rewrite E in Hs |- *.
    cbn [ascii_runes app] in Hs |- *. cbn [parse_value skip_ws]. rewrite H1, H2, H3, H4, H5, H6, H7.
    by rewrite Hs.
  - cbn [print_runes]. unfold print_string, quote at 1. rewrite <-app_comm_cons, <-app_assoc.
    change (parse_value (S fuel) depth (RAscii "034" :: ?l)) with
      ('(s, r) ← parse_string (length l) l; Some (JStr s, r)).
    by rewrite (parse_print_string s rest).
  - cbn [print_runes] in *. rewrite <-app_comm_cons, <-app_assoc. change ([?a] ++ ?l) with (a :: l).
    destruct l as [|x l].
    { cbn. case_match eqn:Em; [|done]. simpl in Hd. lia. }
    assert (jnums x = true) as Hwx by (cbn [jnums forallb] in Hw; by apply andb_prop in Hw as [? _]).
    destruct (print_runes_starts x Hwx) as (a & l' & Ex & Hws & Hbr).
    rewrite parse_arr_step; [|pose proof (jdepth_arr_elem (x :: l) x); pose proof (jdepth_nonneg x);
      set_solver by lia|].
    + rewrite elems_read_back; [done|done|done|done| |].
      * intros y Hy. pose proof (jdepth_arr_elem (x :: l) y Hy). lia.
      * cbn [length] in Hf. rewrite length_app in Hf. simpl in Hf |- *. lia.
    + destruct l; cbn [map commas]; rewrite Ex; cbn [app skip_ws]; rewrite Hws; intros r; congruence.
  - cbn [print_runes] in *. rewrite <-app_comm_cons, <-app_assoc. change ([?a] ++ ?l) with (a :: l).
    destruct l as [|x l].
    { cbn. case_match eqn:Em; [|done]. simpl in Hd. lia. }
    rewrite parse_obj_step; [|pose proof (jdepth_obj_elem (x :: l) x); pose proof (jdepth_nonneg x.2);
      set_solver by lia|].
    + change (λ kv, print_string kv.1 ++ RAscii ":" :: print_runes kv.2) with print_member in *.
      rewrite members_read_back; [done|done|done|done| |].
      * intros y Hy. pose proof (jdepth_obj_elem (x :: l) y Hy). lia.
      * cbn [length] in Hf. rewrite length_app in Hf. cbn [length] in Hf. lia.
    + destruct l; cbn [map commas]; done.
Qed.

Lemma parse_print_repair v :
  jnums v = true → (jdepth v ≤ max_depth)%Z → parse_json (print_json v) = Some (repair v).
Proof.
  intros Hw Hd. unfold parse_json, decode_first, print_json.
  rewrite runes_unrunes by by apply print_runes_ok.
  rewrite <-(app_nil_r (print_runes v)) at 2. rewrite value_reads_back; [done|done|lia|lia|done].
Qed.

Lemma parse_print_json v : jwf v = true → (jdepth v ≤ max_depth)%Z → parse_json (print_json v) = Some v.
Proof. intros [Hn E]%jwf_jnums Hd. by rewrite parse_print_repair, E. Qed.

(** A decoder that reads a stream stops after the first value: what follows is left. *)
Lemma decode_first_print v rest :
  jwf v = true → (jdepth v ≤ max_depth)%Z → num_end (runes rest) →
  decode_first (print_json v +:+ rest) = Some (v, runes rest).
Proof.
  intros [Hn E]%jwf_jnums Hd He. unfold decode_first, print_json.
  rewrite runes_app_ok by by apply print_runes_ok.
  rewrite value_reads_back; [by rewrite E|done|lia| |done]. rewrite length_app. lia.
Qed.

(** ** Parsed strings are valid UTF-8 *)

(** Whatever text was read, the strings of the value are valid UTF-8: invalid bytes and
    lone surrogates were replaced. *)
Fixpoint jstr_ok (v : json) : bool :=
  match v with
  | JStr s => utf8_valid s
  | JArr l => forallb jstr_ok l
  | JObj l => forallb (λ kv, utf8_valid kv.1 && jstr_ok kv.2) l
  | _ => true
  end.

Lemma code_byte_of z : (0 ≤ z < 256)%Z → code (byte_of z) = z.
Proof. intros H. unfold code, byte_of. rewrite N_ascii_embedding by lia. lia. Qed.

Lemma encode_rune_ok z : (0 ≤ z)%Z → rune_ok (encode_rune z) = true.
Proof.
  intros Hz. unfold encode_rune.
  pose proof (Z.mod_pos_bound z 64 ltac:(lia)) as H1.
  pose proof (Z.mod_pos_bound (z / 64) 64 ltac:(lia)) as H2.
  pose proof (Z.mod_pos_bound (z / 4096) 64 ltac:(lia)) as H3.
  repeat case_match; try done; cbn [rune_ok]; unfold ok2, ok3, ok4, is_ascii, is_cont, in_range;
    rewrite !code_byte_of by (Z.to_euclidean_division_equations; lia);
    Z.to_euclidean_division_equations; lia.
Qed.

Lemma utf8_valid_rune r s : rune_ok r = true → utf8_valid s = true → utf8_valid (rune_bytes r +:+ s) = true.
Proof. intros Hr Hs. unfold utf8_valid. rewrite runes_cons by done. cbn [forallb]. by rewrite Hr. Qed.

Lemma hex_val_nonneg r z : hex_val r = Some z → (0 ≤ z < 16)%Z.
Proof.
  destruct r as [a| | | |]; try done. cbn [hex_val]. unfold in_range.
  repeat case_match; intros [= <-]; lia.
Qed.

Lemma hex4_spec l u rest : hex4 l = Some (u, rest) → (0 ≤ u)%Z ∧ ∃ w, l = w ++ rest.
Proof.
  destruct l as [|a [|b [|c [|d l]]]]; try done. cbn [hex4].
  intros (x & Hx & (y & Hy & (z & Hz & (w & Hw & [= <- <-])%bind_Some)%bind_Some)%bind_Some)%bind_Some.
  apply hex_val_nonneg in Hx, Hy, Hz, Hw. split; [lia|]. by exists [a; b; c; d].
Qed.

Lemma hex_rune_spec u l r rest :
  (0 ≤ u)%Z → hex_rune u l = (r, rest) → rune_ok r = true ∧ ∃ w, l = w ++ rest.
Proof.
  intros Hu. unfold hex_rune. case_match; [|intros [= <- <-]; split; [by apply encode_rune_ok|by exists []]].
  assert ((replacement, l) = (r, rest) → rune_ok r = true ∧ ∃ w, l = w ++ rest) as Hrep.
  { intros [= <- <-]. split; [done|by exists []]. }
  destruct l as [|[a| | | |] [|[b| | | |] l]]; try (by repeat case_match; intros; apply Hrep);
    repeat case_match; try (by intros; apply Hrep). intros [= <- <-].
  match goal with H : hex4 _ = Some _ |- _ => apply hex4_spec in H as [Hu2 [w ->]] end.
  split; [apply encode_rune_ok; lia|]. subst. eexists (_ :: _ :: w). done.
Qed.

Lemma parse_string_valid fuel l s rest :
  Forall (λ r, rune_fine r = true) l → parse_string fuel l = Some (s, rest) →
  utf8_valid s = true ∧ Forall (λ r, rune_fine r = true) rest.
Proof.
  revert l s rest. induction fuel as [|fuel IH]; intros l s rest Hl; [done|]. cbn [parse_string].
  destruct l as [|r l1]; [done|]. apply Forall_cons in Hl as [Hr Hl].
  assert (∀ r' l', rune_ok r' = true → Forall (λ r, rune_fine r = true) l' →
    ('(s0, rest0) ← parse_string fuel l'; Some (rune_bytes r' +:+ s0, rest0)) = Some (s, rest) →
    utf8_valid s = true ∧ Forall (λ r, rune_fine r = true) rest) as Hstep.
  { intros r' l' Hr' Hl' ([s0 rest0] & E & [= <- <-])%bind_Some. apply IH in E as [? ?]; [|done].
    split; [by apply utf8_valid_rune|done]. }
  destruct r as [a|a b|a b c|a b c d|a]; try (by apply Hstep).
  case_match; [by intros [= <- <-]|]. case_match; [|case_match; [done|by apply (Hstep (RAscii a))]].
  destruct l1 as [|[b| | | |] l2]; try done. apply Forall_cons in Hl as [Hb Hl].
  case_match.
  - intros ([u l3] & [Hu [w ->]]%hex4_spec & Hk)%bind_Some.
    destruct (hex_rune u l3) as [r' l4] eqn:Er. apply hex_rune_spec in Er as [Hr' [w' ->]]; [|done].
    rewrite !Forall_app in Hl. eapply Hstep; [done| |done]. tauto.
  - intros (c & Hc & Hk)%bind_Some. apply (Hstep (RAscii c) l2); [|done|done].
    revert Hc. unfold simple_escape. repeat case_match; intros [= <-]; done.
Qed.

(** *** What is left after reading is a suffix of the text *)

Lemma skip_ws_suffix l : skip_ws l `suffix_of` l.
Proof.
  induction l as [|r l IH]; [done|]. cbn [skip_ws]. case_match; [by apply suffix_cons_r|done].
Qed.

Lemma expect_suffix w l rest : expect w l = Some rest → rest `suffix_of` l.
Proof.
  revert l. induction w as [|a w IH]; intros [|b l]; cbn [expect]; try by intros [= <-].
  case_decide as E; [|done]. intros Hk. apply suffix_cons_r. by apply IH.
Qed.

Lemma span_digits_suffix l d rest : span_digits l = (d, rest) → rest `suffix_of` l.
Proof.
  revert d rest. induction l as [|r l IH]; cbn [span_digits]; intros ds rest; [by intros [= <- <-]|].
  destruct r; try by intros [= <- <-]. case_match; [|by intros [= <- <-]].
  destruct (span_digits l) as [d' r']. intros [= <- <-]. apply suffix_cons_r. by eapply IH.
Qed.

Lemma digits1_suffix l d rest : digits1 l = Some (d, rest) → rest `suffix_of` l.
Proof.
  unfold digits1. destruct (span_digits l) as [[|a s] r] eqn:E; [done|]. intros [= <- <-].
  by eapply span_digits_suffix.
Qed.

Lemma scan_int_suffix l d rest : scan_int l = Some (d, rest) → rest `suffix_of` l.
Proof.
  destruct l as [|[] l]; try done. cbn [scan_int]. case_match; [|by apply digits1_suffix].
  intros [= <- <-]. by apply suffix_cons_r.
Qed.

Lemma scan_frac_suffix l d rest : scan_frac l = Some (d, rest) → rest `suffix_of` l.
Proof.
  unfold scan_frac. intros H. repeat case_match; simplify_eq; try done.
  apply bind_Some in H as ([d' r'] & E & [= <- <-]). apply suffix_cons_r. by eapply digits1_suffix.
Qed.

Lemma scan_exp_suffix l d rest : scan_exp l = Some (d, rest) → rest `suffix_of` l.
Proof.
  unfold scan_exp. intros H. repeat case_match; simplify_eq; try done;
    apply bind_Some in H as ([d' r'] & E & [= <- <-]); apply digits1_suffix in E;
    repeat first [done | apply suffix_cons_r].
Qed.

Lemma scan_unsigned_suffix l d rest : scan_unsigned l = Some (d, rest) → rest `suffix_of` l.
Proof.
  unfold scan_unsigned. intros ([i l1] & Hi & ([f l2] & Hf & ([e l3] & He & [= <- <-])%bind_Some)%bind_Some)%bind_Some.
  apply scan_int_suffix in Hi. apply scan_frac_suffix in Hf. apply scan_exp_suffix in He.
  by do 2 (etrans; [eassumption|]).
Qed.

Lemma scan_number_suffix l d rest : scan_number l = Some (d, rest) → rest `suffix_of` l.
Proof.
  unfold scan_number. intros H. repeat case_match; try (by eapply scan_unsigned_suffix).
  apply bind_Some in H as ([d' r'] & E & [= <- <-]). apply suffix_cons_r. by eapply scan_unsigned_suffix.
Qed.

Lemma parse_string_suffix fuel l s rest : parse_string fuel l = Some (s, rest) → rest `suffix_of` l.
Proof.
  revert l s rest. induction fuel as [|fuel IH]; intros l s rest; [done|]. cbn [parse_string].
  destruct l as [|r l1]; [done|].
  assert (∀ f l', l' `suffix_of` l1 →
    ('(s0, rest0) ← parse_string fuel l'; Some (f s0, rest0)) = Some (s, rest) →
    rest `suffix_of` r :: l1) as Hstep.
  { intros f l' Hl' ([s0 rest0] & E & [= <- <-])%bind_Some. apply IH in E.
    apply suffix_cons_r. by etrans. }
  destruct r as [a|a b|a b c|a b c d|a]; try (by apply Hstep).
  case_match; [intros [= <- <-]; by apply suffix_cons_r|].
  case_match; [|case_match; [done|by apply (Hstep (String a))]].
  destruct l1 as [|[b| | | |] l2]; try done. case_match.
  - intros ([u l3] & [Hu [w ->]]%hex4_spec & Hk)%bind_Some.
    destruct (hex_rune u l3) as [r' l4] eqn:Er. apply hex_rune_spec in Er as [Hr' [w' ->]]; [|done].
    eapply Hstep; [|done]. apply suffix_cons_r. exists (w ++ w'). by rewrite app_assoc.
  - intros (c & Hc & Hk)%bind_Some. apply (Hstep (String c) l2); [|done]. by apply suffix_cons_r.
Qed.

Lemma fine_suffix l l' :
  l' `suffix_of` l → Forall (λ r, rune_fine r = true) l → Forall (λ r, rune_fine r = true) l'.
Proof. intros [w ->]. rewrite Forall_app. tauto. Qed.

Lemma suffix_skip l l1 r : skip_ws l = r :: l1 → l1 `suffix_of` l.
Proof. intros E. pose proof (skip_ws_suffix l) as H. rewrite E in H. by eapply suffix_cons_l. Qed.

(** Reading a value, the elements of an array or the members of an object. *)
Definition reads_valid (fuel : nat) : Prop :=
  (∀ d l v r, Forall (λ r, rune_fine r = true) l → parse_value fuel d l = Some (v, r) →
    jstr_ok v = true ∧ r `suffix_of` l) ∧
  (∀ d l vs r, Forall (λ r, rune_fine r = true) l → parse_elems fuel d l = Some (vs, r) →
    forallb jstr_ok vs = true ∧ r `suffix_of` l) ∧
  (∀ d l vs r, Forall (λ r, rune_fine r = true) l → parse_members fuel d l = Some (vs, r) →
    forallb (λ kv, utf8_valid kv.1 && jstr_ok kv.2) vs = true ∧ r `suffix_of` l).

Lemma parse_elems_valid fuel : reads_valid fuel →
  ∀ d l vs r, Forall (λ r, rune_fine r = true) l → parse_elems (S fuel) d l = Some (vs, r) →
    forallb jstr_ok vs = true ∧ r `suffix_of` l.
Proof.
  intros (Hv & He & _) d l vs r Hl. cbn [parse_elems].
  intros ([v l1] & E & Hk)%bind_Some. apply Hv in E as [Hok Hs]; [|done].
  destruct (skip_ws l1) as [|x l2] eqn:Ews; [done|]. apply suffix_skip in Ews.
  assert (l2 `suffix_of` l) as Hs2 by by etrans.
  repeat case_match; try done; simplify_eq.
  - split; [|done]. cbn [forallb]. by rewrite Hok.
  - apply bind_Some in Hk as ([vs' r'] & E & [= <- <-]).
    apply He in E as [Hoks Hs3]; [|by eapply fine_suffix]. cbn [forallb]. rewrite Hok, Hoks.
    split; [done|by etrans].
Qed.

Lemma parse_members_valid fuel : reads_valid fuel →
  ∀ d l vs r, Forall (λ r, rune_fine r = true) l → parse_members (S fuel) d l = Some (vs, r) →
    forallb (λ kv, utf8_valid kv.1 && jstr_ok kv.2) vs = true ∧ r `suffix_of` l.
Proof.
  intros (Hv & _ & Hm) d l vs r Hl. cbn [parse_members].
  destruct (skip_ws l) as [|x l1] eqn:Ews; [done|]. apply suffix_skip in Ews.
  intros Hk. assert (∃ k l2, parse_string (length l1) l1 = Some (k, l2) ∧
    match skip_ws l2 with
    | RAscii ":" :: l3 =>
        '(v, l4) ← parse_value fuel d l3;
        match skip_ws l4 with
        | RAscii "," :: l5 => '(vs, r) ← parse_members fuel d l5; Some ((k, v) :: vs, r)
        | RAscii "}" :: r => Some ([(k, v)], r)
        | _ => None
        end
    | _ => None
    end = Some (vs, r)) as (k & l2 & Ek & Hk2).
  { repeat case_match; try done. apply bind_Some in Hk as ([k l2] & Ek & Hk2). by exists k, l2. }
  clear Hk. assert (Forall (λ r, rune_fine r = true) l1) as Hl1 by by eapply fine_suffix.
  pose proof (parse_string_suffix _ _ _ _ Ek) as Hs2.
  apply parse_string_valid in Ek as [Hkv Hl2]; [|done].
  destruct (skip_ws l2) as [|y l3] eqn:Ews2; [done|]. apply suffix_skip in Ews2.
  assert (∃ v l4, parse_value fuel d l3 = Some (v, l4) ∧
    match skip_ws l4 with
    | RAscii "," :: l5 => '(vs, r) ← parse_members fuel d l5; Some ((k, v) :: vs, r)
    | RAscii "}" :: r => Some ([(k, v)], r)
    | _ => None
    end = Some (vs, r)) as (v & l4 & Ev & Hk4).
  { repeat case_match; try done. apply bind_Some in Hk2 as ([v l4] & Ek & Hk3). by exists v, l4. }
  clear Hk2. apply Hv in Ev as [Hok Hs4]; [|by eapply fine_suffix].
  destruct (skip_ws l4) as [|z l5] eqn:Ews4; [done|]. apply suffix_skip in Ews4.
  assert (l5 `suffix_of` l) as Hs5 by by do 4 (etrans; [eassumption|]).
  repeat case_match; try done; simplify_eq.
  - split; [|done]. cbn [forallb fst snd]. by rewrite Hkv, Hok.
  - apply bind_Some in Hk4 as ([vs' r'] & E & [= <- <-]).
    apply Hm in E as [Hoks Hs6]; [|by eapply fine_suffix].
    cbn [forallb fst snd]. rewrite Hkv, Hok, Hoks. split; [done|by etrans].
Qed.

Lemma parse_value_valid fuel : reads_valid fuel →
  ∀ d l v r, Forall (λ r, rune_fine r = true) l → parse_value (S fuel) d l = Some (v, r) →
    jstr_ok v = true ∧ r `suffix_of` l.
Proof.
  intros (_ & He & Hm) d l0 v r Hl. cbn [parse_value].
  assert (skip_ws l0 `suffix_of` l0) as Hs by apply skip_ws_suffix.
  destruct (skip_ws l0) as [|x l1] eqn:Ews; [done|].
  pose proof (suffix_skip _ _ _ Ews) as Hs1.
  assert (Forall (λ r, rune_fine r = true) l1) as Hl1 by by eapply fine_suffix.
  destruct x as [a|? ?|? ? ?|? ? ? ?|?]; try done.
  case_match; [intros ([s r'] & E & [= <- <-])%bind_Some|].
  { pose proof (parse_string_suffix _ _ _ _ E). apply parse_string_valid in E as [? _]; [|done].
    split; [done|by etrans]. }
  case_match; [case_match; [done|]|].
  { intros Hk. assert ((∃ vs, parse_elems fuel (d + 1) l1 = Some (vs, r) ∧ v = JArr vs) ∨
      (v = JArr [] ∧ r `suffix_of` l1)) as [(vs & E & ->)|[-> ?]]; [|by apply He in E as [? ?]; [split; [|etrans]|]|
      split; [done|by etrans]].
    destruct (skip_ws l1) as [|y l2] eqn:E2; [|apply suffix_skip in E2]; repeat case_match; simplify_eq;
      try (by right); apply bind_Some in Hk as ([vs r'] & E & [= <- <-]); left; by exists vs. }
  case_match; [case_match; [done|]|].
  { intros Hk. assert ((∃ vs, parse_members fuel (d + 1) l1 = Some (vs, r) ∧ v = JObj vs) ∨
      (v = JObj [] ∧ r `suffix_of` l1)) as [(vs & E & ->)|[-> ?]]; [|by apply Hm in E as [? ?]; [split; [|etrans]|]|
      split; [done|by etrans]].
    destruct (skip_ws l1) as [|y l2] eqn:E2; [|apply suffix_skip in E2]; repeat case_match; simplify_eq;
      try (by right); apply bind_Some in Hk as ([vs r'] & E & [= <- <-]); left; by exists vs. }
  do 3 (case_match; [intros (r' & E%expect_suffix & [= <- <-])%bind_Some; split; [done|by etrans]|]).
  intros ([lit r'] & E%scan_number_suffix & [= <- <-])%bind_Some. split; [done|by etrans].
Qed.

Lemma reads_valid_all fuel : reads_valid fuel.
Proof.
  induction fuel as [|fuel IH]; [by split_and!|].
  split_and!; eauto using parse_value_valid, parse_elems_valid, parse_members_valid.
Qed.

Lemma decode_first_valid b v r : decode_first b = Some (v, r) → jstr_ok v = true.
Proof.
  unfold decode_first. intros E. eapply (proj1 (reads_valid_all _)) in E as [? _]; [done|].
  apply Forall_forall. intros x Hx. by eapply runes_elem.
Qed.

Lemma parse_json_valid b v : parse_json b = Some v → jstr_ok v = true.
Proof.
  unfold parse_json. intros ([v' r] & E & Hk)%bind_Some. case_match; simplify_eq.
  by eapply decode_first_valid.
Qed.

(** *** The fuel is enough *)

(** More fuel does not change the result once there is more than twice the length of the
    text: a failure is a syntax error, never a lack of fuel. *)
Definition fuel_enough (n : nat) : Prop :=
  ∀ d l, Forall (λ r, rune_fine r = true) l →
  (2 * length l < n → parse_value n d l = parse_value (S n) d l) ∧
  (2 * length l + 1 < n → parse_elems n d l = parse_elems (S n) d l) ∧
  (2 * length l + 1 < n → parse_members n d l = parse_members (S n) d l).

Lemma suffix_skip_length l l1 r : skip_ws l = r :: l1 → length l1 < length l.
Proof.
  intros E. pose proof (suffix_length _ _ (skip_ws_suffix l)) as H. rewrite E in H. cbn in H. lia.
Qed.

Lemma fuel_elems n d l : fuel_enough n → Forall (λ r, rune_fine r = true) l →
  2 * length l + 1 < S n → parse_elems (S n) d l = parse_elems (S (S n)) d l.
Proof.
  intros IH Hl Hn. rewrite !(parse_elems_S (S n)), (parse_elems_S n).
  rewrite (proj1 (IH d l Hl)) by lia.
  destruct (parse_value (S n) d l) as [[v l1]|] eqn:E; [|done]. cbn [mbind option_bind].
  apply (proj1 (reads_valid_all (S n))) in E as [_ Hs]; [|done]. pose proof (suffix_length _ _ Hs).
  destruct (skip_ws l1) as [|x l2] eqn:Ews; [done|]. pose proof (suffix_skip_length _ _ _ Ews).
  rewrite (proj1 (proj2 (IH d l2 ltac:(eapply fine_suffix; [|done]; etrans; [by eapply suffix_skip|done])))) by lia.
  done.
Qed.

Lemma fuel_members n d l : fuel_enough n → Forall (λ r, rune_fine r = true) l →
  2 * length l + 1 < S n → parse_members (S n) d l = parse_members (S (S n)) d l.
Proof.
  intros IH Hl Hn.
  change (parse_members (S (S n)) d l) with
    (match skip_ws l with
      | RAscii "034" :: l1 =>
          '(k, l2) ← parse_string (length l1) l1;
          match skip_ws l2 with
          | RAscii ":" :: l3 =>
              '(v, l4) ← parse_value (S n) d l3;
              match skip_ws l4 with
              | RAscii "," :: l5 => '(vs, r) ← parse_members (S n) d l5; Some ((k, v) :: vs, r)
              | RAscii "}" :: r => Some ([(k, v)], r)
              | _ => None
              end
          | _ => None
          end
      | _ => None
      end).
  cbn [parse_members].
  destruct (skip_ws l) as [|x l1] eqn:Ews; [done|]. pose proof (suffix_skip_length _ _ _ Ews).
  pose proof (suffix_skip _ _ _ Ews) as S1.
  destruct (parse_string (length l1) l1) as [[k l2]|] eqn:Es; [|done]. cbn [mbind option_bind].
  apply parse_string_suffix in Es as S2. pose proof (suffix_length _ _ S2).
  destruct (skip_ws l2) as [|y l3] eqn:Ews2; [done|]. pose proof (suffix_skip_length _ _ _ Ews2).
  pose proof (suffix_skip _ _ _ Ews2) as S3.
  assert (l3 `suffix_of` l) as S3' by (etrans; [done|]; by etrans).
  assert (Forall (λ r, rune_fine r = true) l3) as F3 by by eapply fine_suffix.
  rewrite (proj1 (IH d l3 F3)) by lia.
  destruct (parse_value (S n) d l3) as [[v l4]|] eqn:Ev; [|done]. cbn [mbind option_bind].
  apply (proj1 (reads_valid_all (S n))) in Ev as [_ S4]; [|done]. pose proof (suffix_length _ _ S4).
  destruct (skip_ws l4) as [|z l5] eqn:Ews4; [done|]. pose proof (suffix_skip_length _ _ _ Ews4).
  assert (l5 `suffix_of` l) as S5 by (etrans; [by eapply suffix_skip|]; by etrans).
  rewrite (proj2 (proj2 (IH d l5 ltac:(by eapply fine_suffix)))) by lia. done.
Qed.

Lemma fuel_value n d l : fuel_enough n → Forall (λ r, rune_fine r = true) l →
  2 * length l < S n → parse_value (S n) d l = parse_value (S (S n)) d l.
Proof.
  intros IH Hl Hn.
  assert (∀ l1 r, skip_ws l = r :: l1 →
    parse_elems n (d + 1) l1 = parse_elems (S n) (d + 1) l1 ∧
    parse_members n (d + 1) l1 = parse_members (S n) (d + 1) l1) as H.
  { intros l1 r E. pose proof (suffix_skip_length _ _ _ E). apply suffix_skip in E.
    split; apply (IH (d + 1)%Z l1 ltac:(by eapply fine_suffix)); lia. }
  remember (S n) as m eqn:Em. cbn [parse_value]. rewrite Em at 1. cbn [parse_value].
  destruct (skip_ws l) as [|[a| | | | ] l1]; try done.
  destruct (H l1 (RAscii a) eq_refl) as [-> ->]. done.
Qed.

Lemma fuel_enough_all n : fuel_enough n.
Proof.
  induction n as [|n IH]; intros d l Hl; [split_and!; lia|].
  split_and!; intros; [by apply fuel_value|by apply fuel_elems|by apply fuel_members].
Qed.

Lemma decode_first_fuel b n :
  2 * S (length (runes b)) ≤ n → parse_value n 0 (runes b) = decode_first b.
Proof.
  intros Hn. unfold decode_first. induction Hn as [|n Hn IH]; [done|]. rewrite <-IH. symmetry.
  apply fuel_enough_all; [|lia]. apply Forall_forall. intros x Hx. by eapply runes_elem.
Qed.

(** The same for string literals, whose fuel is the length of the text after the quote. *)
Lemma parse_string_fuel fuel l :
  length l ≤ fuel → parse_string fuel l = parse_string (S fuel) l.
Proof.
  revert l. induction fuel as [|fuel IH]; intros l Hl; [by destruct l; [|cbn in Hl; lia]|].
  destruct l as [|r l1]; [done|]. cbn [length] in Hl.
  assert (∀ l', length l' ≤ length l1 → parse_string fuel l' = parse_string (S fuel) l') as H.
  { intros l' ?. apply IH. lia. }
  remember (S fuel) as m eqn:Em. cbn [parse_string]. rewrite Em at 1. cbn [parse_string].
  destruct r as [a|a b|a b c|a b c d|a]; try (by rewrite (H l1)).
  repeat (case_match; try done); try (by rewrite (H l1)).
  - destruct (hex4 _) as [[u l3]|] eqn:Eh; [|done]. cbn [mbind option_bind].
    apply hex4_spec in Eh as [Hu [w ->]]. destruct (hex_rune u l3) as [r' l4] eqn:Er.
    apply hex_rune_spec in Er as [_ [w' ->]]; [|done]. rewrite (H l4); [done|].
    subst. cbn. rewrite !length_app. lia.
  - subst. rewrite H; [done|]. cbn. lia.
Qed.
