(* ===== verification/ReplProtocol.v ===== *)
(** * The replication protocol

    The leader's buffer ([Replication]), the gRPC server's subscriber and
    acknowledgement tables ([RepServer]) and the followers' receive loops
    ([pkg/transport/grpc/replication_client.go] and [replicationSubscribeLoop])
    put together as a transition system.  Every step is one of the atomic operations
    of the code, so runs are all interleavings of any number of publishing goroutines,
    the retry loop and any number of followers, with streams that break and
    acknowledgements that get lost.

    A [Publish] is split into its reads of the acknowledgements and of the sequence, its
    critical section and its broadcast.  A tick of the retry loop reads the
    acknowledgements, takes the mutex and sends its messages one by one; while it holds
    the mutex nobody reads or assigns a sequence.  The buffer is only used under the mutex,
    so the tick clears it for all topics when it takes the mutex.  There is no buffer
    directory, and no topic reaches the largest 64-bit sequence.

    Messages and acknowledgements travel as JSON, which replaces what is not UTF-8 in their
    topics and node names ([msg_read], [ack_read]; that the codec does so is [receive_read]
    and [ack_handled] in [RepWire]).

    [serial] restricts the runs to those in which no two calls of [Publish] on one topic
    overlap, which the application can ensure. *)
From S2P Require Import Prelude GoStrings Metrics RepServer Replication Utf8 Json.
From stdpp Require Import options.

(** ** State *)

(** A message and an acknowledgement as the other side decodes them. *)
Definition msg_read (m : repMsg) : repMsg := mkRepMsg (repair_string (m_topic m)) (m_data m) (m_seq m).
Definition ack_read (a : repAck) : repAck :=
  mkRepAck (repair_string (a_topic a)) (a_seq a) (repair_string (a_node a)).

(** A stream opened by [Client.Subscribe]: its node, the messages its loop has read, as the
    leader sent them, those still in flight, and the acknowledgement it is about
    to send.  [si_since] records the leader's sequences when it was opened. *)
Record subinfo := mkSub {
  si_node : string;
  si_since : gmap string Z;
  si_log : list repMsg;
  si_queue : list repMsg;
  si_pend : option repAck;
}.

(** Where a publishing goroutine is: it has read the acknowledgements, found the window
    closed or open, or stored its message under a sequence. *)
Inductive pubpc : Type :=
  | Polled (t : string) (d : bytes) (acked : gmap string Z)
  | Waiting (t : string) (d : bytes)
  | Ready (t : string) (d : bytes)
  | Committed (t : string) (d : bytes) (s : Z).

Definition pub_topic (p : pubpc) : string :=
  match p with Polled t _ _ | Waiting t _ | Ready t _ | Committed t _ _ => t end.

(** Where the retry loop is: between ticks, having read the acknowledgements of these
    tables, or holding the mutex with these messages left to send. *)
Inductive tickpc : Type :=
  | TIdle
  | TRead (tables : Server)
  | TSend (out : list (string * bytes * Z)).

(** [fanned] are the messages whose broadcast reached nobody, which [Publish] then posts to
    the members; [published] records every sequence assigned. *)
Record sys := mkSys {
  leader : rep;
  server : Server;
  mets : Metrics;
  streams : gmap nat subinfo;
  pubs : list pubpc;
  tick : tickpc;
  published : list (string * Z * bytes);
  fanned : list repMsg;
}.

(** What the loop of a stream has handed to its application. *)
Definition handed (i : subinfo) : list repMsg := msg_read <$> si_log i.

Definition sys_init : sys := mkSys rep_new (server_start NewServer) ∅ ∅ [] TIdle [] [].

Definition set_streams (s' : Server) (mt : Metrics) (str : gmap nat subinfo) (y : sys) : sys :=
  mkSys (leader y) s' mt str (pubs y) (tick y) (published y) (fanned y).
Definition set_pubs (ps : list pubpc) (y : sys) : sys :=
  mkSys (leader y) (server y) (mets y) (streams y) ps (tick y) (published y) (fanned y).
Definition set_tick (r : rep) (k : tickpc) (y : sys) : sys :=
  mkSys r (server y) (mets y) (streams y) (pubs y) k (published y) (fanned y).

(** ** Steps *)

Definition push (m : repMsg) (i : subinfo) : subinfo :=
  mkSub (si_node i) (si_since i) (si_log i) (si_queue i ++ [m]) (si_pend i).

(** [BroadcastWithSeq] on the system: the streams that accept the message get it. *)
Definition sys_broadcast (send_ok : nat → bool) (m : repMsg) (y : sys) : sys :=
  let '(s', mt, sent, _) :=
    BroadcastWithSeq send_ok (m_topic m) (m_data m) (m_seq m) (server y) (mets y) in
  set_streams s' mt
    (map_imap (λ σ i, Some (if decide (σ ∈ sent) then push m i else i)) (streams y)) y.

(** How many streams it reached. *)
Definition reached (send_ok : nat → bool) (m : repMsg) (y : sys) : Z :=
  (BroadcastWithSeq send_ok (m_topic m) (m_data m) (m_seq m) (server y) (mets y)).2.

(** The end of a [Publish]: the broadcast, and the fan-out when it reached nobody. *)
Definition sys_publish (send_ok : nat → bool) (m : repMsg) (ps : list pubpc) (y : sys) : sys :=
  let y' := sys_broadcast send_ok m y in
  mkSys (leader y') (server y') (mets y') (streams y') ps (tick y') (published y')
    (if (0 <? reached send_ok m y)%Z then fanned y' else fanned y' ++ [m]).

(** The receive loop takes one message: hand it over, then acknowledge it, under the topic
    it has read. *)
Definition sub_recv (i : subinfo) : option subinfo :=
  match si_queue i, si_pend i with
  | m :: q, None =>
      Some (mkSub (si_node i) (si_since i) (si_log i ++ [m]) q
              (Some (mkRepAck (m_topic (msg_read m)) (m_seq (msg_read m)) (si_node i))))
  | _, _ => None
  end.

Definition sub_acked (i : subinfo) : subinfo :=
  mkSub (si_node i) (si_since i) (si_log i) (si_queue i) None.

Definition sub_closed (i : subinfo) : subinfo :=
  mkSub (si_node i) (si_since i) (si_log i) [] (si_pend i).

(** Nobody holds the mutex of the buffer. *)
Definition unlocked (y : sys) : bool := match tick y with TSend _ => false | _ => true end.

(** What a publisher that read [acked] finds. *)
Definition window_seen (W : Z) (t : string) (acked : gmap string Z) (y : sys) : bool :=
  poll_open W t (mkPoll (Some acked) (get0 (seq (leader y)) t) None).

Inductive step (W : Z) (serial : bool) : sys → sys → Prop :=
  | step_subscribe y σ n s' mt :
      streams y !! σ = None →
      addSub σ (server y) (mets y) = (s', mt) →
      step W serial y (set_streams s' mt (<[σ := mkSub n (seq (leader y)) [] [] None]> (streams y)) y)
  (** [Publish] is called and reads the acknowledgements *)
  | step_start y t d :
      (serial = true → t ∉ pub_topic <$> pubs y) →
      step W serial y (set_pubs (Polled t d (AckedAll (server y)) :: pubs y) y)
  (** it reads the sequence and tests the window *)
  | step_poll y ps1 ps2 t d acked :
      pubs y = ps1 ++ Polled t d acked :: ps2 → unlocked y = true →
      step W serial y
        (set_pubs (ps1 ++ (if window_seen W t acked y then Ready t d else Waiting t d) :: ps2) y)
  (** the window was closed: wait and read the acknowledgements again, or give up *)
  | step_wait y ps1 ps2 t d :
      pubs y = ps1 ++ Waiting t d :: ps2 →
      step W serial y (set_pubs (ps1 ++ Polled t d (AckedAll (server y)) :: ps2) y)
  | step_cancel y ps1 ps2 t d :
      pubs y = ps1 ++ Waiting t d :: ps2 → step W serial y (set_pubs (ps1 ++ ps2) y)
  | step_commit y ps1 ps2 t d s r' dk :
      pubs y = ps1 ++ Ready t d :: ps2 → unlocked y = true →
      (get0 (seq (leader y)) t < w64 - 2)%Z →
      publish_commit "" Written t d (leader y) ∅ = (s, r', dk) →
      step W serial y (mkSys r' (server y) (mets y) (streams y) (ps1 ++ Committed t d s :: ps2) (tick y)
        (published y ++ [(t, s, d)]) (fanned y))
  | step_bcast y ps1 ps2 t d s send_ok :
      pubs y = ps1 ++ Committed t d s :: ps2 →
      step W serial y (sys_publish send_ok (mkRepMsg t d s) (ps1 ++ ps2) y)
  (** a tick of the retry loop *)
  | step_tick y :
      tick y = TIdle → step W serial y (set_tick (leader y) (TRead (server y)) y)
  | step_lock y tables order r' dk out :
      tick y = TRead tables → order ≡ₚ elements (dom (buf (leader y))) →
      retry_topics "" (λ _, true) true (AckedAll tables) order (leader y) ∅ = Some (r', dk, out) →
      step W serial y (set_tick r' (TSend out) y)
  | step_resend y send_ok t d s out :
      tick y = TSend ((t, d, s) :: out) →
      step W serial y (sys_broadcast send_ok (mkRepMsg t d s) (set_tick (leader y) (TSend out) y))
  | step_unlock y :
      tick y = TSend [] → step W serial y (set_tick (leader y) TIdle y)
  (** some goroutine updates the metrics *)
  | step_metrics y mt : step W serial y (set_streams (server y) mt (streams y) y)
  (** the followers *)
  | step_recv y σ i i' :
      streams y !! σ = Some i → sub_recv i = Some i' →
      step W serial y (set_streams (server y) (mets y) (<[σ := i']> (streams y)) y)
  | step_ack y σ i a s' mt :
      streams y !! σ = Some i → si_pend i = Some a →
      Ack (ack_read a) (server y) (mets y) = (s', mt) →
      step W serial y (set_streams s' mt (<[σ := sub_acked i]> (streams y)) y)
  | step_ack_lost y σ i :
      streams y !! σ = Some i →
      step W serial y (set_streams (server y) (mets y) (<[σ := sub_acked i]> (streams y)) y)
  | step_close y σ i s' mt :
      streams y !! σ = Some i →
      removeSub σ (server y) (mets y) = (s', mt) →
      step W serial y (set_streams s' mt (<[σ := sub_closed i]> (streams y)) y).

Definition reachable (W : Z) (serial : bool) (y : sys) : Prop := rtc (step W serial) sys_init y.

(** The message published as [s] of topic [t] has been handed to the application of a node:
    with its data, and under the topic [repair_string t]. *)
Definition delivered (y : sys) (n t : string) (s : Z) : Prop :=
  ∃ σ i m, streams y !! σ = Some i ∧ si_node i = n ∧ m ∈ si_log i ∧ m_topic m = t ∧ m_seq m = s.

(** ** Invariants *)

Definition has (l : list repMsg) (t : string) (s : Z) : Prop :=
  ∃ m, m ∈ l ∧ m_topic m = t ∧ m_seq m = s.

(** Whenever a message occurs in [l], every earlier one of its topic published since
    the stream was opened occurs before it. *)
Definition closed (since : gmap string Z) (l : list repMsg) : Prop :=
  ∀ l1 m l2, l = l1 ++ m :: l2 →
    ∀ s, (get0 since (m_topic m) < s < m_seq m)%Z → has l1 (m_topic m) s.

Definition in_flight (y : sys) (t : string) (s : Z) : Prop :=
  ∃ d, Committed t d s ∈ pubs y.

(** Every acknowledgement in the tables was sent for a message that was handed over. *)
Definition acks_ok (str : gmap nat subinfo) (tables : Server) : Prop :=
  ∀ t n a, getm (ack tables) t !! n = Some a →
    ∃ σ i, str !! σ = Some i ∧ repair_string (si_node i) = n ∧ has (handed i) t a.

(** What holds however many publishers there are. *)
Record inv (y : sys) : Prop := mkInv {
  inv_wf : rep_wf (leader y);
  inv_max : ∀ t, (get0 (seq (leader y)) t < w64 - 1)%Z;
  inv_subs : ∃ ss, subs (server y) = Some ss;
  inv_pc : ∀ t d s, Committed t d s ∈ pubs y → (t, s, d) ∈ published y;
  inv_pub : ∀ t s d, (t, s, d) ∈ published y →
    (0 < s ≤ get0 (seq (leader y)) t)%Z ∧ ∀ d', (t, s, d') ∈ published y → d' = d;
  inv_buf : ∀ t s d, getm (buf (leader y)) t !! s = Some d → (t, s, d) ∈ published y;
  inv_msgs : ∀ σ i m, streams y !! σ = Some i → m ∈ si_log i ++ si_queue i →
    (m_topic m, m_seq m, m_data m) ∈ published y;
  inv_fan : ∀ m, m ∈ fanned y → (m_topic m, m_seq m, m_data m) ∈ published y;
  inv_all : ∀ t s, (0 < s ≤ get0 (seq (leader y)) t)%Z → ∃ d, (t, s, d) ∈ published y;
  inv_since : ∀ σ i t, streams y !! σ = Some i → (0 ≤ get0 (si_since i) t)%Z;
  inv_pend : ∀ σ i a, streams y !! σ = Some i → si_pend i = Some a →
    a_node a = si_node i ∧ has (handed i) (a_topic a) (a_seq a);
  inv_ack : acks_ok (streams y) (server y);
  inv_read : ∀ tables, tick y = TRead tables → acks_ok (streams y) tables;
  inv_send : ∀ out t d s, tick y = TSend out → (t, d, s) ∈ out → (t, s, d) ∈ published y;
}.

(** What holds besides when publishers of one topic do not overlap: the message in flight
    is the last, a subscribed stream has all others since it was opened, and messages come
    in order. *)
Record serial_inv (y : sys) : Prop := mkSerial {
  ser_one : NoDup (pub_topic <$> pubs y);
  ser_top : ∀ t d s, Committed t d s ∈ pubs y → s = get0 (seq (leader y)) t;
  ser_compl : ∀ σ ss i t s, subs (server y) = Some ss → σ ∈ ss → streams y !! σ = Some i →
    (get0 (si_since i) t < s ≤ get0 (seq (leader y)) t)%Z → ¬ in_flight y t s →
    has (si_log i ++ si_queue i) t s;
  ser_closed : ∀ σ i, streams y !! σ = Some i → closed (si_since i) (si_log i ++ si_queue i);
}.

(** ** Lemmas *)

Lemma has_app l k t s : has (l ++ k) t s ↔ has l t s ∨ has k t s.
Proof. unfold has. setoid_rewrite elem_of_app. naive_solver. Qed.

Lemma has_singleton m t s : has [m] t s ↔ m_topic m = t ∧ m_seq m = s.
Proof. unfold has. setoid_rewrite list_elem_of_singleton. naive_solver. Qed.

Lemma closed_nil since : closed since [].
Proof. intros [|? l1] m l2 E; done. Qed.

Lemma closed_prefix since l k : closed since (l ++ k) → closed since l.
Proof. intros Hc l1 m l2 -> s Hs. eapply (Hc l1 m (l2 ++ k)); [by rewrite <-app_assoc|done]. Qed.

Lemma closed_snoc since l m :
  closed since l → (∀ s, (get0 since (m_topic m) < s < m_seq m)%Z → has l (m_topic m) s) →
  closed since (l ++ [m]).
Proof.
  intros Hc Hm l1 m' l2 E s Hs. destruct l2 as [|x l2 _] using rev_ind.
  - apply app_inj_tail in E as [-> ->]. auto.
  - rewrite app_comm_cons, app_assoc in E. apply app_inj_tail in E as [-> ->].
    eapply Hc; eauto.
Qed.

(** All the messages a stream has from its start to one it contains are there too. *)
Lemma closed_has since l t s s' :
  closed since l → has l t s → (get0 since t < s' ≤ s)%Z → has l t s'.
Proof.
  intros Hc (m & Hin & <- & <-) Hs. destruct (decide (s' = m_seq m)) as [->|].
  { by exists m. }
  apply list_elem_of_split in Hin as (l1 & l2 & ->).
  apply has_app. left. eapply Hc; [done|lia].
Qed.

(** Streams keep their nodes and what they have handed over. *)
Definition logs_kept (str str' : gmap nat subinfo) : Prop :=
  ∀ σ i, str !! σ = Some i → ∃ i', str' !! σ = Some i' ∧ si_node i' = si_node i ∧
    si_log i `prefix_of` si_log i'.

Lemma handed_mono i i' t s : si_log i `prefix_of` si_log i' → has (handed i) t s → has (handed i') t s.
Proof. intros [k E]. unfold handed. rewrite E, fmap_app, has_app. by left. Qed.

(** A message that was handed over, with the topic it was sent on. *)
Lemma handed_has i t s :
  has (handed i) t s ↔ ∃ t', repair_string t' = t ∧ has (si_log i) t' s.
Proof.
  unfold handed, has. setoid_rewrite list_elem_of_fmap. split.
  - intros (m & (m' & -> & Hm) & <- & <-). exists (m_topic m'). by split; [|exists m'].
  - intros (t' & <- & m & Hm & <- & <-). exists (msg_read m). by split; [exists m|].
Qed.

Lemma acks_ok_mono str str' tables : logs_kept str str' → acks_ok str tables → acks_ok str' tables.
Proof.
  intros Hk Ha t n a (σ & i & Hi & Hn & Hh)%Ha. destruct (Hk σ i Hi) as (i' & Hi' & Hn' & Hl).
  exists σ, i'. split_and!; [done|congruence|by eapply handed_mono].
Qed.

Lemma logs_kept_insert str σ i i' :
  str !! σ = Some i → si_node i' = si_node i → si_log i `prefix_of` si_log i' →
  logs_kept str (<[σ := i']> str).
Proof.
  intros Hi Hn Hl σ' x Hx. destruct (decide (σ = σ')) as [<-|].
  - exists i'. rewrite lookup_insert_eq. simplify_eq. eauto.
  - exists x. rewrite lookup_insert_ne by done. eauto.
Qed.

(** *** Broadcasting *)

Lemma sys_broadcast_streams ok m y σ :
  streams (sys_broadcast ok m y) !! σ =
    (λ i, if decide (σ ∈ (BroadcastWithSeq ok (m_topic m) (m_data m) (m_seq m) (server y) (mets y)).1.2)
          then push m i else i) <$> streams y !! σ.
Proof.
  unfold sys_broadcast. destruct (BroadcastWithSeq _ _ _ _ _ _) as [[[s' mt] sent] c]. simpl.
  rewrite map_lookup_imap. by destruct (streams y !! σ).
Qed.

Lemma sys_broadcast_frame ok m y :
  let y' := sys_broadcast ok m y in
  leader y' = leader y ∧ pubs y' = pubs y ∧ tick y' = tick y ∧ published y' = published y ∧
  fanned y' = fanned y ∧ ack (server y') = ack (server y).
Proof.
  unfold sys_broadcast. destruct (BroadcastWithSeq _ _ _ _ _ _) as [[[s' mt] sent] c] eqn:E. simpl.
  split_and!; [done..|]. unfold BroadcastWithSeq in E. destruct (subs (server y)); by simplify_eq/=.
Qed.

(** The streams after a broadcast: those that stay subscribed have got the message. *)
Lemma sys_broadcast_sent ok m y ss :
  subs (server y) = Some ss →
  ∃ sent, subs (server (sys_broadcast ok m y)) = Some sent ∧ sent ⊆ ss ∧
    ∀ σ i', streams (sys_broadcast ok m y) !! σ = Some i' →
      ∃ i, streams y !! σ = Some i ∧ ((σ ∈ sent ∧ i' = push m i) ∨ (σ ∉ sent ∧ i' = i)).
Proof.
  intros Hss. exists (filter (λ sub, ok sub = true) ss).
  assert ((BroadcastWithSeq ok (m_topic m) (m_data m) (m_seq m) (server y) (mets y)).1.2 =
    filter (λ sub, ok sub = true) ss) as Esent by (unfold BroadcastWithSeq; by rewrite Hss).
  split_and!.
  - unfold sys_broadcast, BroadcastWithSeq. by rewrite Hss.
  - set_solver.
  - intros σ i'. rewrite sys_broadcast_streams, Esent. destruct (streams y !! σ) as [i|]; [|done]. simpl.
    intros [= <-]. exists i. split; [done|]. case_decide; auto.
Qed.

Lemma sys_broadcast_logs ok m y : logs_kept (streams y) (streams (sys_broadcast ok m y)).
Proof.
  intros σ i Hi. rewrite sys_broadcast_streams, Hi. simpl. eexists. split; [done|]. by case_decide.
Qed.

Lemma inv_broadcast ok m y :
  inv y → (m_topic m, m_seq m, m_data m) ∈ published y → inv (sys_broadcast ok m y).
Proof.
  intros Hi Hm. destruct (inv_subs y Hi) as [ss Hss].
  destruct (sys_broadcast_sent ok m y ss Hss) as (sent & Hsent & Hsub & Hinv).
  destruct (sys_broadcast_frame ok m y) as (El & Ep & Et & Epub & Ef & Eack).
  pose proof (sys_broadcast_logs ok m y) as Hkept.
  constructor; rewrite ?El, ?Ep, ?Et, ?Epub, ?Ef; try apply Hi.
  - eauto.
  - intros σ i' x (i & Hlk & [[_ ->]|[_ ->]])%Hinv; [|by eapply (inv_msgs y Hi)].
    simpl. rewrite app_assoc, elem_of_app, list_elem_of_singleton.
    intros [?| ->]; [by eapply (inv_msgs y Hi)|done].
  - intros σ i' t (i & Hlk & [[_ ->]|[_ ->]])%Hinv; simpl; by eapply (inv_since y Hi).
  - intros σ i' a (i & Hlk & [[_ ->]|[_ ->]])%Hinv; apply (inv_pend y Hi σ i a Hlk).
  - intros t n a. rewrite Eack. by apply (acks_ok_mono _ _ _ Hkept (inv_ack y Hi)).
  - intros tables Htk. by apply (acks_ok_mono _ _ _ Hkept), (inv_read y Hi).
Qed.

(** Broadcasting a published message keeps the order of the streams, and every subscriber
    that remains has the message. *)
Lemma ser_broadcast ok m y :
  inv y → serial_inv y → (m_topic m, m_seq m, m_data m) ∈ published y →
  serial_inv (sys_broadcast ok m y) ∧
  ∀ σ ss i, subs (server (sys_broadcast ok m y)) = Some ss → σ ∈ ss →
    streams (sys_broadcast ok m y) !! σ = Some i → has (si_log i ++ si_queue i) (m_topic m) (m_seq m).
Proof.
  intros Hi Hs Hm. destruct (inv_subs y Hi) as [ss Hss].
  destruct (sys_broadcast_sent ok m y ss Hss) as (sent & Hsent & Hsub & Hinv).
  destruct (sys_broadcast_frame ok m y) as (El & Ep & _ & _ & _ & _).
  destruct (inv_pub y Hi _ _ _ Hm) as [Hms _].
  split; [constructor; rewrite ?El, ?Ep; try apply Hs|].
  - intros σ ss' i' t s. rewrite Hsent. unfold in_flight. rewrite Ep.
    intros [= <-] Hin (i & Hlk & [[_ ->]|[? _]])%Hinv Hr Hnf; [simpl in *|done].
    rewrite app_assoc, has_app. left. eapply (ser_compl y Hs); eauto.
  - intros σ i' (i & Hlk & [[Hin ->]|[_ ->]])%Hinv; [|by eapply (ser_closed y Hs)].
    simpl. rewrite app_assoc. apply closed_snoc; [by eapply (ser_closed y Hs)|].
    intros s Hr. eapply (ser_compl y Hs); eauto; [lia|].
    intros [d Hd]. apply (ser_top y Hs) in Hd. lia.
  - intros σ ss' i'. rewrite Hsent. intros [= <-] Hin (i & Hlk & [[_ ->]|[? _]])%Hinv; [simpl|done].
    rewrite app_assoc, has_app, has_singleton. auto.
Qed.

(** *** Streams *)

(** A step that changes one stream (its log may grow, its tail may go) and the
    server's tables accordingly. *)
Lemma inv_update y σ i i' s' mt ss' :
  inv y → streams y !! σ = Some i → si_node i' = si_node i → si_since i' = si_since i →
  si_log i `prefix_of` si_log i' →
  (∃ k, si_log i ++ si_queue i = (si_log i' ++ si_queue i') ++ k) →
  (∀ a, si_pend i' = Some a → a_node a = si_node i ∧ has (handed i') (a_topic a) (a_seq a)) →
  subs s' = Some ss' →
  (∀ t n a, getm (ack s') t !! n = Some a →
     getm (ack (server y)) t !! n = Some a ∨ (n = repair_string (si_node i) ∧ has (handed i) t a)) →
  inv (set_streams s' mt (<[σ := i']> (streams y)) y).
Proof.
  intros Hi Hlk Hnode Hsince Hlog [k Hk] Hpend Hss' Hack.
  pose proof (logs_kept_insert _ _ _ _ Hlk Hnode Hlog) as Hkept.
  constructor; simpl; try apply Hi.
  - eauto.
  - intros σ' x m [[<- <-]|[_ ?]]%lookup_insert_Some Hin; [|by eapply (inv_msgs y Hi)].
    eapply (inv_msgs y Hi); [done|]. rewrite Hk, elem_of_app. auto.
  - intros σ' x t [[<- <-]|[_ ?]]%lookup_insert_Some; [rewrite Hsince|]; by eapply (inv_since y Hi).
  - intros σ' x a [[<- <-]|[_ ?]]%lookup_insert_Some; [rewrite Hnode; apply Hpend|by eapply (inv_pend y Hi)].
  - intros t n a [Ha|[-> Ha]]%Hack; [by eapply (acks_ok_mono _ _ _ Hkept (inv_ack y Hi))|].
    exists σ, i'. rewrite lookup_insert_eq, Hnode. eauto using handed_mono.
  - intros tables Ht. by eapply acks_ok_mono, (inv_read y Hi).
Qed.

Lemma ser_update y σ i i' s' mt ss ss' :
  serial_inv y → streams y !! σ = Some i → si_since i' = si_since i →
  (∃ k, si_log i ++ si_queue i = (si_log i' ++ si_queue i') ++ k) →
  subs (server y) = Some ss → subs s' = Some ss' → ss' ⊆ ss →
  (σ ∈ ss' → si_log i ++ si_queue i = si_log i' ++ si_queue i') →
  serial_inv (set_streams s' mt (<[σ := i']> (streams y)) y).
Proof.
  intros Hs Hlk Hsince [k Hk] Hss Hss' Hsub Hkeep. constructor; simpl; try apply Hs.
  - intros σ' ss0 x t s. rewrite Hss'. intros [= <-] Hin [[<- <-]|[_ ?]]%lookup_insert_Some Hr Hnf.
    + rewrite <-Hkeep by done. rewrite Hsince in Hr. eapply (ser_compl y Hs); eauto.
    + eapply (ser_compl y Hs); eauto.
  - intros σ' x [[<- <-]|[_ ?]]%lookup_insert_Some; [|by eapply (ser_closed y Hs)].
    rewrite Hsince. apply (closed_prefix _ _ k). rewrite <-Hk. by eapply (ser_closed y Hs).
Qed.

Lemma Ack_ack a s m t n v :
  getm (ack (Ack a s m).1) t !! n = Some v →
  getm (ack s) t !! n = Some v ∨ (n = a_node a ∧ t = a_topic a ∧ v = a_seq a).
Proof.
  unfold Ack. case_decide; [auto|].
  destruct (min_loop _ _ _) as [first mn]. set (sq := get0 _ _).
  assert (∀ m1 m2 : Metrics, getm (ack (if ((mn <=? sq)%Z && negb first) then
     (mkServer (srv s) (subs s) (rseq s) (<[a_topic a:=<[a_node a:=a_seq a]> (getm (ack s) (a_topic a))]> (ack s)), m1)
     else (mkServer (srv s) (subs s) (rseq s) (<[a_topic a:=<[a_node a:=a_seq a]> (getm (ack s) (a_topic a))]> (ack s)), m2)).1) t
     = getm (<[a_topic a:=<[a_node a:=a_seq a]> (getm (ack s) (a_topic a))]> (ack s)) t) as E
    by (intros; by case_match).
  rewrite E. destruct (decide (a_topic a = t)) as [<-|].
  - rewrite getm_insert_eq. intros [[-> ->]|[_ ?]]%lookup_insert_Some; auto.
  - rewrite getm_insert_ne by done. auto.
Qed.

Lemma Ack_subs a s m : subs (Ack a s m).1 = subs s.
Proof. unfold Ack. repeat case_match; done. Qed.

(** *** The steps *)

Definition good (serial : bool) (y : sys) : Prop := inv y ∧ (serial = true → serial_inv y).

Lemma good_update serial y σ i i' s' mt ss ss' :
  good serial y → streams y !! σ = Some i → si_node i' = si_node i → si_since i' = si_since i →
  si_log i `prefix_of` si_log i' →
  (∃ k, si_log i ++ si_queue i = (si_log i' ++ si_queue i') ++ k) →
  (∀ a, si_pend i' = Some a → a_node a = si_node i ∧ has (handed i') (a_topic a) (a_seq a)) →
  subs (server y) = Some ss → subs s' = Some ss' → ss' ⊆ ss →
  (σ ∈ ss' → si_log i ++ si_queue i = si_log i' ++ si_queue i') →
  (∀ t n a, getm (ack s') t !! n = Some a →
     getm (ack (server y)) t !! n = Some a ∨ (n = repair_string (si_node i) ∧ has (handed i) t a)) →
  good serial (set_streams s' mt (<[σ := i']> (streams y)) y).
Proof.
  intros [Hi Hs] Hlk Hnode Hsince Hlog Hk Hpend Hss Hss' Hsub Hkeep Hack. split.
  - by eapply inv_update.
  - intros Eser. specialize (Hs Eser). by eapply ser_update.
Qed.

Lemma good_subscribe serial y σ n s' mt :
  good serial y → streams y !! σ = None → addSub σ (server y) (mets y) = (s', mt) →
  good serial (set_streams s' mt (<[σ := mkSub n (seq (leader y)) [] [] None]> (streams y)) y).
Proof.
  intros [Hi Hs] Hfresh Hadd. destruct (inv_subs y Hi) as [ss Hss].
  assert (∃ ss', subs s' = Some ss' ∧ ss' ⊆ {[σ]} ∪ ss ∧ ack s' = ack (server y)) as (ss' & Hss' & Hsub & Eack).
  { unfold addSub in Hadd. rewrite Hss in Hadd. destruct (srv (server y)); simplify_eq/=; eauto.
    exists ss. set_solver. }
  assert (logs_kept (streams y) (<[σ := mkSub n (seq (leader y)) [] [] None]> (streams y))) as Hkept.
  { intros σ' i Hlk. exists i. rewrite lookup_insert_ne by congruence. eauto. }
  split.
  - constructor; simpl; try apply Hi.
    + eauto.
    + intros σ' x m [[<- <-]|[_ ?]]%lookup_insert_Some Hin; [|by eapply (inv_msgs y Hi)].
      simpl in Hin. set_solver.
    + intros σ' x t [[<- <-]|[_ ?]]%lookup_insert_Some; [|by eapply (inv_since y Hi)].
      simpl. destruct (inv_wf y Hi) as [Hq _]. apply Hq.
    + intros σ' x a [[<- <-]|[_ ?]]%lookup_insert_Some; [done|by eapply (inv_pend y Hi)].
    + intros t n' a. rewrite Eack. by apply (acks_ok_mono _ _ _ Hkept (inv_ack y Hi)).
    + intros tables Ht. by eapply acks_ok_mono, (inv_read y Hi).
  - intros Eser. specialize (Hs Eser). constructor; simpl; try apply Hs.
    + intros σ' ss0 x t s. rewrite Hss'. intros [= <-] Hin [[<- <-]|[Hne ?]]%lookup_insert_Some Hr Hnf.
      * simpl in Hr. lia.
      * eapply (ser_compl y Hs); eauto. set_solver.
    + intros σ' x [[<- <-]|[_ ?]]%lookup_insert_Some; [apply closed_nil|by eapply (ser_closed y Hs)].
Qed.

(** Publishers that have not stored anything come, wait and go. *)
Lemma good_pubs serial y ps :
  good serial y → (∀ t d s, Committed t d s ∈ ps ↔ Committed t d s ∈ pubs y) →
  (serial = true → NoDup (pub_topic <$> pubs y) → NoDup (pub_topic <$> ps)) → good serial (set_pubs ps y).
Proof.
  intros [Hi Hs] Hps Hnd. split.
  - constructor; simpl; try apply Hi. intros t d s ?%Hps. by apply (inv_pc y Hi).
  - intros Eser. specialize (Hs Eser). constructor; simpl; try apply Hs.
    + by apply Hnd, Hs.
    + intros t d s ?%Hps. by eapply (ser_top y Hs).
    + intros σ ss i t s Hss Hin Hlk Hr Hnf. eapply (ser_compl y Hs); eauto.
      intros [d Hd]. apply Hnf. exists d. by apply Hps.
Qed.

(** What assigning a sequence does. *)
Lemma commit_effect y t d s r' dk :
  inv y → (get0 (seq (leader y)) t < w64 - 2)%Z →
  publish_commit "" Written t d (leader y) ∅ = (s, r', dk) →
  s = (get0 (seq (leader y)) t + 1)%Z ∧ rep_wf r' ∧
  (∀ t', get0 (seq r') t' = if decide (t' = t) then s else get0 (seq (leader y)) t') ∧
  (∀ t' s', getm (buf r') t' !! s' =
     if decide (t' = t ∧ s' = s) then Some d else getm (buf (leader y)) t' !! s') ∧
  (∀ d', (t, s, d') ∉ published y).
Proof.
  intros Hi Hmax Hc.
  pose proof (lookup_publish_commit "" Written t d (leader y) ∅) as Hlook. rewrite Hc in Hlook.
  pose proof (publish_commit_wf "" Written t d (leader y) ∅ (inv_wf y Hi) ltac:(lia)) as Hwf.
  rewrite Hc in Hwf. simpl in Hwf.
  destruct (inv_wf y Hi) as [Hsq _]. pose proof (Hsq t) as Ht. unfold is_u64 in Ht.
  assert (s = (get0 (seq (leader y)) t + 1)%Z ∧ seq r' = <[t := s]> (seq (leader y))) as [Es Eseq].
  { unfold publish_commit in Hc. rewrite u64_small in Hc by (unfold is_u64; lia). by simplify_eq. }
  split_and!; [done|done| |done|].
  - intros t'. rewrite Eseq. case_decide; [subst t'; apply get0_insert_eq|by apply get0_insert_ne].
  - intros d' [Hd _]%(inv_pub y Hi). lia.
Qed.

Lemma inv_commit y ps1 ps2 t d s r' dk :
  inv y → pubs y = ps1 ++ Ready t d :: ps2 → (get0 (seq (leader y)) t < w64 - 2)%Z →
  publish_commit "" Written t d (leader y) ∅ = (s, r', dk) →
  inv (mkSys r' (server y) (mets y) (streams y) (ps1 ++ Committed t d s :: ps2) (tick y)
    (published y ++ [(t, s, d)]) (fanned y)).
Proof.
  intros Hi Hpc Hmax Hc. destruct (commit_effect y t d s r' dk Hi Hmax Hc) as (Es & Hwf & Hseq & Hlook & Hnew).
  pose proof (proj1 (inv_wf y Hi) t) as Ht. unfold is_u64 in Ht.
  assert (∀ t' s' d', (t', s', d') ∈ published y ++ [(t, s, d)] ↔
    (t', s', d') ∈ published y ∨ (t' = t ∧ s' = s ∧ d' = d)) as Hin.
  { intros. rewrite elem_of_app, list_elem_of_singleton. naive_solver. }
  constructor; simpl; try apply Hi.
  - done.
  - intros t'. rewrite Hseq. case_decide; [lia|apply Hi].
  - intros t' d' s' Hp. rewrite Hin. apply elem_of_app in Hp as [?|[[= -> -> ->]|?]%elem_of_cons]; [left|by right|left];
      apply (inv_pc y Hi); rewrite Hpc; set_solver.
  - intros t' s' d'. setoid_rewrite Hin. rewrite Hseq.
    intros [Hold|(-> & -> & ->)].
    + destruct (inv_pub y Hi _ _ _ Hold) as [Hb Hu]. split; [case_decide; subst; lia|].
      intros d'' [?|(-> & -> & ->)]; [by apply Hu|]. by destruct (Hnew d').
    + rewrite decide_True by done. split; [lia|]. intros d'' [?|?]; [by destruct (Hnew d'')|naive_solver].
  - intros t' s' d'. rewrite Hlook, Hin. case_decide; [naive_solver|]. intros. left. by apply (inv_buf y Hi).
  - intros σ i m Hlk Hm. rewrite Hin. left. by eapply (inv_msgs y Hi).
  - intros m Hm. rewrite Hin. left. by apply (inv_fan y Hi).
  - intros t' s'. rewrite Hseq. setoid_rewrite Hin. intros Hs. case_decide as Hd; [subst t'|].
    + destruct (decide (s' = s)) as [->|]; [eauto 8|].
      destruct (inv_all y Hi t s') as [d' ?]; [lia|]. eauto.
    + destruct (inv_all y Hi t' s') as [d' ?]; [lia|]. eauto.
  - intros out t' d' s' Htk Ho. rewrite Hin. left. by eapply (inv_send y Hi).
Qed.

Lemma ser_commit y ps1 ps2 t d s r' dk pb fn :
  inv y → serial_inv y → pubs y = ps1 ++ Ready t d :: ps2 → (get0 (seq (leader y)) t < w64 - 2)%Z →
  publish_commit "" Written t d (leader y) ∅ = (s, r', dk) →
  serial_inv (mkSys r' (server y) (mets y) (streams y) (ps1 ++ Committed t d s :: ps2) (tick y) pb fn).
Proof.
  intros Hi Hs Hpc Hmax Hc. destruct (commit_effect y t d s r' dk Hi Hmax Hc) as (Es & _ & Hseq & _ & _).
  pose proof (ser_one y Hs) as Hnd. rewrite Hpc, fmap_app in Hnd. cbn [fmap list_fmap pub_topic] in Hnd.
  assert (∀ t' d' s', Committed t' d' s' ∈ ps1 ++ ps2 → t' ≠ t ∧ Committed t' d' s' ∈ pubs y) as Hold.
  { intros t' d' s' Hin. split; [|rewrite Hpc; set_solver]. intros ->.
    apply NoDup_app in Hnd as (_ & H1 & [H2 _]%NoDup_cons).
    apply elem_of_app in Hin as [Hin|Hin]; apply (list_elem_of_fmap_2 pub_topic) in Hin; set_solver. }
  constructor; simpl.
  - by rewrite fmap_app.
  - intros t' d' s' Hin. rewrite Hseq.
    apply elem_of_app in Hin as [Hin|[[= -> -> ->]|Hin]%elem_of_cons];
      [..|by rewrite decide_True|]; (destruct (Hold t' d' s') as [? ?]; [set_solver|]);
      rewrite decide_False by done; by eapply (ser_top y Hs).
  - intros σ ss i t' s' Hss Hσ Hlk. rewrite Hseq. unfold in_flight. simpl. intros Hr Hnf.
    assert (¬ (t' = t ∧ s' = s)) as Hne by (intros [-> ->]; apply Hnf; exists d; set_solver).
    eapply (ser_compl y Hs); eauto.
    + case_decide; [subst t'|lia]. assert (s' ≠ s) by naive_solver. lia.
    + intros [d' Hd']. apply Hnf. exists d'. rewrite Hpc in Hd'. set_solver.
  - apply Hs.
Qed.

Lemma good_publish serial y ps1 ps2 t d s ok :
  good serial y → pubs y = ps1 ++ Committed t d s :: ps2 →
  good serial (sys_publish ok (mkRepMsg t d s) (ps1 ++ ps2) y).
Proof.
  intros [Hi Hs] Hpc. set (m := mkRepMsg t d s).
  assert ((t, s, d) ∈ published y) as Hm by (apply (inv_pc y Hi); rewrite Hpc; set_solver).
  destruct (sys_broadcast_frame ok m y) as (El & Ep & Et & Epub & Ef & Eack).
  pose proof (inv_broadcast ok m y Hi Hm) as Hi'. split.
  - constructor; simpl; try apply Hi'.
    + intros t' d' s' Hin. apply (inv_pc _ Hi'). rewrite Ep, Hpc. set_solver.
    + intros x. destruct (0 <? _)%Z; [apply (inv_fan _ Hi')|].
      rewrite elem_of_app, list_elem_of_singleton, Epub. intros [Hx| ->]; [|done].
      rewrite <-Epub. by apply (inv_fan _ Hi').
  - intros Eser. specialize (Hs Eser). destruct (ser_broadcast ok m y Hi Hs Hm) as [Hs' Hnew].
    constructor; simpl; try apply Hs'.
    + pose proof (ser_one y Hs) as Hnd. rewrite Hpc, fmap_app in Hnd. rewrite fmap_app.
      apply NoDup_app in Hnd as (H1 & H2 & [_ H3]%NoDup_cons). apply NoDup_app. set_solver.
    + intros t' d' s' Hin. apply (ser_top _ Hs' t' d'). rewrite Ep, Hpc. set_solver.
    + intros σ ss' i t' s' Hss' Hσ Hlk Hr Hnf.
      destruct (decide (t' = t ∧ s' = s)) as [[-> ->]|Hne]; [by eapply Hnew|].
      eapply (ser_compl _ Hs'); eauto. intros [d' Hd']. apply Hnf. exists d'. rewrite Ep, Hpc in Hd'.
      simpl. set_solver.
Qed.

(** What a stream has read was published. *)
Lemma read_published y σ i t s :
  inv y → streams y !! σ = Some i → has (si_log i) t s → (0 < s ≤ get0 (seq (leader y)) t)%Z.
Proof.
  intros Hi Hlk (m & Hm & <- & <-). eapply (inv_pub y Hi).
  eapply (inv_msgs y Hi); [done|]. rewrite elem_of_app. eauto.
Qed.

Lemma tables_wf y tables : inv y → acks_ok (streams y) tables → acks_wf (AckedAll tables).
Proof.
  intros Hi Ha t. rewrite get0_AckedAll. destruct (inv_wf y Hi) as [Hs _]. pose proof (Hs t).
  destruct (minAck_is_min tables t) as [[_ ->]|[[n Hn] _]]; [done|].
  apply Ha in Hn as (σ & i & Hlk & _ & (t' & _ & Ht')%handed_has).
  pose proof (read_published y σ i t' _ Hi Hlk Ht'). pose proof (Hs t'). unfold is_u64 in *. lia.
Qed.

(** What a tick does when it takes the mutex. *)
Lemma lock_effect y tables order :
  inv y → tick y = TRead tables → order ≡ₚ elements (dom (buf (leader y))) →
  ∃ r' dk out, retry_topics "" (λ _, true) true (AckedAll tables) order (leader y) ∅ = Some (r', dk, out) ∧
    seq r' = seq (leader y) ∧
    (∀ t s, getm (buf r') t !! s =
       if decide (s ≤ minAck tables t)%Z then None else getm (buf (leader y)) t !! s) ∧
    (∀ t s d, (t, d, s) ∈ out ↔ (minAck tables t < s)%Z ∧ getm (buf (leader y)) t !! s = Some d).
Proof.
  intros Hi Htk Ho. pose proof (inv_read y Hi tables Htk) as Hacks.
  assert (NoDup order) as Hnd by (rewrite Ho; apply NoDup_elements).
  destruct (retry_topics_spec "" (λ _, true) true (AckedAll tables) order (leader y) ∅)
    as (r' & dk & out & E & Eseq & Hlook & Hout); [done|apply Hi|by eapply tables_wf|apply Hi|].
  assert (∀ t s d, getm (buf (leader y)) t !! s = Some d → t ∈ order) as Hdom.
  { intros t s d Hb. rewrite Ho. apply elem_of_elements, elem_of_dom. unfold getm in Hb.
    destruct (buf (leader y) !! t); [eauto|]. simpl in Hb. by rewrite lookup_empty in Hb. }
  exists r', dk, out. split_and!; [done..| |].
  - intros t s. rewrite Hlook, get0_AckedAll. destruct (getm (buf (leader y)) t !! s) eqn:Eb.
    + apply Hdom in Eb. repeat case_decide; naive_solver.
    + repeat case_decide; naive_solver.
  - intros t s d. rewrite Hout, get0_AckedAll. naive_solver.
Qed.

Lemma good_lock serial y tables order r' dk out :
  good serial y → tick y = TRead tables → order ≡ₚ elements (dom (buf (leader y))) →
  retry_topics "" (λ _, true) true (AckedAll tables) order (leader y) ∅ = Some (r', dk, out) →
  good serial (set_tick r' (TSend out) y).
Proof.
  intros [Hi Hs] Htk Ho Hr. destruct (lock_effect y tables order Hi Htk Ho) as (r1 & d1 & o1 & E & Eseq & Hlook & Hout).
  simplify_eq. split.
  - constructor; simpl; try rewrite Eseq; try apply Hi; try done.
    + destruct (inv_wf y Hi) as [Hq Hb]. split; [by rewrite Eseq|].
      intros t s x. rewrite Hlook, Eseq. case_decide; [done|apply Hb].
    + intros t s d. rewrite Hlook. case_decide; [done|]. apply (inv_buf y Hi).
    + intros out' t d s [= <-] [_ ?]%Hout. by apply (inv_buf y Hi).
  - intros Eser. specialize (Hs Eser). constructor; simpl; try rewrite Eseq; apply Hs.
Qed.

(** The retry loop goes on without touching the buffer. *)
Lemma good_tick serial y k :
  good serial y → (∀ tables, k = TRead tables → acks_ok (streams y) tables) →
  (∀ out t d s, k = TSend out → (t, d, s) ∈ out → (t, s, d) ∈ published y) →
  good serial (set_tick (leader y) k y).
Proof.
  intros [Hi Hs] Hr Ho. split; [constructor; simpl; try apply Hi; done|].
  intros Eser. specialize (Hs Eser). constructor; simpl; apply Hs.
Qed.

Lemma good_resend serial y t d s out ok :
  good serial y → tick y = TSend ((t, d, s) :: out) →
  good serial (sys_broadcast ok (mkRepMsg t d s) (set_tick (leader y) (TSend out) y)).
Proof.
  intros Hg Htk. assert (good serial (set_tick (leader y) (TSend out) y)) as [Hi Hs].
  { apply good_tick; [done|done|]. intros out' t' d' s' [= <-] Hin. destruct Hg as [Hi _].
    eapply (inv_send y Hi); [done|]. set_solver. }
  assert ((t, s, d) ∈ published y) as Hm by (destruct Hg as [Hi' _]; eapply (inv_send y Hi'); [done|set_solver]).
  split; [by apply inv_broadcast|]. intros Eser. by apply ser_broadcast; auto.
Qed.

Lemma good_ack serial y σ i a s' mt :
  good serial y → streams y !! σ = Some i → si_pend i = Some a → Ack (ack_read a) (server y) (mets y) = (s', mt) →
  good serial (set_streams s' mt (<[σ := sub_acked i]> (streams y)) y).
Proof.
  intros Hg Hlk Hpe Hack. pose proof Hg as [Hi _]. pose proof (inv_subs y Hi) as [ss Hss].
  assert (subs s' = subs (server y)) as Es.
  { pose proof (Ack_subs (ack_read a) (server y) (mets y)) as E. by rewrite Hack in E. }
  destruct (inv_pend y Hi σ i a) as [Hn Hh]; [done..|].
  eapply (good_update serial y σ i); eauto; simpl; eauto.
  - exists []. by rewrite app_nil_r.
  - done.
  - by rewrite Es.
  - intros t n v Hv. pose proof (Ack_ack (ack_read a) (server y) (mets y) t n v) as Hacks. rewrite Hack in Hacks.
    destruct (Hacks Hv) as [?|(-> & -> & ->)]; [by left|right]. cbn [ack_read a_node a_topic a_seq]. rewrite Hn.
    split; [done|]. apply handed_has in Hh as (t & E & Ht). rewrite <-E, repair_string_idemp, E in *.
    apply handed_has. by exists t.
Qed.

Lemma good_close serial y σ i s' mt :
  good serial y → streams y !! σ = Some i → removeSub σ (server y) (mets y) = (s', mt) →
  good serial (set_streams s' mt (<[σ := sub_closed i]> (streams y)) y).
Proof.
  intros Hg Hlk Hrm. pose proof Hg as [Hi _]. pose proof (inv_subs y Hi) as [ss Hss].
  assert (∃ ss', subs s' = Some ss' ∧ ss' ⊆ ss ∧ σ ∉ ss' ∧ ack s' = ack (server y)) as (ss' & Hss' & ? & ? & Eack).
  { unfold removeSub in Hrm. rewrite Hss in Hrm. simplify_eq. simpl. eexists. split; [done|]. set_solver. }
  eapply (good_update serial y σ i); eauto; simpl; eauto.
  - exists (si_queue i). by rewrite app_nil_r.
  - intros a Ha. apply (inv_pend y Hi σ i a Hlk Ha).
  - done.
  - rewrite Eack. auto.
Qed.

Lemma good_recv serial y σ i i' :
  good serial y → streams y !! σ = Some i → sub_recv i = Some i' →
  good serial (set_streams (server y) (mets y) (<[σ := i']> (streams y)) y).
Proof.
  intros Hg Hlk Hr. pose proof Hg as [Hi _]. pose proof (inv_subs y Hi) as [ss Hss].
  unfold sub_recv in Hr. destruct (si_queue i) as [|m q] eqn:Eq; [done|].
  destruct (si_pend i) eqn:Ep; simplify_eq.
  eapply (good_update serial y σ i); eauto; simpl.
  - by apply prefix_app_r.
  - exists []. rewrite Eq, app_nil_r, <-app_assoc. done.
  - intros a [= <-]. simpl. split; [done|]. unfold handed. cbn [si_log].
    rewrite fmap_app, has_app. right. exists (msg_read m). by split; [apply list_elem_of_here|].
  - intros _. rewrite Eq, <-app_assoc. done.
Qed.

Lemma good_init serial : good serial sys_init.
Proof.
  unfold sys_init, rep_new, server_start. split; [|intros _]; constructor; simpl; try done; try apply rep_new_wf.
  - eauto.
  - set_solver.
  - set_solver.
  - set_solver.
  - intros t s. rewrite get0_empty. lia.
  - constructor.
  - set_solver.
Qed.

(** Publishers that have stored nothing, by their list. *)
Ltac pubs_changed :=
  apply good_pubs; [done|intros; match goal with H : pubs _ = _ |- _ => rewrite H end; set_solver
    |intros _; match goal with H : pubs _ = _ |- _ => rewrite H end; rewrite !fmap_app; cbn [fmap list_fmap pub_topic]].

Lemma good_step W serial y y' : step W serial y y' → good serial y → good serial y'.
Proof.
  intros Hstep Hg. destruct Hstep.
  - by eapply good_subscribe.
  - apply good_pubs; [done|set_solver|]. intros Eser Hnd. by apply NoDup_cons; auto.
  - destruct (window_seen _ _ _ _); by pubs_changed.
  - by pubs_changed.
  - pubs_changed. rewrite !NoDup_app, NoDup_cons. set_solver.
  - destruct Hg as [Hi Hs]. split; [by eapply inv_commit|]. intros Eser. eapply ser_commit; eauto.
  - by apply good_publish.
  - apply good_tick; [done| |done]. intros tables [= <-]. apply Hg.
  - by eapply good_lock.
  - by apply good_resend.
  - by apply good_tick.
  - destruct Hg as [Hi Hs]. split; [by destruct Hi|]. intros Eser. by destruct (Hs Eser).
  - by eapply good_recv.
  - by eapply good_ack.
  - destruct (inv_subs y (proj1 Hg)) as [ss Hss].
    eapply (good_update serial y σ i); eauto; simpl; eauto; [|done]. exists []. by rewrite app_nil_r.
  - by eapply good_close.
Qed.

Lemma reachable_good W serial y : reachable W serial y → good serial y.
Proof.
  intros Hr. unfold reachable in Hr. revert Hr. generalize (good_init serial). generalize sys_init. intros y0 H0 Hr.
  induction Hr; eauto using good_step.
Qed.

(** ** Losing a message *)

(** A message that is in no buffer and no stream, that no publisher is about to send and
    that the retry loop has not set aside. *)
Record gone (y : sys) (t : string) (s : Z) : Prop := mkGone {
  gone_seq : (0 < s ≤ get0 (seq (leader y)) t)%Z;
  gone_buf : getm (buf (leader y)) t !! s = None;
  gone_queue : ∀ σ i, streams y !! σ = Some i → ¬ has (si_queue i) t s;
  gone_pc : ¬ in_flight y t s;
  gone_tick : ∀ out d, tick y = TSend out → (t, d, s) ∉ out;
}.

(** A node has the message, from a stream or because it was posted to the members. *)
Definition got (y : sys) (n t : string) (s : Z) : Prop := delivered y n t s ∨ has (fanned y) t s.

(** What was handed over stays the same when streams keep their nodes and logs. *)
Lemma got_logs y y' n t s :
  (∀ σ i', streams y' !! σ = Some i' →
    ∃ i, streams y !! σ = Some i ∧ si_node i' = si_node i ∧ si_log i' = si_log i) →
  fanned y' = fanned y → got y' n t s → got y n t s.
Proof.
  intros H Ef [(σ & i' & m & (i & ? & En & El)%H & ? & Hm & ?)|Hf].
  - left. rewrite El in Hm. rewrite En in *. by exists σ, i, m.
  - right. by rewrite <-Ef.
Qed.

Lemma sys_broadcast_log ok m y σ i' :
  streams (sys_broadcast ok m y) !! σ = Some i' →
  ∃ i, streams y !! σ = Some i ∧ si_node i' = si_node i ∧ si_log i' = si_log i.
Proof.
  rewrite sys_broadcast_streams. destruct (streams y !! σ) as [i|]; [|done]. simpl.
  intros [= <-]. exists i. by case_decide.
Qed.

Lemma gone_broadcast ok m y t s n :
  gone y t s → (m_topic m, m_seq m) ≠ (t, s) →
  gone (sys_broadcast ok m y) t s ∧ (got (sys_broadcast ok m y) n t s → got y n t s).
Proof.
  intros [Hs Hb Hq Hp Ht] Hne. destruct (sys_broadcast_frame ok m y) as (El & Ep & Et & _ & Ef & _). split.
  - constructor; rewrite ?El, ?Et; [done..| | |done].
    + intros σ i'. rewrite sys_broadcast_streams. destruct (streams y !! σ) as [i|] eqn:E; [|done].
      simpl. intros [= <-]. case_decide; [|eauto]. simpl. rewrite has_app, has_singleton.
      intros [?|[<- <-]]; [eapply Hq; eauto|done].
    + unfold in_flight. by rewrite Ep.
  - apply got_logs; [|done]. intros ??. apply sys_broadcast_log.
Qed.

(** Changing one stream keeps a message gone when the stream neither queues nor hands over
    the message anew. *)
Lemma gone_update y s' mt t s n σ i i' :
  gone y t s → streams y !! σ = Some i → si_node i' = si_node i →
  (has (si_queue i') t s → has (si_queue i) t s) → (has (si_log i') t s → has (si_log i) t s) →
  let y' := set_streams s' mt (<[σ := i']> (streams y)) y in
  gone y' t s ∧ (got y' n t s → got y n t s).
Proof.
  intros [Hs Hb Hq Hp Ht] Hlk Hn Hqueue Hlog. split.
  - constructor; simpl; try done.
    intros σ' x [[<- <-]|[_ ?]]%lookup_insert_Some; [|eauto]. intros ?%Hqueue. by eapply Hq.
  - unfold got, delivered. cbn [streams set_streams].
    intros [(σ' & x & m & [[<- <-]|[_ Hx]]%lookup_insert_Some & Hx1 & Hx2)|?]; [left..|by right].
    + destruct Hlog as (m' & ?); [exists m; naive_solver|]. exists σ, i, m'. naive_solver.
    + by exists σ', x, m.
Qed.

Lemma gone_pubs y ps t s :
  gone y t s → (∀ d, Committed t d s ∈ ps → Committed t d s ∈ pubs y) → gone (set_pubs ps y) t s.
Proof. intros [Hs Hb Hq Hp Ht] Hps. constructor; simpl; try done. intros [d Hd]. apply Hp. exists d. auto. Qed.

Lemma gone_commit y ps1 ps2 t0 d s0 r' dk pb fn t s :
  inv y → gone y t s → pubs y = ps1 ++ Ready t0 d :: ps2 → (get0 (seq (leader y)) t0 < w64 - 2)%Z →
  publish_commit "" Written t0 d (leader y) ∅ = (s0, r', dk) →
  gone (mkSys r' (server y) (mets y) (streams y) (ps1 ++ Committed t0 d s0 :: ps2) (tick y) pb fn) t s.
Proof.
  intros Hi [Hs Hb Hq Hp Ht] Hpc Hlt Hc.
  destruct (commit_effect y t0 d s0 r' dk Hi Hlt Hc) as (Es & _ & Hseq & Hlook & _).
  assert (¬ (t = t0 ∧ s = s0)) as Hne by (intros [-> ->]; lia).
  constructor; simpl; try done.
  - rewrite Hseq. case_decide; [subst; lia|done].
  - by rewrite Hlook, decide_False.
  - intros [d' Hd']. apply elem_of_app in Hd' as [?|[[= -> _ ->]|?]%elem_of_cons]; [|by apply Hne|];
      apply Hp; exists d'; rewrite Hpc; set_solver.
Qed.

Lemma gone_lock y tables order r' dk out t s :
  inv y → gone y t s → tick y = TRead tables → order ≡ₚ elements (dom (buf (leader y))) →
  retry_topics "" (λ _, true) true (AckedAll tables) order (leader y) ∅ = Some (r', dk, out) →
  gone (set_tick r' (TSend out) y) t s.
Proof.
  intros Hi [Hs Hb Hq Hp _] Htk Ho Hr.
  destruct (lock_effect y tables order Hi Htk Ho) as (r1 & d1 & o1 & E & Eseq & Hlook & Hout). simplify_eq.
  constructor; simpl; try done.
  - by rewrite Eseq.
  - rewrite Hlook. by case_decide.
  - intros out' d [= <-] [_ ?]%Hout. congruence.
Qed.

Lemma gone_publish y ps1 ps2 t0 d s0 ok t s n :
  gone y t s → pubs y = ps1 ++ Committed t0 d s0 :: ps2 →
  let y' := sys_publish ok (mkRepMsg t0 d s0) (ps1 ++ ps2) y in
  gone y' t s ∧ (got y' n t s → got y n t s).
Proof.
  intros Hg Hpc. assert (¬ (t0 = t ∧ s0 = s)) as Hne.
  { intros [-> ->]. apply (gone_pc y t s Hg). exists d. rewrite Hpc. set_solver. }
  destruct (gone_broadcast ok (mkRepMsg t0 d s0) y t s n Hg) as [[Hs Hb Hq Hp Ht] Hback]; [naive_solver|].
  destruct (sys_broadcast_frame ok (mkRepMsg t0 d s0) y) as (_ & Ep & _ & _ & Ef & _). split.
  - constructor; simpl; try done. intros [d' Hd']. apply Hp. exists d'. rewrite Ep, Hpc. set_solver.
  - intros Hgot. apply Hback. destruct Hgot as [Hd|Hf]; [by left|right]. simpl in Hf.
    destruct (0 <? _)%Z; [done|]. apply has_app in Hf as [?|Hf]; [done|]. by apply has_singleton in Hf.
Qed.

(** Once gone, a message stays gone and no node gets it any more. *)
Lemma gone_step W serial y y' t s n :
  inv y → step W serial y y' → gone y t s → gone y' t s ∧ (got y' n t s → got y n t s).
Proof.
  intros Hi Hstep Hg. destruct Hstep as
    [y σ m s' mt Hf Ha|y t0 d Hser|y ps1 ps2 t0 d a Hpc Hu|y ps1 ps2 t0 d Hpc|y ps1 ps2 t0 d Hpc
    |y ps1 ps2 t0 d s0 r' dk Hpc Hu Hlt Hc|y ps1 ps2 t0 d s0 ok Hpc|y Htk|y tables order r' dk out Htk Ho Hr
    |y ok t0 d s0 out Htk|y Htk|y mt|y σ i i' Hlk Hr|y σ i a s' mt Hlk Hpe Ha|y σ i Hlk|y σ i s' mt Hlk Hrm].
  - pose proof Hg as [Hs Hb Hq Hp Ht]. split; [constructor; simpl; try done|].
    + intros σ' i [[<- <-]|[_ ?]]%lookup_insert_Some; [|eauto]. simpl. intros (? & ? & _). set_solver.
    + unfold got, delivered. cbn [streams set_streams].
      intros [(σ' & i & x & [[<- <-]|[_ ?]]%lookup_insert_Some & ? & Hm & ?)|?]; [left..|by right].
      * simpl in Hm. set_solver.
      * by exists σ', i, x.
  - split; [|done]. apply gone_pubs; [done|set_solver].
  - split; [|done]. apply gone_pubs; [done|]. rewrite Hpc. destruct (window_seen _ _ _ _); set_solver.
  - split; [|done]. apply gone_pubs; [done|]. rewrite Hpc. set_solver.
  - split; [|done]. apply gone_pubs; [done|]. rewrite Hpc. set_solver.
  - split; [by eapply gone_commit|done].
  - by apply gone_publish.
  - split; [|done]. by destruct Hg; constructor.
  - split; [by eapply gone_lock|done].
  - pose proof Hg as [Hs Hb Hq Hp Ht].
    assert (gone (set_tick (leader y) (TSend out) y) t s) as Hg1.
    { constructor; simpl; try done. intros out' d' [= <-] Hin. apply (Ht _ d' Htk). set_solver. }
    apply (gone_broadcast ok (mkRepMsg t0 d s0) _ t s n Hg1). simpl. intros [= -> ->].
    apply (Ht _ d Htk). set_solver.
  - split; [|done]. by destruct Hg; constructor.
  - split; [|done]. by destruct Hg; constructor.
  - unfold sub_recv in Hr. destruct (si_queue i) as [|m q] eqn:Eq; [done|]. destruct (si_pend i); simplify_eq.
    assert (∀ l, has (m :: l) t s ↔ has [m] t s ∨ has l t s) as Hcons by (intros; apply (has_app [m])).
    assert (¬ has (m :: q) t s) as Hnq by (rewrite <-Eq; eapply (gone_queue y t s Hg); eauto).
    apply (gone_update y _ _ t s n σ i); [done..| |]; simpl.
    + rewrite Eq, Hcons. auto.
    + rewrite Hcons in Hnq. rewrite has_app. tauto.
  - by apply (gone_update y _ _ t s n σ i).
  - by apply (gone_update y _ _ t s n σ i).
  - apply (gone_update y _ _ t s n σ i); try done. simpl. intros (? & ? & _). set_solver.
Qed.

Lemma gone_steps W serial y y' t s n :
  good serial y → rtc (step W serial) y y' → gone y t s → got y' n t s → got y n t s.
Proof.
  intros Hi Hr. induction Hr as [|y y1 y' Hstep Hr IH]; intros Hg Hd; [done|].
  destruct (gone_step W serial y y1 t s n (proj1 Hi) Hstep Hg) as [Hg1 Hback]. eauto using good_step.
Qed.

(** ** Progress *)

Lemma broadcast_all m y ss σ i :
  subs (server y) = Some ss → σ ∈ ss → streams y !! σ = Some i →
  subs (server (sys_broadcast (λ _, true) m y)) = Some ss ∧
  streams (sys_broadcast (λ _, true) m y) !! σ = Some (push m i).
Proof.
  intros Hss Hσ Hi. rewrite sys_broadcast_streams, Hi.
  unfold sys_broadcast, BroadcastWithSeq. rewrite Hss. simpl.
  assert (filter (λ _ : nat, true = true) ss = ss) as -> by set_solver.
  by rewrite decide_True.
Qed.

(** A stream that grew: the same node and log, and more in the queue. *)
Definition extends (i i' : subinfo) : Prop :=
  si_node i' = si_node i ∧ si_log i' = si_log i ∧ ∃ k, si_queue i' = si_queue i ++ k.

Lemma extends_refl i : extends i i.
Proof. split_and!; [done..|]. exists []. by rewrite app_nil_r. Qed.

(** The retry loop can send what it has set aside and give back the mutex. *)
Lemma finish_tick W serial y ss σ i out :
  tick y = TSend out → subs (server y) = Some ss → σ ∈ ss → streams y !! σ = Some i →
  ∃ y' i', rtc (step W serial) y y' ∧ tick y' = TIdle ∧ leader y' = leader y ∧ ack (server y') = ack (server y) ∧
    subs (server y') = Some ss ∧ streams y' !! σ = Some i' ∧ extends i i' ∧
    ∀ t d s, (t, d, s) ∈ out → has (si_queue i') t s.
Proof.
  revert y i. induction out as [|[[t d] s] out IH]; intros y i Htk Hss Hσ Hi.
  { exists (set_tick (leader y) TIdle y), i. split_and!; try done;
      [apply rtc_once; by apply step_unlock|apply extends_refl|set_solver]. }
  set (y1 := sys_broadcast (λ _, true) (mkRepMsg t d s) (set_tick (leader y) (TSend out) y)).
  destruct (broadcast_all (mkRepMsg t d s) (set_tick (leader y) (TSend out) y) ss σ i) as [Hss1 Hi1]; [done..|].
  destruct (sys_broadcast_frame (λ _, true) (mkRepMsg t d s) (set_tick (leader y) (TSend out) y))
    as (El & _ & Et & _ & _ & Ea).
  destruct (IH y1 _ Et Hss1 Hσ Hi1) as (y' & i' & Hr & Ht' & El' & Ea' & Hss' & Hi' & (Hn & Hl & k & Hk) & Hout).
  exists y', i'. split_and!; try done.
  - eapply rtc_l; [by apply (step_resend W serial y (λ _, true))|done].
  - etrans; [exact El'|exact El].
  - etrans; [exact Ea'|exact Ea].
  - split_and!; [done..|]. exists ([mkRepMsg t d s] ++ k). simpl in Hk. by rewrite app_assoc.
  - intros t' d' s' [[= -> -> ->]|?]%elem_of_cons; [|eauto]. rewrite Hk. simpl. rewrite !has_app, has_singleton. auto.
Qed.

(** A stream can always be read to its end. *)
Lemma drain W serial y σ i :
  streams y !! σ = Some i →
  ∃ y' i', rtc (step W serial) y y' ∧ streams y' !! σ = Some i' ∧ si_node i' = si_node i ∧
    si_log i' = si_log i ++ si_queue i.
Proof.
  remember (si_queue i) as q eqn:Eq. revert y i Eq.
  induction q as [|m q IH]; intros y i Eq Hlk.
  { exists y, i. by rewrite app_nil_r. }
  set (y1 := set_streams (server y) (mets y) (<[σ := sub_acked i]> (streams y)) y).
  set (i2 := mkSub (si_node i) (si_since i) (si_log i ++ [m]) q
               (Some (mkRepAck (m_topic (msg_read m)) (m_seq (msg_read m)) (si_node i)))).
  set (y2 := set_streams (server y1) (mets y1) (<[σ := i2]> (streams y1)) y1).
  assert (step W serial y y1) as H1 by (by apply step_ack_lost).
  assert (step W serial y1 y2) as H2.
  { eapply (step_recv W serial y1 σ (sub_acked i)); [apply lookup_insert_eq|].
    unfold sub_recv. simpl. by rewrite <-Eq. }
  destruct (IH y2 i2) as (y' & i' & Hr & Hi' & Hn & Hl); [done|apply lookup_insert_eq|].
  exists y', i'. split_and!; [by eapply rtc_l, rtc_l|done..|]. rewrite Hl. simpl. by rewrite <-app_assoc.
Qed.

(** A tick that has read the acknowledgements of tables below the message sends it. *)
Lemma tick_sends W serial y ss σ i tables t s d :
  good serial y → tick y = TRead tables → subs (server y) = Some ss → σ ∈ ss → streams y !! σ = Some i →
  getm (buf (leader y)) t !! s = Some d → (minAck tables t < s)%Z →
  ∃ y', rtc (step W serial) y y' ∧ delivered y' (si_node i) t s.
Proof.
  intros Hg Htk Hss Hσ Hi Hb Hmin.
  destruct (lock_effect y tables (elements (dom (buf (leader y)))) (proj1 Hg) Htk)
    as (r' & dk & out & E & _ & _ & Hout); [done|].
  assert ((t, d, s) ∈ out) as Hin by by apply Hout.
  destruct (finish_tick W serial (set_tick r' (TSend out) y) ss σ i out)
    as (y1 & i1 & Hr1 & _ & _ & _ & _ & Hi1 & (Hn1 & Hl1 & _) & Hq1); [done..|].
  destruct (drain W serial y1 σ i1 Hi1) as (y2 & i2 & Hr2 & Hi2 & Hn2 & Hl2).
  exists y2. split; [eapply rtc_l; [by eapply step_lock|by etrans]|].
  destruct (Hq1 _ _ _ Hin) as (m & Hm & Et & Es).
  exists σ, i2, m. split_and!; [done|congruence| |done..]. rewrite Hl2, elem_of_app. auto.
Qed.

(** ** Properties *)


(** No topic but [t] that has been published is read as [t]; so it is for every topic when
    all of them are UTF-8. *)
Definition read_alone (r : rep) (t : string) : Prop :=
  ∀ t', (0 < get0 (seq r) t')%Z → repair_string t' = t → t' = t.

Lemma utf8_read_alone r t :
  (∀ t', (0 < get0 (seq r) t')%Z → utf8_valid t' = true) → read_alone r t.
Proof. intros H t' Ht' <-. by rewrite repair_string_id by auto. Qed.

Lemma singleton_utf8 t (v : Z) :
  utf8_valid t = true → ∀ t', (0 < get0 {[t := v]} t')%Z → utf8_valid t' = true.
Proof.
  intros Ht t' Hp. destruct (decide (t' = t)) as [->|Hne]; [done|].
  unfold get0 in Hp. by rewrite lookup_singleton_ne in Hp by done.
Qed.

(** The messages of a topic that a stream has handed over up to one that is acknowledged. *)
Lemma acked_on_stream y tables t n a :
  inv y → serial_inv y → acks_ok (streams y) tables → read_alone (leader y) t →
  getm (ack tables) t !! n = Some a →
  ∃ σ i, streams y !! σ = Some i ∧ repair_string (si_node i) = n ∧
    ∀ s, (get0 (si_since i) t < s ≤ a)%Z → has (si_log i) t s.
Proof.
  intros Hi Hs Ha Hone (σ & i & Hlk & Hn & (t' & Et & Hh)%handed_has)%Ha.
  pose proof (read_published y σ i t' a Hi Hlk Hh) as Hr. apply Hone in Et as ->; [|lia].
  exists σ, i. split_and!; [done..|]. intros s Hs'.
  eapply closed_has; [|done..]. eapply closed_prefix. by eapply (ser_closed y Hs).
Qed.

(** C14. A retry tick drops a message only when some node had acknowledged the topic when the
    tick read the acknowledgements, and then every node that had, has either got the
    message or acknowledged on a stream it opened after the message was published; when
    the publishers of a topic do not overlap and no other published topic is read as this
    one, as when all topics are UTF-8.  A node's name is the one JSON makes of it. *)
Theorem retry_drops_only_received W y tables order r' dk out t s d :
  reachable W true y → tick y = TRead tables → order ≡ₚ elements (dom (buf (leader y))) →
  retry_topics "" (λ _, true) true (AckedAll tables) order (leader y) ∅ = Some (r', dk, out) →
  getm (buf (leader y)) t !! s = Some d → getm (buf r') t !! s = None → read_alone (leader y) t →
  (∃ n a, getm (ack tables) t !! n = Some a) ∧
  ∀ n a, getm (ack tables) t !! n = Some a →
    ∃ σ i, streams y !! σ = Some i ∧ repair_string (si_node i) = n ∧
      (delivered y (si_node i) t s ∨ (s ≤ get0 (si_since i) t)%Z).
Proof.
  intros [Hi Hs]%reachable_good Htk Ho Hr Hb Hnone Hone.
  destruct (lock_effect y tables order Hi Htk Ho) as (r1 & d1 & o1 & E & _ & Hlook & _).
  rewrite E in Hr. simplify_eq. rewrite Hlook in Hnone. case_decide as Hle; [|congruence].
  apply (inv_buf y Hi) in Hb as [Hsq _]%(inv_pub y Hi). split.
  - destruct (minAck_is_min tables t) as [[_ E0]|[[n Hn] _]]; [lia|eauto].
  - intros n a Ha. pose proof (minAck_le _ _ _ _ Ha).
    destruct (acked_on_stream y tables t n a Hi (Hs eq_refl) (inv_read y Hi tables Htk) Hone Ha)
      as (σ & i & Hlk & Hn & Hall).
    exists σ, i. split_and!; [done..|].
    destruct (decide (s ≤ get0 (si_since i) t)%Z); [by right|left].
    destruct (Hall s) as (m & ? & ? & ?); [lia|]. by exists σ, i, m.
Qed.

(** As long as a message is in the leader's buffer and not yet acknowledged by every
    acknowledging node, neither now nor in what a tick under way has read, a subscribed
    node can still get it: the tick under way or the next one, when its sends succeed, and
    reading the stream deliver it. *)
Theorem buffered_message_deliverable W serial y σ ss i t s d :
  reachable W serial y → subs (server y) = Some ss → σ ∈ ss → streams y !! σ = Some i →
  getm (buf (leader y)) t !! s = Some d → (minAck (server y) t < s)%Z →
  (∀ tables, tick y = TRead tables → (minAck tables t < s)%Z) →
  ∃ y', rtc (step W serial) y y' ∧ delivered y' (si_node i) t s.
Proof.
  intros Hg%reachable_good Hss Hσ Hlk Hb Hmin Htables.
  assert (∀ y1 i1, rtc (step W serial) y y1 → tick y1 = TIdle → leader y1 = leader y →
    ack (server y1) = ack (server y) → subs (server y1) = Some ss → streams y1 !! σ = Some i1 →
    si_node i1 = si_node i → ∃ y', rtc (step W serial) y y' ∧ delivered y' (si_node i) t s) as Hidle.
  { intros y1 i1 Hr Htk El Ea Hss1 Hlk1 Hn.
    assert (step W serial y1 (set_tick (leader y1) (TRead (server y1)) y1)) as Hstep by by apply step_tick.
    assert (good serial y1) as Hg1 by (clear -Hg Hr; induction Hr; eauto using good_step).
    destruct (tick_sends W serial (set_tick (leader y1) (TRead (server y1)) y1) ss σ i1 (server y1) t s d)
      as (y' & Hr' & Hd); [by eapply good_step|done..|by rewrite <-El in Hb|unfold minAck in *; by rewrite Ea|].
    exists y'. split; [|by rewrite <-Hn]. etrans; [done|]. by eapply rtc_l. }
  destruct (tick y) as [|tables|out] eqn:Htk.
  - by apply (Hidle y i).
  - eapply tick_sends; eauto.
  - destruct (finish_tick W serial y ss σ i out) as (y1 & i1 & Hr & Ht1 & El & Ea & Hss1 & Hi1 & (Hn & _) & _); [done..|].
    by apply (Hidle y1 i1).
Qed.

(** ** Runs *)

(** An executable scheduler: one label per step, with the position of the publisher and the
    streams whose sends fail. *)
Inductive label : Type :=
  | LSubscribe (σ : nat) (n : string)
  | LStart (t : string) (d : bytes)
  | LPoll (p : nat)
  | LCommit (p : nat)
  | LBcast (p : nat) (fails : list nat)
  | LTick
  | LLock
  | LResend (fails : list nat)
  | LUnlock
  | LRecv (σ : nat)
  | LAck (σ : nat)
  | LClose (σ : nat).

Definition send_but (fails : list nat) (σ : nat) : bool := negb (bool_decide (σ ∈ fails)).

Definition exec_pub (W : Z) (l : label) (y : sys) : option sys :=
  match l with
  | LStart t d =>
      if decide (t ∈ pub_topic <$> pubs y) then None
      else Some (set_pubs (Polled t d (AckedAll (server y)) :: pubs y) y)
  | LPoll p =>
      match pubs y !! p with
      | Some (Polled t d acked) =>
          if unlocked y
          then Some (set_pubs (take p (pubs y) ++
                 (if window_seen W t acked y then Ready t d else Waiting t d) :: drop (S p) (pubs y)) y)
          else None
      | _ => None
      end
  | LCommit p =>
      match pubs y !! p with
      | Some (Ready t d) =>
          if unlocked y && bool_decide (get0 (seq (leader y)) t < w64 - 2)%Z then
            let '(s, r', _) := publish_commit "" Written t d (leader y) ∅ in
            Some (mkSys r' (server y) (mets y) (streams y)
              (take p (pubs y) ++ Committed t d s :: drop (S p) (pubs y)) (tick y)
              (published y ++ [(t, s, d)]) (fanned y))
          else None
      | _ => None
      end
  | LBcast p fails =>
      match pubs y !! p with
      | Some (Committed t d s) =>
          Some (sys_publish (send_but fails) (mkRepMsg t d s) (take p (pubs y) ++ drop (S p) (pubs y)) y)
      | _ => None
      end
  | _ => None
  end.

(** A second publisher of the same topic may start when [serial] is not set. *)
Definition exec (W : Z) (serial : bool) (l : label) (y : sys) : option sys :=
  match l with
  | LSubscribe σ n =>
      match streams y !! σ with
      | Some _ => None
      | None => let '(s', mt) := addSub σ (server y) (mets y) in
                Some (set_streams s' mt (<[σ := mkSub n (seq (leader y)) [] [] None]> (streams y)) y)
      end
  | LStart t d =>
      if serial then exec_pub W l y
      else Some (set_pubs (Polled t d (AckedAll (server y)) :: pubs y) y)
  | LPoll _ | LCommit _ | LBcast _ _ => exec_pub W l y
  | LTick => match tick y with TIdle => Some (set_tick (leader y) (TRead (server y)) y) | _ => None end
  | LLock =>
      match tick y with
      | TRead tables =>
          '(r', _, out) ← retry_topics "" (λ _, true) true (AckedAll tables)
              (elements (dom (buf (leader y)))) (leader y) ∅;
          Some (set_tick r' (TSend out) y)
      | _ => None
      end
  | LResend fails =>
      match tick y with
      | TSend ((t, d, s) :: out) =>
          Some (sys_broadcast (send_but fails) (mkRepMsg t d s) (set_tick (leader y) (TSend out) y))
      | _ => None
      end
  | LUnlock => match tick y with TSend [] => Some (set_tick (leader y) TIdle y) | _ => None end
  | LRecv σ =>
      i ← streams y !! σ; i' ← sub_recv i;
      Some (set_streams (server y) (mets y) (<[σ := i']> (streams y)) y)
  | LAck σ =>
      i ← streams y !! σ; a ← si_pend i;
      let '(s', mt) := Ack (ack_read a) (server y) (mets y) in
      Some (set_streams s' mt (<[σ := sub_acked i]> (streams y)) y)
  | LClose σ =>
      i ← streams y !! σ;
      let '(s', mt) := removeSub σ (server y) (mets y) in
      Some (set_streams s' mt (<[σ := sub_closed i]> (streams y)) y)
  end.

Fixpoint run (W : Z) (serial : bool) (ls : list label) (y : sys) : option sys :=
  match ls with
  | [] => Some y
  | l :: ls' => y' ← exec W serial l y; run W serial ls' y'
  end.

Lemma exec_pub_step W serial l y y' : exec_pub W l y = Some y' → step W serial y y'.
Proof.
  destruct l; try done; cbn [exec_pub].
  - case_decide; [done|]. intros [= <-]. by apply step_start.
  - destruct (pubs y !! p) as [[t d a| | |]|] eqn:E; try done. destruct (unlocked y) eqn:Eu; [|done]. intros [= <-].
    apply step_poll; [by symmetry; apply take_drop_middle|done..].
  - destruct (pubs y !! p) as [[| |t d|]|] eqn:E; try done. destruct (unlocked y) eqn:Eu; cbn [andb]; [|done].
    case_bool_decide; [|done]. destruct (publish_commit _ _ _ _ _ _) as [[s r'] dk] eqn:Ec. intros [= <-].
    eapply step_commit; [by symmetry; apply take_drop_middle|done..].
  - destruct (pubs y !! p) as [[| | |t d s]|] eqn:E; try done. intros [= <-].
    apply step_bcast. by symmetry; apply take_drop_middle.
Qed.

Lemma exec_step W serial l y y' : exec W serial l y = Some y' → step W serial y y'.
Proof.
  destruct l; cbn [exec]; try apply exec_pub_step.
  - destruct (streams y !! σ) eqn:E; [done|]. destruct (addSub _ _ _) eqn:Ea. intros [= <-].
    by apply step_subscribe.
  - destruct serial; [apply exec_pub_step|]. intros [= <-]. by apply step_start.
  - destruct (tick y) eqn:E; try done. intros [= <-]. by apply step_tick.
  - destruct (tick y) eqn:E; try done. destruct (retry_topics _ _ _ _ _ _ _) as [[[r' dk] out]|] eqn:Er; [|done].
    intros [= <-]. by eapply step_lock.
  - destruct (tick y) as [| |[|[[t d] s] out]] eqn:E; try done. intros [= <-]. by apply step_resend.
  - destruct (tick y) as [| |[|]] eqn:E; try done. intros [= <-]. by apply step_unlock.
  - destruct (streams y !! σ) as [i|] eqn:E; [|done]. simpl.
    destruct (sub_recv i) eqn:Er; [|done]. intros [= <-]. by eapply step_recv.
  - destruct (streams y !! σ) as [i|] eqn:E; [|done]. simpl.
    destruct (si_pend i) eqn:Ep; [|done]. simpl. destruct (Ack _ _ _) eqn:Ea. intros [= <-].
    by eapply step_ack.
  - destruct (streams y !! σ) as [i|] eqn:E; [|done]. simpl.
    destruct (removeSub _ _ _) eqn:Ea. intros [= <-]. by eapply step_close.
Qed.

Lemma run_steps W serial ls y y' : run W serial ls y = Some y' → rtc (step W serial) y y'.
Proof.
  revert y. induction ls as [|l ls IH]; intros y; simpl; [by intros [= ->]|].
  destruct (exec W serial l y) as [y1|] eqn:E; [|done]. intros Hr. eapply rtc_l; [by eapply exec_step|].
  by apply IH.
Qed.

(** [Publish] from its call to its broadcast, with no other publisher of its topic. *)
Definition publish_labels (t : string) (d : bytes) : list label := [LStart t d; LPoll 0; LCommit 0; LBcast 0 []].

(** The node [n] is subscribed when message 1 is published, its stream breaks before
    it is read, it subscribes again, gets and acknowledges message 2, and the next
    tick clears both. *)
Definition lossy_schedule : list label :=
  [LSubscribe 0 "n"] ++ publish_labels "t" "a" ++ [LClose 0; LSubscribe 1 "n"] ++
  publish_labels "t" "b" ++ [LRecv 1; LAck 1; LTick; LLock; LUnlock].

Definition lossy_state : sys := default sys_init (run 1024 true lossy_schedule sys_init).

(** The nodes [n] and [m] are subscribed; two publishers store messages 1 and 2, the second
    sends first, both nodes acknowledge it and a tick clears both messages; the stream of
    [n] breaks and it subscribes again before the first publisher sends. *)
Definition overtaking_schedule : list label :=
  [LSubscribe 0 "n"; LSubscribe 1 "m"; LStart "t" "a"; LStart "t" "b"; LPoll 1; LPoll 0; LCommit 1; LCommit 0;
   LBcast 0 []; LRecv 0; LAck 0; LRecv 1; LAck 1; LTick; LLock; LUnlock;
   LClose 0; LBcast 0 []; LRecv 1; LSubscribe 2 "n"].

(** A message is gone and the node [n] does not have it: a check. *)
Definition lost (y : sys) (n t : string) (s : Z) : Prop :=
  ((0 < s)%Z ∧ (s ≤ get0 (seq (leader y)) t)%Z) ∧ getm (buf (leader y)) t !! s = None ∧
  map_Forall (λ _ i, Forall (λ m, ¬ (m_topic m = t ∧ m_seq m = s)) (si_queue i) ∧
    (si_node i = n → Forall (λ m, ¬ (m_topic m = t ∧ m_seq m = s)) (si_log i))) (streams y) ∧
  pubs y = [] ∧ tick y = TIdle ∧ fanned y = [].

Lemma Forall_not_has l t s : Forall (λ m, ¬ (m_topic m = t ∧ m_seq m = s)) l → ¬ has l t s.
Proof. rewrite Forall_forall. intros H (m & Hm & ?). by apply (H m Hm). Qed.

(** Then no continuation gives it to the node. *)
Lemma lost_forever W serial y n t s :
  reachable W serial y → lost y n t s → ∀ y', rtc (step W serial) y y' → ¬ got y' n t s.
Proof.
  intros Hr (Hs & Hb & Hstr & Hp & Ht & Hf) y' Hy' Hgot.
  assert (gone y t s) as Hg.
  { constructor; [done|done| |unfold in_flight; rewrite Hp; set_solver|by rewrite Ht].
    intros σ i Hlk. apply Forall_not_has, (Hstr σ i Hlk). }
  eapply gone_steps in Hgot as [(σ & i & m & Hlk & Hn & Hm & E)|(m & Hm & _)];
    [|by rewrite Hf in Hm; apply elem_of_nil in Hm|by eapply reachable_good|done|done].
  destruct (Hstr σ i Hlk) as [_ Hl]. apply (Forall_not_has (si_log i) t s); [by apply Hl|by exists m].
Qed.

Definition overtaking_state : sys := default sys_init (run 1024 false overtaking_schedule sys_init).

(** The byte 255 and the replacement character are two topics with one text on the wire.
    Message 1 of each is sent to [n], which reads and acknowledges the first; a tick clears
    the second and sends the first again; the stream breaks and [n] subscribes again. *)
Definition bad_topic : string := String "255" EmptyString.
Definition good_topic : string := repair_string bad_topic.

Definition colliding_schedule : list label :=
  [LSubscribe 0 "n"] ++ publish_labels bad_topic "a" ++ publish_labels good_topic "b" ++
  [LRecv 0; LAck 0; LTick; LLock; LResend []; LUnlock; LClose 0; LSubscribe 1 "n"].

Definition colliding_state : sys := default sys_init (run 1024 true colliding_schedule sys_init).

Lemma colliding_run : reachable 1024 true colliding_state.
Proof. eapply (run_steps _ _ colliding_schedule). vm_compute. reflexivity. Qed.

Lemma lossy_run : reachable 1024 true lossy_state.
Proof. eapply (run_steps _ _ lossy_schedule). vm_compute. reflexivity. Qed.

Lemma overtaking_run : reachable 1024 false overtaking_state.
Proof. eapply (run_steps _ _ overtaking_schedule). vm_compute. reflexivity. Qed.

(** Decide [lost] on a concrete state. *)
Ltac show_lost :=
  split_and!; [vm_compute; done|vm_compute; done|vm_compute; reflexivity| |vm_compute; reflexivity..];
  refine (bool_decide_unpack _ _); vm_compute; reflexivity.

(** Delivery is not at-least-once, even when publishers do not overlap: there is a run
    after which a node that was subscribed when a message was published, and is subscribed
    again, will never get it, whatever happens next. *)
Theorem at_least_once_fails :
  ∃ y σ ss i, reachable 1024 true y ∧ ("t", 1%Z, "a") ∈ published y ∧
    subs (server y) = Some ss ∧ σ ∈ ss ∧ streams y !! σ = Some i ∧ si_node i = "n" ∧
    ∀ y', rtc (step 1024 true) y y' → ¬ got y' "n" "t" 1.
Proof.
  exists lossy_state, 1, {[1]}, (mkSub "n" {["t" := 1%Z]} [mkRepMsg "t" "b" 2] [] None).
  split_and!; [apply lossy_run|refine (bool_decide_unpack _ _); vm_compute; reflexivity|vm_compute; reflexivity
    |set_solver|vm_compute; reflexivity|done|].
  apply lost_forever; [apply lossy_run|]. show_lost.
Qed.

(** Topics that are read alike acknowledge each other: there is a run in which the leader
    clears the only message of a topic, which no stream has read, because the node [n] has
    acknowledged the message of another topic, and [n], subscribed again, never gets it. *)
Theorem colliding_topics_lose :
  bad_topic ≠ good_topic ∧
  ∃ y ss i, reachable 1024 true y ∧ (good_topic, 1%Z, "b") ∈ published y ∧
    getm (ack (server y)) good_topic !! "n" = Some 1%Z ∧ getm (buf (leader y)) good_topic !! 1%Z = None ∧
    subs (server y) = Some ss ∧ 1 ∈ ss ∧ streams y !! 1 = Some i ∧ si_node i = "n" ∧
    (∀ n, ¬ delivered y n good_topic 1) ∧
    ∀ y', rtc (step 1024 true) y y' → ¬ got y' "n" good_topic 1.
Proof.
  split; [by vm_compute|].
  exists colliding_state, {[1]}, (mkSub "n" {[bad_topic := 1%Z; good_topic := 1%Z]} [] [] None).
  split_and!; [apply colliding_run|refine (bool_decide_unpack _ _); vm_compute; reflexivity|vm_compute; reflexivity
    |vm_compute; reflexivity|vm_compute; reflexivity|set_solver|vm_compute; reflexivity|done| |].
  - intros n (σ & i & m & Hlk & _ & Hm & E). revert σ i Hlk m Hm E.
    change (map_Forall (λ (_ : nat) i, ∀ m, m ∈ si_log i → ¬ (m_topic m = good_topic ∧ m_seq m = 1%Z)) (streams colliding_state)).
    eapply map_Forall_impl; [|intros σ i H; exact (proj1 (Forall_forall _ (si_log i)) H)].
    refine (bool_decide_unpack _ _). vm_compute. reflexivity.
  - apply lost_forever; [apply colliding_run|]. show_lost.
Qed.

(** With overlapping publishers of one topic an acknowledgement is not cumulative and the
    retry loop loses messages: there is a run in which the node [n] has acknowledged message
    2 of the topic on a stream opened before message 1 was published, the leader has cleared
    message 1 for that acknowledgement, and [n], subscribed again, will never get it. *)
Theorem overlapping_publishers_lose :
  ∃ y ss i, reachable 1024 false y ∧ ("t", 1%Z, "a") ∈ published y ∧
    getm (ack (server y)) "t" !! "n" = Some 2%Z ∧
    (∀ n a, getm (ack (server y)) "t" !! n = Some a → (1 < a)%Z) ∧
    getm (buf (leader y)) "t" !! 1%Z = None ∧
    subs (server y) = Some ss ∧ 2 ∈ ss ∧ streams y !! 2 = Some i ∧ si_node i = "n" ∧
    ∀ y', rtc (step 1024 false) y y' → ¬ got y' "n" "t" 1.
Proof.
  exists overtaking_state, {[1; 2]}, (mkSub "n" {["t" := 2%Z]} [] [] None).
  split_and!; [apply overtaking_run|refine (bool_decide_unpack _ _); vm_compute; reflexivity|vm_compute; reflexivity
    | |vm_compute; reflexivity|vm_compute; reflexivity|set_solver|vm_compute; reflexivity|done|].
  - change (map_Forall (λ (_ : string) a, (1 < a)%Z) (getm (ack (server overtaking_state)) "t")).
    refine (bool_decide_unpack _ _). vm_compute. reflexivity.
  - apply lost_forever; [apply overtaking_run|]. show_lost.
Qed.

(** ** Witnesses *)

(** One follower, one message published and broadcast; then received and acknowledged; then
    a tick reads the acknowledgement. *)
Definition demo_schedule : list label := [LSubscribe 0 "n"] ++ publish_labels "t" "a".
Definition acked_schedule : list label := demo_schedule ++ [LRecv 0; LAck 0; LTick].
Definition demo_sent : sys := default sys_init (run 4 true demo_schedule sys_init).
Definition demo_acked : sys := default sys_init (run 4 true acked_schedule sys_init).

Lemma demo_sent_reachable : reachable 4 true demo_sent.
Proof. apply (run_steps _ _ demo_schedule). vm_compute. reflexivity. Qed.

Lemma demo_acked_reachable : reachable 4 true demo_acked.
Proof. apply (run_steps _ _ acked_schedule). vm_compute. reflexivity. Qed.


(** The topic was published alone. *)
Lemma demo_alone : read_alone (leader demo_acked) "t".
Proof.
  apply utf8_read_alone. assert (seq (leader demo_acked) = {["t" := 1%Z]}) as -> by (vm_compute; reflexivity).
  apply singleton_utf8. vm_compute. reflexivity.
Qed.

Definition demo_retry : rep * disk * list (string * bytes * Z) :=
  default (rep_new, ∅, [])
    (retry_topics "" (λ _, true) true (AckedAll (server demo_acked)) ["t"] (leader demo_acked) ∅).

Lemma retry_drops_only_received_witness :
  ∃ n a, getm (ack (server demo_acked)) "t" !! n = Some a.
Proof.
  eapply (retry_drops_only_received 4 demo_acked (server demo_acked) ["t"]
    demo_retry.1.1 demo_retry.1.2 demo_retry.2 "t" 1 "a");
    [apply demo_acked_reachable|vm_compute; reflexivity..|apply demo_alone].
Defined.

Lemma buffered_message_deliverable_witness :
  ∃ y', rtc (step 4 true) demo_sent y' ∧ delivered y' "n" "t" 1.
Proof.
  apply (buffered_message_deliverable 4 true demo_sent 0 {[0]} (mkSub "n" ∅ [] [mkRepMsg "t" "a" 1] None) "t" 1 "a");
    [apply demo_sent_reachable|vm_compute; reflexivity|set_solver|vm_compute; reflexivity..|].
  intros tables. vm_compute. discriminate.
Defined.
