(* ===== verification/ReplFair.v ===== *)
(** * Fair runs of the replication protocol

    [ReplProtocol] has a step for every atomic operation; here its runs are infinite sequences
    of states, and a run is fair to a goroutine when that goroutine, if it can make a step, is
    eventually given one or is no longer able to.  What a fair run of a subscribed receive loop,
    of the publishers and of the retry loop brings about are the liveness properties of the
    protocol: the counterpart of [at_least_once_fails], where the stream breaks. *)
From S2P Require Import Prelude GoStrings Metrics RepServer Replication Utf8 Json ReplProtocol.
From stdpp Require Import options.

(** ** Goroutines *)

(** The receive loop of a stream, the acknowledgement it sends, the broadcast of a stored
    message by its publisher, and the retry loop. *)
Inductive role : Type :=
  | RRecv (σ : nat)
  | RAck (σ : nat)
  | RBcast (t : string) (d : bytes) (s : Z)
  | RRetry.

Inductive role_step : role → sys → sys → Prop :=
  | rs_recv y σ i i' :
      streams y !! σ = Some i → sub_recv i = Some i' →
      role_step (RRecv σ) y (set_streams (server y) (mets y) (<[σ := i']> (streams y)) y)
  (** the acknowledgement arrives, or its call fails and is ignored *)
  | rs_ack y σ i a s' mt :
      streams y !! σ = Some i → si_pend i = Some a → Ack (ack_read a) (server y) (mets y) = (s', mt) →
      role_step (RAck σ) y (set_streams s' mt (<[σ := sub_acked i]> (streams y)) y)
  | rs_ack_lost y σ i a :
      streams y !! σ = Some i → si_pend i = Some a →
      role_step (RAck σ) y (set_streams (server y) (mets y) (<[σ := sub_acked i]> (streams y)) y)
  | rs_bcast y ps1 ps2 t d s send_ok :
      pubs y = ps1 ++ Committed t d s :: ps2 →
      role_step (RBcast t d s) y (sys_publish send_ok (mkRepMsg t d s) (ps1 ++ ps2) y)
  | rs_tick y :
      tick y = TIdle → role_step RRetry y (set_tick (leader y) (TRead (server y)) y)
  | rs_lock y tables order r' dk out :
      tick y = TRead tables → order ≡ₚ elements (dom (buf (leader y))) →
      retry_topics "" (λ _, true) true (AckedAll tables) order (leader y) ∅ = Some (r', dk, out) →
      role_step RRetry y (set_tick r' (TSend out) y)
  | rs_resend y send_ok t d s out :
      tick y = TSend ((t, d, s) :: out) →
      role_step RRetry y (sys_broadcast send_ok (mkRepMsg t d s) (set_tick (leader y) (TSend out) y))
  | rs_unlock y :
      tick y = TSend [] → role_step RRetry y (set_tick (leader y) TIdle y).

(** The steps of the goroutines are steps of the protocol. *)
Lemma role_step_step W serial r y y' : role_step r y y' → step W serial y y'.
Proof.
  destruct 1; [eapply step_recv|eapply step_ack|eapply step_ack_lost|by eapply step_bcast|by eapply step_tick
    |by eapply step_lock|by eapply step_resend|by eapply step_unlock]; eauto.
Qed.

(** What a step of each goroutine has done. *)
Lemma recv_inv σ y y' i :
  role_step (RRecv σ) y y' → streams y !! σ = Some i → ∃ i', sub_recv i = Some i' ∧ streams y' !! σ = Some i'.
Proof.
  intros Hs Hi. inversion Hs as [? ? j j'| | | | | | |]; simplify_eq. exists j'.
  split; [done|apply lookup_insert_eq].
Qed.

Lemma ack_inv σ y y' : role_step (RAck σ) y y' → ∃ i', streams y' !! σ = Some i' ∧ si_pend i' = None.
Proof. intros Hs. inversion Hs; simplify_eq; (eexists; split; [apply lookup_insert_eq|done]). Qed.

Lemma bcast_inv t d s y y' :
  role_step (RBcast t d s) y y' →
  ∃ ps1 ps2, pubs y = ps1 ++ Committed t d s :: ps2 ∧ pubs y' = ps1 ++ ps2.
Proof. intros Hs. inversion Hs; simplify_eq. by eexists _, _. Qed.

Lemma retry_inv y y' :
  role_step RRetry y y' →
  match tick y with
  | TIdle => y' = set_tick (leader y) (TRead (server y)) y
  | TRead tables => ∃ order r' dk out, order ≡ₚ elements (dom (buf (leader y))) ∧
      retry_topics "" (λ _, true) true (AckedAll tables) order (leader y) ∅ = Some (r', dk, out) ∧
      y' = set_tick r' (TSend out) y
  | TSend [] => y' = set_tick (leader y) TIdle y
  | TSend ((t, d, s) :: out) =>
      ∃ ok, y' = sys_broadcast ok (mkRepMsg t d s) (set_tick (leader y) (TSend out) y)
  end.
Proof.
  intros Hs. inversion Hs as [| | | |? Htk|? ? ? ? ? ? Htk|? ? ? ? ? ? Htk|? Htk]; simplify_eq; rewrite Htk; eauto 10.
Qed.

Definition enabled (r : role) (y : sys) : Prop := ∃ y', role_step r y y'.

(** The stream is in the table of the server. *)
Definition subscribed (σ : nat) (y : sys) : Prop := ∃ ss, subs (server y) = Some ss ∧ σ ∈ ss.

(** ** What happens to a subscribed stream *)

(** One step: more arrives and the acknowledgement may be sent, or a message is handed over. *)
Definition grows (i i' : subinfo) : Prop :=
  si_node i' = si_node i ∧ si_since i' = si_since i ∧
  ((si_log i' = si_log i ∧ (∃ q, si_queue i' = si_queue i ++ q) ∧ (si_pend i' = si_pend i ∨ si_pend i' = None)) ∨
   (∃ m, si_log i' = si_log i ++ [m] ∧ si_queue i = m :: si_queue i')).

(** Any number of steps: what was there stays in its place, and either nothing was handed over
    or the log is longer. *)
Definition later (i i' : subinfo) : Prop :=
  si_node i' = si_node i ∧ si_since i' = si_since i ∧
  (∃ q, si_log i' ++ si_queue i' = (si_log i ++ si_queue i) ++ q) ∧
  ((si_log i' = si_log i ∧ (si_pend i' = si_pend i ∨ si_pend i' = None)) ∨ length (si_log i) < length (si_log i')).

Lemma grows_refl i : grows i i.
Proof. split_and!; [done..|]. left. split_and!; [done| |by left]. exists []. by rewrite app_nil_r. Qed.

Lemma grows_push i m : grows i (push m i).
Proof. split_and!; [done..|]. left. split_and!; [done|by eexists|by left]. Qed.

Lemma grows_acked i : grows i (sub_acked i).
Proof. split_and!; [done..|]. left. split_and!; [done| |by right]. exists []. by rewrite app_nil_r. Qed.

Lemma grows_recv i i' : sub_recv i = Some i' → grows i i'.
Proof.
  unfold sub_recv. destruct (si_queue i) as [|m q] eqn:Eq; [done|]. destruct (si_pend i); [done|].
  intros [= <-]. split_and!; [done..|]. right. by exists m.
Qed.

Lemma grows_later i i' : grows i i' → later i i'.
Proof.
  intros (Hn & Hs & [(Hl & [q Hq] & Hp)|(m & Hl & Hq)]); split_and!; [done|done| |by left|done|done| |right].
  - exists q. by rewrite Hl, Hq, app_assoc.
  - exists []. by rewrite Hl, Hq, <-app_assoc, app_nil_r.
  - rewrite Hl, length_app. cbn. lia.
Qed.

Lemma later_trans i1 i2 i3 : later i1 i2 → later i2 i3 → later i1 i3.
Proof.
  intros (Hn1 & Hs1 & [q1 Hq1] & H1) (Hn2 & Hs2 & [q2 Hq2] & H2). split_and!; [congruence..| |].
  - exists (q1 ++ q2). by rewrite Hq2, Hq1, <-!app_assoc.
  - destruct H1 as [[Hl1 Hp1]|H1], H2 as [[Hl2 Hp2]|H2]; [left|right..].
    + split; [congruence|]. destruct Hp2 as [->| ->]; [done|by right].
    + by rewrite <-Hl1.
    + by rewrite Hl2.
    + lia.
Qed.

Lemma later_length i i' : later i i' → length (si_log i) ≤ length (si_log i').
Proof. intros (_ & _ & _ & [[-> _]|?]); lia. Qed.

Lemma later_lookup i i' p m :
  later i i' → (si_log i ++ si_queue i) !! p = Some m → (si_log i' ++ si_queue i') !! p = Some m.
Proof. intros (_ & _ & [q ->] & _) H. by apply lookup_app_l_Some. Qed.

(** A broadcast. *)
Lemma broadcast_grows ok m y σ i :
  streams y !! σ = Some i → ∃ i', streams (sys_broadcast ok m y) !! σ = Some i' ∧ grows i i'.
Proof.
  intros Hi. rewrite sys_broadcast_streams, Hi. cbn. case_decide; eexists; (split; [done|]);
    [apply grows_push|apply grows_refl].
Qed.

(** Another stream or this one is replaced. *)
Lemma insert_grows (str : gmap nat subinfo) σ σ' i j j' :
  str !! σ = Some i → str !! σ' = Some j → grows j j' →
  ∃ i', <[σ' := j']> str !! σ = Some i' ∧ grows i i'.
Proof.
  intros Hi Hj Hg. destruct (decide (σ' = σ)) as [->|].
  - rewrite lookup_insert_eq. simplify_eq. eauto.
  - rewrite lookup_insert_ne by done. eauto using grows_refl.
Qed.

Lemma removed_unsubscribed σ y s' mt str :
  removeSub σ (server y) (mets y) = (s', mt) → ¬ subscribed σ (set_streams s' mt str y).
Proof.
  unfold removeSub. intros H (ss & Hss & Hσ). cbn in Hss.
  destruct (subs (server y)) as [ss'|] eqn:E; simplify_eq/=. set_solver.
Qed.

Lemma step_grows W serial y y' σ i :
  step W serial y y' → subscribed σ y' → streams y !! σ = Some i →
  ∃ i', streams y' !! σ = Some i' ∧ grows i i'.
Proof.
  intros Hstep Hsub Hi. destruct Hstep; cbn [streams set_streams set_pubs set_tick] in *;
    try (exists i; by eauto using grows_refl).
  - exists i. split; [|apply grows_refl]. rewrite lookup_insert_ne; [done|]. intros ->. congruence.
  - cbn. by apply (broadcast_grows send_ok).
  - by apply (broadcast_grows send_ok).
  - eapply insert_grows; eauto using grows_recv.
  - eapply insert_grows; eauto using grows_acked.
  - eapply insert_grows; eauto using grows_acked.
  - destruct (decide (σ0 = σ)) as [->|]; [by apply removed_unsubscribed in Hsub|].
    exists i. split; [by rewrite lookup_insert_ne|apply grows_refl].
Qed.

Global Instance pubpc_eq_dec : EqDecision pubpc.
Proof. solve_decision. Defined.

(** ** Fair runs *)

Section run.
  Context (W : Z) (serial : bool) (ρ : nat → sys).

(** The states of a run from the start; between two steps time may pass. *)
Definition is_run : Prop := ρ 0 = sys_init ∧ ∀ k, step W serial (ρ k) (ρ (S k)) ∨ ρ (S k) = ρ k.

(** A goroutine that can make a step makes one or becomes unable to. *)
Definition fair (r : role) : Prop :=
  ∀ k, enabled r (ρ k) → ∃ k', k ≤ k' ∧ (¬ enabled r (ρ k') ∨ role_step r (ρ k') (ρ (S k'))).

Context (Hrun : is_run).

Lemma run_steps_from k k' : k ≤ k' → rtc (step W serial) (ρ k) (ρ k').
Proof using Hrun.
  induction 1 as [|k' _ IH]; [done|]. destruct (proj2 Hrun k') as [H| ->]; [by eapply rtc_r|done].
Qed.

Lemma run_reachable k : reachable W serial (ρ k).
Proof using Hrun. unfold reachable. rewrite <-(proj1 Hrun). apply run_steps_from. lia. Qed.

Lemma run_good k : good serial (ρ k).
Proof using Hrun. eapply reachable_good, run_reachable. Qed.

(** *** A stream that stays subscribed *)

Section stream.
  Context (σ k0 : nat).
  Context (Hstay : ∀ k, k0 ≤ k → subscribed σ (ρ k)) (Hrecv : fair (RRecv σ)) (Hack : fair (RAck σ)).

Lemma run_later k k' i :
  k0 ≤ k → k ≤ k' → streams (ρ k) !! σ = Some i → ∃ i', streams (ρ k') !! σ = Some i' ∧ later i i'.
Proof using Hrun Hstay.
  intros H0 Hk Hi. induction Hk as [|k' Hk IH]; [by eauto using grows_later, grows_refl|].
  destruct IH as (i1 & Hi1 & Hl1). destruct (proj2 Hrun k') as [H| ->]; [|by eauto].
  destruct (step_grows W serial _ _ σ i1 H) as (i2 & Hi2 & Hg); [apply Hstay; lia|done|].
  exists i2. split; [done|]. by eapply later_trans, grows_later.
Qed.

(** With no acknowledgement to send, a waiting message is eventually handed over. *)
Lemma hands_over_next k i :
  k0 ≤ k → streams (ρ k) !! σ = Some i → si_queue i ≠ [] → si_pend i = None →
  ∃ k' i', k ≤ k' ∧ streams (ρ k') !! σ = Some i' ∧ length (si_log i) < length (si_log i').
Proof using Hrun Hstay Hrecv.
  intros H0 Hi Hq Hp. destruct (Hrecv k) as (k' & Hk & Hf).
  { destruct (si_queue i) as [|m q] eqn:Eq; [done|]. eexists. eapply rs_recv; [done|].
    unfold sub_recv. by rewrite Eq, Hp. }
  destruct (run_later k k' i H0 Hk Hi) as (i1 & Hi1 & Hl). pose proof Hl as (_ & _ & [q Eq] & [[El Ep]|Hlt]);
    [|by exists k', i1]. rewrite Hp in Ep. assert (si_pend i1 = None) as Ep1 by (by destruct Ep).
  rewrite El, <-app_assoc in Eq. apply app_inv_head in Eq.
  destruct (sub_recv i1) as [i2|] eqn:Er.
  2: { unfold sub_recv in Er. rewrite Eq, Ep1 in Er. by destruct (si_queue i). }
  destruct Hf as [Hn|Hs]; [destruct Hn; eexists; by eapply rs_recv|].
  destruct (recv_inv _ _ _ _ Hs Hi1) as (i3 & E3 & Hi3). simplify_eq. exists (S k'), i2.
  split_and!; [lia|done|].
  unfold sub_recv in Er. rewrite Ep1 in Er. destruct (si_queue i1); simplify_eq. cbn.
  rewrite El, length_app. cbn. lia.
Qed.

(** So is every one: the acknowledgement before it is sent or given up. *)
Lemma hands_over k i :
  k0 ≤ k → streams (ρ k) !! σ = Some i → si_queue i ≠ [] →
  ∃ k' i', k ≤ k' ∧ streams (ρ k') !! σ = Some i' ∧ length (si_log i) < length (si_log i').
Proof using Hrun Hstay Hrecv Hack.
  intros H0 Hi Hq. destruct (si_pend i) as [a|] eqn:Ep; [|by eapply hands_over_next].
  destruct (Hack k) as (k' & Hk & Hf); [eexists; by eapply rs_ack_lost|].
  assert (∃ k2 i2, k ≤ k2 ∧ streams (ρ k2) !! σ = Some i2 ∧ later i i2 ∧
    (si_pend i2 = None ∨ length (si_log i) < length (si_log i2))) as (k2 & i2 & Hk2 & Hi2 & Hl & Hp).
  { destruct (run_later k k' i H0 Hk Hi) as (i1 & Hi1 & Hl1). destruct Hf as [Hn|Hs].
    - exists k', i1. split_and!; [done..|]. left. destruct (si_pend i1) as [b|] eqn:Eb; [|done].
      destruct Hn. eexists. by eapply rs_ack_lost.
    - destruct (run_later k (S k') i H0) as (i2 & Hi2 & Hl2); [lia|done|].
      exists (S k'), i2. split_and!; [lia|done|done|]. left.
      destruct (ack_inv _ _ _ Hs) as (i3 & Hi3 & Hp3). by simplify_eq. }
  destruct Hp as [Hp|Hlt]; [|by exists k2, i2]. pose proof Hl as (_ & _ & [q Eq] & [[El _]|Hlt]); [|by exists k2, i2].
  rewrite El, <-app_assoc in Eq. apply app_inv_head in Eq.
  destruct (hands_over_next k2 i2) as (k3 & i3 & Hk3 & Hi3 & Hlt3); [lia|done| |done|].
  - rewrite Eq. by destruct (si_queue i).
  - exists k3, i3. rewrite <-El. split_and!; [lia|done..].
Qed.

(** Whatever a stream holds at some point is eventually handed over. *)
Lemma stream_delivers k i t s :
  k0 ≤ k → streams (ρ k) !! σ = Some i → has (si_log i ++ si_queue i) t s →
  ∃ k', k ≤ k' ∧ delivered (ρ k') (si_node i) t s.
Proof using Hrun Hstay Hrecv Hack.
  intros H0 Hi (m & [p Hp]%list_elem_of_lookup & <- & <-).
  remember (S p - length (si_log i)) as n eqn:En. revert k i H0 Hi Hp En.
  induction (lt_wf n) as [n _ IH]; intros k i H0 Hi Hp En.
  destruct (decide (p < length (si_log i))) as [Hlt|Hge].
  - exists k. split; [done|]. exists σ, i, m. split_and!; [done..| |done|done].
    rewrite lookup_app_l in Hp by done. by eapply list_elem_of_lookup_2.
  - destruct (hands_over k i H0 Hi) as (k1 & i1 & Hk1 & Hi1 & Hlt1).
    { intros Hq. rewrite Hq, app_nil_r in Hp. apply lookup_lt_Some in Hp. lia. }
    destruct (run_later k k1 i H0 Hk1 Hi) as (i1' & Hi1' & Hl). simplify_eq.
    destruct (IH (S p - length (si_log i1))) with (k:=k1) (i:=i1) as (k2 & Hk2 & Hd);
      [lia|lia|done|by eapply later_lookup|done|].
    exists k2. split; [lia|]. by rewrite <-(proj1 Hl).
Qed.

End stream.

(** *** Publishers *)

Lemma published_grows k k' x : k ≤ k' → x ∈ published (ρ k) → x ∈ published (ρ k').
Proof using Hrun.
  intros Hk Hx. induction Hk as [|k' _ IH]; [done|].
  destruct (proj2 Hrun k') as [Hs| ->]; [|done].
  assert (∀ ok m y, published (sys_broadcast ok m y) = published y) as Hb
    by (intros ok m y; by destruct (sys_broadcast_frame ok m y) as (_ & _ & _ & ? & _)).
  destruct Hs; cbn [published set_streams set_pubs set_tick] in *; try done.
  - rewrite elem_of_app. by left.
  - cbn. by rewrite Hb.
  - by rewrite Hb.
Qed.

(** A message that has been given its number is in flight only until its publisher's turn. *)
Lemma not_in_flight k t s d :
  (t, s, d) ∈ published (ρ k) → Committed t d s ∉ pubs (ρ k) → ¬ in_flight (ρ k) t s.
Proof using Hrun.
  intros Hp Hn [d' Hd]. destruct (run_good k) as [Hi _].
  pose proof (inv_pc _ Hi _ _ _ Hd) as Hp'. by rewrite (proj2 (inv_pub _ Hi _ _ _ Hp) _ Hp') in Hd.
Qed.

Lemma flight_ends k t s d :
  serial = true → fair (RBcast t d s) → (t, s, d) ∈ published (ρ k) →
  ∃ k', k ≤ k' ∧ ¬ in_flight (ρ k') t s.
Proof using Hrun.
  intros Eser Hf Hp.
  destruct (decide (Committed t d s ∈ pubs (ρ k))) as [Hin|Hin]; [|exists k; eauto using not_in_flight].
  destruct (Hf k) as (k' & Hk & Hk').
  { apply list_elem_of_split in Hin as (ps1 & ps2 & E). eexists. by apply (rs_bcast _ ps1 ps2 _ _ _ (λ _, true)). }
  destruct Hk' as [Hn|Hs].
  - exists k'. split; [done|]. eapply not_in_flight; [by eapply published_grows|].
    intros (ps1 & ps2 & E)%list_elem_of_split. apply Hn. eexists. by apply (rs_bcast _ ps1 ps2 _ _ _ (λ _, true)).
  - exists (S k'). split; [lia|]. destruct (bcast_inv _ _ _ _ _ Hs) as (ps1 & ps2 & E & E').
    pose proof (ser_one _ (proj2 (run_good k') Eser)) as Hnd. rewrite E, fmap_app, fmap_cons in Hnd. cbn in Hnd.
    intros [d' Hd]. rewrite E' in Hd.
    apply NoDup_app in Hnd as (_ & H1 & H2). apply NoDup_cons in H2 as [H2 _].
    apply (list_elem_of_fmap_2 pub_topic) in Hd. cbn in Hd. rewrite fmap_app in Hd.
    apply elem_of_app in Hd as [Hd|Hd]; [|done]. apply (H1 _ Hd), list_elem_of_here.
Qed.

(** *** The retry loop *)

(** It can always go on. *)
Lemma retry_enabled y : inv y → enabled RRetry y.
Proof using Type.
  intros Hi. destruct (tick y) as [|tables|[|[[t d] s] out]] eqn:E.
  - eexists. by apply rs_tick.
  - destruct (lock_effect y tables (elements (dom (buf (leader y)))) Hi E) as (r' & dk & out & Hr & _); [done|].
    eexists. by eapply rs_lock.
  - eexists. by apply rs_unlock.
  - eexists. by apply (rs_resend _ (λ _, true)).
Qed.

(** Messages in the buffer, with their data. *)
Definition stored (y : sys) (t : string) (s : Z) (d : bytes) : Prop := getm (buf (leader y)) t !! s = Some d.
Definition keeps (y y' : sys) : Prop := ∀ t s d, stored y t s d → stored y' t s d.

(** Nobody else moves the retry loop or takes a message out of the buffer. *)
Lemma step_retry_or_keeps y y' :
  inv y → step W serial y y' → role_step RRetry y y' ∨ (tick y' = tick y ∧ keeps y y').
Proof using Type.
  intros Hi Hs.
  assert (∀ ok m z, leader (sys_broadcast ok m z) = leader z ∧ tick (sys_broadcast ok m z) = tick z) as Hb
    by (intros ok m z; by destruct (sys_broadcast_frame ok m z) as (? & _ & ? & _)).
  destruct Hs; try (right; split; [reflexivity|by intros ???]);
    try (left; by eauto using rs_tick, rs_lock, rs_resend, rs_unlock).
  - right. split; [done|]. intros t' s0 d0 Hst. unfold stored in *. cbn.
    pose proof (lookup_publish_commit "" Written t d (leader y) ∅ t' s0) as Hl. rewrite H2 in Hl.
    rewrite Hl, decide_False; [done|]. intros [-> ->]. unfold publish_commit in H2. injection H2 as <- _ _.
    destruct (inv_wf y Hi) as [Hq Hw]. pose proof (Hq t) as Hqt. apply Hw in Hst. unfold is_u64 in Hqt.
    rewrite u64_small in Hst by (unfold is_u64; lia). lia.
  - right. destruct (Hb send_ok (mkRepMsg t d s) y) as [El Et]. split; [exact Et|].
    intros t' s0 d0. unfold stored. cbn. by rewrite El.
Qed.

(** Its next step, with the state in which it makes it. *)
Lemma retry_next k :
  fair RRetry →
  ∃ k', k ≤ k' ∧ tick (ρ k') = tick (ρ k) ∧ keeps (ρ k) (ρ k') ∧ role_step RRetry (ρ k') (ρ (S k')).
Proof using Hrun.
  intros Hf. assert (∀ j, enabled RRetry (ρ j)) as He by (intros j; apply retry_enabled, run_good).
  destruct (Hf k (He k)) as (k1 & Hk1 & [Hn|Hs]); [by destruct (Hn (He k1))|].
  remember (k1 - k) as n eqn:En. revert k Hk1 En. induction n as [|n IH]; intros k Hk1 En.
  { assert (k = k1) as -> by lia. exists k1. split_and!; [done..|by intros ???|done]. }
  destruct (proj2 Hrun k) as [Hst|E].
  - destruct (step_retry_or_keeps _ _ (proj1 (run_good k)) Hst) as [H|[Et Hkp]];
      [exists k; split_and!; [done..|by intros ???|done]|].
    destruct (IH (S k)) as (k' & Hk' & Et' & Hkp' & Hs'); [lia..|]. exists k'.
    split_and!; [lia|congruence| |done]. intros t s d ?. by apply Hkp', Hkp.
  - destruct (IH (S k)) as (k' & Hk' & Et' & Hkp' & Hs'); [lia..|]. exists k'. rewrite E in Et', Hkp'.
    split_and!; [lia|done..].
Qed.

(** How far the loop is from taking the mutex. *)
Definition tick_distance (p : tickpc) : nat :=
  match p with TRead _ => 0 | TIdle => 1 | TSend out => 2 + length out end.

(** The tables a tick works with are those of the server at an earlier point. *)
Lemma tick_tables k tables : tick (ρ k) = TRead tables → ∃ j, j ≤ k ∧ server (ρ j) = tables.
Proof using Hrun.
  induction k as [|k IH]; intros Htk; [by rewrite (proj1 Hrun) in Htk|].
  assert (tick (ρ k) = TRead tables → ∃ j, j ≤ S k ∧ server (ρ j) = tables) as Hold
    by (intros (j & Hj & E)%IH; exists j; split; [lia|done]).
  destruct (proj2 Hrun k) as [Hs|E]; [|apply Hold; by rewrite <-E].
  destruct (step_retry_or_keeps _ _ (proj1 (run_good k)) Hs) as [Hr|[E _]]; [|apply Hold; by rewrite <-E].
  apply retry_inv in Hr. destruct (tick (ρ k)) as [|tb|[|[[t d] s] out]].
  - rewrite Hr in Htk. injection Htk as <-. exists k. split; [lia|done].
  - destruct Hr as (? & ? & ? & ? & _ & _ & Hr). by rewrite Hr in Htk.
  - by rewrite Hr in Htk.
  - destruct Hr as [ok Hr]. rewrite Hr in Htk.
    destruct (sys_broadcast_frame ok (mkRepMsg t d s) (set_tick (leader (ρ k)) (TSend out) (ρ k))) as (_ & _ & Et & _).
    by rewrite Et in Htk.
Qed.

(** Every node that had acknowledged the topic when the tables were these, and there was one,
    had acknowledged a sequence as high as [s]. *)
Definition passed (tables : Server) (t : string) (s : Z) : Prop :=
  (∃ n a, getm (ack tables) t !! n = Some a) ∧ ∀ n a, getm (ack tables) t !! n = Some a → (s ≤ a)%Z.

(** The step before [k] takes the message out of the buffer, for acknowledgements of the server
    at an earlier point. *)
Definition dropped (k : nat) (t : string) (s : Z) (d : bytes) : Prop :=
  ∃ k1 j, k = S k1 ∧ j ≤ k1 ∧ stored (ρ k1) t s d ∧ getm (buf (leader (ρ k))) t !! s = None ∧
    passed (server (ρ j)) t s.

Lemma minAck_passed tables t s : (0 < s ≤ minAck tables t)%Z → passed tables t s.
Proof using Type.
  intros Hs. split.
  - destruct (minAck_is_min tables t) as [[_ E]|[[n Hn] _]]; [lia|eauto].
  - intros n a Ha. pose proof (minAck_le _ _ _ _ Ha). lia.
Qed.

(** A message in the buffer is eventually dropped, because it is acknowledged, or set aside to
    be sent again. *)
Lemma retry_picks k t s d :
  fair RRetry → stored (ρ k) t s d →
  ∃ k', k ≤ k' ∧ (dropped k' t s d ∨ ∃ out, tick (ρ k') = TSend out ∧ (t, d, s) ∈ out).
Proof using Hrun.
  intros Hf. remember (tick_distance (tick (ρ k))) as n eqn:En. revert k En.
  induction (lt_wf n) as [n _ IH]; intros k En Hst.
  destruct (retry_next k Hf) as (k' & Hk & Et & Hkp & Hs). apply Hkp in Hst. rewrite <-Et in En.
  assert (∀ m, m < n → m = tick_distance (tick (ρ (S k'))) → leader (ρ (S k')) = leader (ρ k') →
    ∃ k1, k ≤ k1 ∧ (dropped k1 t s d ∨ ∃ out, tick (ρ k1) = TSend out ∧ (t, d, s) ∈ out)) as Hnext.
  { intros m Hm Em El. destruct (IH m Hm (S k') Em) as (k1 & Hk1 & H); [unfold stored; by rewrite El|].
    exists k1. split; [lia|done]. }
  apply retry_inv in Hs. destruct (tick (ρ k')) as [|tables|[|[[t0 d0] s0] out]] eqn:Htk.
  - eapply Hnext; [|done|by rewrite Hs]. rewrite Hs, En. cbn. lia.
  - destruct Hs as (order & r' & dk & out & Ho & Hr & Hs).
    destruct (lock_effect (ρ k') tables order (proj1 (run_good k')) Htk Ho) as (r1 & dk1 & o1 & E & _ & Hb & Hout).
    rewrite E in Hr. injection Hr as -> -> ->. exists (S k'). split; [lia|].
    destruct (decide (s ≤ minAck tables t)%Z) as [Hle|Hgt].
    + left. destruct (tick_tables k' tables Htk) as (j & Hj & Ej). exists k', j. rewrite Ej, Hs.
      cbn [leader set_tick]. rewrite Hb, decide_True by done. split_and!; [done..|]. apply minAck_passed.
      destruct (run_good k') as [Hi _]. apply (inv_buf _ Hi) in Hst as [? _]%(inv_pub _ Hi). lia.
    + right. exists out. rewrite Hs. split; [done|]. apply Hout. split; [lia|exact Hst].
  - eapply Hnext; [|done|by rewrite Hs]. rewrite Hs, En. cbn. lia.
  - destruct Hs as [ok Hs].
    destruct (sys_broadcast_frame ok (mkRepMsg t0 d0 s0) (set_tick (leader (ρ k')) (TSend out) (ρ k')))
      as (El & _ & Etk & _). rewrite <-Hs in El, Etk. eapply Hnext; [|done|done]. rewrite Etk, En. cbn. lia.
Qed.

(** What is set aside is eventually on every stream that stays subscribed. *)
Lemma retry_sends σ k0 k i out t s d :
  fair RRetry → (∀ k, k0 ≤ k → subscribed σ (ρ k)) → k0 ≤ k → streams (ρ k) !! σ = Some i →
  tick (ρ k) = TSend out → (t, d, s) ∈ out →
  ∃ k' i', k ≤ k' ∧ streams (ρ k') !! σ = Some i' ∧ si_node i' = si_node i ∧ has (si_log i' ++ si_queue i') t s.
Proof using Hrun.
  intros Hf Hstay. revert k i. induction out as [|[[t0 d0] s0] out IH]; intros k i H0 Hi Htk Hin; [by apply elem_of_nil in Hin|].
  destruct (retry_next k Hf) as (k' & Hk & Et & _ & Hs). rewrite Htk in Et.
  destruct (run_later σ k0 Hstay k (S k') i H0) as (i2 & Hi2 & Hl); [lia|done|].
  apply retry_inv in Hs. rewrite Et in Hs. destruct Hs as [ok Hs].
  set (y1 := set_tick (leader (ρ k')) (TSend out) (ρ k')) in *.
  apply elem_of_cons in Hin as [[= -> -> ->]|Hin].
  - exists (S k'), i2. split_and!; [lia|done|apply Hl|].
    destruct (Hstay k') as (ss & Hss & _); [lia|]. destruct (Hstay (S k')) as (ss' & Hss' & Hσ); [lia|].
    destruct (sys_broadcast_sent ok (mkRepMsg t0 d0 s0) y1 ss Hss) as (sent & Hsent & _ & Hstr).
    rewrite <-Hs in Hsent, Hstr. simplify_eq. destruct (Hstr σ i2 Hi2) as (i1 & _ & [[_ ->]|[Hno _]]); [|done].
    cbn [si_log si_queue push]. rewrite !has_app, has_singleton. by right; right.
  - destruct (sys_broadcast_frame ok (mkRepMsg t0 d0 s0) y1) as (_ & _ & Etk & _). rewrite <-Hs in Etk.
    destruct (IH (S k') i2) as (k3 & i3 & Hk3 & Hi3 & Hn3 & Hh3); [lia|done|done|done|].
    exists k3, i3. split_and!; [lia|done| |done]. by rewrite Hn3, (proj1 Hl).
Qed.

End run.

(** ** Liveness *)

(** C13. At least once, while the stream lives: in every run in which calls of [Publish] on one
    topic do not overlap, a node whose stream stays subscribed is given every message that is
    published after it subscribed, provided the schedule is fair to its receive loop, to the
    acknowledgements it sends and to the publisher of the message. *)
Theorem subscribed_node_gets_all W ρ σ k0 k i t s d :
  is_run W true ρ → (∀ k, k0 ≤ k → subscribed σ (ρ k)) →
  fair ρ (RRecv σ) → fair ρ (RAck σ) → fair ρ (RBcast t d s) →
  k0 ≤ k → streams (ρ k) !! σ = Some i →
  (t, s, d) ∈ published (ρ k) → (get0 (si_since i) t < s)%Z →
  ∃ k', k ≤ k' ∧ delivered (ρ k') (si_node i) t s.
Proof.
  intros Hrun Hstay Hr Ha Hb H0 Hi Hp Hs.
  destruct (flight_ends W true ρ Hrun k t s d eq_refl Hb Hp) as (k1 & Hk1 & Hn).
  destruct (run_later W true ρ Hrun σ k0 Hstay k k1 i H0 Hk1 Hi) as (i1 & Hi1 & Hl).
  destruct (Hstay k1) as (ss & Hss & Hσ); [lia|]. destruct (run_good W true ρ Hrun k1) as [Hinv Hser].
  pose proof (proj1 (inv_pub _ Hinv _ _ _ (published_grows W true ρ Hrun k k1 _ Hk1 Hp))) as Hseq.
  assert (has (si_log i1 ++ si_queue i1) t s) as Hh.
  { eapply (ser_compl _ (Hser eq_refl)); [done..| |done]. rewrite (proj1 (proj2 Hl)). lia. }
  destruct (stream_delivers W true ρ Hrun σ k0 Hstay Hr Ha k1 i1 t s) as (k2 & Hk2 & Hd); [lia|done|done|].
  exists k2. split; [lia|]. by rewrite <-(proj1 Hl).
Qed.

(** C39. With any number of publishers, however their calls overlap: a message that is in the
    leader's buffer is eventually given to a node whose stream stays subscribed, or the retry
    loop takes it out of the buffer, and when it read the acknowledgements some node had
    acknowledged the topic and every node that had, had acknowledged a sequence as high.  The
    schedule is fair to the retry loop, to the node's receive loop and to its acknowledgements. *)
Theorem buffered_delivered_or_dropped W serial ρ σ k0 k i t s d :
  is_run W serial ρ → (∀ k, k0 ≤ k → subscribed σ (ρ k)) →
  fair ρ (RRecv σ) → fair ρ (RAck σ) → fair ρ RRetry →
  k0 ≤ k → streams (ρ k) !! σ = Some i → getm (buf (leader (ρ k))) t !! s = Some d →
  ∃ k', k ≤ k' ∧ (delivered (ρ k') (si_node i) t s ∨ dropped ρ k' t s d).
Proof.
  intros Hrun Hstay Hr Ha Hf H0 Hi Hst.
  destruct (retry_picks W serial ρ Hrun k t s d Hf Hst) as (k1 & Hk1 & [Hd|(out & Htk & Hin)]); [by eauto|].
  destruct (run_later W serial ρ Hrun σ k0 Hstay k k1 i H0 Hk1 Hi) as (i1 & Hi1 & Hl1).
  destruct (retry_sends W serial ρ Hrun σ k0 k1 i1 out t s d Hf Hstay) as (k2 & i2 & Hk2 & Hi2 & Hn2 & Hh); [lia|done..|].
  destruct (stream_delivers W serial ρ Hrun σ k0 Hstay Hr Ha k2 i2 t s) as (k3 & Hk3 & Hd); [lia|done|done|].
  exists k3. split; [lia|]. left. by rewrite <-(proj1 Hl1), <-Hn2.
Qed.

(** ** A fair run *)

(** The run that follows a schedule; a label that cannot be executed lets time pass. *)
Fixpoint scheduled (W : Z) (serial : bool) (labels : nat → label) (k : nat) : sys :=
  match k with
  | 0 => sys_init
  | S k' => let y := scheduled W serial labels k' in default y (exec W serial (labels k') y)
  end.

Lemma scheduled_is_run W serial labels : is_run W serial (scheduled W serial labels).
Proof.
  split; [done|]. intros k. cbn. destruct (exec _ _ _ _) as [y|] eqn:E; cbn; [left; by eapply exec_step|by right].
Qed.

(** It follows an executable schedule. *)
Lemma scheduled_follows W serial labels ls k y y' :
  (∀ j l, ls !! j = Some l → labels (k + j) = l) → scheduled W serial labels k = y →
  run W serial ls y = Some y' → scheduled W serial labels (k + length ls) = y'.
Proof.
  revert k y. induction ls as [|l ls IH]; intros k y Hl Hk Hr; cbn [run length] in *.
  { injection Hr as <-. by rewrite Nat.add_0_r. }
  destruct (exec W serial l y) as [y1|] eqn:E; [|done]. rewrite <-Nat.add_succ_comm. apply (IH (S k) y1); [|..|done].
  - intros j l' Hj. rewrite Nat.add_succ_comm. by apply Hl.
  - cbn. pose proof (Hl 0 l eq_refl) as H0. rewrite Nat.add_0_r in H0. by rewrite Hk, H0, E.
Qed.

Lemma run_succeeds W serial ls y :
  match run W serial ls y with Some _ => true | None => false end = true →
  run W serial ls y = Some (default sys_init (run W serial ls y)).
Proof. by destruct (run W serial ls y). Qed.

(** A node subscribes, a message is published, received and acknowledged, and a tick takes it
    out of the buffer; from then on the retry loop ticks. *)
Definition demo_prefix : list label := demo_schedule ++ [LRecv 0; LAck 0; LTick; LLock; LUnlock].
Definition demo_labels (k : nat) : label :=
  match demo_prefix !! k with
  | Some l => l
  | None => match (k - 10) mod 3 with 0 => LTick | 1 => LLock | _ => LUnlock end
  end.
Definition demo_run : nat → sys := scheduled 4 true demo_labels.
Definition demo_settled : sys := default sys_init (run 4 true demo_prefix sys_init).

Lemma demo_label_later k : 10 ≤ k →
  demo_labels k = match (k - 10) mod 3 with 0 => LTick | 1 => LLock | _ => LUnlock end.
Proof. intros Hk. unfold demo_labels. by rewrite (lookup_ge_None_2 demo_prefix k) by (cbn; lia). Qed.

Lemma demo_run_sent : demo_run 5 = demo_sent.
Proof.
  apply (scheduled_follows 4 true demo_labels demo_schedule 0 sys_init);
    [|done|apply run_succeeds; vm_compute; reflexivity].
  intros j l Hj. unfold demo_labels, demo_prefix. cbn [Nat.add]. by rewrite (lookup_app_l_Some _ _ _ _ Hj).
Qed.

Lemma demo_run_settled : demo_run 10 = demo_settled.
Proof.
  apply (scheduled_follows 4 true demo_labels demo_prefix 0 sys_init);
    [|done|apply run_succeeds; vm_compute; reflexivity].
  intros j l Hj. unfold demo_labels. cbn [Nat.add]. by rewrite Hj.
Qed.

(** Nothing is published, waiting or to be acknowledged and the buffer is empty. *)
Definition settled (y : sys) : Prop :=
  pubs y = [] ∧ (∀ i, streams y !! 0 = Some i → si_queue i = [] ∧ si_pend i = None) ∧
  ∀ t s, getm (buf (leader y)) t !! s = None.

(** Where the retry loop is after each of its steps. *)
Definition at_phase (n : nat) (y : sys) : Prop :=
  match n with 0 => tick y = TIdle | 1 => ∃ tables, tick y = TRead tables | _ => tick y = TSend [] end.

(** A round of the retry loop on an empty buffer. *)
Lemma settled_round n y :
  n < 3 → inv y → settled y → at_phase n y →
  ∃ y', exec 4 true (match n with 0 => LTick | 1 => LLock | _ => LUnlock end) y = Some y' ∧
    role_step RRetry y y' ∧ settled y' ∧ at_phase (S n mod 3) y' ∧ server y' = server y.
Proof.
  intros Hn Hi (Hp & Hs & Hb) Ht. destruct n as [|[|[|n]]]; [| | |lia]; cbn in Ht |- *.
  - rewrite Ht. eexists. split_and!; [done|by apply rs_tick|by split_and!|by eexists|done].
  - destruct Ht as [tables Ht]. rewrite Ht.
    destruct (lock_effect y tables (elements (dom (buf (leader y)))) Hi Ht) as (r' & dk & out & E & _ & Hb' & Ho); [done|].
    rewrite E. eexists. split_and!; [done|by eapply rs_lock| |cbn|done].
    + split_and!; [done..|]. cbn. intros t s. rewrite Hb', Hb. by case_decide.
    + destruct out as [|[[t d] s] out]; [done|]. destruct (proj1 (Ho t s d)) as [_ H]; [apply list_elem_of_here|].
      by rewrite Hb in H.
  - rewrite Ht. eexists. split_and!; [done|by apply rs_unlock|by split_and!|done..].
Qed.

Lemma demo_settled_ok : settled demo_settled ∧ at_phase 0 demo_settled.
Proof.
  unfold settled, at_phase. split_and!; [vm_compute; reflexivity| | |vm_compute; reflexivity].
  - intros i. assert (streams demo_settled !! 0 = Some (mkSub "n" ∅ [mkRepMsg "t" "a" 1] [] None)) as ->
      by (vm_compute; reflexivity). by intros [= <-].
  - assert (buf (leader demo_settled) = {["t" := ∅]}) as -> by (vm_compute; reflexivity). intros t s.
    unfold getm. destruct (decide (t = "t")) as [->|]; by simplify_map_eq.
Qed.

(** The tables keep the stream of the node. *)
Definition calm (l : label) : bool :=
  match l with LRecv _ | LAck _ | LTick | LLock | LUnlock => true | _ => false end.

Lemma calm_subs W serial l y y' : calm l = true → exec W serial l y = Some y' → subs (server y') = subs (server y).
Proof.
  intros Hc E. destruct l as [| | | | | | | | |σ|σ|]; try done; cbn in E.
  - destruct (tick y); by simplify_eq.
  - destruct (tick y); simplify_eq. destruct (retry_topics _ _ _ _ _ _ _) as [[[? ?] ?]|]; by simplify_eq/=.
  - destruct (tick y) as [| |[|]]; by simplify_eq.
  - destruct (streams y !! σ) as [i|]; simplify_eq/=. destruct (sub_recv i); by simplify_eq/=.
  - destruct (streams y !! σ) as [i|]; simplify_eq/=. destruct (si_pend i) as [a|]; simplify_eq/=.
    pose proof (Ack_subs (ack_read a) (server y) (mets y)) as Ha. destruct (Ack _ _ _). by simplify_eq/=.
Qed.

Lemma demo_next k : demo_run (S k) = default (demo_run k) (exec 4 true (demo_labels k) (demo_run k)).
Proof. done. Qed.

Lemma next_phase k : 10 ≤ k → (S k - 10) mod 3 = S ((k - 10) mod 3) mod 3.
Proof.
  intros Hk. replace (S k - 10) with (1 + (k - 10)) by lia.
  rewrite <-(Nat.add_1_l ((k - 10) mod 3)). by rewrite Nat.Div0.add_mod_idemp_r.
Qed.

(** The step of the retry loop at each point after the prefix. *)
Lemma demo_retry_step k :
  10 ≤ k → settled (demo_run k) → at_phase ((k - 10) mod 3) (demo_run k) →
  role_step RRetry (demo_run k) (demo_run (S k)) ∧ settled (demo_run (S k)) ∧ at_phase ((S k - 10) mod 3) (demo_run (S k)).
Proof.
  intros Hk Hs Hp. destruct (settled_round ((k - 10) mod 3) (demo_run k)) as (y' & E & Hr & Hs' & Hp' & _);
    [by apply Nat.mod_upper_bound|apply (run_good 4 true demo_run), scheduled_is_run|done|done|].
  rewrite demo_next, demo_label_later, E by done. cbn [default from_option id]. by rewrite next_phase.
Qed.

Lemma demo_later k : 10 ≤ k → settled (demo_run k) ∧ at_phase ((k - 10) mod 3) (demo_run k).
Proof.
  induction 1 as [|k Hk [Hs Hp]]; [rewrite demo_run_settled; apply demo_settled_ok|]. by apply demo_retry_step.
Qed.

Lemma demo_subscribed k : 5 ≤ k → subscribed 0 (demo_run k).
Proof.
  induction 1 as [|k Hk (ss & Hss & H0)].
  - rewrite demo_run_sent. exists {[0]}. split; [vm_compute; reflexivity|set_solver].
  - exists ss. split; [|done]. rewrite demo_next. destruct (exec _ _ _ _) as [y'|] eqn:E; [|done]. cbn.
    rewrite <-Hss. eapply calm_subs; [|exact E]. destruct (decide (k < 10)).
    + do 5 (destruct k as [|k]; [lia|]). do 5 (destruct k as [|k]; [done|]). lia.
    + rewrite demo_label_later by lia. by repeat case_match.
Qed.

(** Once all is settled, only the retry loop has something to do. *)
Lemma demo_fair r : r ≠ RRetry → (∀ σ, r = RRecv σ ∨ r = RAck σ → σ = 0) → fair demo_run r.
Proof.
  intros Hr H0 k _. exists (k `max` 10). split; [lia|]. left.
  destruct (demo_later (k `max` 10)) as [(Hp & Hs & _) _]; [lia|]. intros [y' Hst].
  inversion Hst as [? σ i i' Hi Hrv|? σ i a ? ? Hi Ha|? σ i a Hi Ha|? ? ? ? ? ? ? E| | | |]; simplify_eq.
  - rewrite (H0 σ ltac:(auto)) in Hi. destruct (Hs i Hi) as [Hq _]. unfold sub_recv in Hrv. by rewrite Hq in Hrv.
  - rewrite (H0 σ ltac:(auto)) in Hi. destruct (Hs i Hi) as [_ Hq]. congruence.
  - rewrite (H0 σ ltac:(auto)) in Hi. destruct (Hs i Hi) as [_ Hq]. congruence.
  - rewrite Hp in E. by destruct ps1.
Qed.

Lemma demo_fair_retry : fair demo_run RRetry.
Proof.
  intros k _. exists (k `max` 10). split; [lia|]. right.
  destruct (demo_later (k `max` 10)) as [Hs Hp]; [lia|]. by apply demo_retry_step; [lia|..].
Qed.

Lemma subscribed_node_gets_all_witness : ∃ k', delivered (demo_run k') "n" "t" 1.
Proof.
  destruct (subscribed_node_gets_all 4 demo_run 0 5 5 (mkSub "n" ∅ [] [mkRepMsg "t" "a" 1] None) "t" 1 "a")
    as (k' & _ & Hd); [apply scheduled_is_run|apply demo_subscribed|apply demo_fair; naive_solver|
      apply demo_fair; naive_solver|apply demo_fair; naive_solver|lia|rewrite demo_run_sent; vm_compute; reflexivity|
      |reflexivity|exists k'; exact Hd].
  rewrite demo_run_sent. assert (published demo_sent = [("t", 1%Z, "a")]) as -> by (vm_compute; reflexivity).
  apply list_elem_of_here.
Defined.

Lemma buffered_delivered_or_dropped_witness :
  ∃ k', delivered (demo_run k') "n" "t" 1 ∨ dropped demo_run k' "t" 1 "a".
Proof.
  destruct (buffered_delivered_or_dropped 4 true demo_run 0 5 5 (mkSub "n" ∅ [] [mkRepMsg "t" "a" 1] None) "t" 1 "a")
    as (k' & _ & Hd); [apply scheduled_is_run|apply demo_subscribed|apply demo_fair; naive_solver|
      apply demo_fair; naive_solver|apply demo_fair_retry|lia|rewrite demo_run_sent; vm_compute; reflexivity|
      rewrite demo_run_sent; vm_compute; reflexivity|exists k'; exact Hd].
Defined.
