(* ===== verification/ConnMgr.v ===== *)
(** * The gRPC connection manager

    [pkg/transport/grpc/connmgr.go]: a cache of client connections with reference
    counts and idle eviction.  Each critical section of the code is one function;
    [Get] has two of them, with the dial in between, so any other operation can
    happen while a dial is in progress.  Connections are the pointers
    [*grpc.ClientConn], named by natural numbers; the dialer is the gRPC library's
    and its outcome is an argument.  Times are nanoseconds. *)
From S2P Require Import Prelude Metrics.
From stdpp Require Import options.

(** ** Data *)

Record managedConn := mkConn { cc : nat; lastUsed : Z; ref : Z }.

Record ConnManager := mkMgr {
  conns : gmap string managedConn;
  ttl : Z;
  closing : bool;
}.

Definition NewConnManager (t : Z) : ConnManager :=
  mkMgr ∅ (if (t <=? 0)%Z then 30 * 10 ^ 9 else t)%Z false.

Definition set_conns (c : gmap string managedConn) (m : ConnManager) : ConnManager :=
  mkMgr c (ttl m) (closing m).

(** [mc.ref++; mc.lastUsed = now]. *)
Definition retain (now : Z) (mc : managedConn) : managedConn := mkConn (cc mc) now (ref mc + 1).

(** ** Operations *)

(** The first critical section of [Get]: a cached connection is taken. *)
Definition get_cached (now : Z) (target : string) (m : ConnManager) : option (nat * ConnManager) :=
  match conns m !! target with
  | Some mc => Some (cc mc, set_conns (<[target := retain now mc]> (conns m)) m)
  | None => None
  end.

(** The second critical section of [Get], after dialing [c]: the connection to use, the
    one to close if another goroutine came first, and the metrics. *)
Definition get_dialed (now : Z) (target : string) (c : nat) (m : ConnManager) (mt : Metrics) :
    nat * option nat * ConnManager * Metrics :=
  match conns m !! target with
  | Some mc =>
      (cc mc, Some c, set_conns (<[target := retain now mc]> (conns m)) m, mInc GRPCConnReuse [] mt)
  | None =>
      (c, None, set_conns (<[target := mkConn c now 1]> (conns m)) m,
       mInc GRPCConnActive [] (mInc GRPCConnDials [] mt))
  end.

Definition release (now : Z) (target : string) (m : ConnManager) : ConnManager :=
  match conns m !! target with
  | Some mc =>
      set_conns (<[target := mkConn (cc mc) now (if (0 <? ref mc)%Z then ref mc - 1 else ref mc)%Z]>
        (conns m)) m
  | None => m
  end.

Definition idle (now ttl : Z) (mc : managedConn) : bool :=
  (ref mc =? 0)%Z && (lastUsed mc <? now - ttl)%Z.

(** One tick of [janitor]: the idle connections are closed and forgotten.  The result
    lists the connections it closes. *)
Definition janitor_tick (now : Z) (m : ConnManager) (mt : Metrics) :
    ConnManager * list nat * Metrics :=
  let gone := filter (λ p, idle now (ttl m) p.2 = true) (conns m) in
  let keep := filter (λ p, ¬ idle now (ttl m) p.2 = true) (conns m) in
  let n := Z.of_nat (size gone) in
  (set_conns keep m, cc <$> (map_to_list gone).*2,
   mAdd GRPCConnActive [] (- n) (mAdd GRPCConnEvictions [] n mt)).

(** [Close]: every cached connection is closed and the janitor stops; closing an
    already closed channel panics ([None]). *)
Definition CloseMgr (m : ConnManager) : option (ConnManager * list nat) :=
  if closing m then None
  else Some (mkMgr ∅ (ttl m) true, cc <$> (map_to_list (conns m)).*2).

(** ** Interleavings *)

(** The manager with the goroutines that use it: those dialing a target, those
    holding a connection they have not released, and the connections that are open. *)
Record mgr_sys := mkMgrSys {
  mgr : ConnManager;
  dialing : gmap nat string;
  holders : gmap nat (string * nat);
  opened : gset nat;
  gauges : Metrics;
}.

Definition mgr_init (t : Z) : mgr_sys := mkMgrSys (NewConnManager t) ∅ ∅ ∅ ∅.

Inductive mgr_step : mgr_sys → mgr_sys → Prop :=
  | mgr_hit y g now t c m' :
      holders y !! g = None → dialing y !! g = None →
      get_cached now t (mgr y) = Some (c, m') →
      mgr_step y (mkMgrSys m' (dialing y) (<[g := (t, c)]> (holders y)) (opened y) (gauges y))
  | mgr_miss y g now t :
      holders y !! g = None → dialing y !! g = None →
      get_cached now t (mgr y) = None →
      mgr_step y (mkMgrSys (mgr y) (<[g := t]> (dialing y)) (holders y) (opened y) (gauges y))
  | mgr_dial_failed y g t :
      dialing y !! g = Some t →
      mgr_step y (mkMgrSys (mgr y) (delete g (dialing y)) (holders y) (opened y) (gauges y))
  | mgr_dialed y g now t c used extra m' mt' :
      dialing y !! g = Some t → c ∉ opened y →
      get_dialed now t c (mgr y) (gauges y) = (used, extra, m', mt') →
      mgr_step y (mkMgrSys m' (delete g (dialing y)) (<[g := (t, used)]> (holders y))
        (({[c]} ∪ opened y) ∖ from_option singleton ∅ extra) mt')
  | mgr_release y g now t c :
      holders y !! g = Some (t, c) →
      mgr_step y (mkMgrSys (release now t (mgr y)) (dialing y) (delete g (holders y)) (opened y) (gauges y))
  | mgr_janitor y now m' dead mt' :
      janitor_tick now (mgr y) (gauges y) = (m', dead, mt') →
      mgr_step y (mkMgrSys m' (dialing y) (holders y) (opened y ∖ list_to_set dead) mt').

(** ** Invariants *)

(** How many goroutines hold a connection to [t]. *)
Definition held (h : gmap nat (string * nat)) (t : string) : nat :=
  size (filter (λ p, p.2.1 = t) h).

(** The connection cached for each target. *)
Definition ccs (m : ConnManager) : gmap string nat := cc <$> conns m.

Record mgr_inv (y : mgr_sys) : Prop := mkMgrInv {
  mi_ref : ∀ t mc, conns (mgr y) !! t = Some mc → ref mc = Z.of_nat (held (holders y) t);
  mi_cc : ∀ g t c, holders y !! g = Some (t, c) → ccs (mgr y) !! t = Some c;
  mi_open : ∀ c, c ∈ opened y ↔ ∃ t, ccs (mgr y) !! t = Some c;
  mi_inj : ∀ t t' c, ccs (mgr y) !! t = Some c → ccs (mgr y) !! t' = Some c → t = t';
  mi_disj : ∀ g, is_Some (dialing y !! g) → holders y !! g = None;
  mi_active : metric_value (gauges y) GRPCConnActive [] = Z.of_nat (size (ccs (mgr y)));
  mi_dials : (metric_value (gauges y) GRPCConnDials [] - metric_value (gauges y) GRPCConnEvictions [] =
    Z.of_nat (size (ccs (mgr y))))%Z;
}.

Lemma held_insert h g t c t' :
  h !! g = None → held (<[g := (t, c)]> h) t' = if decide (t = t') then S (held h t') else held h t'.
Proof.
  intros Hg. unfold held. case_decide as Ht.
  - rewrite map_filter_insert_True by done. rewrite map_size_insert_None; [done|].
    by apply map_lookup_filter_None_2; left.
  - rewrite map_filter_insert_False by done. by rewrite delete_id.
Qed.

Lemma held_delete h g t c t' :
  h !! g = Some (t, c) →
  held (delete g h) t' = if decide (t = t') then pred (held h t') else held h t'.
Proof.
  intros Hg. pose proof (held_insert (delete g h) g t c t' (lookup_delete_eq h g)) as E.
  rewrite insert_delete_id in E by done. rewrite E. by case_decide.
Qed.

Lemma held_0 h t : held h t = 0 → ∀ g c, h !! g ≠ Some (t, c).
Proof.
  unfold held. intros E%map_size_empty_iff g c Hg.
  assert (filter (λ p : nat * (string * nat), p.2.1 = t) h !! g = Some (t, c)) as H.
  { by apply map_lookup_filter_Some_2. }
  by rewrite E, lookup_empty in H.
Qed.

Lemma held_pos h g t c : h !! g = Some (t, c) → 0 < held h t.
Proof. intros Hg. destruct (held h t) eqn:E; [|lia]. by destruct (held_0 h t E g c). Qed.

Lemma held_none h t : (∀ g c, h !! g ≠ Some (t, c)) → held h t = 0.
Proof.
  intros Hn. unfold held. apply map_size_empty_iff, map_empty. intros g.
  apply map_lookup_filter_None. destruct (h !! g) as [[t' c]|] eqn:E; [right|by left].
  intros ? [= <-] Heq. simpl in Heq. subst t'. by destruct (Hn g c).
Qed.

Lemma ccs_update m t mc mc' :
  conns m !! t = Some mc → cc mc' = cc mc → ccs (set_conns (<[t := mc']> (conns m)) m) = ccs m.
Proof.
  intros Ht E. unfold ccs. simpl. rewrite fmap_insert, E. apply insert_id. by rewrite lookup_fmap, Ht.
Qed.

Lemma ccs_lookup m t c : ccs m !! t = Some c → ∃ mc, conns m !! t = Some mc ∧ cc mc = c.
Proof. unfold ccs. rewrite lookup_fmap. destruct (conns m !! t) eqn:E; simpl; naive_solver. Qed.

Lemma conns_ccs m t mc : conns m !! t = Some mc → ccs m !! t = Some (cc mc).
Proof. intros E. unfold ccs. by rewrite lookup_fmap, E. Qed.

(** Taking a cached connection, in either critical section of [Get]. *)
Lemma retain_inv y g now t mc d' o' mt' :
  mgr_inv y → conns (mgr y) !! t = Some mc → holders y !! g = None →
  (∀ g', is_Some (d' !! g') → g' ≠ g ∧ is_Some (dialing y !! g')) → o' = opened y →
  (∀ c, c ≠ GRPCConnReuse → metric_value mt' c [] = metric_value (gauges y) c []) →
  mgr_inv (mkMgrSys (set_conns (<[t := retain now mc]> (conns (mgr y))) (mgr y)) d'
    (<[g := (t, cc mc)]> (holders y)) o' mt').
Proof.
  intros Hi Ht Hg Hd -> Hmt.
  pose proof (ccs_update (mgr y) t mc (retain now mc) Ht eq_refl) as Eccs.
  constructor; simpl; rewrite ?Eccs, ?Hmt; try done; try apply Hi.
  - intros t' mc' [[<- <-]|[Hne Hl]]%lookup_insert_Some; rewrite held_insert by done.
    + rewrite decide_True by done. simpl. rewrite (mi_ref y Hi _ _ Ht). lia.
    + rewrite decide_False by done. by apply (mi_ref y Hi).
  - intros g' t' c [[<- [= <- <-]]|[_ Hl]]%lookup_insert_Some; [by apply conns_ccs|].
    by eapply (mi_cc y Hi).
  - intros g' [Hne Hg']%Hd. rewrite lookup_insert_ne by done. by apply (mi_disj y Hi).
Qed.

Lemma dialed_new_inv y g now t c :
  mgr_inv y → conns (mgr y) !! t = None → dialing y !! g = Some t → c ∉ opened y →
  mgr_inv (mkMgrSys (set_conns (<[t := mkConn c now 1]> (conns (mgr y))) (mgr y)) (delete g (dialing y))
    (<[g := (t, c)]> (holders y)) ({[c]} ∪ opened y)
    (mInc GRPCConnActive [] (mInc GRPCConnDials [] (gauges y)))).
Proof.
  intros Hi Ht Hg Hc. set (m' := set_conns _ _).
  assert (ccs m' = <[t := c]> (ccs (mgr y))) as Eccs by (unfold ccs, m'; simpl; by rewrite fmap_insert).
  assert (ccs (mgr y) !! t = None) as Hnt by (unfold ccs; by rewrite lookup_fmap, Ht).
  assert (holders y !! g = None) as Hgn by (apply (mi_disj y Hi); eauto).
  assert (∀ t', ccs (mgr y) !! t' ≠ Some c) as Hfresh.
  { intros t' Ht'. apply Hc, (mi_open y Hi). eauto. }
  constructor; simpl; rewrite ?Eccs.
  - intros t' mc' [[<- <-]|[Hne Hl]]%lookup_insert_Some; rewrite held_insert by done.
    + rewrite decide_True by done. rewrite held_none; [done|].
      intros g' c' Hg'%(mi_cc y Hi). congruence.
    + rewrite decide_False by done. by apply (mi_ref y Hi).
  - intros g' t' c' [[<- [= <- <-]]|[_ Hl]]%lookup_insert_Some; [by rewrite lookup_insert_eq|].
    apply (mi_cc y Hi) in Hl. rewrite lookup_insert_ne; [done|congruence].
  - intros c'. rewrite elem_of_union, elem_of_singleton, (mi_open y Hi). split.
    + intros [->|[t' Ht']]; [exists t; apply lookup_insert_eq|].
      exists t'. rewrite lookup_insert_ne; [done|congruence].
    + intros [t' [[<- <-]|[_ ?]]%lookup_insert_Some]; eauto.
  - intros t1 t2 c' [[<- <-]|[_ H1]]%lookup_insert_Some [[<- E]|[_ H2]]%lookup_insert_Some;
      subst; try done; try (by destruct (Hfresh t1)); try (by destruct (Hfresh t2)).
    by eapply (mi_inj y Hi).
  - intros g' [Hne Hg']%lookup_delete_is_Some. rewrite lookup_insert_ne by done. by apply (mi_disj y Hi).
  - unfold mInc. autorewrite with metrics. rewrite (mi_active y Hi), map_size_insert_None by done. lia.
  - unfold mInc. autorewrite with metrics. rewrite map_size_insert_None by done.
    pose proof (mi_dials y Hi). lia.
Qed.

Lemma release_inv y g now t c :
  mgr_inv y → holders y !! g = Some (t, c) →
  mgr_inv (mkMgrSys (release now t (mgr y)) (dialing y) (delete g (holders y)) (opened y) (gauges y)).
Proof.
  intros Hi Hg. destruct (ccs_lookup _ _ _ (mi_cc y Hi _ _ _ Hg)) as (mc & Ht & Ec).
  pose proof (held_pos _ _ _ _ Hg) as Hpos. pose proof (mi_ref y Hi _ _ Ht) as Hr.
  unfold release. rewrite Ht. rewrite (proj2 (Z.ltb_lt 0 (ref mc))) by lia.
  set (mc' := mkConn _ _ _).
  pose proof (ccs_update (mgr y) t mc mc' Ht eq_refl) as Eccs.
  constructor; simpl; rewrite ?Eccs; try apply Hi.
  - intros t' mc1 [[<- <-]|[Hne Hl]]%lookup_insert_Some; rewrite (held_delete _ _ _ _ _ Hg).
    + rewrite decide_True by done. simpl. lia.
    + rewrite decide_False by done. by apply (mi_ref y Hi).
  - intros g' t' c' [_ Hl]%lookup_delete_Some. by eapply (mi_cc y Hi).
  - intros g' Hg'%(mi_disj y Hi). apply lookup_delete_None. auto.
Qed.

Lemma janitor_inv y now m' dead mt' :
  mgr_inv y → janitor_tick now (mgr y) (gauges y) = (m', dead, mt') →
  mgr_inv (mkMgrSys m' (dialing y) (holders y) (opened y ∖ list_to_set dead) mt').
Proof.
  intros Hi E. unfold janitor_tick in E. simplify_eq.
  set (P := λ p : string * managedConn, idle now (ttl (mgr y)) p.2 = true).
  change (filter (λ p : string * managedConn, idle now (ttl (mgr y)) p.2 = true) (conns (mgr y)))
    with (filter P (conns (mgr y))).
  change (filter (λ p : string * managedConn, ¬ idle now (ttl (mgr y)) p.2 = true) (conns (mgr y)))
    with (filter (λ p, ¬ P p) (conns (mgr y))).
  set (keep := filter (λ p, ¬ P p) (conns (mgr y))). set (gone := filter P (conns (mgr y))).
  assert (∀ t mc, keep !! t = Some mc ↔ conns (mgr y) !! t = Some mc ∧ ¬ P (t, mc)) as Hkeep
    by (intros; apply map_lookup_filter_Some).
  assert (∀ t c, ccs (set_conns keep (mgr y)) !! t = Some c ↔
    ∃ mc, conns (mgr y) !! t = Some mc ∧ ¬ P (t, mc) ∧ cc mc = c) as Hccs.
  { intros t c. unfold ccs. simpl. rewrite lookup_fmap, fmap_Some. setoid_rewrite Hkeep. naive_solver. }
  assert (size gone + size (ccs (set_conns keep (mgr y))) = size (ccs (mgr y))) as Hsize.
  { unfold ccs. rewrite !map_size_fmap. simpl. rewrite <-map_size_disj_union
      by apply map_disjoint_filter_complement. unfold gone, keep.
    by rewrite map_filter_union_complement. }
  constructor; simpl.
  - intros t mc [? _]%Hkeep. by apply (mi_ref y Hi).
  - intros g t c Hg. destruct (ccs_lookup _ _ _ (mi_cc y Hi _ _ _ Hg)) as (mc & Ht & Ec).
    apply Hccs. exists mc. split_and!; [done| |done].
    pose proof (held_pos _ _ _ _ Hg). pose proof (mi_ref y Hi _ _ Ht).
    unfold P, idle. simpl. rewrite (proj2 (Z.eqb_neq (ref mc) 0)) by lia. done.
  - intros c. rewrite elem_of_difference, elem_of_list_to_set, (mi_open y Hi).
    setoid_rewrite Hccs. rewrite list_elem_of_fmap. split.
    + intros [[t Ht] Hnd]. apply ccs_lookup in Ht as (mc & Ht & <-).
      exists t, mc. split_and!; [done| |done]. intros HP. apply Hnd. exists mc. split; [done|].
      apply list_elem_of_fmap. exists (t, mc). split; [done|].
      by apply elem_of_map_to_list, map_lookup_filter_Some.
    + intros (t & mc & Ht & HnP & <-). split; [exists t; by apply conns_ccs|].
      intros (mc' & E & ([t' ?] & -> & Hin)%list_elem_of_fmap). simpl in E.
      apply elem_of_map_to_list, map_lookup_filter_Some in Hin as [Ht' HP].
      assert (t = t') as <-; [|simplify_eq; done].
      eapply (mi_inj y Hi); [by apply conns_ccs|]. rewrite E. by apply conns_ccs.
  - intros t t' c (mc & Ht & _ & <-)%Hccs (mc' & Ht' & _ & E)%Hccs.
    eapply (mi_inj y Hi); [by apply conns_ccs|]. rewrite <-E. by apply conns_ccs.
  - apply Hi.
  - autorewrite with metrics. rewrite (mi_active y Hi). lia.
  - autorewrite with metrics. pose proof (mi_dials y Hi). lia.
Qed.

Lemma mgr_inv_init t : mgr_inv (mgr_init t).
Proof.
  unfold mgr_init, NewConnManager, ccs. constructor; simpl; rewrite ?fmap_empty; try done.
  - set_solver.
Qed.

Lemma mgr_inv_step y y' : mgr_step y y' → mgr_inv y → mgr_inv y'.
Proof.
  intros Hstep Hi. destruct Hstep.
  - unfold get_cached in *. destruct (conns (mgr y) !! t) as [mc|] eqn:Ht; simplify_eq.
    apply retain_inv; try done. intros g' Hg'. split; [|done]. intros ->. destruct Hg'. congruence.
  - constructor; simpl; try apply Hi.
    intros g'. destruct (decide (g = g')) as [->|]; [done|].
    rewrite lookup_insert_ne by done. apply (mi_disj y Hi).
  - constructor; simpl; try apply Hi.
    intros g' [_ Hg']%lookup_delete_is_Some. by apply (mi_disj y Hi).
  - unfold get_dialed in *. assert (holders y !! g = None) by (apply (mi_disj y Hi); eauto).
    destruct (conns (mgr y) !! t) as [mc|] eqn:Ht; simplify_eq; simpl.
    + apply retain_inv; try done.
      * intros g' [? ?]%lookup_delete_is_Some. auto.
      * set_solver.
      * intros c' Hc'. unfold mInc. by autorewrite with metrics.
    + rewrite difference_empty_L. by apply dialed_new_inv.
  - by eapply release_inv.
  - by eapply janitor_inv.
Qed.

Lemma mgr_reachable_inv t y : rtc mgr_step (mgr_init t) y → mgr_inv y.
Proof.
  generalize (mgr_inv_init t). generalize (mgr_init t). intros y0 H0 Hr.
  induction Hr; eauto using mgr_inv_step.
Qed.

(** ** Properties *)

(** C11. No goroutine holds a closed connection: in every interleaving of [Get], with
    its dial outside the lock, [release] and the janitor, a connection that was
    returned and not released is open and is the one cached for its target. *)
Theorem held_connection_open ttl y g t c :
  rtc mgr_step (mgr_init ttl) y → holders y !! g = Some (t, c) →
  c ∈ opened y ∧ ∃ mc, conns (mgr y) !! t = Some mc ∧ cc mc = c ∧ (0 < ref mc)%Z.
Proof.
  intros Hi%mgr_reachable_inv Hg. pose proof (mi_cc y Hi _ _ _ Hg) as Hc.
  split; [apply (mi_open y Hi); eauto|].
  apply ccs_lookup in Hc as (mc & Ht & <-). exists mc. split_and!; [done..|].
  rewrite (mi_ref y Hi _ _ Ht). pose proof (held_pos _ _ _ _ Hg). lia.
Qed.

(** C25. Reference counts are exact and nothing leaks: each cached connection counts the
    goroutines that hold it, the open connections are exactly the cached ones, one
    per target, and both connection gauges count them. *)
Theorem conn_cache_exact ttl y :
  rtc mgr_step (mgr_init ttl) y →
  (∀ t mc, conns (mgr y) !! t = Some mc → ref mc = Z.of_nat (held (holders y) t)) ∧
  (∀ c, c ∈ opened y ↔ ∃ t, ccs (mgr y) !! t = Some c) ∧
  (∀ t t' c, ccs (mgr y) !! t = Some c → ccs (mgr y) !! t' = Some c → t = t') ∧
  metric_value (gauges y) GRPCConnActive [] = Z.of_nat (size (conns (mgr y))) ∧
  (metric_value (gauges y) GRPCConnDials [] - metric_value (gauges y) GRPCConnEvictions [] =
   Z.of_nat (size (conns (mgr y))))%Z.
Proof.
  intros Hi%mgr_reachable_inv. rewrite <-(map_size_fmap cc (conns (mgr y))).
  split_and!; apply Hi.
Qed.

(** The janitor closes and forgets exactly the connections that nobody holds and
    that were last used more than the time-to-live ago. *)
Theorem janitor_evicts_idle now m mt :
  let '(m', dead, _) := janitor_tick now m mt in
  (∀ t mc, conns m' !! t = Some mc ↔
     conns m !! t = Some mc ∧ ¬ (ref mc = 0 ∧ lastUsed mc < now - ttl m)%Z) ∧
  (∀ c, c ∈ dead ↔ ∃ t mc, conns m !! t = Some mc ∧ (ref mc = 0)%Z ∧
     (lastUsed mc < now - ttl m)%Z ∧ cc mc = c).
Proof.
  unfold janitor_tick. simpl.
  assert (∀ mc, idle now (ttl m) mc = true ↔ (ref mc = 0 ∧ lastUsed mc < now - ttl m)%Z) as Hidle.
  { intros mc. unfold idle. by rewrite andb_true_iff, Z.eqb_eq, Z.ltb_lt. }
  split.
  - intros t mc. rewrite map_lookup_filter_Some. simpl. by rewrite Hidle.
  - intros c. rewrite list_elem_of_fmap. setoid_rewrite list_elem_of_fmap. split.
    + intros (mc & -> & ([t mc'] & E & [? Hp%Hidle]%elem_of_map_to_list%map_lookup_filter_Some)).
      simpl in E. subst mc'. exists t, mc. naive_solver.
    + intros (t & mc & Ht & ? & ? & <-). exists mc. split; [done|]. exists (t, mc). split; [done|].
      apply elem_of_map_to_list, map_lookup_filter_Some. split; [done|]. by apply Hidle.
Qed.

(** ** Witnesses *)

(** Two goroutines miss the cache together and dial; the second uses the first's
    connection. *)
Definition demo_race : mgr_sys :=
  mkMgrSys (mkMgr {["a" := mkConn 7 5 2]} (30 * 10 ^ 9) false) ∅ {[1 := ("a", 7); 2 := ("a", 7)]} {[7]}
    (mInc GRPCConnReuse [] (mInc GRPCConnActive [] (mInc GRPCConnDials [] ∅))).

Lemma demo_race_reachable : rtc mgr_step (mgr_init 0) demo_race.
Proof.
  eapply rtc_l; [eapply (mgr_miss _ 1 0 "a"); reflexivity|].
  eapply rtc_l; [eapply (mgr_miss _ 2 0 "a"); reflexivity|].
  eapply rtc_l; [eapply (mgr_dialed _ 1 4 "a" 7); [reflexivity|set_solver|reflexivity]|].
  eapply rtc_l; [eapply (mgr_dialed _ 2 5 "a" 8); [reflexivity|simpl; set_solver|reflexivity]|].
  match goal with |- rtc _ ?y _ => assert (y = demo_race) as -> end; [|apply rtc_refl].
  unfold demo_race. f_equal; vm_compute; reflexivity.
Qed.

Lemma held_connection_open_witness : 7 ∈ opened demo_race.
Proof.
  apply (held_connection_open 0 demo_race 2 "a" 7); [apply demo_race_reachable|].
  vm_compute. reflexivity.
Defined.

Lemma conn_cache_exact_witness : metric_value (gauges demo_race) GRPCConnActive [] = 1%Z.
Proof. apply (conn_cache_exact 0 demo_race). apply demo_race_reachable. Defined.
