(* ===== verification/Types.v ===== *)
(** * Data shared by the components

    The structures of [pkg/membership], [pkg/consensus], [pkg/transport/rpc.go] and
    [pkg/cluster] that travel between components.  Field names are prefixed to keep
    Rocq's projections apart. *)
From S2P Require Import Prelude.
From stdpp Require Import options.

(** ** pkg/membership *)

(** A nil [Meta] map is [None]: it prints as JSON [null], an empty one as [{}]. *)
Record MemberInfo := mkMember {
  ID : string;
  Addr : string;
  Meta : option (gmap string string);
}.

Global Instance MemberInfo_eq_dec : EqDecision MemberInfo.
Proof. solve_decision. Defined.

Inductive MemEventType : Type := EventJoin | EventLeave | EventFailed.

Record MemEvent := mkMemEvent {
  me_type : MemEventType;
  me_member : MemberInfo;
  me_at : Z;
}.

(** ** pkg/consensus *)

Record LeaderInfo := mkLeaderInfo { li_id : string; li_addr : string; li_term : Z }.

Global Instance LeaderInfo_eq_dec : EqDecision LeaderInfo.
Proof. solve_decision. Defined.

(** [Payload] is nil ([None]) when absent. *)
Record Command := mkCommand { Op : string; Payload : option bytes }.

Global Instance Command_eq_dec : EqDecision Command.
Proof. solve_decision. Defined.

(** ** pkg/transport *)

(** A slice that may be nil is an option: nil and empty slices differ in JSON. *)

Record JoinRequest := mkJoinRequest { jr_id : string; jr_raftAddr : string }.
Record JoinResponse := mkJoinResponse { jp_accepted : bool; jp_leader : string; jp_error : string }.
Record LeaveRequest := mkLeaveRequest { lr_id : string }.
Record LeaveResponse := mkLeaveResponse { lp_accepted : bool; lp_error : string }.
Record AppWriteRequest := mkAppWriteRequest { wr_op : string; wr_data : option bytes }.
Record AppWriteResponse := mkAppWriteResponse { wp_data : option bytes; wp_error : string }.
Record AppSyncRequest := mkAppSyncRequest { sr_topic : string; sr_data : option bytes }.
Record AppSyncResponse := mkAppSyncResponse { sp_error : string }.

Global Instance JoinResponse_eq_dec : EqDecision JoinResponse.
Proof. solve_decision. Defined.
Global Instance LeaveResponse_eq_dec : EqDecision LeaveResponse.
Proof. solve_decision. Defined.
Global Instance AppWriteResponse_eq_dec : EqDecision AppWriteResponse.
Proof. solve_decision. Defined.
Global Instance AppSyncResponse_eq_dec : EqDecision AppSyncResponse.
Proof. solve_decision. Defined.

(** ** pkg/cluster *)

Record ClusterStatus := mkStatus {
  Healthy : bool;
  Term : Z;
  LeaderID : string;
  LeaderAddr : string;
  Members : option (list MemberInfo);
  Warnings : option (list string);
}.

Inductive EventType : Type :=
  | EventLeaderChanged | EventElectionStart | EventElectionEnd
  | EventMemberJoin | EventMemberLeave | EventMemberFailed.

Global Instance EventType_eq_dec : EqDecision EventType.
Proof. solve_decision. Defined.

(** [Details] is never set by the code and is left out. *)
Record Event := mkEvent {
  ev_type : EventType;
  ev_at : Z;
  ev_leader : option LeaderInfo;
  ev_member : option MemberInfo;
  ev_term : Z;
}.

Global Instance Event_eq_dec : EqDecision Event.
Proof. solve_decision. Defined.
