(* ===== verification/EventBus.v ===== *)
(** * The event bus

    [pkg/cluster/events.go]: subscribers are buffered channels; publishing never
    waits.  A channel is named by a number; its state is its buffer and whether it
    was closed.  Sending on a closed channel panics in Go, also inside a [select]
    with a default case: [publish] is [None] then. *)
From S2P Require Import Prelude Types.
From stdpp Require Import options.

(** ** Data *)

Definition chan_cap : nat := 64.

Record chan := mkChan { c_queue : list Event; c_closed : bool }.

(** [eb_subs] is the map of the bus (nil until the first [add], which reads like an
    empty one); [eb_chans] is the store of the channels it points to. *)
Record eventBus := mkBus {
  eb_subs : gset nat;
  eb_chans : gmap nat chan;
}.

(** ** Operations *)

Definition eb_add (ch : nat) (b : eventBus) : eventBus := mkBus ({[ch]} ∪ eb_subs b) (eb_chans b).
Definition eb_remove (ch : nat) (b : eventBus) : eventBus := mkBus (eb_subs b ∖ {[ch]}) (eb_chans b).

Definition chan_try_send (ev : Event) (c : chan) : chan :=
  mkChan (try_send chan_cap (c_queue c) ev) (c_closed c).

(** One round of the loop of [publish]: [None] is the panic of a send to a closed
    channel. *)
Definition send_one (ev : Event) (ch : nat) (b : eventBus) : option eventBus :=
  match eb_chans b !! ch with
  | Some c => if c_closed c then None
              else Some (mkBus (eb_subs b) (<[ch := chan_try_send ev c]> (eb_chans b)))
  | None => Some b
  end.

Fixpoint publish_loop (ev : Event) (order : list nat) (b : eventBus) : option eventBus :=
  match order with
  | [] => Some b
  | ch :: order' => b' ← send_one ev ch b; publish_loop ev order' b'
  end.

(** [for ch := range e.subs] visits the subscribers in an order the language leaves
    open. *)
Definition visits (b : eventBus) (order : list nat) : Prop := order ≡ₚ elements (eb_subs b).

(** [publish], visiting the subscribers in the order of their numbers; the theorems
    hold for every order. *)
Definition publish (ev : Event) (b : eventBus) : option eventBus :=
  publish_loop ev (elements (eb_subs b)) b.

Definition close_chan (ch : nat) (b : eventBus) : eventBus :=
  mkBus (eb_subs b) (alter (λ c, mkChan (c_queue c) true) ch (eb_chans b)).

(** [Subscribe]: make the channel and add it. *)
Definition Subscribe (ch : nat) (b : eventBus) : eventBus :=
  eb_add ch (mkBus (eb_subs b) (<[ch := mkChan [] false]> (eb_chans b))).

(** ** Interleavings *)

(** The bus with every goroutine that touches it.  [pubs] is the publisher that holds
    the mutex, if any: its event and the channels it has still to visit.  [leaving] are
    the channels whose goroutine of [Subscribe] has removed them and not yet closed
    them (the close is outside the mutex).  [offered] and [consumed] record, per
    channel, the events a publisher tried to send to it and the events its consumer
    has read. *)
Record bus_sys := mkBusSys {
  bus : eventBus;
  pubs : option (Event * list nat);
  leaving : gset nat;
  offered : nat → list Event;
  consumed : nat → list Event;
}.

Definition bus_init : bus_sys := mkBusSys (mkBus ∅ ∅) None ∅ (λ _, []) (λ _, []).

Definition log (m : nat → list Event) (ch : nat) (ev : Event) : nat → list Event :=
  λ k, if decide (k = ch) then m k ++ [ev] else m k.

Inductive bus_step : bus_sys → bus_sys → Prop :=
  | bus_subscribe y ch :
      pubs y = None → eb_chans (bus y) !! ch = None →
      bus_step y (mkBusSys (Subscribe ch (bus y)) None (leaving y) (offered y) (consumed y))
  | bus_lock y ev order :
      pubs y = None → visits (bus y) order →
      bus_step y (mkBusSys (bus y) (Some (ev, order)) (leaving y) (offered y) (consumed y))
  | bus_send y ev ch order b' :
      pubs y = Some (ev, ch :: order) → send_one ev ch (bus y) = Some b' →
      bus_step y (mkBusSys b' (Some (ev, order)) (leaving y) (log (offered y) ch ev) (consumed y))
  | bus_unlock y ev :
      pubs y = Some (ev, []) →
      bus_step y (mkBusSys (bus y) None (leaving y) (offered y) (consumed y))
  | bus_receive y ch c ev q :
      eb_chans (bus y) !! ch = Some c → c_queue c = ev :: q →
      bus_step y (mkBusSys
        (mkBus (eb_subs (bus y)) (<[ch := mkChan q (c_closed c)]> (eb_chans (bus y))))
        (pubs y) (leaving y) (offered y) (log (consumed y) ch ev))
  | bus_done y ch :
      pubs y = None → ch ∈ eb_subs (bus y) →
      bus_step y (mkBusSys (eb_remove ch (bus y)) None ({[ch]} ∪ leaving y) (offered y) (consumed y))
  | bus_close y ch :
      ch ∈ leaving y →
      bus_step y (mkBusSys (close_chan ch (bus y)) (pubs y) (leaving y ∖ {[ch]})
        (offered y) (consumed y)).

Definition bus_reachable : bus_sys → Prop := rtc bus_step bus_init.

(** ** Publishing *)

Lemma try_send_length {A} cap (q : list A) x : length q ≤ cap → length (try_send cap q x) ≤ cap.
Proof. intros. unfold try_send. case_decide; [rewrite length_app; simpl|]; lia. Qed.

Lemma send_one_spec ev ch b b' :
  send_one ev ch b = Some b' →
  eb_subs b' = eb_subs b ∧
  (∀ k, eb_chans b' !! k = (if decide (k = ch) then chan_try_send ev <$> eb_chans b !! k
                            else eb_chans b !! k)).
Proof.
  unfold send_one. intros H. destruct (eb_chans b !! ch) as [c|] eqn:E.
  - destruct (c_closed c) eqn:Ec; simplify_eq/=. split; [done|]. intros k. case_decide; subst.
    + by rewrite lookup_insert_eq, E.
    + by rewrite lookup_insert_ne.
  - simplify_eq/=. split; [done|]. intros k. case_decide; subst; [by rewrite E|done].
Qed.

Lemma publish_loop_spec ev order b :
  NoDup order →
  (∀ ch c, ch ∈ order → eb_chans b !! ch = Some c → c_closed c = false) →
  ∃ b', publish_loop ev order b = Some b' ∧ eb_subs b' = eb_subs b ∧
    ∀ k, eb_chans b' !! k = (if decide (k ∈ order) then chan_try_send ev <$> eb_chans b !! k
                             else eb_chans b !! k).
Proof.
  intros Hnd. revert b. induction Hnd as [|ch order Hnin Hnd IH]; intros b Hopen.
  - exists b. set_solver.
  - cbn [publish_loop].
    assert (∃ b1, send_one ev ch b = Some b1) as [b1 E1].
    { unfold send_one. destruct (eb_chans b !! ch) as [c|] eqn:E; [|by eauto].
      rewrite (Hopen ch c) by (done || set_solver). eauto. }
    destruct (send_one_spec _ _ _ _ E1) as [Hs Hc]. rewrite E1. cbn.
    destruct (IH b1) as (b' & -> & Hs' & Hc').
    { intros k c Hk. rewrite Hc. case_decide; [set_solver|]. apply Hopen. set_solver. }
    exists b'. rewrite Hs'. split_and!; [done|done|]. intros k. rewrite Hc', Hc.
    repeat case_decide; set_solver.
Qed.

(** When no subscribed channel is closed, [publish] succeeds in every order of
    visiting the subscribers and all orders give the same result: the event is appended
    to the buffer of each subscriber whose buffer has room for it, a subscriber with 64
    unread events misses it, and no other channel changes. *)
Theorem publish_correct ev order b :
  visits b order →
  (∀ ch c, ch ∈ eb_subs b → eb_chans b !! ch = Some c → c_closed c = false) →
  ∃ b', publish_loop ev order b = Some b' ∧ publish ev b = Some b' ∧
    eb_subs b' = eb_subs b ∧
    ∀ ch c, eb_chans b !! ch = Some c →
      eb_chans b' !! ch =
        Some (mkChan (if decide (ch ∈ eb_subs b ∧ length (c_queue c) < chan_cap)
                      then c_queue c ++ [ev] else c_queue c) (c_closed c)).
Proof.
  unfold visits, publish. intros Hv Hopen.
  destruct (publish_loop_spec ev order b) as (b1 & H1 & Hs1 & Hc1).
  { rewrite Hv. apply NoDup_elements. }
  { intros ch c. rewrite Hv, elem_of_elements. apply Hopen. }
  destruct (publish_loop_spec ev (elements (eb_subs b)) b) as (b2 & H2 & Hs2 & Hc2).
  { apply NoDup_elements. }
  { intros ch c. rewrite elem_of_elements. apply Hopen. }
  assert (b2 = b1) as ->.
  { destruct b1, b2; simpl in *. f_equal; [congruence|]. apply map_eq. intros k.
    rewrite Hc1, Hc2. assert (k ∈ order ↔ k ∈ elements (eb_subs b)) by (by rewrite Hv).
    repeat case_decide; tauto. }
  exists b1. split_and!; [done..|]. intros ch c Hch. rewrite Hc2.
  rewrite Hch. destruct c as [q cl]. pose proof (elem_of_elements (eb_subs b) ch).
  unfold chan_try_send, try_send; simpl. repeat case_decide; simpl; repeat case_decide; naive_solver.
Qed.

(** ** Every interleaving *)

(** What a reachable state satisfies. *)
Record bus_inv (y : bus_sys) : Prop := {
  bi_known : ∀ ch, ch ∈ eb_subs (bus y) ∪ leaving y → is_Some (eb_chans (bus y) !! ch);
  bi_disjoint : eb_subs (bus y) ## leaving y;
  bi_open : ∀ ch c, ch ∈ eb_subs (bus y) ∪ leaving y →
    eb_chans (bus y) !! ch = Some c → c_closed c = false;
  bi_pub : ∀ ev order, pubs y = Some (ev, order) → ∀ ch, ch ∈ order → ch ∈ eb_subs (bus y);
  bi_cap : ∀ ch c, eb_chans (bus y) !! ch = Some c → length (c_queue c) ≤ chan_cap;
  bi_fifo : ∀ ch c, eb_chans (bus y) !! ch = Some c →
    consumed y ch ++ c_queue c `sublist_of` offered y ch;
  bi_fresh : ∀ ch, eb_chans (bus y) !! ch = None → consumed y ch = [] ∧ offered y ch = [];
}.

Lemma bus_inv_init : bus_inv bus_init.
Proof. split; simpl; try set_solver. Qed.

(** The cases of a lookup in an updated store, and the sets a channel is in. *)
Ltac bus_cases :=
  intros; unfold log in *;
  repeat match goal with
  | H : context [<[?i := _]> _ !! ?j] |- _ => destruct (decide (i = j)); simplify_map_eq
  | H : context [alter _ ?i _ !! ?j] |- _ => destruct (decide (i = j)); simplify_map_eq
  | |- context [<[?i := _]> _ !! ?j] => destruct (decide (i = j)); simplify_map_eq
  | |- context [alter _ ?i _ !! ?j] => destruct (decide (i = j)); simplify_map_eq
  | H : _ <$> _ = Some _ |- _ => apply fmap_Some in H as (? & ? & ->)
  | H : _ <$> _ = None |- _ => apply fmap_None in H
  | |- is_Some (_ <$> _) => apply fmap_is_Some
  end; simpl in *; repeat case_decide; simplify_eq/=.

Lemma bus_inv_subscribe y ch :
  bus_inv y → eb_chans (bus y) !! ch = None →
  bus_inv (mkBusSys (Subscribe ch (bus y)) None (leaving y) (offered y) (consumed y)).
Proof.
  intros [Hk Hd Ho Hp Hc Hf Hn] E.
  assert (ch ∉ leaving y) by (intros Hin; destruct (Hk ch) as [? ?]; [set_solver|congruence]).
  split; simpl; bus_cases; try (by eauto).
  - apply Hk. set_solver.
  - clear -Hd H. set_solver.
  - eapply Ho; [|done]. set_solver.
  - unfold chan_cap. lia.
  - destruct (Hn ch0 E) as [-> ->]. done.
Qed.

Lemma bus_inv_send y ev ch order b' :
  bus_inv y → pubs y = Some (ev, ch :: order) → send_one ev ch (bus y) = Some b' →
  bus_inv (mkBusSys b' (Some (ev, order)) (leaving y) (log (offered y) ch ev) (consumed y)).
Proof.
  intros [Hk Hd Ho Hp Hc Hf Hn] E Hs. apply send_one_spec in Hs as [Hsub Hch].
  assert (is_Some (eb_chans (bus y) !! ch)) as [c Ec].
  { apply Hk. pose proof (Hp _ _ E ch). set_solver. }
  split; simpl; rewrite ?Hsub; intros k; rewrite ?Hch; unfold log;
    try case_decide; subst; rewrite ?Ec; simpl; try (by eauto); intros; simplify_eq/=.
  - by eapply Ho.
  - eapply Hp; [done|set_solver].
  - apply try_send_length. by eapply Hc.
  - unfold try_send. case_decide.
    + rewrite app_assoc. apply sublist_app; [by apply Hf|done].
    + rewrite <-(app_nil_r (_ ++ _)). apply sublist_app; [by apply Hf|apply sublist_nil_l].
Qed.

Lemma bus_inv_receive y ch c ev q :
  bus_inv y → eb_chans (bus y) !! ch = Some c → c_queue c = ev :: q →
  bus_inv (mkBusSys
    (mkBus (eb_subs (bus y)) (<[ch := mkChan q (c_closed c)]> (eb_chans (bus y))))
    (pubs y) (leaving y) (offered y) (log (consumed y) ch ev)).
Proof.
  intros [Hk Hd Ho Hp Hc Hf Hn] E Eq. split; simpl; bus_cases; try (by eauto).
  - apply Hc in E. rewrite Eq in E. simpl in E. lia.
  - rewrite <-app_assoc. simpl. rewrite <-Eq. by apply Hf.
Qed.

Lemma bus_inv_close y ch :
  bus_inv y → ch ∈ leaving y →
  bus_inv (mkBusSys (close_chan ch (bus y)) (pubs y) (leaving y ∖ {[ch]}) (offered y) (consumed y)).
Proof.
  intros [Hk Hd Ho Hp Hc Hf Hn] Hin. split; simpl; bus_cases; try (by eauto).
  - apply Hk. set_solver.
  - apply Hk. set_solver.
  - clear -Hd. set_solver.
  - exfalso. clear -Hd Hin H. set_solver.
  - eapply Ho; [|done]. set_solver.
Qed.

Lemma bus_inv_step y y' : bus_inv y → bus_step y y' → bus_inv y'.
Proof.
  intros Hi Hs. destruct Hs; eauto using bus_inv_subscribe, bus_inv_send, bus_inv_receive, bus_inv_close.
  all: destruct Hi as [Hk Hd Ho Hp Hc Hf Hn]; split; simpl; intros; simplify_eq/=; try (by eauto).
  - apply elem_of_elements. by rewrite <-H0.
  - apply Hk. set_solver.
  - clear -Hd. set_solver.
  - eapply Ho; [|done]. clear -H0 H1. set_solver.
Qed.

Lemma bus_reachable_inv y : bus_reachable y → bus_inv y.
Proof.
  apply rtc_ind_r; [apply bus_inv_init|]. intros ? ? _ Hs Hi. by eapply bus_inv_step.
Qed.

(** C17. No interleaving of publishers, subscriptions, cancellations, closes and readers
    makes [publish] panic: whenever a publisher is about to send to a channel, the
    channel is open, although [Subscribe]'s goroutine closes it outside the mutex. *)
Theorem publish_never_panics y ev ch order :
  bus_reachable y → pubs y = Some (ev, ch :: order) →
  ∃ c b', eb_chans (bus y) !! ch = Some c ∧ c_closed c = false ∧ send_one ev ch (bus y) = Some b'.
Proof.
  intros [Hk Hd Ho Hp _ _ _]%bus_reachable_inv E.
  assert (ch ∈ eb_subs (bus y) ∪ leaving y) as Hin by (specialize (Hp _ _ E ch); set_solver).
  destruct (Hk ch Hin) as [c Ec]. pose proof (Ho _ _ Hin Ec) as Ecl. exists c.
  unfold send_one. rewrite Ec, Ecl. eauto.
Qed.

(** In every interleaving a subscriber's channel never holds more than 64 events,
    and what its consumer has read followed by what it still holds is a subsequence of
    the events offered to it: none is duplicated, invented or reordered. *)
Theorem subscriber_stream y ch c :
  bus_reachable y → eb_chans (bus y) !! ch = Some c →
  length (c_queue c) ≤ 64 ∧ consumed y ch ++ c_queue c `sublist_of` offered y ch.
Proof. intros [_ _ _ _ Hc Hf _]%bus_reachable_inv E. split; [by eapply (Hc ch)|by apply Hf]. Qed.

(** ** Witnesses *)

Definition ev_join : Event := mkEvent EventMemberJoin 0 None None 0.

(** One subscriber; a publisher has the mutex and is about to send to it. *)
Definition bus_one : eventBus := Subscribe 0 (mkBus ∅ ∅).
Definition sys_about_to_send : bus_sys :=
  mkBusSys bus_one (Some (ev_join, [0])) ∅ (λ _, []) (λ _, []).

Lemma sys_about_to_send_reachable : bus_reachable sys_about_to_send.
Proof.
  eapply rtc_l; [by apply (bus_subscribe bus_init 0)|].
  eapply rtc_l; [|apply rtc_refl].
  apply (bus_lock (mkBusSys bus_one None ∅ (λ _, []) (λ _, [])) ev_join [0]); [done|].
  unfold visits. vm_compute. reflexivity.
Qed.

Lemma publish_correct_witness :
  ∃ b', publish_loop ev_join [0] bus_one = Some b' ∧ eb_subs b' = eb_subs bus_one.
Proof.
  destruct (publish_correct ev_join [0] bus_one) as (b' & H1 & _ & H2 & _).
  - unfold visits. vm_compute. reflexivity.
  - intros ch c Hin. assert (ch = 0) as -> by set_solver. vm_compute. by intros [= <-].
  - by exists b'.
Defined.

Lemma publish_never_panics_witness :
  ∃ c b', eb_chans bus_one !! 0 = Some c ∧ c_closed c = false ∧ send_one ev_join 0 bus_one = Some b'.
Proof.
  exact (publish_never_panics sys_about_to_send ev_join 0 [] sys_about_to_send_reachable eq_refl).
Defined.

Lemma subscriber_stream_witness :
  length (c_queue (mkChan [] false)) ≤ 64 ∧ [] ++ [] `sublist_of` ([] : list Event).
Proof.
  exact (subscriber_stream sys_about_to_send 0 (mkChan [] false) sys_about_to_send_reachable eq_refl).
Defined.
