(* ===== verification/JsonPrefix.v ===== *)
(** * Cut JSON texts

    What the JSON parser of [Json] makes of a text that was cut: it reads a value the same
    way whatever follows it, so a proper part of a printed object never decodes.  The gossip
    adapter cuts metadata that exceeds the limit of the library, and a connection may end in
    the middle of a reply. *)
From S2P Require Import Prelude GoStrings Utf8 Json.
From stdpp Require Import options.

(** ** Reading does not depend on what follows *)

Lemma skip_ws_ext l x r l1 : skip_ws l = r :: l1 → skip_ws (l ++ x) = r :: l1 ++ x.
Proof.
  induction l as [|y l IH]; [done|]. cbn [skip_ws app]. destruct (is_ws y); [done|]. by intros [= -> ->].
Qed.

Lemma hex4_ext l x u l' : hex4 l = Some (u, l') → hex4 (l ++ x) = Some (u, l' ++ x).
Proof.
  destruct l as [|a [|b [|c [|d l]]]]; try done. cbn [hex4 app].
  intros (? & -> & (? & -> & (? & -> & (? & -> & [= <- <-])%bind_Some)%bind_Some)%bind_Some)%bind_Some. done.
Qed.

Lemma expect_ext w l x r : expect w l = Some r → expect w (l ++ x) = Some (r ++ x).
Proof.
  revert l. induction w as [|a w IH]; intros [|b l]; cbn [expect app]; try by intros [= <-].
  case_decide; [|done]. apply IH.
Qed.

Lemma span_digits_ext l x d r :
  span_digits l = (d, r) → r ≠ [] → span_digits (l ++ x) = (d, r ++ x).
Proof.
  revert d r. induction l as [|y l IH]; cbn [span_digits app]; intros d r; [by intros [= <- <-]|].
  destruct y; try by intros [= <- <-]. destruct (is_digit a); [|by intros [= <- <-]].
  destruct (span_digits l) as [d' r']. intros [= <- <-] Hr. by rewrite (IH d' r').
Qed.

Lemma digits1_ext l x d r : digits1 l = Some (d, r) → r ≠ [] → digits1 (l ++ x) = Some (d, r ++ x).
Proof.
  unfold digits1. destruct (span_digits l) as [[|a d'] r'] eqn:E; [done|]. intros [= <- <-] Hr.
  by rewrite (span_digits_ext _ _ _ _ E Hr).
Qed.

Lemma suffix_nonempty {A} (r l : list A) : r `suffix_of` l → r ≠ [] → l ≠ [].
Proof. intros [k ->] Hr E. by apply app_nil in E as [_ ?]. Qed.

Lemma scan_int_ext l x d r : scan_int l = Some (d, r) → r ≠ [] → scan_int (l ++ x) = Some (d, r ++ x).
Proof.
  destruct l as [|[a| | | |] l]; try done. cbn [scan_int app]. case_match; [by intros [= <- <-]|].
  apply (digits1_ext (RAscii a :: l)).
Qed.

Lemma scan_frac_ext l x d r : scan_frac l = Some (d, r) → r ≠ [] → scan_frac (l ++ x) = Some (d, r ++ x).
Proof.
  intros H Hr. destruct l as [|[a| | | |] l]; cbn [scan_frac app] in *; simplify_eq; try done.
  destruct (decide (a = "."%char)) as [->|Ha].
  - apply bind_Some in H as ([d' r'] & E & [= <- <-]). by rewrite (digits1_ext _ _ _ _ E Hr).
  - destruct a as [[] [] [] [] [] [] [] []]; simplify_eq; done.
Qed.

Lemma scan_exp_ext l x d r : scan_exp l = Some (d, r) → r ≠ [] → scan_exp (l ++ x) = Some (d, r ++ x).
Proof.
  intros H Hr. destruct l as [|[a| | | |] l]; cbn [scan_exp app] in *; simplify_eq; try done.
  destruct (Ascii.eqb a "e" || Ascii.eqb a "E"); [|by simplify_eq].
  destruct l as [|[b| | | |] l]; cbn [app]; try done.
  destruct (Ascii.eqb b "+" || Ascii.eqb b "-");
    apply bind_Some in H as ([d' r'] & E & [= <- <-]);
    [by rewrite (digits1_ext _ _ _ _ E Hr)|].
  rewrite app_comm_cons. by rewrite (digits1_ext _ _ _ _ E Hr).
Qed.

Lemma scan_unsigned_ext l x d r :
  scan_unsigned l = Some (d, r) → r ≠ [] → scan_unsigned (l ++ x) = Some (d, r ++ x).
Proof.
  unfold scan_unsigned. intros ([i l1] & Hi & ([f l2] & Hf & ([e l3] & He & [= <- <-])%bind_Some)%bind_Some)%bind_Some Hr.
  assert (l2 ≠ []) as H2 by (by eapply suffix_nonempty, Hr; eapply scan_exp_suffix).
  assert (l1 ≠ []) as H1 by (by eapply suffix_nonempty, H2; eapply scan_frac_suffix).
  rewrite (scan_int_ext _ _ _ _ Hi H1). cbn [mbind option_bind]. rewrite (scan_frac_ext _ _ _ _ Hf H2).
  cbn [mbind option_bind]. by rewrite (scan_exp_ext _ _ _ _ He Hr).
Qed.

Lemma scan_number_ext l x d r :
  scan_number l = Some (d, r) → r ≠ [] → scan_number (l ++ x) = Some (d, r ++ x).
Proof.
  intros H Hr. destruct l as [|[a| | | |] l]; try done.
  destruct (decide (a = "-"%char)) as [->|Ha].
  - cbn [scan_number app] in *. apply bind_Some in H as ([d' r'] & E & [= <- <-]).
    by rewrite (scan_unsigned_ext _ _ _ _ E Hr).
  - assert (∀ l', scan_number (RAscii a :: l') = scan_unsigned (RAscii a :: l')) as E.
    { intros l'. by destruct a as [[] [] [] [] [] [] [] []]. }
    cbn [app]. rewrite E in H |- *. by apply (scan_unsigned_ext (RAscii a :: l)).
Qed.

(** The look-ahead for the second half of a surrogate pair stays within the literal. *)
Lemma hex_rune_ext u l x r l' n p :
  hex_rune u l = (r, l') → parse_string n l' = Some p → hex_rune u (l ++ x) = (r, l' ++ x).
Proof.
  unfold hex_rune. case_match; [|by intros [= <- <-]]. intros Hu Hp.
  destruct n as [|n]; [done|]. destruct l as [|[a| | | |] l]; simplify_eq; try done.
  destruct (decide (a = "\"%char)) as [->|Ha].
  2: { cbn [app]. by destruct a as [[] [] [] [] [] [] [] []]; simplify_eq. }
  destruct l as [|[b| | | |] l]; simplify_eq; try done.
  destruct (decide (b = "u"%char)) as [->|Hb].
  2: { cbn [app]. by destruct b as [[] [] [] [] [] [] [] []]; simplify_eq. }
  cbn [app]. destruct (hex4 l) as [[u2 l2]|] eqn:E4.
  - rewrite (hex4_ext _ _ _ _ E4). by case_match; simplify_eq.
  - simplify_eq. exfalso. change (parse_string (S n) (RAscii "\" :: RAscii "u" :: ?l)) with
      ('(u, l3) ← hex4 l; let '(r, l4) := hex_rune u l3 in
       '(s, rest) ← parse_string n l4; Some (rune_bytes r +:+ s, rest)) in Hp. by rewrite E4 in Hp.
Qed.

Lemma parse_string_ext n m l x s r :
  parse_string n l = Some (s, r) → n ≤ m → parse_string m (l ++ x) = Some (s, r ++ x).
Proof.
  revert m l s r. induction n as [|n IH]; intros [|m] l s r H Hm; try done; [lia|].
  assert (∀ l1 (f : string → string) s1 r1,
    ('(s, rest) ← parse_string n l1; Some (f s, rest)) = Some (s1, r1) →
    ('(s, rest) ← parse_string m (l1 ++ x); Some (f s, rest)) = Some (s1, r1 ++ x)) as Hk.
  { intros l1 f s1 r1 ([s2 r2] & E & [= <- <-])%bind_Some. by rewrite (IH m l1 s2 r2 E ltac:(lia)). }
  destruct l as [|[a| | | |] l]; cbn [parse_string app] in *; try done; try by apply Hk.
  case_match; [by simplify_eq|]. case_match; [|case_match; [done|]; by apply Hk].
  destruct l as [|[b| | | |] l]; cbn [app] in *; try done.
  case_match; [|apply bind_Some in H as (c & -> & H); by apply (Hk l (String c))].
  apply bind_Some in H as ([u l3] & E & H). rewrite (hex4_ext _ _ _ _ E). cbn [mbind option_bind].
  destruct (hex_rune u l3) as [rn l4] eqn:Er. destruct (parse_string n l4) as [p|] eqn:Ep; [|done].
  rewrite (hex_rune_ext _ _ x _ _ _ _ Er Ep). apply (Hk l4 (λ s, rune_bytes rn +:+ s)). by rewrite Ep.
Qed.

Lemma parse_literal_ext l x s r :
  parse_string (length l) l = Some (s, r) →
  parse_string (length (l ++ x)) (l ++ x) = Some (s, r ++ x).
Proof. intros E. eapply parse_string_ext; [exact E|]. rewrite length_app. lia. Qed.

(** ** Values *)

(** The end of a number is seen only by what follows it; every other value ends itself. *)
Definition ends_itself (v : json) : bool := match v with JNum _ => false | _ => true end.

Definition reads_ext (n : nat) : Prop :=
  ∀ d l x,
  (∀ v r, parse_value n d l = Some (v, r) → r ≠ [] ∨ ends_itself v = true →
    parse_value n d (l ++ x) = Some (v, r ++ x)) ∧
  (∀ vs r, parse_elems n d l = Some (vs, r) → parse_elems n d (l ++ x) = Some (vs, r ++ x)) ∧
  (∀ vs r, parse_members n d l = Some (vs, r) → parse_members n d (l ++ x) = Some (vs, r ++ x)).

Lemma skip_ws_nonempty l r l1 : skip_ws l = r :: l1 → l ≠ [].
Proof. by destruct l. Qed.


Lemma elems_ext n : reads_ext n → ∀ d l x vs r,
  parse_elems (S n) d l = Some (vs, r) → parse_elems (S n) d (l ++ x) = Some (vs, r ++ x).
Proof.
  intros IH d l x vs r. rewrite !parse_elems_S. intros ([v l1] & Ev & H)%bind_Some.
  destruct (skip_ws l1) as [|y l2] eqn:Ews; [done|].
  rewrite (proj1 (IH d l x) v l1 Ev) by (left; by eapply skip_ws_nonempty). cbn [mbind option_bind].
  rewrite (skip_ws_ext _ _ _ _ Ews). destruct y as [a| | | |]; try done.
  destruct a as [[] [] [] [] [] [] [] []]; try done; [by simplify_eq|].
  apply bind_Some in H as ([vs' r'] & E & [= <- <-]).
  by rewrite (proj1 (proj2 (IH d l2 x)) vs' r' E).
Qed.

(** What follows a value in an object. *)
Definition after_member (n : nat) (d : Z) (k : string) (v : json) (l4 : list rune)
    : option (list (string * json) * list rune) :=
  match skip_ws l4 with
  | RAscii "," :: l5 => '(vs, r) ← parse_members n d l5; Some ((k, v) :: vs, r)
  | RAscii "}" :: r => Some ([(k, v)], r)
  | _ => None
  end.

(** The value of a key. *)
Definition member_value (n : nat) (d : Z) (k : string) (l2 : list rune)
    : option (list (string * json) * list rune) :=
  match skip_ws l2 with
  | RAscii ":" :: l3 => '(v, l4) ← parse_value n d l3; after_member n d k v l4
  | _ => None
  end.

Lemma parse_members_S n d l :
  parse_members (S n) d l =
  match skip_ws l with
  | RAscii "034" :: l1 => '(k, l2) ← parse_string (length l1) l1; member_value n d k l2
  | _ => None
  end.
Proof. done. Qed.

Lemma after_member_ext n d k v l x vs r : reads_ext n →
  after_member n d k v l = Some (vs, r) → after_member n d k v (l ++ x) = Some (vs, r ++ x).
Proof.
  intros IH. unfold after_member. destruct (skip_ws l) as [|y l2] eqn:Ews; [done|].
  rewrite (skip_ws_ext _ _ _ _ Ews). intros H. destruct y as [a| | | |]; try done.
  destruct a as [[] [] [] [] [] [] [] []]; try done; [by simplify_eq|].
  apply bind_Some in H as ([vs' r'] & E & [= <- <-]).
  by rewrite (proj2 (proj2 (IH d l2 x)) vs' r' E).
Qed.

Lemma member_value_ext n d k l x vs r : reads_ext n →
  member_value n d k l = Some (vs, r) → member_value n d k (l ++ x) = Some (vs, r ++ x).
Proof.
  intros IH. unfold member_value. destruct (skip_ws l) as [|y l3] eqn:Ews; [done|].
  rewrite (skip_ws_ext _ _ _ _ Ews). intros H. destruct y as [a| | | |]; try done.
  destruct a as [[] [] [] [] [] [] [] []]; try done.
  apply bind_Some in H as ([v l4] & Ev & H).
  rewrite (proj1 (IH d l3 x) v l4 Ev); [by apply after_member_ext|].
  left. intros ->. done.
Qed.

Lemma members_ext n : reads_ext n → ∀ d l x vs r,
  parse_members (S n) d l = Some (vs, r) → parse_members (S n) d (l ++ x) = Some (vs, r ++ x).
Proof.
  intros IH d l x vs r. rewrite !parse_members_S. destruct (skip_ws l) as [|y l1] eqn:Ews; [done|].
  rewrite (skip_ws_ext _ _ _ _ Ews). intros H. destruct y as [a| | | |]; try done.
  destruct a as [[] [] [] [] [] [] [] []]; try done.
  apply bind_Some in H as ([k l2] & Ek & H). rewrite (parse_literal_ext _ _ _ _ Ek).
  by apply member_value_ext.
Qed.

Lemma elems_blank n d l : skip_ws l = [] → parse_elems n d l = None.
Proof.
  intros E. destruct n as [|[|n]]; [done..|]. rewrite parse_elems_S. cbn [parse_value]. by rewrite E.
Qed.

Lemma members_blank n d l : skip_ws l = [] → parse_members n d l = None.
Proof. intros E. destruct n as [|n]; [done|]. rewrite parse_members_S. by rewrite E. Qed.

(** Arrays and objects after their opening bracket. *)
Definition array_body (n : nat) (d : Z) (l1 : list rune) : option (json * list rune) :=
  match skip_ws l1 with
  | RAscii "]" :: r => Some (JArr [], r)
  | _ => '(vs, r) ← parse_elems n (d + 1) l1; Some (JArr vs, r)
  end.

Definition object_body (n : nat) (d : Z) (l1 : list rune) : option (json * list rune) :=
  match skip_ws l1 with
  | RAscii "}" :: r => Some (JObj [], r)
  | _ => '(vs, r) ← parse_members n (d + 1) l1; Some (JObj vs, r)
  end.

Lemma array_body_ext n d l x v r : reads_ext n →
  array_body n d l = Some (v, r) → array_body n d (l ++ x) = Some (v, r ++ x).
Proof.
  intros IH H. unfold array_body in *. destruct (skip_ws l) as [|y l2] eqn:Ews.
  { by rewrite elems_blank in H. }
  rewrite (skip_ws_ext _ _ _ _ Ews).
  assert (('(vs, r) ← parse_elems n (d + 1) l; Some (JArr vs, r)) = Some (v, r) →
    ('(vs, r) ← parse_elems n (d + 1) (l ++ x); Some (JArr vs, r)) = Some (v, r ++ x)) as Hk.
  { intros ([vs r'] & E & [= <- <-])%bind_Some. by rewrite (proj1 (proj2 (IH (d + 1)%Z l x)) vs r' E). }
  destruct y as [a| | | |]; try by apply Hk.
  destruct a as [[] [] [] [] [] [] [] []]; try by apply Hk. by simplify_eq.
Qed.

Lemma object_body_ext n d l x v r : reads_ext n →
  object_body n d l = Some (v, r) → object_body n d (l ++ x) = Some (v, r ++ x).
Proof.
  intros IH H. unfold object_body in *. destruct (skip_ws l) as [|y l2] eqn:Ews.
  { by rewrite members_blank in H. }
  rewrite (skip_ws_ext _ _ _ _ Ews).
  assert (('(vs, r) ← parse_members n (d + 1) l; Some (JObj vs, r)) = Some (v, r) →
    ('(vs, r) ← parse_members n (d + 1) (l ++ x); Some (JObj vs, r)) = Some (v, r ++ x)) as Hk.
  { intros ([vs r'] & E & [= <- <-])%bind_Some. by rewrite (proj2 (proj2 (IH (d + 1)%Z l x)) vs r' E). }
  destruct y as [a| | | |]; try by apply Hk.
  destruct a as [[] [] [] [] [] [] [] []]; try by apply Hk. by simplify_eq.
Qed.

Lemma parse_value_S n d l :
  parse_value (S n) d l =
  match skip_ws l with
  | RAscii a :: l1 =>
      if Ascii.eqb a "034" then '(s, r) ← parse_string (length l1) l1; Some (JStr s, r)
      else if Ascii.eqb a "[" then if (max_depth <=? d)%Z then None else array_body n d l1
      else if Ascii.eqb a "{" then if (max_depth <=? d)%Z then None else object_body n d l1
      else if Ascii.eqb a "n" then r ← expect (ascii_runes "null") (RAscii a :: l1); Some (JNull, r)
      else if Ascii.eqb a "t" then r ← expect (ascii_runes "true") (RAscii a :: l1); Some (JBool true, r)
      else if Ascii.eqb a "f" then r ← expect (ascii_runes "false") (RAscii a :: l1); Some (JBool false, r)
      else '(lit, r) ← scan_number (RAscii a :: l1); Some (JNum lit, r)
  | _ => None
  end.
Proof. cbn [parse_value]. by destruct (skip_ws l) as [|[] ?]. Qed.

Lemma value_ext n : reads_ext n → ∀ d l x v r,
  parse_value (S n) d l = Some (v, r) → r ≠ [] ∨ ends_itself v = true →
  parse_value (S n) d (l ++ x) = Some (v, r ++ x).
Proof.
  intros IH d l x v r. rewrite !parse_value_S. destruct (skip_ws l) as [|y l1] eqn:Ews; [done|].
  rewrite (skip_ws_ext _ _ _ _ Ews). intros H Hend. destruct y as [a| | | |]; try done.
  case_match.
  { apply bind_Some in H as ([s r'] & E & [= <- <-]). by rewrite (parse_literal_ext _ _ _ _ E). }
  case_match; [case_match; [done|by apply array_body_ext]|].
  case_match; [case_match; [done|by apply object_body_ext]|].
  do 3 (case_match; [apply bind_Some in H as (r' & E & [= <- <-]); by rewrite app_comm_cons, (expect_ext _ _ _ _ E)|]).
  apply bind_Some in H as ([d' r'] & E & [= <- <-]). destruct Hend as [Hr|?]; [|done].
  by rewrite app_comm_cons, (scan_number_ext _ _ _ _ E Hr).
Qed.

Lemma reads_ext_all n : reads_ext n.
Proof.
  induction n as [|n IH]; intros d l x; [by split_and!|].
  split_and!; eauto using value_ext, elems_ext, members_ext.
Qed.

(** ** Cut texts *)

Definition is_bad (r : rune) : bool := match r with RBad _ => true | _ => false end.

(** The bytes of a rune that was cut are invalid. *)
Lemma rune_cut r p x :
  rune_ok r = true → p +:+ x = rune_bytes r → x ≠ EmptyString → forallb is_bad (runes p) = true.
Proof.
  intros Hr E Hx.
  assert (∀ a lo hi, in_range a lo hi = true → (127 < lo)%Z → is_ascii a = false) as Hna by apply is_ascii_false.
  assert (∀ a b lo hi, in_range a lo hi = true → (hi < 194 ∨ 223 < lo)%Z → ok2 a b = false) as Hn2.
  { intros a b lo hi. unfold ok2, in_range. lia. }
  destruct r as [a|a b|a b c|a b c d|a]; cbn [rune_ok rune_bytes] in *; [| | | |done].
  - destruct p as [|a' p]; [done|]. rewrite app_String in E. injection E as -> E. by destruct p, x.
  - apply ok2_lead in Hr.
    destruct p as [|a' [|b' p]]; [done|..]; rewrite !app_String in E; injection E; intros; simplify_eq.
    + cbn [runes]. by rewrite (Hna _ _ _ Hr).
    + by destruct p, x.
  - pose proof (ok3_lead _ _ _ Hr) as Ha. assert (in_range b 128 191 = true) as Hb.
    { unfold ok3, is_cont, in_range in *. lia. }
    destruct p as [|a' [|b' [|c' p]]]; [done|..]; rewrite !app_String in E; injection E; intros; simplify_eq.
    + cbn [runes]. by rewrite (Hna _ _ _ Ha).
    + cbn [runes]. by rewrite (Hna _ _ _ Ha), (Hna _ _ _ Hb), (Hn2 _ _ _ _ Ha) by lia.
    + by destruct p, x.
  - pose proof (ok4_lead _ _ _ _ Hr) as Ha. assert (in_range b 128 191 = true ∧ in_range c 128 191 = true) as [Hb Hc].
    { unfold ok4, is_cont, in_range in *. lia. }
    destruct p as [|a' [|b' [|c' [|d' p]]]]; [done|..]; rewrite !app_String in E; injection E; intros; simplify_eq.
    + cbn [runes]. by rewrite (Hna _ _ _ Ha).
    + cbn [runes]. by rewrite (Hna _ _ _ Ha), (Hna _ _ _ Hb), (Hn2 _ _ _ _ Ha) by lia.
    + cbn [runes]. rewrite (Hna _ _ _ Ha), (Hna _ _ _ Hb), (Hna _ _ _ Hc), (Hn2 _ _ _ _ Ha), (Hn2 _ _ _ _ Hb) by lia.
      by rewrite (ok3_false _ _ _ _ _ Ha).
    + by destruct p, x.
Qed.

Lemma str_app_cases (p x r s : string) :
  p +:+ x = r +:+ s →
  (∃ p', p = r +:+ p' ∧ p' +:+ x = s) ∨ (∃ y, y ≠ EmptyString ∧ p +:+ y = r).
Proof.
  revert r. induction p as [|a p IH]; intros r E.
  - destruct r as [|b r]; [left; by exists EmptyString|right; by exists (String b r)].
  - destruct r as [|b r]; [left; by exists (String a p)|]. rewrite !app_String in E. injection E as -> E.
    destruct (IH r E) as [(p' & -> & E')|(y & Hy & <-)]; [left; by exists p'|right; by exists y].
Qed.

(** A proper part of a valid text: some of its runes, then invalid bytes if one was cut. *)
Lemma runes_cut L p x :
  forallb rune_ok L = true → p +:+ x = unrunes L → x ≠ EmptyString →
  ∃ K M bad, L = K ++ M ∧ M ≠ [] ∧ runes p = K ++ bad ∧ forallb is_bad bad = true.
Proof.
  revert p. induction L as [|r L IH]; intros p HL E Hx.
  - by destruct p, x.
  - cbn [forallb unrunes] in *. apply andb_prop in HL as [Hr HL].
    destruct (str_app_cases _ _ _ _ E) as [(p' & -> & E')|(y & Hy & E')].
    + destruct (IH p' HL E' Hx) as (K & M & bad & -> & HM & Ep & Hbad).
      exists (r :: K), M, bad. split_and!; [done|done| |done]. by rewrite runes_cons, Ep.
    + exists [], (r :: L), (runes p). split_and!; [done..|]. by eapply rune_cut.
Qed.

(** The last rune that was read of an object is its closing bracket. *)
Lemma members_end n d l vs r :
  Forall (λ r, rune_fine r = true) l → parse_members n d l = Some (vs, r) →
  ∃ w, l = w ++ RAscii "}" :: r.
Proof.
  revert l vs r. induction n as [|n IH]; intros l vs r Hl; [done|]. rewrite parse_members_S.
  destruct (skip_ws l) as [|y l1] eqn:Ews; [done|]. apply suffix_skip in Ews as S1. intros H.
  destruct y as [a| | | |]; try done. destruct a as [[] [] [] [] [] [] [] []]; try done.
  apply bind_Some in H as ([k l2] & Ek & H). apply parse_string_suffix in Ek as S2.
  unfold member_value in H. destruct (skip_ws l2) as [|y l3] eqn:Ews2; [done|]. apply suffix_skip in Ews2 as S3.
  destruct y as [a| | | |]; try done. destruct a as [[] [] [] [] [] [] [] []]; try done.
  apply bind_Some in H as ([v l4] & Ev & H).
  assert (l3 `suffix_of` l) as S3' by (etrans; [exact S3|]; etrans; [exact S2|exact S1]).
  apply (proj1 (reads_valid_all n)) in Ev as [_ S4]; [|by eapply fine_suffix].
  assert (l4 `suffix_of` l) as S4' by (etrans; [exact S4|exact S3']).
  unfold after_member in H. destruct (skip_ws l4) as [|y l5] eqn:Ews4; [done|].
  assert (y :: l5 `suffix_of` l) as S5 by (rewrite <-Ews4; etrans; [apply skip_ws_suffix|exact S4']).
  destruct y as [a| | | |]; try done. destruct a as [[] [] [] [] [] [] [] []]; try done.
  - simplify_eq. destruct S5 as [w ->]. by exists w.
  - apply bind_Some in H as ([vs' r'] & E & [= <- <-]). apply suffix_cons_l in S5.
    apply IH in E as [w ->]; [|by eapply fine_suffix]. destruct S5 as [w' ->]. exists (w' ++ w). by rewrite app_assoc.
Qed.

Lemma object_end n d l v r :
  Forall (λ r, rune_fine r = true) l → object_body n d l = Some (v, r) →
  (∃ vs, v = JObj vs) ∧ ∃ w, l = w ++ RAscii "}" :: r.
Proof.
  intros Hl H. unfold object_body in H.
  assert (('(vs, r) ← parse_members n (d + 1) l; Some (JObj vs, r)) = Some (v, r) →
    (∃ vs, v = JObj vs) ∧ ∃ w, l = w ++ RAscii "}" :: r) as Hk.
  { intros ([vs r'] & E & [= <- <-])%bind_Some. split; [by eexists|]. by eapply members_end. }
  destruct (skip_ws l) as [|[a| | | |] l2] eqn:Ews; try by apply Hk.
  destruct (decide (a = "}"%char)) as [->|Ha].
  - simplify_eq. split; [by eexists|]. destruct (skip_ws_suffix l) as [w E]. rewrite Ews in E. by exists w.
  - apply Hk. by destruct a as [[] [] [] [] [] [] [] []].
Qed.

Lemma skip_ws_all l : skip_ws l = [] → forallb is_ws l = true.
Proof. induction l as [|r l IH]; [done|]. cbn [skip_ws forallb]. by destruct (is_ws r). Qed.

(** A complete object that is followed by nothing but white space does not end in an invalid
    byte. *)
Lemma object_no_bad_end (w r K bad : list rune) :
  forallb is_ws r = true → forallb is_bad bad = true → w ++ RAscii "}" :: r = K ++ bad → bad = [].
Proof.
  intros Hr Hb E. destruct bad as [|b bad _] using rev_ind; [done|]. exfalso.
  rewrite forallb_app in Hb. apply andb_prop in Hb as [_ Hb]. cbn [forallb] in Hb. rewrite app_assoc in E.
  destruct r as [|y r _] using rev_ind.
  - apply app_inj_tail in E as [_ <-]. done.
  - rewrite forallb_app in Hr. apply andb_prop in Hr as [_ Hy]. cbn [forallb] in Hy.
    rewrite app_comm_cons, app_assoc in E. apply app_inj_tail in E as [_ ->]. by destruct b.
Qed.

(** A proper part of a printed object does not decode. *)
Lemma object_prefix_undecodable m p x :
  jnums (JObj m) = true → (jdepth (JObj m) ≤ max_depth)%Z →
  print_json (JObj m) = p +:+ x → x ≠ EmptyString → parse_json p = None.
Proof.
  intros Hn Hd E Hx. pose proof (print_runes_ok _ Hn) as Hok.
  destruct (runes_cut _ p x Hok (eq_sym E) Hx) as (K & M & bad & EL & HM & Ep & Hbad).
  destruct (parse_json p) as [v|] eqn:Hp; [exfalso|done]. unfold parse_json in Hp.
  apply bind_Some in Hp as ([v' r] & Hdec & Hr). destruct (skip_ws r) eqn:Er; [|done]. clear Hr.
  apply skip_ws_all in Er. assert (Forall (λ r, rune_fine r = true) (runes p)) as Hf.
  { apply Forall_forall. intros y Hy. by eapply runes_elem. }
  assert (∃ K', K = RAscii "{" :: K') as [K' ->].
  { destruct K as [|y K']; [|exists K'; cbn in EL; by injection EL as <- _]. exfalso.
    unfold decode_first in Hdec. rewrite Ep in Hdec. by destruct bad as [|[] bad]. }
  assert (bad = []) as ->.
  { unfold decode_first in Hdec. rewrite Ep in Hdec, Hf. cbn [app] in Hdec, Hf. apply Forall_cons in Hf as [_ Hf].
    change (2 * S ?n) with (S (n + S (n + 0))) in Hdec. rewrite parse_value_S in Hdec. cbn in Hdec.
    apply object_end in Hdec as [_ [w Ew]]; [|done]. by eapply object_no_bad_end. }
  rewrite app_nil_r in Ep. set (n := 2 * S (length (print_runes (JObj m)))).
  assert (length (runes p) ≤ length (print_runes (JObj m))) by (rewrite EL, Ep, length_app; lia).
  rewrite <-(decode_first_fuel p n), Ep in Hdec by lia.
  assert (ends_itself v' = true) as Hv.
  { destruct v'; try done. exfalso. revert Hdec. unfold n. rewrite Ep in Hf. apply Forall_cons in Hf as [_ Hf].
    change (2 * S ?n) with (S (n + S (n + 0))). rewrite parse_value_S. cbn.
    intros Hdec. apply object_end in Hdec as [[? ?] _]; done. }
  pose proof (proj1 (reads_ext_all n 0%Z _ M) v' r Hdec (or_intror Hv)) as H1. rewrite <-EL in H1.
  pose proof (value_reads_back (JObj m) n 0%Z [] Hn ltac:(lia) ltac:(unfold n; lia) ltac:(done)) as H2.
  rewrite app_nil_r in H2. rewrite H2 in H1. injection H1 as _ H1. by destruct r, M.
Qed.
