(* ===== verification/Logging.v ===== *)
(** * Logging

    [pkg/internal/logutil/logutil.go] over a model of the parts of [fmt] and [log] it uses,
    and the lines the facade logs through it.  Every [Output] of a logger is one write to the
    logger's writer; what is written is recorded per writer. *)
From S2P Require Import Prelude GoStrings Utf8 Json JsonPrefix.
From stdpp Require Import options.

Definition nl : ascii := "010".

(** ** Formatting *)

(** The operands the callers pass: strings, 64-bit numbers, string slices, errors. *)
Inductive arg : Type :=
  | AStr (s : string)
  | AUint (n : Z)
  | AStrs (l : list string)
  | AErr (e : string).

Fixpoint join_with (sep : string) (l : list string) : string :=
  match l with
  | [] => EmptyString
  | [s] => s
  | s :: l' => s +:+ (sep +:+ join_with sep l')
  end.

(** An operand under the verbs [%s], [%d] and [%v] without flags; [None] for what is not
    modelled.  An operand that does not fit the verb is printed with its type. *)
Definition fmt_arg (verb : ascii) (a : arg) : option string :=
  match a with
  | AStr s =>
      if decide (verb = "s"%char ∨ verb = "v"%char) then Some s
      else if decide (verb = "d"%char) then Some ("%!d(string=" +:+ (s +:+ ")")) else None
  | AUint n =>
      if decide (verb = "d"%char ∨ verb = "v"%char) then Some (FormatUint n)
      else if decide (verb = "s"%char) then Some ("%!s(uint64=" +:+ (FormatUint n +:+ ")")) else None
  | AStrs l =>
      if decide (verb = "s"%char ∨ verb = "v"%char) then Some ("[" +:+ (join_with " " l +:+ "]")) else None
  | AErr e => if decide (verb = "s"%char ∨ verb = "v"%char) then Some e else None
  end.

(** [fmt.Sprintf]; [None] when the format uses what is not modelled: other verbs, flags,
    fewer or more operands than verbs. *)
Fixpoint Sprintf (f : string) (args : list arg) : option string :=
  match f with
  | EmptyString => match args with [] => Some EmptyString | _ => None end
  | String c f' =>
      if decide (c = "%"%char) then
        match f' with
        | EmptyString => None
        | String v f'' =>
            if decide (v = "%"%char) then String "%" <$> Sprintf f'' args
            else match args with
                 | [] => None
                 | a :: args' => s ← fmt_arg v a; (λ r, s +:+ r) <$> Sprintf f'' args'
                 end
        end
      else String c <$> Sprintf f' args
  end.

(** ** Times *)

(** A time in some zone, and a reading of the clock in the local zone and in UTC. *)
Record civil := mkCivil {
  year : Z; month : Z; day : Z; hour : Z; minute : Z; second : Z; nanosecond : Z;
}.
Record instant := mkInstant { local : civil; utc : civil }.

(** [itoa] of [log], [appendInt] of [time]: decimal with zeros in front up to a width. *)
Fixpoint zeros (n : nat) (s : string) : string :=
  match n with 0 => s | S n' => String "0" (zeros n' s) end.
Definition itoa (n : Z) (width : nat) : string :=
  let s := FormatUint n in zeros (width - String.length s) s.

(** Without the zeros at its end. *)
Fixpoint trim_zeros (s : string) : string :=
  match s with
  | EmptyString => EmptyString
  | String a s' =>
      match trim_zeros s' with
      | EmptyString => if decide (a = "0"%char) then EmptyString else String a EmptyString
      | t => String a t
      end
  end.

(** [Format(time.RFC3339Nano)] of a time in UTC. *)
Definition RFC3339Nano (t : civil) : string :=
  itoa (year t) 4 +:+ ("-" +:+ (itoa (month t) 2 +:+ ("-" +:+ (itoa (day t) 2 +:+ ("T" +:+
  (itoa (hour t) 2 +:+ (":" +:+ (itoa (minute t) 2 +:+ (":" +:+ (itoa (second t) 2 +:+
  ((let frac := trim_zeros (itoa (nanosecond t) 9) in
    if decide (frac = EmptyString) then EmptyString else String "." frac) +:+ "Z"))))))))))).

(** ** [log.Logger] *)

Record logger := mkLogger { lg_out : nat; lg_prefix : string; lg_flags : Z }.

Definition Ldate : Z := 0.
Definition Ltime : Z := 1.
Definition Lmicroseconds : Z := 2.
Definition Llongfile : Z := 3.
Definition Lshortfile : Z := 4.
Definition LUTC : Z := 5.
Definition Lmsgprefix : Z := 6.

(** The bit of a flag; [log.LstdFlags] is the date and the time. *)
Definition has_flag (l : logger) (bit : Z) : bool := Z.testbit (lg_flags l) bit.
Definition LstdFlags : Z := 3.

(** [formatHeader]; [file] is the path of the calling file and [line] the line in it. *)
Definition formatHeader (l : logger) (now : instant) (file : string) (line : Z) : string :=
  let t := if has_flag l LUTC then utc now else local now in
  (if has_flag l Lmsgprefix then EmptyString else lg_prefix l) +:+
  ((if has_flag l Ldate
    then itoa (year t) 4 +:+ ("/" +:+ (itoa (month t) 2 +:+ ("/" +:+ (itoa (day t) 2 +:+ " "))))
    else EmptyString) +:+
  ((if has_flag l Ltime || has_flag l Lmicroseconds
    then itoa (hour t) 2 +:+ (":" +:+ (itoa (minute t) 2 +:+ (":" +:+ (itoa (second t) 2 +:+
      ((if has_flag l Lmicroseconds then "." +:+ itoa (nanosecond t / 1000) 6 else EmptyString) +:+ " ")))))
    else EmptyString) +:+
  ((if has_flag l Lshortfile || has_flag l Llongfile
    then (if has_flag l Lshortfile
          then default file ((λ i, str_drop (S i) file) <$> LastIndexByte file "/") else file) +:+
      (":" +:+ (FormatUint line +:+ ": "))
    else EmptyString) +:+
  (if has_flag l Lmsgprefix then lg_prefix l else EmptyString)))).

(** A newline is added when what is to be written does not end in one. *)
Definition ends_nl (s : string) : bool := HasSuffix s (String nl EmptyString).
Definition Output (l : logger) (now : instant) (file : string) (line : Z) (s : string) : bytes :=
  let b := formatHeader l now file line +:+ s in
  b +:+ (if ends_nl b then EmptyString else String nl EmptyString).

(** ** [logutil] *)

(** The package's variable, the default logger of [log], and what was written to each writer. *)
Record logging := mkLogging {
  jsonMode : bool;
  log_Default : logger;
  written : gmap nat bytes;
}.

(** [init] from the environment, where an unset variable is empty. *)
Definition log_init (Getenv : string → string) (d : logger) : logging :=
  mkLogging (bool_decide (Getenv "CLUSTER_LOG_JSON" = "1") || bool_decide (Getenv "CLUSTER_LOG_FORMAT" = "json")) d ∅.

Definition SetJSON (enabled : bool) (st : logging) : logging :=
  mkLogging enabled (log_Default st) (written st).

Definition write_to (w : nat) (b : bytes) (st : logging) : logging :=
  mkLogging (jsonMode st) (log_Default st) (<[w := default EmptyString (written st !! w) +:+ b]> (written st)).

Definition logger_of (l : option logger) (st : logging) : logger := default (log_Default st) l.

(** [prefix]: the same writer and flags under another prefix. *)
Definition prefix (l : option logger) (p : string) (st : logging) : logger :=
  let l' := logger_of l st in mkLogger (lg_out l') p (lg_flags l').

Inductive level : Type := Info | Warn | Error.
Definition level_name (v : level) : string :=
  match v with Info => "info" | Warn => "warn" | Error => "error" end.

(** The structure of a JSON line; [json.Marshal] sorts the keys of a map. *)
Definition log_event (v : level) (msg : string) (t : instant) : json :=
  JObj [("level", JStr (level_name v)); ("msg", JStr msg); ("ts", JStr (RFC3339Nano (utc t)))].

Section logf.
  Context (file : string).  (** the path of [logutil.go] *)

(** [logf]: [t] is the time it reads itself, [now] the one the logger reads. *)
Definition logf (t now : instant) (l : option logger) (v : level) (f : string) (args : list arg) (st : logging)
    : option logging :=
  msg ← Sprintf f args;
  Some (if jsonMode st then
          let l' := logger_of l st in
          write_to (lg_out l') (Output l' now file 42 (print_json (log_event v msg t) +:+ String nl EmptyString)) st
        else
          match v with
          | Info => let l' := prefix l "INFO " st in write_to (lg_out l') (Output l' now file 47 msg) st
          | Warn => let l' := prefix l "WARN " st in write_to (lg_out l') (Output l' now file 49 msg) st
          | Error => let l' := prefix l "ERROR " st in write_to (lg_out l') (Output l' now file 51 msg) st
          end).

Definition Infof t now l f args st := logf t now l Info f args st.
Definition Warnf t now l f args st := logf t now l Warn f args st.
Definition Errorf t now l f args st := logf t now l Error f args st.

End logf.

(** ** What the facade logs *)

Inductive logLine : Type :=
  | LJoiningSeeds (seeds : list string)
  | LLeaderChange (id : string) (term : Z)
  | LListening (addr : string)
  | LJoinRejected (id : string)
  | LAddVoterFailed (id addr err : string)
  | LJoinAccepted (id addr : string)
  | LRemoveVoterFailed (id err : string)
  | LRemovedVoter (id : string)
  | LLeaveRejected (id : string)
  | LLeaveAccepted (id : string).

(** The call of [logutil] that logs it. *)
Definition line_call (x : logLine) : level * string * list arg :=
  match x with
  | LJoiningSeeds seeds => (Info, "joining membership seeds: %v", [AStrs seeds])
  | LLeaderChange id term => (Info, "leader change observed: id=%s term=%d", [AStr id; AUint term])
  | LListening addr => (Info, "management endpoint listening at %s (status/metrics/healthz)", [AStr addr])
  | LJoinRejected id => (Warn, "join rejected (not leader): id=%s", [AStr id])
  | LAddVoterFailed id addr err => (Error, "add voter failed: id=%s addr=%s err=%v", [AStr id; AStr addr; AErr err])
  | LJoinAccepted id addr => (Info, "join accepted: id=%s addr=%s", [AStr id; AStr addr])
  | LRemoveVoterFailed id err => (Warn, "remove voter failed: id=%s err=%v", [AStr id; AErr err])
  | LRemovedVoter id => (Info, "removed voter: id=%s", [AStr id])
  | LLeaveRejected id => (Warn, "leave rejected (not leader): id=%s", [AStr id])
  | LLeaveAccepted id => (Info, "leave accepted: id=%s", [AStr id])
  end.

(** A sequence of lines, each with the times at which it is logged. *)
Fixpoint log_lines (file : string) (l : option logger) (xs : list (instant * instant * logLine)) (st : logging)
    : option logging :=
  match xs with
  | [] => Some st
  | (t, now, x) :: xs' =>
      let '(v, f, args) := line_call x in
      st' ← logf file t now l v f args st; log_lines file l xs' st'
  end.

(** The texts, as a reader expects them. *)
Definition line_text (x : logLine) : string :=
  match x with
  | LJoiningSeeds seeds => "joining membership seeds: [" +:+ (join_with " " seeds +:+ "]")
  | LLeaderChange id term => "leader change observed: id=" +:+ (id +:+ (" term=" +:+ FormatUint term))
  | LListening addr => "management endpoint listening at " +:+ (addr +:+ " (status/metrics/healthz)")
  | LJoinRejected id => "join rejected (not leader): id=" +:+ id
  | LAddVoterFailed id addr err => "add voter failed: id=" +:+ (id +:+ (" addr=" +:+ (addr +:+ (" err=" +:+ err))))
  | LJoinAccepted id addr => "join accepted: id=" +:+ (id +:+ (" addr=" +:+ addr))
  | LRemoveVoterFailed id err => "remove voter failed: id=" +:+ (id +:+ (" err=" +:+ err))
  | LRemovedVoter id => "removed voter: id=" +:+ id
  | LLeaveRejected id => "leave rejected (not leader): id=" +:+ id
  | LLeaveAccepted id => "leave accepted: id=" +:+ id
  end.

Definition line_level (x : logLine) : level := (line_call x).1.1.

(** The formats fit their operands. *)
Lemma line_call_text x : Sprintf (line_call x).1.2 (line_call x).2 = Some (line_text x).
Proof.
  destruct x; lazy -[FormatUint join_with String.append]; cbn [String.append]; by rewrite ?str_app_nil_r.
Qed.

(** ** JSON lines *)

Definition rune_no_nl (r : rune) : bool := negb (has_byte nl (rune_bytes r)).

Lemma unrunes_no_nl l : forallb rune_no_nl l = true → has_byte nl (unrunes l) = false.
Proof.
  induction l as [|r l IH]; [done|]. cbn [forallb unrunes]. intros [Hr%negb_true_iff Hl]%andb_prop.
  by rewrite has_byte_app, Hr, IH.
Qed.

Lemma high_byte_not_nl a lo hi : in_range a lo hi = true → (127 < lo)%Z → bool_decide (a = nl) = false.
Proof. intros Ha Hlo. apply bool_decide_eq_false. intros ->. unfold in_range in Ha. change (code nl) with 10%Z in Ha. lia. Qed.

Lemma rune_ok_no_nl r : rune_ok r = true → r ≠ RAscii nl → rune_no_nl r = true.
Proof.
  destruct r as [a|a b|a b c|a b c d|a]; cbn [rune_ok rune_no_nl rune_bytes]; intros Hr Hn; [| | | |done];
    apply negb_true_iff; cbn [rune_bytes has_byte].
  - rewrite bool_decide_eq_false_2; [done|congruence].
  - apply andb_prop in Hr as [Ha Hb]. unfold is_cont in Hb.
    by rewrite (high_byte_not_nl a _ _ Ha), (high_byte_not_nl b _ _ Hb).
  - pose proof (ok3_lead _ _ _ Hr) as Ha.
    assert (in_range b 128 191 = true ∧ in_range c 128 191 = true) as [Hb Hc]
      by (unfold ok3, is_cont, in_range in *; lia).
    by rewrite (high_byte_not_nl a _ _ Ha), (high_byte_not_nl b _ _ Hb), (high_byte_not_nl c _ _ Hc).
  - pose proof (ok4_lead _ _ _ _ Hr) as Ha.
    assert (in_range b 128 191 = true ∧ in_range c 128 191 = true ∧ in_range d 128 191 = true) as (Hb & Hc & Hd)
      by (unfold ok4, is_cont, in_range in *; lia).
    by rewrite (high_byte_not_nl a _ _ Ha), (high_byte_not_nl b _ _ Hb), (high_byte_not_nl c _ _ Hc),
      (high_byte_not_nl d _ _ Hd).
Qed.

Lemma esc_rune_no_nl r : rune_fine r = true → forallb rune_no_nl (esc_rune r) = true.
Proof.
  intros Hr. destruct r as [a|a b|a b c|a b c d|a]; cbn [esc_rune rune_fine] in *.
  - by destruct a as [[] [] [] [] [] [] [] []]; vm_compute in Hr |- *.
  - cbn [forallb]. by rewrite (rune_ok_no_nl (R2 a b)).
  - repeat case_bool_decide; [done..|]. cbn [forallb]. by rewrite (rune_ok_no_nl (R3 a b c)).
  - cbn [forallb]. by rewrite (rune_ok_no_nl (R4 a b c d)).
  - done.
Qed.

(** Printed JSON is one line. *)
Lemma print_json_no_nl v : jnums v = true → has_byte nl (print_json v) = false.
Proof.
  intros Hv. apply unrunes_no_nl. revert Hv. apply print_runes_all; [apply esc_rune_no_nl| |done].
  intros a Ha. apply rune_ok_no_nl; [|intros [= ->]; done].
  cbn. unfold is_ascii, is_digit, in_range in *. lia.
Qed.

(** The lines of a text that ends in a newline. *)
Definition lines_of (b : bytes) : list string := removelast (Split b nl).

Lemma Split_line c a b : has_byte c a = false → Split (a +:+ String c b) c = a :: Split b c.
Proof.
  induction a as [|x a IH]; rewrite ?app_Empty, ?app_String; cbn [has_byte Split].
  - intros _. by rewrite decide_True.
  - intros [Hx%bool_decide_eq_false Ha]%orb_false_iff. rewrite decide_False by done. by rewrite IH.
Qed.

Lemma Split_nonempty s c : Split s c ≠ [].
Proof. destruct s as [|a s]; cbn [Split]; [done|]. case_decide; [done|]. by destruct (Split s c). Qed.

Lemma lines_of_line a b : has_byte nl a = false → lines_of (a +:+ String nl b) = a :: lines_of b.
Proof.
  intros Ha. unfold lines_of. rewrite Split_line by done. pose proof (Split_nonempty b nl).
  by destruct (Split b nl).
Qed.

Lemma plain_header l now file line : lg_flags l = 0%Z → lg_prefix l = EmptyString → formatHeader l now file line = EmptyString.
Proof. intros Hf Hp. unfold formatHeader, has_flag. by rewrite Hf, Hp, !Z.testbit_0_l. Qed.

(** Times are ASCII text. *)
Fixpoint all_ascii (s : string) : bool :=
  match s with EmptyString => true | String a s' => is_ascii a && all_ascii s' end.

Lemma all_ascii_valid s : all_ascii s = true → utf8_valid s = true.
Proof.
  induction s as [|a s IH]; [done|]. cbn [all_ascii]. intros [Ha Hs]%andb_prop.
  apply (utf8_valid_rune (RAscii a) s); auto.
Qed.

Lemma all_ascii_app s t : all_ascii (s +:+ t) = all_ascii s && all_ascii t.
Proof. induction s as [|a s IH]; [done|]. rewrite app_String. cbn [all_ascii]. by rewrite IH, andb_assoc. Qed.

Fixpoint all_digits (s : string) : bool :=
  match s with EmptyString => true | String a s' => is_digit a && all_digits s' end.

Lemma all_digits_format n z acc : all_digits acc = true → all_digits (format_digits n z acc) = true.
Proof.
  revert z acc. induction n as [|n IH]; intros z acc Ha; [done|]. cbn [format_digits].
  case_match; [|apply IH]; cbn [all_digits]; by rewrite digit_char_is_digit, Ha by (apply Z.mod_pos_bound; lia).
Qed.

Lemma all_digits_itoa n w : all_digits (itoa n w) = true.
Proof.
  unfold itoa, FormatUint. set (s := format_digits 20 n EmptyString).
  assert (all_digits s = true) as Hs by by apply all_digits_format.
  by induction (w - String.length s) as [|k IH]; cbn [zeros all_digits].
Qed.

Lemma all_ascii_itoa n w : all_ascii (itoa n w) = true.
Proof.
  pose proof (all_digits_itoa n w) as H. induction (itoa n w) as [|a s IH]; [done|].
  cbn [all_digits all_ascii] in *. apply andb_prop in H as [Ha Hs]. rewrite IH by done.
  unfold is_digit, is_ascii, in_range in *. lia.
Qed.

Lemma all_ascii_trim s : all_ascii s = true → all_ascii (trim_zeros s) = true.
Proof.
  induction s as [|a s IH]; [done|]. cbn [all_ascii trim_zeros]. intros [Ha Hs]%andb_prop.
  specialize (IH Hs). destruct (trim_zeros s); [case_decide; [done|]|]; cbn [all_ascii] in *; by rewrite Ha.
Qed.

Lemma time_valid t : utf8_valid (RFC3339Nano t) = true.
Proof.
  apply all_ascii_valid. unfold RFC3339Nano. rewrite !all_ascii_app, !all_ascii_itoa. cbn [andb all_ascii].
  case_decide; [done|]. cbn [all_ascii]. by rewrite all_ascii_trim by apply all_ascii_itoa.
Qed.

(** What is read back of a line. *)
Definition read_event (t : instant) (x : logLine) : json :=
  JObj [("level", JStr (level_name (line_level x))); ("msg", JStr (repair_string (line_text x)));
        ("ts", JStr (RFC3339Nano (utc t)))].

Lemma log_event_read t x : parse_json (print_json (log_event (line_level x) (line_text x) t)) = Some (read_event t x).
Proof.
  rewrite parse_print_repair by done. unfold log_event, read_event. cbn [repair map fst snd].
  rewrite (repair_string_id (RFC3339Nano _)) by apply time_valid. by destruct (line_level x).
Qed.

Lemma ends_nl_app h s : ends_nl (h +:+ (s +:+ String nl EmptyString)) = true.
Proof. rewrite <-str_app_assoc. apply HasSuffix_app. Qed.

(** What one call writes in JSON mode. *)
Definition json_line (file : string) (l : logger) (t now : instant) (x : logLine) : bytes :=
  formatHeader l now file 42 +:+
    (print_json (log_event (line_level x) (line_text x) t) +:+ String nl EmptyString).

Lemma log_line_json file l t now x xs st :
  jsonMode st = true →
  log_lines file l ((t, now, x) :: xs) st =
    log_lines file l xs (write_to (lg_out (logger_of l st)) (json_line file (logger_of l st) t now x) st).
Proof.
  intros Hj. cbn [log_lines]. pose proof (line_call_text x) as E. unfold json_line, line_level.
  destruct (line_call x) as [[v f] args]. cbn [fst snd] in *. unfold logf. rewrite E. cbn [mbind option_bind].
  rewrite Hj. unfold Output. rewrite ends_nl_app. by rewrite str_app_nil_r.
Qed.

(** In JSON mode, with a logger that adds neither a prefix nor a time, whatever the facade
    logs, in any order and with any text in it, comes out as one line per call: each line
    decodes, and gives the level, the message (invalid bytes replaced) and the time of its
    call.  Nothing else is written. *)
Theorem json_log_readable file l st xs :
  jsonMode st = true → lg_flags (logger_of l st) = 0%Z → lg_prefix (logger_of l st) = EmptyString →
  ∃ st' out, log_lines file l xs st = Some st' ∧
    (∀ w, default EmptyString (written st' !! w) =
       default EmptyString (written st !! w) +:+ (if decide (w = lg_out (logger_of l st)) then out else EmptyString)) ∧
    parse_json <$> lines_of out = (λ '(t, _, x), Some (read_event t x)) <$> xs.
Proof.
  revert st. induction xs as [|[[t now] x] xs IH]; intros st Hj Hf Hp.
  - exists st, EmptyString. split_and!; [done| |done]. intros w. by case_decide; rewrite str_app_nil_r.
  - rewrite log_line_json by done. unfold json_line. rewrite plain_header by done. set (b := print_json _).
    set (st1 := write_to _ _ st). destruct (IH st1) as (st' & out & H1 & H2 & H3); [done..|].
    exists st', (b +:+ String nl out). split_and!; [done|..].
    + intros w. rewrite H2. change (logger_of l st1) with (logger_of l st). unfold st1, write_to. cbn [written].
      case_decide as Hw; [subst w; rewrite lookup_insert_eq|rewrite lookup_insert_ne by done; done].
      cbn [default from_option id]. rewrite app_Empty, !str_app_assoc. done.
    + rewrite lines_of_line by (by apply print_json_no_nl). cbn [fmap list_fmap].
      rewrite H3. f_equal. apply log_event_read.
Qed.

(** ** Limits *)

Lemma itoa_nonempty n w : itoa n w ≠ EmptyString.
Proof.
  unfold itoa. pose proof (format_digits_nonempty 20 n EmptyString ltac:(done)) as H.
  unfold FormatUint. by destruct (w - _).
Qed.

Lemma runes_digits d s : all_digits d = true → runes (d +:+ s) = ascii_runes d ++ runes s.
Proof.
  induction d as [|a d IH]; [done|]. cbn [all_digits]. intros [Ha Hd]%andb_prop. rewrite app_String.
  assert (is_ascii a = true) as Hi by (unfold is_digit, is_ascii, in_range in *; lia).
  cbn [ascii_runes app]. rewrite <-IH by done. apply (runes_cons (RAscii a) (d +:+ s) Hi).
Qed.

Lemma span_digits_slash d l :
  all_digits d = true → span_digits (ascii_runes d ++ RAscii "/" :: l) = (d, RAscii "/" :: l).
Proof.
  induction d as [|a d IH]; [done|]. cbn [all_digits]. intros [Ha Hd]%andb_prop. cbn [ascii_runes app span_digits].
  by rewrite Ha, IH.
Qed.

(** A number ends before a slash, and nothing but white space may follow it. *)
Lemma date_undecodable d s :
  all_digits d = true → d ≠ EmptyString → parse_json (d +:+ String "/" s) = None.
Proof.
  intros Hd Hne. unfold parse_json, decode_first. rewrite runes_digits by done.
  destruct d as [|a d]; [done|]. cbn [all_digits] in Hd. apply andb_prop in Hd as [Ha Hd].
  destruct (digit_starts_number a Ha) as (H1 & _ & H2 & H3 & H4 & H5 & H6 & H7).
  change (runes (String "/" s)) with (RAscii "/" :: runes s). cbn [ascii_runes app].
  set (l := ascii_runes d ++ RAscii "/" :: runes s).
  change (2 * S ?n) with (S (n + S (n + 0))). rewrite parse_value_S. cbn [skip_ws].
  rewrite H1, H2, H3, H4, H5, H6, H7.
  assert (∃ i b l', scan_int (RAscii a :: l) = Some (i, RAscii b :: l') ∧ (is_digit b = true ∨ b = "/"%char)) as
    (i & b & l' & Hi & Hb).
  { cbn [scan_int]. case_match.
    - exists (String a EmptyString). unfold l. destruct d as [|b d]; [by eexists "/"%char, _; eauto|].
      cbn [all_digits] in Hd. apply andb_prop in Hd as [Hb _]. exists b. eexists. split; [done|by left].
    - unfold digits1. change (RAscii a :: l) with (ascii_runes (String a d) ++ RAscii "/" :: runes s).
      rewrite span_digits_slash by (cbn [all_digits]; by rewrite Ha). eexists _, _, _. split; [done|by right]. }
  assert (scan_number (RAscii a :: l) = Some (i, RAscii b :: l')) as ->.
  { assert (scan_number (RAscii a :: l) = scan_unsigned (RAscii a :: l)) as ->.
    { clear -Ha. by destruct a as [[] [] [] [] [] [] [] []]. }
    unfold scan_unsigned. rewrite Hi. cbn [mbind option_bind].
    destruct Hb as [Hb| ->]; [|cbn; by rewrite str_app_nil_r].
    clear -Hb. destruct b as [[] [] [] [] [] [] [] []]; try done; cbn; by rewrite str_app_nil_r. }
  cbn [mbind option_bind]. destruct Hb as [Hb| ->]; [|done]. cbn [skip_ws].
  destruct (digit_starts_number b Hb) as [-> _]. done.
Qed.

(** In JSON mode with the flags of the standard logger, which [log.Default] has unless they
    are changed, every line begins with the date and none of them is JSON. *)
Theorem default_log_not_json file t now l x st :
  jsonMode st = true → lg_flags (logger_of l st) = LstdFlags → lg_prefix (logger_of l st) = EmptyString →
  ∃ st' line, log_lines file l [(t, now, x)] st = Some st' ∧
    written st' !! lg_out (logger_of l st) =
      Some (default EmptyString (written st !! lg_out (logger_of l st)) +:+ line) ∧
    parse_json line = None.
Proof.
  intros Hj Hf Hp. rewrite log_line_json by done. eexists _, _. split_and!; [done|apply lookup_insert_eq|].
  - unfold json_line, formatHeader, has_flag. rewrite Hf, Hp. change (Z.testbit LstdFlags Lmsgprefix) with false.
    change (Z.testbit LstdFlags Ldate) with true. cbn match. rewrite app_Empty, !str_app_assoc.
    apply date_undecodable; [apply all_digits_itoa|apply itoa_nonempty].
Qed.

(** ** Examples and witnesses *)

Definition demo_time : instant :=
  let t := mkCivil 2024 2 9 8 5 0 120000000 in mkInstant t t.
Definition demo_logger : logger := mkLogger 1 EmptyString 0.
Definition demo_logging (json : bool) : logging := mkLogging json (mkLogger 2 EmptyString LstdFlags) ∅.

Example demo_timestamps :
  RFC3339Nano (utc demo_time) = "2024-02-09T08:05:00.12Z" ∧
  formatHeader (log_Default (demo_logging true)) demo_time "x/logutil.go" 42 = "2024/02/09 08:05:00 " ∧
  formatHeader (mkLogger 0 "p" 84) demo_time "x/logutil.go" 42 = "08:05:00.120000 logutil.go:42: p".
Proof. by vm_compute. Qed.

(** Outside JSON mode a text that contains a newline is written as it is: the identifier of a
    request to leave can forge another line of the log. *)
Example text_log_forged :
  log_lines "logutil.go" (Some demo_logger)
    [(demo_time, demo_time, LLeaveAccepted ("a" +:+ String nl "INFO leave accepted: id=b"))] (demo_logging false) =
  log_lines "logutil.go" (Some demo_logger)
    [(demo_time, demo_time, LLeaveAccepted "a"); (demo_time, demo_time, LLeaveAccepted "b")] (demo_logging false).
Proof. by vm_compute. Qed.

Lemma json_log_readable_witness :
  ∃ st' out, log_lines "logutil.go" (Some demo_logger)
    [(demo_time, demo_time, LLeaveAccepted ("a" +:+ String nl "INFO leave accepted: id=b"))] (demo_logging true) = Some st' ∧
    length (lines_of out) = 1.
Proof.
  destruct (json_log_readable "logutil.go" (Some demo_logger) (demo_logging true)
    [(demo_time, demo_time, LLeaveAccepted ("a" +:+ String nl "INFO leave accepted: id=b"))]
    eq_refl eq_refl eq_refl) as (st' & out & H1 & _ & H2).
  exists st', out. split; [exact H1|]. apply (f_equal length) in H2. by rewrite !length_fmap in H2.
Defined.

Lemma default_log_not_json_witness :
  ∃ st' line, log_lines "logutil.go" None [(demo_time, demo_time, LRemovedVoter "n2")] (demo_logging true) = Some st' ∧
    parse_json line = None.
Proof.
  destruct (default_log_not_json "logutil.go" demo_time demo_time None (LRemovedVoter "n2") (demo_logging true)
    eq_refl eq_refl eq_refl) as (st' & line & H1 & _ & H2).
  by exists st', line.
Defined.
