(* ===== verification/JsonCodec.v ===== *)
(** * JSON codecs of Go types

    What [json.Marshal] and [json.Unmarshal] do with the types the program sends and
    stores.  Decoding is into an existing value, as in Go: [null] leaves most values
    alone, an object sets the fields it names, and a value of the wrong type is an error
    that does not stop the decoding of the rest.  Field names match up to case. *)
From S2P Require Import Prelude GoStrings Utf8 Json Types.
From stdpp Require Import options.

(** ** Codecs *)

(** [c_dec v cur] is the value after decoding [v] into a variable that holds [cur], and
    whether there was no error. *)
Record codec (A : Type) := Codec {
  c_zero : A;
  c_enc : A → json;
  c_dec : json → A → A * bool;
}.
Arguments Codec {A}.
Arguments c_zero {A}.
Arguments c_enc {A}.
Arguments c_dec {A}.

(** [json.Marshal]; none of the types used can make it fail. *)
Definition Marshal {A} (c : codec A) (a : A) : bytes := print_json (c_enc c a).

(** [json.Unmarshal(b, &x)] where [x] holds [cur]: a syntax error leaves it unchanged. *)
Definition Unmarshal_into {A} (c : codec A) (b : bytes) (cur : A) : A * bool :=
  match parse_json b with
  | Some v => c_dec c v cur
  | None => (cur, false)
  end.

(** Into a fresh variable, keeping the value only when there is no error. *)
Definition Unmarshal {A} (c : codec A) (b : bytes) : option A :=
  match Unmarshal_into c b (c_zero c) with
  | (a, true) => Some a
  | (_, false) => None
  end.

(** [json.NewEncoder(w).Encode]: a newline follows. *)
Definition Encode {A} (c : codec A) (a : A) : bytes :=
  Marshal c a +:+ String "010" EmptyString.

(** [json.NewDecoder(r).Decode(&x)] into a fresh variable: the first value of the
    stream. *)
Definition Decode {A} (c : codec A) (b : bytes) : option A :=
  '(v, _) ← decode_first b;
  match c_dec c v (c_zero c) with
  | (a, true) => Some a
  | (_, false) => None
  end.

(** What a codec owes on the values in [wf]: it prints well-formed JSON of bounded
    nesting and reads it back. *)
Class CodecOk {A} (c : codec A) (wf : A → bool) (depth : Z) : Prop := {
  enc_jwf a : wf a = true → jwf (c_enc c a) = true;
  enc_depth a : (jdepth (c_enc c a) ≤ depth)%Z;
  dec_enc a : wf a = true → c_dec c (c_enc c a) (c_zero c) = (a, true);
}.

(** ** Scalars *)

Definition string_codec : codec string :=
  Codec EmptyString JStr (λ v cur,
    match v with JStr s => (s, true) | JNull => (cur, true) | _ => (cur, false) end).

Definition bool_codec : codec bool :=
  Codec false JBool (λ v cur,
    match v with JBool b => (b, true) | JNull => (cur, true) | _ => (cur, false) end).

Definition uint64_codec : codec Z :=
  Codec 0%Z (λ n, JNum (FormatUint n)) (λ v cur,
    match v with
    | JNum lit => match ParseUint lit with Some n => (n, true) | None => (cur, false) end
    | JNull => (cur, true)
    | _ => (cur, false)
    end).

Definition int_codec : codec Z :=
  Codec 0%Z (λ n, JNum (FormatInt n)) (λ v cur,
    match v with
    | JNum lit => match ParseInt lit with Some n => (n, true) | None => (cur, false) end
    | JNull => (cur, true)
    | _ => (cur, false)
    end).

(** ** Byte slices: base64 with padding *)

Definition b64_alphabet : string :=
  "ABCDEFGHIJKLMNOPQRSTUVWXYZabcdefghijklmnopqrstuvwxyz0123456789+/".

(** A group of six bits, most significant first, and its character. *)
Definition b64_char (b5 b4 b3 b2 b1 b0 : bool) : ascii :=
  default "A"%char (String.get (N.to_nat (N_of_ascii (Ascii b0 b1 b2 b3 b4 b5 false false))) b64_alphabet).

Definition b64_val (a : ascii) : option ascii :=
  if in_range a 65 90 then Some (byte_of (code a - 65))
  else if in_range a 97 122 then Some (byte_of (code a - 71))
  else if in_range a 48 57 then Some (byte_of (code a + 4))
  else if Ascii.eqb a "+" then Some (byte_of 62)
  else if Ascii.eqb a "/" then Some (byte_of 63)
  else None.

Fixpoint b64_encode (s : string) : string :=
  match s with
  | EmptyString => EmptyString
  | String (Ascii a0 a1 a2 a3 a4 a5 a6 a7) r =>
      String (b64_char a7 a6 a5 a4 a3 a2)
      match r with
      | EmptyString => String (b64_char a1 a0 false false false false) "=="
      | String (Ascii b0 b1 b2 b3 b4 b5 b6 b7) r1 =>
          String (b64_char a1 a0 b7 b6 b5 b4)
          match r1 with
          | EmptyString => String (b64_char b3 b2 b1 b0 false false) "="
          | String (Ascii c0 c1 c2 c3 c4 c5 c6 c7) r2 =>
              String (b64_char b3 b2 b1 b0 c7 c6)
                (String (b64_char c5 c4 c3 c2 c1 c0) (b64_encode r2))
          end
      end
  end.

(** The bytes of four groups of six bits. *)
Definition b64_byte1 (x y : ascii) : ascii :=
  match x, y with
  | Ascii x0 x1 x2 x3 x4 x5 _ _, Ascii y0 y1 y2 y3 y4 y5 _ _ => Ascii y4 y5 x0 x1 x2 x3 x4 x5
  end.
Definition b64_byte2 (y z : ascii) : ascii :=
  match y, z with
  | Ascii y0 y1 y2 y3 y4 y5 _ _, Ascii z0 z1 z2 z3 z4 z5 _ _ => Ascii z2 z3 z4 z5 y0 y1 y2 y3
  end.
Definition b64_byte3 (z w : ascii) : ascii :=
  match z, w with
  | Ascii z0 z1 z2 z3 z4 z5 _ _, Ascii w0 w1 w2 w3 w4 w5 _ _ => Ascii w0 w1 w2 w3 w4 w5 z0 z1
  end.

(** Groups of four characters; padding ends the text. *)
Fixpoint b64_quanta (s : string) : option string :=
  match s with
  | EmptyString => Some EmptyString
  | String a (String b (String c (String d r))) =>
      x ← b64_val a; y ← b64_val b;
      if Ascii.eqb d "=" then
        if bool_decide (r = EmptyString) then
          if Ascii.eqb c "=" then Some (String (b64_byte1 x y) EmptyString)
          else z ← b64_val c; Some (String (b64_byte1 x y) (String (b64_byte2 y z) EmptyString))
        else None
      else
        z ← b64_val c; w ← b64_val d; rest ← b64_quanta r;
        Some (String (b64_byte1 x y) (String (b64_byte2 y z) (String (b64_byte3 z w) rest)))
  | _ => None
  end.

Fixpoint drop_newlines (s : string) : string :=
  match s with
  | EmptyString => EmptyString
  | String a s' => if Ascii.eqb a "010" || Ascii.eqb a "013" then drop_newlines s'
                   else String a (drop_newlines s')
  end.

(** [base64.StdEncoding.DecodeString]. *)
Definition b64_decode (s : string) : option string := b64_quanta (drop_newlines s).

(** An array of numbers is decoded element by element. *)
Fixpoint dec_byte_array (l : list json) (cur : string) : string * bool :=
  match l with
  | [] => (EmptyString, true)
  | v :: l' =>
      let '(c0, cur') := match cur with String c0 cur' => (c0, cur') | EmptyString => ("000"%char, EmptyString) end in
      let '(c, ok) := match v with
        | JNum lit => match ParseUint lit with
                      | Some n => if (n <? 256)%Z then (byte_of n, true) else (c0, false)
                      | None => (c0, false)
                      end
        | JNull => (c0, true)
        | _ => (c0, false)
        end in
      let '(s, ok') := dec_byte_array l' cur' in (String c s, ok && ok')
  end.

(** [[]byte]: [None] is nil. *)
Definition bytes_codec : codec (option bytes) :=
  Codec None (λ o, match o with Some b => JStr (b64_encode b) | None => JNull end) (λ v cur,
    match v with
    | JStr s => match b64_decode s with Some b => (Some b, true) | None => (cur, false) end
    | JNull => (None, true)
    | JArr l => let '(s, ok) := dec_byte_array l (default EmptyString cur) in (Some s, ok)
    | _ => (cur, false)
    end).

(** ** Maps and slices *)

(** The entries of a map in the order of their keys, as they are printed. *)
Definition key_le (p q : string * string) : Prop := str_le p.1 q.1.

Global Instance key_le_dec p q : Decision (key_le p q).
Proof. unfold key_le. apply _. Defined.

Definition sorted_entries (m : gmap string string) : list (string * string) :=
  merge_sort key_le (map_to_list m).

(** Each entry is decoded into a fresh string and stored, also after an error. *)
Fixpoint dec_entries (l : list (string * json)) (m : gmap string string) : gmap string string * bool :=
  match l with
  | [] => (m, true)
  | (k, v) :: l' =>
      let '(s, ok) := c_dec string_codec v EmptyString in
      let '(m', ok') := dec_entries l' (<[k := s]> m) in (m', ok && ok')
  end.

(** [map[string]string]: [None] is nil. *)
Definition map_codec : codec (option (gmap string string)) :=
  Codec None
    (λ o, match o with Some m => JObj (map (λ kv, (kv.1, JStr kv.2)) (sorted_entries m)) | None => JNull end)
    (λ v cur, match v with
      | JObj l => let '(m, ok) := dec_entries l (default ∅ cur) in (Some m, ok)
      | JNull => (None, true)
      | _ => (cur, false)
      end).

(** Elements are decoded into those the slice already has, then into fresh ones. *)
Fixpoint dec_elems {A} (c : codec A) (l : list json) (cur : list A) : list A * bool :=
  match l with
  | [] => ([], true)
  | v :: l' =>
      let '(a, ok) := c_dec c v (default (c_zero c) (head cur)) in
      let '(as', ok') := dec_elems c l' (tail cur) in (a :: as', ok && ok')
  end.

Definition slice_codec {A} (c : codec A) : codec (option (list A)) :=
  Codec None (λ o, match o with Some l => JArr (map (c_enc c) l) | None => JNull end) (λ v cur,
    match v with
    | JArr l => let '(as', ok) := dec_elems c l (default [] cur) in (Some as', ok)
    | JNull => (None, true)
    | _ => (cur, false)
    end).

(** ** Structures *)

(** A field: its JSON name, how it is printed ([None] when [omitempty] leaves it out)
    and how it is set. *)
Record field (S : Type) := Field {
  f_name : string;
  f_enc : S → option json;
  f_dec : json → S → S * bool;
}.
Arguments Field {S}.
Arguments f_name {S}.
Arguments f_enc {S}.
Arguments f_dec {S}.

Definition fld {S A} (name : string) (c : codec A) (get : S → A) (set : A → S → S) : field S :=
  Field name (λ s, Some (c_enc c (get s)))
    (λ v s, let '(a, ok) := c_dec c v (get s) in (set a s, ok)).

(** With [omitempty]. *)
Definition fld_omit {S A} (empty : A → bool) (name : string) (c : codec A)
    (get : S → A) (set : A → S → S) : field S :=
  Field name (λ s, if empty (get s) then None else Some (c_enc c (get s)))
    (f_dec (fld name c get set)).

Definition empty_string (s : string) : bool :=
  match s with EmptyString => true | String _ _ => false end.
Definition empty_bytes (o : option bytes) : bool :=
  match o with Some (String _ _) => false | _ => true end.

(** [foldName]: names are compared without regard to case; the only non-ASCII runes
    that fold to ASCII letters are U+017F and U+212A. *)
Definition fold_rune (r : rune) : rune :=
  match r with
  | RAscii a => if in_range a 97 122 then RAscii (byte_of (code a - 32)) else r
  | R2 "197" "191" => RAscii "S"
  | R3 "226" "132" "170" => RAscii "K"
  | _ => r
  end.
Definition fold_name (s : string) : list rune := map fold_rune (runes s).

Definition same_name (a b : string) : bool := bool_decide (fold_name a = fold_name b).
Global Arguments same_name : simpl never.

Definition find_field {S} (fields : list (field S)) (k : string) : option (field S) :=
  List.find (λ f, same_name (f_name f) k) fields.

Fixpoint dec_fields {S} (fields : list (field S)) (l : list (string * json)) (s : S) : S * bool :=
  match l with
  | [] => (s, true)
  | (k, v) :: l' =>
      let '(s1, ok) := match find_field fields k with
                       | Some f => f_dec f v s
                       | None => (s, true)
                       end in
      let '(s2, ok') := dec_fields fields l' s1 in (s2, ok && ok')
  end.

Definition struct_codec {S} (zero : S) (fields : list (field S)) : codec S :=
  Codec zero
    (λ s, JObj (omap (λ f, v ← f_enc f s; Some (f_name f, v)) fields))
    (λ v s, match v with
      | JObj l => dec_fields fields l s
      | JNull => (s, true)
      | _ => (s, false)
      end).

(** ** The types of the program *)

Definition set_ID x (m : MemberInfo) := mkMember x (Addr m) (Meta m).
Definition set_Addr x (m : MemberInfo) := mkMember (ID m) x (Meta m).
Definition set_Meta x (m : MemberInfo) := mkMember (ID m) (Addr m) x.

Definition MemberInfo_codec : codec MemberInfo :=
  struct_codec (mkMember EmptyString EmptyString None)
    [fld "ID" string_codec ID set_ID; fld "Addr" string_codec Addr set_Addr;
     fld "Meta" map_codec Meta set_Meta].

Definition Command_codec : codec Command :=
  struct_codec (mkCommand EmptyString None)
    [fld "Op" string_codec Op (λ x s, mkCommand x (Payload s));
     fld "Payload" bytes_codec Payload (λ x s, mkCommand (Op s) x)].

(** The anonymous structure of [applyRemoveNode] and of the FSM. *)
Definition RemoveReq_codec : codec string :=
  struct_codec EmptyString [fld "id" string_codec (λ s, s) (λ x _, x)].

Definition ClusterStatus_codec : codec ClusterStatus :=
  struct_codec (mkStatus false 0 EmptyString EmptyString None None)
    [fld "Healthy" bool_codec Healthy
       (λ x s, mkStatus x (Term s) (LeaderID s) (LeaderAddr s) (Members s) (Warnings s));
     fld "Term" uint64_codec Term
       (λ x s, mkStatus (Healthy s) x (LeaderID s) (LeaderAddr s) (Members s) (Warnings s));
     fld "LeaderID" string_codec LeaderID
       (λ x s, mkStatus (Healthy s) (Term s) x (LeaderAddr s) (Members s) (Warnings s));
     fld "LeaderAddr" string_codec LeaderAddr
       (λ x s, mkStatus (Healthy s) (Term s) (LeaderID s) x (Members s) (Warnings s));
     fld "Members" (slice_codec MemberInfo_codec) Members
       (λ x s, mkStatus (Healthy s) (Term s) (LeaderID s) (LeaderAddr s) x (Warnings s));
     fld "Warnings" (slice_codec string_codec) Warnings
       (λ x s, mkStatus (Healthy s) (Term s) (LeaderID s) (LeaderAddr s) (Members s) x)].

Definition JoinRequest_codec : codec JoinRequest :=
  struct_codec (mkJoinRequest EmptyString EmptyString)
    [fld "id" string_codec jr_id (λ x s, mkJoinRequest x (jr_raftAddr s));
     fld "raftAddr" string_codec jr_raftAddr (λ x s, mkJoinRequest (jr_id s) x)].

Definition JoinResponse_codec : codec JoinResponse :=
  struct_codec (mkJoinResponse false EmptyString EmptyString)
    [fld "accepted" bool_codec jp_accepted (λ x s, mkJoinResponse x (jp_leader s) (jp_error s));
     fld_omit empty_string "leader" string_codec jp_leader
       (λ x s, mkJoinResponse (jp_accepted s) x (jp_error s));
     fld_omit empty_string "error" string_codec jp_error
       (λ x s, mkJoinResponse (jp_accepted s) (jp_leader s) x)].

Definition LeaveRequest_codec : codec LeaveRequest :=
  struct_codec (mkLeaveRequest EmptyString) [fld "id" string_codec lr_id (λ x _, mkLeaveRequest x)].

Definition LeaveResponse_codec : codec LeaveResponse :=
  struct_codec (mkLeaveResponse false EmptyString)
    [fld "accepted" bool_codec lp_accepted (λ x s, mkLeaveResponse x (lp_error s));
     fld_omit empty_string "error" string_codec lp_error (λ x s, mkLeaveResponse (lp_accepted s) x)].

Definition AppWriteRequest_codec : codec AppWriteRequest :=
  struct_codec (mkAppWriteRequest EmptyString None)
    [fld "op" string_codec wr_op (λ x s, mkAppWriteRequest x (wr_data s));
     fld "data" bytes_codec wr_data (λ x s, mkAppWriteRequest (wr_op s) x)].

Definition AppWriteResponse_codec : codec AppWriteResponse :=
  struct_codec (mkAppWriteResponse None EmptyString)
    [fld_omit empty_bytes "data" bytes_codec wp_data (λ x s, mkAppWriteResponse x (wp_error s));
     fld_omit empty_string "error" string_codec wp_error (λ x s, mkAppWriteResponse (wp_data s) x)].

Definition AppSyncRequest_codec : codec AppSyncRequest :=
  struct_codec (mkAppSyncRequest EmptyString None)
    [fld "topic" string_codec sr_topic (λ x s, mkAppSyncRequest x (sr_data s));
     fld "data" bytes_codec sr_data (λ x s, mkAppSyncRequest (sr_topic s) x)].

Definition AppSyncResponse_codec : codec AppSyncResponse :=
  struct_codec (mkAppSyncResponse EmptyString)
    [fld_omit empty_string "error" string_codec sp_error (λ x _, mkAppSyncResponse x)].

(** ** Laws *)

Lemma Unmarshal_Marshal {A} (c : codec A) wf depth a :
  CodecOk c wf depth → (depth ≤ max_depth)%Z → wf a = true → Unmarshal c (Marshal c a) = Some a.
Proof.
  intros [Hj Hd He] Hmax Hw. unfold Unmarshal, Unmarshal_into, Marshal.
  rewrite parse_print_json; [by rewrite He|by apply Hj|]. specialize (Hd a). lia.
Qed.

Lemma Decode_Encode {A} (c : codec A) wf depth a :
  CodecOk c wf depth → (depth ≤ max_depth)%Z → wf a = true → Decode c (Encode c a) = Some a.
Proof.
  intros [Hj Hd He] Hmax Hw. unfold Decode, Encode, Marshal.
  rewrite decode_first_print; [|by apply Hj|specialize (Hd a); lia|simpl; tauto]. simpl. by rewrite He.
Qed.

Lemma Unmarshal_Encode {A} (c : codec A) wf depth a :
  CodecOk c wf depth → (depth ≤ max_depth)%Z → wf a = true → Unmarshal c (Encode c a) = Some a.
Proof.
  intros [Hj Hd He] Hmax Hw. unfold Unmarshal, Unmarshal_into, Encode, Marshal, parse_json.
  rewrite decode_first_print; [|by apply Hj|specialize (Hd a); lia|simpl; tauto].
  cbn [mbind option_bind]. change (skip_ws (runes (String "010" EmptyString))) with (@nil rune).
  cbn match. by rewrite He.
Qed.

Global Instance string_codec_ok : CodecOk string_codec utf8_valid 0.
Proof. split; done. Qed.

Global Instance bool_codec_ok : CodecOk bool_codec (λ _, true) 0.
Proof. split; done. Qed.

(** Decimal literals have no leading zero. *)
Definition all_digits (s : string) : Prop := span_digits (ascii_runes s) = (s, []).

Lemma all_digits_cons a s : is_digit a = true → all_digits s → all_digits (String a s).
Proof. unfold all_digits. cbn [ascii_runes span_digits]. by intros -> ->. Qed.

Lemma digit_char_nonzero d : (0 < d < 10)%Z → digit_char d ≠ "0"%char.
Proof.
  intros Hd. assert (∃ n, d = Z.of_nat (S n) ∧ n < 9) as (n & -> & Hn) by (exists (Z.to_nat d - 1); lia).
  do 9 (destruct n as [|n]; [done|]). lia.
Qed.

Lemma format_digits_plain fuel n acc :
  (0 < n < 10 ^ Z.of_nat fuel)%Z → all_digits acc →
  ∃ a s, format_digits fuel n acc = String a s ∧ a ≠ "0"%char ∧ all_digits (String a s).
Proof.
  revert n acc. induction fuel as [|fuel IH]; intros n acc Hn Hacc; [simpl in Hn; lia|].
  cbn [format_digits]. pose proof (Z.mod_pos_bound n 10 ltac:(lia)) as Hm.
  assert (all_digits (String (digit_char (n `mod` 10)) acc)) as Hacc'.
  { apply all_digits_cons; [by apply digit_char_is_digit|done]. }
  case_decide.
  - eexists _, _. split; [done|]. split; [|done]. apply digit_char_nonzero.
    rewrite Z.mod_small; lia.
  - apply IH; [|done]. rewrite Nat2Z.inj_succ, Z.pow_succ_r in Hn by lia.
    split; [apply Z.div_str_pos; lia|apply Z.div_lt_upper_bound; lia].
Qed.

Lemma FormatUint_plain n : is_u64 n → plain_int (FormatUint n) = true.
Proof.
  intros [H0 H1]. destruct (decide (n = 0)%Z) as [->|Hn]; [done|].
  destruct (format_digits_plain 20 n EmptyString) as (a & s & E & Ha & Hd).
  { split; [lia|]. etrans; [apply H1|done]. } { done. }
  unfold FormatUint. rewrite E. unfold plain_int. cbn [ascii_runes scan_int].
  destruct (Ascii.eqb_spec a "0"); [done|]. unfold digits1.
  unfold all_digits in Hd. cbn [ascii_runes] in Hd. rewrite Hd. by apply bool_decide_eq_true_2.
Qed.

Definition u64_wf (n : Z) : bool := bool_decide (is_u64 n).

Global Instance uint64_codec_ok : CodecOk uint64_codec u64_wf 0.
Proof.
  split.
  - intros n Hn%bool_decide_eq_true. by apply FormatUint_plain.
  - done.
  - intros n Hn%bool_decide_eq_true. cbn [c_enc c_dec uint64_codec]. by rewrite ParseUint_FormatUint.
Qed.

Definition nat63_wf (n : Z) : bool := bool_decide (0 ≤ n < 2 ^ 63)%Z.

Global Instance int_codec_ok : CodecOk int_codec nat63_wf 0.
Proof.
  assert (∀ n, nat63_wf n = true → FormatInt n = FormatUint n ∧ is_u64 n ∧ (n < 2 ^ 63)%Z) as H.
  { intros n Hn%bool_decide_eq_true. unfold FormatInt. rewrite decide_False by lia.
    split_and!; [done| |lia]. unfold is_u64, w64. lia. }
  split; [| done|].
  - intros n (E & Hn & _)%H. cbn [c_enc int_codec jwf]. rewrite E. by apply FormatUint_plain.
  - intros n (E & Hn & Hl)%H. cbn [c_enc c_dec int_codec]. rewrite E.
    pose proof (ParseUint_FormatUint n Hn) as Hp.
    pose proof (FormatUint_no_byte "-" n eq_refl) as Hminus.
    destruct (FormatUint n) as [|a s] eqn:Es; [done|].
    assert (ParseInt (String a s) = Some n) as ->; [|done].
    cbn [has_byte] in Hminus. apply orb_false_iff in Hminus as [Ha%bool_decide_eq_false _].
    assert (ParseInt (String a s) = n ← ParseUint (String a s); if decide (n < 2 ^ 63)%Z then Some n else None) as ->.
    { by destruct a as [[] [] [] [] [] [] [] []]. }
    rewrite Hp. cbn. by rewrite decide_True.
Qed.

(** *** Base64 *)

Lemma b64_val_char b5 b4 b3 b2 b1 b0 :
  b64_val (b64_char b5 b4 b3 b2 b1 b0) = Some (Ascii b0 b1 b2 b3 b4 b5 false false) ∧
  Ascii.eqb (b64_char b5 b4 b3 b2 b1 b0) "=" = false ∧
  Ascii.eqb (b64_char b5 b4 b3 b2 b1 b0) "010" = false ∧
  Ascii.eqb (b64_char b5 b4 b3 b2 b1 b0) "013" = false ∧
  is_ascii (b64_char b5 b4 b3 b2 b1 b0) = true.
Proof. by destruct b5, b4, b3, b2, b1, b0. Qed.

Local Ltac b64 :=
  repeat match goal with
  | |- context [b64_val (b64_char ?a ?b ?c ?d ?e ?f)] =>
      rewrite (proj1 (b64_val_char a b c d e f)); cbn [mbind option_bind]
  | |- context [Ascii.eqb (b64_char ?a ?b ?c ?d ?e ?f) "="] =>
      rewrite (proj1 (proj2 (b64_val_char a b c d e f)))
  | |- context [Ascii.eqb (b64_char ?a ?b ?c ?d ?e ?f) "010"] =>
      rewrite (proj1 (proj2 (proj2 (b64_val_char a b c d e f))))
  | |- context [Ascii.eqb (b64_char ?a ?b ?c ?d ?e ?f) "013"] =>
      rewrite (proj1 (proj2 (proj2 (proj2 (b64_val_char a b c d e f)))))
  | |- context [is_ascii (b64_char ?a ?b ?c ?d ?e ?f)] =>
      rewrite (proj2 (proj2 (proj2 (proj2 (b64_val_char a b c d e f)))))
  end.

(** Induction three bytes at a time. *)
Lemma string_ind3 (P : string → Prop) :
  P EmptyString → (∀ a, P (String a EmptyString)) → (∀ a b, P (String a (String b EmptyString))) →
  (∀ a b c s, P s → P (String a (String b (String c s)))) → ∀ s, P s.
Proof.
  intros H0 H1 H2 H3.
  exact (fix go s := match s with
    | EmptyString => H0
    | String a EmptyString => H1 a
    | String a (String b EmptyString) => H2 a b
    | String a (String b (String c s')) => H3 a b c s' (go s')
    end).
Qed.

Lemma b64_quanta_encode s : b64_quanta (b64_encode s) = Some s.
Proof.
  induction s as [|[]|[] []|[] [] [] s IH] using string_ind3; cbn [b64_encode b64_quanta]; b64; try done.
  rewrite IH. done.
Qed.

Lemma drop_newlines_encode s : drop_newlines (b64_encode s) = b64_encode s.
Proof.
  induction s as [|[]|[] []|[] [] [] s IH] using string_ind3; cbn [b64_encode drop_newlines]; b64;
    cbn [orb]; try done. by rewrite IH.
Qed.

Lemma b64_roundtrip s : b64_decode (b64_encode s) = Some s.
Proof. unfold b64_decode. by rewrite drop_newlines_encode, b64_quanta_encode. Qed.

Lemma b64_encode_valid s : utf8_valid (b64_encode s) = true.
Proof.
  unfold utf8_valid.
  induction s as [|[]|[] []|[] [] [] s IH] using string_ind3; cbn [b64_encode runes]; b64;
    cbn [forallb rune_ok]; b64; done.
Qed.

Global Instance bytes_codec_ok : CodecOk bytes_codec (λ _, true) 0.
Proof.
  split.
  - intros [b|] _; [|done]. apply b64_encode_valid.
  - by intros [b|].
  - intros [b|] _; [|done]. cbn [c_enc c_dec bytes_codec]. by rewrite b64_roundtrip.
Qed.

(** *** Maps and slices *)

Lemma sorted_entries_perm m : sorted_entries m ≡ₚ map_to_list m.
Proof. apply merge_sort_Permutation. Qed.

Lemma dec_entries_strings l m :
  NoDup l.*1 → (∀ k, k ∈ l.*1 → m !! k = None) →
  dec_entries (map (λ kv, (kv.1, JStr kv.2)) l) m = (list_to_map l ∪ m, true).
Proof.
  revert m. induction l as [|[k s] l IH]; intros m Hnd Hm; cbn [map dec_entries].
  - by rewrite list_to_map_nil, (left_id_L ∅ (∪)).
  - inversion Hnd as [|? ? Hk Hnd']; subst. cbn [fst snd c_dec string_codec] in *.
    rewrite IH; [|done|].
    + cbn. f_equal. rewrite <-insert_union_l. symmetry. apply insert_union_r.
      by apply not_elem_of_list_to_map_1.
    + intros k' Hk'. rewrite lookup_insert_ne by set_solver. apply Hm. set_solver.
Qed.

Definition map_wf (o : option (gmap string string)) : bool :=
  match o with
  | Some m => bool_decide (map_Forall (λ k v, utf8_valid k = true ∧ utf8_valid v = true) m)
  | None => true
  end.

Lemma foldr_depth0 {A} (f : A → json) l :
  (∀ x, jdepth (f x) ≤ 0)%Z → (foldr (λ x d, Z.max (jdepth (f x)) d) 0 l ≤ 0)%Z.
Proof. intros H. induction l as [|x l IH]; cbn [foldr]; [lia|]. specialize (H x). lia. Qed.

Global Instance map_codec_ok : CodecOk map_codec map_wf 1.
Proof.
  split.
  - intros [m|]; [|done]. cbn [map_wf c_enc map_codec jwf]. intros Hm%bool_decide_eq_true.
    apply List.forallb_forall. intros [k v] ([k' v'] & [= <- <-] & Hin)%List.in_map_iff.
    apply list_elem_of_In in Hin. rewrite sorted_entries_perm, elem_of_map_to_list in Hin.
    apply Hm in Hin as [Hk Hv]. cbn [fst snd jwf]. by rewrite Hk, Hv.
  - intros [m|]; [|done]. cbn [c_enc map_codec jdepth].
    induction (sorted_entries m) as [|kv l IH]; cbn [map foldr]; [lia|]. simpl jdepth. lia.
  - intros [m|] _; [|done]. cbn [c_enc c_dec map_codec c_zero default].
    rewrite dec_entries_strings; cbn [from_option id].
    + rewrite (right_id_L ∅ (∪)). do 2 f_equal.
      rewrite (list_to_map_proper (sorted_entries m) (map_to_list m)); [apply list_to_map_to_list| |apply sorted_entries_perm].
      rewrite sorted_entries_perm. apply NoDup_fst_map_to_list.
    + rewrite sorted_entries_perm. apply NoDup_fst_map_to_list.
    + intros k _. apply lookup_empty.
Qed.

Definition slice_wf {A} (wf : A → bool) (o : option (list A)) : bool :=
  match o with Some l => forallb wf l | None => true end.

Lemma dec_elems_enc {A} (c : codec A) wf depth l :
  CodecOk c wf depth → forallb wf l = true → dec_elems c (map (c_enc c) l) [] = (l, true).
Proof.
  intros Hc. induction l as [|a l IH]; intros Hl; [done|]. cbn [forallb] in Hl.
  apply andb_prop in Hl as [Ha Hl]. cbn. rewrite dec_enc by done. by rewrite IH.
Qed.

Global Instance slice_codec_ok {A} (c : codec A) wf depth :
  CodecOk c wf depth → CodecOk (slice_codec c) (slice_wf wf) (1 + Z.max 0 depth).
Proof.
  intros Hc. split.
  - intros [l|]; [|done]. cbn [slice_wf c_enc slice_codec jwf]. intros Hl.
    induction l as [|a l IH]; [done|]. cbn [forallb map] in *. apply andb_prop in Hl as [Ha Hl].
    by rewrite enc_jwf, IH.
  - intros [l|]; cbn [c_enc slice_codec jdepth]; [|lia].
    induction l as [|a l IH]; cbn [map foldr]; [lia|]. pose proof (enc_depth a). lia.
  - intros [l|] Hl; [|done]. cbn [c_enc c_dec slice_codec c_zero]. cbn.
    by erewrite dec_elems_enc.
Qed.

(** *** Structures *)

Definition MemberInfo_wf (m : MemberInfo) : bool :=
  utf8_valid (ID m) && utf8_valid (Addr m) && map_wf (Meta m).

Lemma dec_map m : map_wf m = true → c_dec map_codec (c_enc map_codec m) None = (m, true).
Proof. apply (dec_enc (c:=map_codec)). Qed.

Lemma dec_bytes b : c_dec bytes_codec (c_enc bytes_codec b) None = (b, true).
Proof. by apply (dec_enc (c:=bytes_codec)). Qed.

Lemma dec_uint64 n : is_u64 n → c_dec uint64_codec (c_enc uint64_codec n) 0%Z = (n, true).
Proof. intros. apply (dec_enc (c:=uint64_codec)). by apply bool_decide_eq_true_2. Qed.

Lemma dec_slice {A} (c : codec A) wf depth l :
  CodecOk c wf depth → slice_wf wf l = true →
  c_dec (slice_codec c) (c_enc (slice_codec c) l) None = (l, true).
Proof. intros Hc. apply (dec_enc (c:=slice_codec c)). Qed.

(** Evaluate a structure codec: the comparisons of names by computation, the fields with
    the codecs kept folded. *)
Ltac eval_struct :=
  cbn -[map_codec slice_codec bytes_codec uint64_codec utf8_valid Z.max];
  repeat match goal with
  | |- context [same_name ?a ?b] =>
      let r := eval vm_compute in (same_name a b) in change (same_name a b) with r
  end;
  cbn -[map_codec slice_codec bytes_codec uint64_codec utf8_valid Z.max].

(** The conjuncts of a boolean well-formedness condition. *)
Ltac split_wf :=
  repeat match goal with H : _ && _ = true |- _ => apply andb_prop in H as [? ?] end.

Ltac use_wf :=
  repeat match goal with H : ?x = true |- context [?x] => rewrite H end.

Global Instance MemberInfo_codec_ok : CodecOk MemberInfo_codec MemberInfo_wf 2.
Proof.
  split; intros [i a m]; unfold MemberInfo_wf; cbn [ID Addr Meta]; intros; split_wf; eval_struct.
  - rewrite (enc_jwf (c:=map_codec) m) by done. by use_wf.
  - pose proof (enc_depth (c:=map_codec) m). lia.
  - by rewrite dec_map.
Qed.

Definition Command_wf (c : Command) : bool := utf8_valid (Op c).

Global Instance Command_codec_ok : CodecOk Command_codec Command_wf 1.
Proof.
  split; intros [o p]; unfold Command_wf; cbn [Op Payload]; intros; split_wf; eval_struct.
  - rewrite (enc_jwf (c:=bytes_codec) p) by done. by use_wf.
  - pose proof (enc_depth (c:=bytes_codec) p). lia.
  - by rewrite dec_bytes.
Qed.

Global Instance RemoveReq_codec_ok : CodecOk RemoveReq_codec utf8_valid 1.
Proof. split; intros i; intros; eval_struct; by use_wf. Qed.

Definition ClusterStatus_wf (s : ClusterStatus) : bool :=
  u64_wf (Term s) && utf8_valid (LeaderID s) && utf8_valid (LeaderAddr s) &&
  slice_wf MemberInfo_wf (Members s) && slice_wf utf8_valid (Warnings s).

Global Instance ClusterStatus_codec_ok : CodecOk ClusterStatus_codec ClusterStatus_wf 4.
Proof.
  split; intros [h n l la ms ws]; unfold ClusterStatus_wf;
    cbn [Healthy Term LeaderID LeaderAddr Members Warnings]; intros; split_wf; eval_struct.
  - rewrite (enc_jwf (c:=uint64_codec) n), (enc_jwf (c:=slice_codec MemberInfo_codec) ms),
      (enc_jwf (c:=slice_codec string_codec) ws) by done. by use_wf.
  - pose proof (enc_depth (c:=uint64_codec) n).
    pose proof (enc_depth (c:=slice_codec MemberInfo_codec) ms).
    pose proof (enc_depth (c:=slice_codec string_codec) ws). lia.
  - rewrite (dec_uint64 n) by by eapply bool_decide_eq_true_1. eval_struct.
    erewrite (dec_slice MemberInfo_codec) by (done || apply _). eval_struct.
    by erewrite (dec_slice string_codec) by (done || apply _).
Qed.

Definition JoinRequest_wf (r : JoinRequest) : bool := utf8_valid (jr_id r) && utf8_valid (jr_raftAddr r).

Global Instance JoinRequest_codec_ok : CodecOk JoinRequest_codec JoinRequest_wf 1.
Proof.
  split; intros [i a]; unfold JoinRequest_wf; cbn [jr_id jr_raftAddr]; intros; split_wf; eval_struct;
    by use_wf.
Qed.

Definition JoinResponse_wf (r : JoinResponse) : bool := utf8_valid (jp_leader r) && utf8_valid (jp_error r).

Global Instance JoinResponse_codec_ok : CodecOk JoinResponse_codec JoinResponse_wf 1.
Proof.
  split; intros [a l e]; unfold JoinResponse_wf; cbn [jp_leader jp_error]; intros; split_wf;
    destruct l, e; eval_struct; by use_wf.
Qed.

Global Instance LeaveRequest_codec_ok : CodecOk LeaveRequest_codec (λ r, utf8_valid (lr_id r)) 1.
Proof. split; intros [i]; cbn [lr_id]; intros; eval_struct; by use_wf. Qed.

Global Instance LeaveResponse_codec_ok : CodecOk LeaveResponse_codec (λ r, utf8_valid (lp_error r)) 1.
Proof. split; intros [a e]; cbn [lp_error]; intros; destruct e; eval_struct; by use_wf. Qed.

Global Instance AppWriteRequest_codec_ok : CodecOk AppWriteRequest_codec (λ r, utf8_valid (wr_op r)) 1.
Proof.
  split; intros [o d]; cbn [wr_op]; intros; eval_struct.
  - rewrite (enc_jwf (c:=bytes_codec) d) by done. by use_wf.
  - pose proof (enc_depth (c:=bytes_codec) d). lia.
  - by rewrite dec_bytes.
Qed.

(** An empty response body is omitted and reads back as nil. *)
Definition AppWriteResponse_wf (r : AppWriteResponse) : bool :=
  utf8_valid (wp_error r) && negb (bool_decide (wp_data r = Some EmptyString)).

Global Instance AppWriteResponse_codec_ok : CodecOk AppWriteResponse_codec AppWriteResponse_wf 1.
Proof.
  split; intros [d e]; unfold AppWriteResponse_wf; cbn [wp_data wp_error]; intros; split_wf;
    destruct d as [[|x d]|], e; try done; eval_struct;
    rewrite ?(enc_jwf (c:=bytes_codec) (Some (String x d)) eq_refl); use_wf; try done;
    rewrite ?(dec_bytes (Some (String x d))); try done.
Qed.

Global Instance AppSyncRequest_codec_ok : CodecOk AppSyncRequest_codec (λ r, utf8_valid (sr_topic r)) 1.
Proof.
  split; intros [o d]; cbn [sr_topic]; intros; eval_struct.
  - rewrite (enc_jwf (c:=bytes_codec) d) by done. by use_wf.
  - pose proof (enc_depth (c:=bytes_codec) d). lia.
  - by rewrite dec_bytes.
Qed.

Global Instance AppSyncResponse_codec_ok : CodecOk AppSyncResponse_codec (λ r, utf8_valid (sp_error r)) 1.
Proof. split; intros [e]; cbn [sp_error]; intros; destruct e; eval_struct; by use_wf. Qed.

(** ** Decoded values are valid UTF-8 *)

(** Decoding a value whose strings are valid keeps a well-formed variable well formed. *)
Definition dec_keeps {A} (c : codec A) (wf : A → bool) : Prop :=
  ∀ v cur, jstr_ok v = true → wf cur = true → wf (c_dec c v cur).1 = true.

Lemma string_dec_keeps : dec_keeps string_codec utf8_valid.
Proof. by intros [] cur. Qed.

Lemma dec_entries_keeps l m :
  forallb (λ kv, utf8_valid kv.1 && jstr_ok kv.2) l = true → map_wf (Some m) = true →
  map_wf (Some (dec_entries l m).1) = true.
Proof.
  revert m. induction l as [|[k v] l IH]; intros m Hl Hm; [done|]. cbn [forallb fst snd] in Hl.
  apply andb_prop in Hl as [[Hk Hv]%andb_prop Hl]. cbn [dec_entries].
  pose proof (string_dec_keeps v EmptyString Hv eq_refl) as Hs.
  destruct (c_dec string_codec v EmptyString) as [s ok]. cbn [fst] in Hs.
  specialize (IH (<[k:=s]> m) Hl). destruct (dec_entries l (<[k:=s]> m)) as [m' ok'].
  apply IH. cbn [map_wf] in *. apply bool_decide_eq_true in Hm. apply bool_decide_eq_true.
  by apply map_Forall_insert_2.
Qed.

Lemma map_dec_keeps : dec_keeps map_codec map_wf.
Proof.
  intros [] cur Hv Hc; try done. cbn [c_dec map_codec]. cbn [jstr_ok] in Hv.
  pose proof (dec_entries_keeps l (default ∅ cur) Hv) as Hd.
  destruct (dec_entries l (default ∅ cur)) as [m ok]. apply Hd. by destruct cur.
Qed.

Lemma dec_fields_keeps {S} (wf : S → bool) (fs : list (field S)) l s :
  (∀ f v s, f ∈ fs → jstr_ok v = true → wf s = true → wf (f_dec f v s).1 = true) →
  forallb (λ kv, utf8_valid kv.1 && jstr_ok kv.2) l = true → wf s = true →
  wf (dec_fields fs l s).1 = true.
Proof.
  intros Hf. revert s. induction l as [|[k v] l IH]; intros s Hl Hs; [done|].
  cbn [forallb fst snd] in Hl. apply andb_prop in Hl as [[_ Hv]%andb_prop Hl]. cbn [dec_fields].
  assert (wf (match find_field fs k with Some f => f_dec f v s | None => (s, true) end).1 = true) as H1.
  { destruct (find_field fs k) as [f|] eqn:E; [|done]. apply List.find_some in E as [E _].
    apply Hf; [by apply list_elem_of_In|done..]. }
  destruct (match find_field fs k with Some f => _ | None => _ end) as [s1 ok].
  specialize (IH s1 Hl H1). by destruct (dec_fields fs l s1).
Qed.

Lemma struct_dec_keeps {S} (wf : S → bool) zero (fs : list (field S)) :
  (∀ f v s, f ∈ fs → jstr_ok v = true → wf s = true → wf (f_dec f v s).1 = true) →
  dec_keeps (struct_codec zero fs) wf.
Proof. intros Hf [] cur Hv Hc; try done. by apply dec_fields_keeps. Qed.

Lemma MemberInfo_dec_keeps : dec_keeps MemberInfo_codec MemberInfo_wf.
Proof.
  apply struct_dec_keeps. intros f v [i a m] Hf Hv. unfold MemberInfo_wf. cbn [ID Addr Meta].
  intros [[Hi Ha]%andb_prop Hm]%andb_prop. rewrite !elem_of_cons, elem_of_nil in Hf.
  destruct Hf as [->|[->|[->|[]]]].
  - pose proof (string_dec_keeps v i Hv Hi) as Hk. cbn [f_dec fld ID].
    destruct (c_dec string_codec v i) as [x ok]. unfold set_ID. cbn [fst ID Addr Meta] in *.
    by rewrite Hk, Ha, Hm.
  - pose proof (string_dec_keeps v a Hv Ha) as Hk. cbn [f_dec fld Addr].
    destruct (c_dec string_codec v a) as [x ok]. unfold set_Addr. cbn [fst ID Addr Meta] in *.
    by rewrite Hk, Hi, Hm.
  - pose proof (map_dec_keeps v m Hv Hm) as Hk. cbn [f_dec fld Meta].
    destruct (c_dec map_codec v m) as [x ok]. unfold set_Meta. cbn [fst ID Addr Meta] in *.
    by rewrite Hk, Hi, Ha.
Qed.

Lemma dec_elems_keeps {A} (c : codec A) wf l cur :
  dec_keeps c wf → wf (c_zero c) = true → forallb jstr_ok l = true → forallb wf cur = true →
  forallb wf (dec_elems c l cur).1 = true.
Proof.
  intros Hc Hz. revert cur. induction l as [|v l IH]; intros cur Hl Hcur; [done|].
  cbn [forallb] in Hl. apply andb_prop in Hl as [Hv Hl]. cbn [dec_elems].
  assert (wf (default (c_zero c) (head cur)) = true ∧ forallb wf (tail cur) = true) as [Hh Ht].
  { destruct cur; [done|]. cbn in *. by apply andb_prop in Hcur. }
  pose proof (Hc v _ Hv Hh) as Ha. destruct (c_dec c v (default (c_zero c) (head cur))) as [a ok].
  specialize (IH (tail cur) Hl Ht). destruct (dec_elems c l (tail cur)) as [as' ok'].
  cbn in *. by rewrite Ha, IH.
Qed.

Lemma slice_dec_keeps {A} (c : codec A) wf :
  dec_keeps c wf → wf (c_zero c) = true → dec_keeps (slice_codec c) (slice_wf wf).
Proof.
  intros Hc Hz [] cur Hv Hcur; try done. cbn [c_dec slice_codec].
  pose proof (dec_elems_keeps c wf l (default [] cur) Hc Hz Hv) as Hd.
  destruct (dec_elems c l (default [] cur)). apply Hd. by destruct cur.
Qed.

Lemma Unmarshal_wf {A} (c : codec A) wf b a :
  dec_keeps c wf → wf (c_zero c) = true → Unmarshal c b = Some a → wf a = true.
Proof.
  intros Hc Hz. unfold Unmarshal, Unmarshal_into. destruct (parse_json b) as [v|] eqn:E; [|done].
  apply parse_json_valid in E. pose proof (Hc v _ E Hz) as Hk.
  destruct (c_dec c v (c_zero c)) as [a' []]; [|done]. by intros [= <-].
Qed.
