(* ===== verification/MemberState.v ===== *)
(** * The replicated membership state

    [pkg/state/state.go] (the interface), [pkg/state/membership/state.go] (the state
    machine kept in memory) and [pkg/consensus/raft/fsm.go] (its adapter for the Raft
    log).  The adapter is written against the interface and proved against its laws; the
    state machine is proved to satisfy them. *)
From S2P Require Import Prelude GoStrings Utf8 Json Types JsonCodec.
From stdpp Require Import options.

(** Why an operation failed: the text of the error is not modelled. *)
Inductive stateErr : Type := ErrEmptyID | ErrJSON.

Global Instance stateErr_eq_dec : EqDecision stateErr.
Proof. solve_decision. Defined.

(** ** The interface *)

Class MembershipState (S : Type) := {
  ApplyAddNode : MemberInfo → S → S * option stateErr;
  ApplyRemoveNode : string → S → S * option stateErr;
  Snapshot : S → bytes * option stateErr;
  Restore : bytes → S → S * option stateErr;
}.

(** What the interface promises its client: [view] is the membership a state stands
    for, and [ok] what its operations maintain. *)
Class MembershipStateLaws (S : Type) `{MembershipState S}
    (ok : S → Prop) (view : S → gmap string MemberInfo) : Prop := {
  add_view n s :
    ApplyAddNode n s = (s, Some ErrEmptyID) ∧ ID n = EmptyString ∨
    (ApplyAddNode n s).2 = None ∧ ID n ≠ EmptyString ∧ view (ApplyAddNode n s).1 = <[ID n := n]> (view s);
  add_ok n s : MemberInfo_wf n = true → ok s → ok (ApplyAddNode n s).1;
  remove_view id s :
    ApplyRemoveNode id s = (s, Some ErrEmptyID) ∧ id = EmptyString ∨
    (ApplyRemoveNode id s).2 = None ∧ id ≠ EmptyString ∧
      view (ApplyRemoveNode id s).1 = delete id (view s);
  remove_ok id s : ok s → ok (ApplyRemoveNode id s).1;
  restore_ok b s : ok s → ok (Restore b s).1;
  restore_view b s s' :
    (Restore b s).2 = (Restore b s').2 ∧
    ((Restore b s).2 = None → view (Restore b s).1 = view (Restore b s').1) ∧
    ((Restore b s).2 ≠ None → (Restore b s).1 = s);
  snapshot_restore s s' :
    ok s → (Snapshot s).2 = None ∧ (Restore (Snapshot s).1 s').2 = None ∧
      view (Restore (Snapshot s).1 s').1 = view s;
}.

(** ** The state machine *)

Module State.

(** The map of the members by identifier. *)
Record State := mkState { members : gmap string MemberInfo }.

Definition New : State := mkState ∅.

Definition applyAddNode (n : MemberInfo) (s : State) : State * option stateErr :=
  if decide (ID n = EmptyString) then (s, Some ErrEmptyID)
  else (mkState (<[ID n := n]> (members s)), None).

Definition applyRemoveNode (nodeID : string) (s : State) : State * option stateErr :=
  if decide (nodeID = EmptyString) then (s, Some ErrEmptyID)
  else (mkState (delete nodeID (members s)), None).

(** The structure that is written: a version and the members. *)
Record snapshotData := mkSnapshot { sn_version : Z; sn_members : option (list MemberInfo) }.

Definition snapshot_codec : codec snapshotData :=
  struct_codec (mkSnapshot 0 None)
    [fld "version" int_codec sn_version (λ x s, mkSnapshot x (sn_members s));
     fld "members" (slice_codec MemberInfo_codec) sn_members (λ x s, mkSnapshot (sn_version s) x)].

(** The order of [sort.Slice]. *)
Definition id_le (m m' : MemberInfo) : Prop := str_le (ID m) (ID m').

Global Instance id_le_dec m m' : Decision (id_le m m').
Proof. unfold id_le. apply _. Defined.

(** [snapshot] with the members in the order [arr] in which the loop over the map met
    them. *)
Definition snapshot_of (arr : list MemberInfo) : bytes :=
  Marshal snapshot_codec (mkSnapshot 1 (Some (merge_sort id_le arr))).

Definition snapshot (s : State) : bytes * option stateErr :=
  (snapshot_of (map_to_list (members s)).*2, None).

(** The loop of [Restore]. *)
Definition restore_members (l : list MemberInfo) : gmap string MemberInfo :=
  foldl (λ m v, if decide (ID v = EmptyString) then m else <[ID v := v]> m) ∅ l.

Definition restore (buf : bytes) (s : State) : State * option stateErr :=
  match Unmarshal snapshot_codec buf with
  | None => (s, Some ErrJSON)
  | Some sn => (mkState (restore_members (default [] (sn_members sn))), None)
  end.

Global Instance State_ops : MembershipState State := {
  ApplyAddNode := applyAddNode;
  ApplyRemoveNode := applyRemoveNode;
  Snapshot := snapshot;
  Restore := restore;
}.

(** *** Invariant *)

(** Every member is stored under its identifier, which is not empty, and consists of
    valid UTF-8. *)
Definition state_ok (s : State) : Prop :=
  ∀ k m, members s !! k = Some m → k = ID m ∧ k ≠ EmptyString ∧ MemberInfo_wf m = true.

Lemma New_ok : state_ok New.
Proof. intros k m. cbn. by rewrite lookup_empty. Qed.

Lemma applyAddNode_ok n s : MemberInfo_wf n = true → state_ok s → state_ok (applyAddNode n s).1.
Proof.
  intros Hn Hs. unfold applyAddNode. case_decide; [done|]. intros k m. cbn [members fst].
  intros [[<- <-]|[_ ?]]%lookup_insert_Some; [done|by apply Hs].
Qed.

Lemma applyRemoveNode_ok id s : state_ok s → state_ok (applyRemoveNode id s).1.
Proof.
  intros Hs. unfold applyRemoveNode. case_decide; [done|]. intros k m. cbn [members fst].
  intros [_ ?]%lookup_delete_Some. by apply Hs.
Qed.

Lemma restore_members_spec l k m :
  restore_members l !! k = Some m → m ∈ l ∧ k = ID m ∧ k ≠ EmptyString.
Proof.
  unfold restore_members. assert (∀ (acc : gmap string MemberInfo),
    foldl (λ m v, if decide (ID v = EmptyString) then m else <[ID v := v]> m) acc l !! k = Some m →
    acc !! k = Some m ∨ m ∈ l ∧ k = ID m ∧ k ≠ EmptyString) as H.
  { induction l as [|v l IH]; intros acc Hk; [by left|]. cbn [foldl] in Hk.
    apply IH in Hk as [Hk|?]; [|set_solver]. case_decide; [by left|].
    apply lookup_insert_Some in Hk as [[<- <-]|[_ Hk]]; [|by left]. set_solver. }
  intros [Hk|?]%H; [by rewrite lookup_empty in Hk|done].
Qed.

(** Restoring a list of members with distinct, non-empty identifiers. *)
Lemma restore_members_NoDup l :
  NoDup (ID <$> l) → (∀ m, m ∈ l → ID m ≠ EmptyString) →
  restore_members l = list_to_map ((λ m, (ID m, m)) <$> l).
Proof.
  unfold restore_members. intros Hnd Hne.
  assert (∀ acc : gmap string MemberInfo, (∀ m, m ∈ l → acc !! ID m = None) →
    foldl (λ m v, if decide (ID v = EmptyString) then m else <[ID v := v]> m) acc l =
    list_to_map ((λ m, (ID m, m)) <$> l) ∪ acc) as H.
  { induction l as [|v l IH]; intros acc Hacc.
    - cbn. by rewrite (left_id_L ∅ (∪)).
    - cbn [fmap list_fmap] in Hnd. apply NoDup_cons in Hnd as [Hv Hnd]. cbn [foldl].
      rewrite decide_False by (apply Hne; set_solver). rewrite IH; [|done|set_solver|].
      + cbn. rewrite <-insert_union_l. symmetry. apply insert_union_r.
        apply not_elem_of_list_to_map_1. rewrite <-list_fmap_compose. done.
      + intros m Hm. rewrite lookup_insert_ne; [apply Hacc; set_solver|].
        intros E. apply Hv. rewrite E. by apply list_elem_of_fmap_2. }
  rewrite H; [by rewrite (right_id_L ∅ (∪))|]. intros. apply lookup_empty.
Qed.

(** *** Snapshots *)

Definition snapshot_wf (s : snapshotData) : bool :=
  nat63_wf (sn_version s) && slice_wf MemberInfo_wf (sn_members s).

Global Instance snapshot_codec_ok : CodecOk snapshot_codec snapshot_wf 4.
Proof.
  split; intros [v ms]; unfold snapshot_wf; cbn [sn_version sn_members]; intros; split_wf.
  - cbn -[int_codec slice_codec utf8_valid].
    rewrite (enc_jwf (c:=int_codec) v), (enc_jwf (c:=slice_codec MemberInfo_codec) ms) by done. done.
  - cbn -[int_codec slice_codec Z.max]. pose proof (enc_depth (c:=int_codec) v).
    pose proof (enc_depth (c:=slice_codec MemberInfo_codec) ms). lia.
  - eval_struct. change (match ParseInt (FormatInt v) with Some n => (n, true) | None => (0%Z, false) end)
      with (c_dec int_codec (c_enc int_codec v) (c_zero int_codec)).
    rewrite (dec_enc (c:=int_codec) v) by done. eval_struct.
    by erewrite (dec_slice MemberInfo_codec) by (done || apply _).
Qed.

Lemma snapshot_dec_keeps :
  dec_keeps snapshot_codec (λ s, slice_wf MemberInfo_wf (sn_members s)).
Proof.
  apply struct_dec_keeps. intros f v [n ms] Hf Hv Hms. cbn [sn_members] in Hms.
  rewrite !elem_of_cons, elem_of_nil in Hf. destruct Hf as [->|[->|[]]]; cbn [f_dec fld sn_version sn_members].
  - by destruct (c_dec int_codec v n).
  - pose proof (slice_dec_keeps _ _ MemberInfo_dec_keeps eq_refl v ms Hv Hms) as Hk.
    by destruct (c_dec (slice_codec MemberInfo_codec) v ms).
Qed.

Lemma restore_state_ok buf s : state_ok s → state_ok (restore buf s).1.
Proof.
  intros Hs. unfold restore. destruct (Unmarshal snapshot_codec buf) as [sn|] eqn:E; [|done].
  apply (Unmarshal_wf _ _ _ _ snapshot_dec_keeps eq_refl) in E. intros k m.
  cbn [members fst]. intros (Hm & -> & Hne)%restore_members_spec. split_and!; [done..|].
  destruct (sn_members sn) as [l|]; [|set_solver]. by eapply forallb_elem.
Qed.

(** The members of a state, in any order. *)
Lemma members_NoDup s arr :
  state_ok s → arr ≡ₚ (map_to_list (members s)).*2 → NoDup (ID <$> arr).
Proof.
  intros Hs ->. assert (ID <$> (map_to_list (members s)).*2 = (map_to_list (members s)).*1) as ->.
  { rewrite <-list_fmap_compose. apply list_fmap_ext. intros i [k m] Hi. simpl.
    apply list_elem_of_lookup_2, elem_of_map_to_list in Hi. by apply Hs in Hi as [-> _]. }
  apply NoDup_fst_map_to_list.
Qed.

Lemma members_elem s arr m :
  state_ok s → arr ≡ₚ (map_to_list (members s)).*2 → m ∈ arr →
  members s !! ID m = Some m ∧ ID m ≠ EmptyString ∧ MemberInfo_wf m = true.
Proof.
  intros Hs -> ([k m'] & -> & Hin)%list_elem_of_fmap. apply elem_of_map_to_list in Hin. simpl.
  destruct (Hs k m' Hin) as (-> & ? & ?). done.
Qed.

Lemma restore_members_perm s arr :
  state_ok s → arr ≡ₚ (map_to_list (members s)).*2 → restore_members arr = members s.
Proof.
  intros Hs Hp. rewrite restore_members_NoDup.
  - apply map_eq. intros k. apply option_eq. intros m.
    rewrite <-elem_of_list_to_map.
    + rewrite list_elem_of_fmap. split.
      * intros (m' & [= -> ->] & Hm'). by eapply members_elem.
      * intros Hk. exists m. destruct (Hs k m Hk) as (-> & _). split; [done|]. rewrite Hp.
        apply list_elem_of_fmap. exists (ID m, m). split; [done|]. by apply elem_of_map_to_list.
    + rewrite <-list_fmap_compose. by eapply members_NoDup.
  - by eapply members_NoDup.
  - intros m Hm. by eapply members_elem.
Qed.

Lemma restore_snapshot_of s s' arr :
  state_ok s → arr ≡ₚ (map_to_list (members s)).*2 → restore (snapshot_of arr) s' = (s, None).
Proof.
  intros Hs Hp. assert (merge_sort id_le arr ≡ₚ arr) as Hsort by apply merge_sort_Permutation.
  unfold restore, snapshot_of. erewrite Unmarshal_Marshal; [|apply _|done|].
  - cbn. rewrite restore_members_perm with (s:=s); [by destruct s|done|]. by rewrite Hsort.
  - unfold snapshot_wf. cbn [sn_version sn_members slice_wf].
    apply andb_true_intro. split; [done|]. apply List.forallb_forall. intros m Hm%list_elem_of_In.
    rewrite Hsort in Hm. by eapply members_elem.
Qed.

(** Two sorted listings of the members are the same. *)
Lemma sorted_members_unique s l1 l2 :
  state_ok s → l1 ≡ₚ (map_to_list (members s)).*2 → l2 ≡ₚ l1 →
  Sorted id_le l1 → Sorted id_le l2 → l1 = l2.
Proof.
  intros Hs Hp1 Hp2 Hs1 Hs2.
  assert (Transitive id_le) by (intros m1 m2 m3; unfold id_le; apply str_le_trans).
  apply (Sorted_unique_strong id_le); [|done..].
  intros m1 m2 H1 H2 Hle Hge. assert (ID m1 = ID m2) as E by by apply (anti_symm str_le).
  rewrite Hp2 in H2. apply (members_elem s l1) in H1 as [H1 _], H2 as [H2 _]; [|done..]. congruence.
Qed.

Global Instance State_laws : MembershipStateLaws State state_ok members.
Proof.
  split.
  - intros n s. cbn. unfold applyAddNode. case_decide; [by left|right]. done.
  - apply applyAddNode_ok.
  - intros id s. cbn. unfold applyRemoveNode. case_decide; [by left|right]. done.
  - apply applyRemoveNode_ok.
  - apply restore_state_ok.
  - intros b s s'. cbn. unfold restore. by case_match.
  - intros s s' Hs.
    change (Restore (Snapshot s).1 s') with (restore (snapshot_of (map_to_list (members s)).*2) s').
    by rewrite (restore_snapshot_of s).
Qed.

(** The snapshot of a state does not depend on the order in which the loop visits
    the map nor on how [sort.Slice] orders equal elements: every listing of the members
    that is sorted by identifier is written as the same bytes. *)
Theorem snapshot_deterministic s arr sorted :
  state_ok s → arr ≡ₚ (map_to_list (members s)).*2 → sorted ≡ₚ arr → Sorted id_le sorted →
  Marshal snapshot_codec (mkSnapshot 1 (Some sorted)) = (snapshot s).1.
Proof.
  intros Hs Hp Hp' Hsort. cbn [snapshot fst]. unfold snapshot_of.
  assert (∀ x y, id_le x y ∨ id_le y x) as Htot by (intros x y; apply str_le_total).
  rewrite <-(sorted_members_unique s (merge_sort id_le (map_to_list (members s)).*2) sorted); [done|done|..].
  - apply merge_sort_Permutation.
  - rewrite merge_sort_Permutation. by rewrite <-Hp.
  - by apply Sorted_merge_sort.
  - done.
Qed.

End State.

(** ** The adapter for the Raft log *)

Inductive fsmErr : Type := FState (e : stateErr) | FRead.

Section FSM.
  Set Default Proof Using "Type*".
  Context {S : Type} {ok : S → Prop} {view : S → gmap string MemberInfo}.
  Context `{Hlaws : MembershipStateLaws S ok view}.

(** [Apply] on the data of a log entry. *)
Definition fsm_Apply (data : bytes) (s : S) : S * option stateErr :=
  match Unmarshal Command_codec data with
  | None => (s, Some ErrJSON)
  | Some cmd =>
      let payload := default EmptyString (Payload cmd) in
      if decide (Op cmd = "AddNode") then
        match Unmarshal MemberInfo_codec payload with
        | None => (s, Some ErrJSON)
        | Some mi => ApplyAddNode mi s
        end
      else if decide (Op cmd = "RemoveNode") then
        match Unmarshal RemoveReq_codec payload with
        | None => (s, Some ErrJSON)
        | Some id => ApplyRemoveNode id s
        end
      else (s, None)
  end.

(** [Snapshot]: the bytes [Persist] will write. *)
Definition fsm_Snapshot (s : S) : gores bytes :=
  match Snapshot s with
  | (blob, None) => Ok blob
  | (_, Some _) => Err "snapshot"
  end.

(** [Restore]: [rc] is what reading the whole of the stored snapshot yields. *)
Definition fsm_Restore (rc : gores bytes) (s : S) : S * option fsmErr :=
  match rc with
  | Err _ => (s, Some FRead)
  | Ok data => let '(s', e) := Restore data s in (s', FState <$> e)
  end.

(** The committed log, entry by entry. *)
Definition fsm_replay (log : list bytes) (s : S) : S :=
  foldl (λ s data, (fsm_Apply data s).1) s log.

(** What a log entry does to a membership, whatever implements it. *)
Inductive entry : Type := EAdd (mi : MemberInfo) | ERemove (id : string) | ENone.

Definition entry_of (data : bytes) : entry :=
  match Unmarshal Command_codec data with
  | None => ENone
  | Some cmd =>
      let payload := default EmptyString (Payload cmd) in
      if decide (Op cmd = "AddNode") then
        match Unmarshal MemberInfo_codec payload with
        | Some mi => if decide (ID mi = EmptyString) then ENone else EAdd mi
        | None => ENone
        end
      else if decide (Op cmd = "RemoveNode") then
        match Unmarshal RemoveReq_codec payload with
        | Some id => if decide (id = EmptyString) then ENone else ERemove id
        | None => ENone
        end
      else ENone
  end.

Definition entry_apply (e : entry) (m : gmap string MemberInfo) : gmap string MemberInfo :=
  match e with
  | EAdd mi => <[ID mi := mi]> m
  | ERemove id => delete id m
  | ENone => m
  end.

Lemma fsm_Apply_view data s : view (fsm_Apply data s).1 = entry_apply (entry_of data) (view s).
Proof.
  unfold fsm_Apply, entry_of. destruct (Unmarshal Command_codec data) as [cmd|]; [|done].
  case_decide; [|case_decide; [|done]].
  - destruct (Unmarshal MemberInfo_codec _) as [mi|]; [|done].
    destruct (add_view mi s) as [[-> ->]|(_ & Hne & ->)]; [done|by rewrite decide_False].
  - destruct (Unmarshal RemoveReq_codec _) as [id|]; [|done].
    destruct (remove_view id s) as [[-> ->]|(_ & Hne & ->)]; [done|by rewrite decide_False].
Qed.

Lemma fsm_Apply_ok data s : ok s → ok (fsm_Apply data s).1.
Proof.
  intros Hs. unfold fsm_Apply. destruct (Unmarshal Command_codec data) as [cmd|]; [|done].
  case_decide; [|case_decide; [|done]].
  - destruct (Unmarshal MemberInfo_codec _) as [mi|] eqn:E; [|done]. apply add_ok; [|done].
    by eapply (Unmarshal_wf _ _ _ _ MemberInfo_dec_keeps).
  - destruct (Unmarshal RemoveReq_codec _) as [id|]; [|done]. by apply remove_ok.
Qed.

Lemma fsm_replay_view log s :
  view (fsm_replay log s) = foldl (λ m data, entry_apply (entry_of data) m) (view s) log.
Proof.
  revert s. induction log as [|data log IH]; intros s; [done|].
  change (fsm_replay (data :: log) s) with (fsm_replay log (fsm_Apply data s).1).
  by rewrite IH, fsm_Apply_view.
Qed.

Lemma fsm_replay_ok log s : ok s → ok (fsm_replay log s).
Proof. revert s. induction log as [|data log IH]; intros s Hs; [done|]. apply IH. by apply fsm_Apply_ok. Qed.

Lemma fsm_snapshot_restore s s' :
  ok s → ∃ blob, fsm_Snapshot s = Ok blob ∧ (fsm_Restore (Ok blob) s').2 = None ∧
    view (fsm_Restore (Ok blob) s').1 = view s.
Proof.
  intros Hs. destruct (snapshot_restore s s' Hs) as (H1 & H2 & H3). unfold fsm_Snapshot.
  destruct (Snapshot s) as [blob e]. cbn in H1, H2, H3. subst e. exists blob.
  cbn. destruct (Restore blob s') as [s1 e]. cbn in *. by subst e.
Qed.

(** C2. Against the interface: a replica that restores a snapshot taken after any prefix
    of the log and replays the rest, starting from whatever state it had, has the same
    membership as a replica that applied the whole log. *)
Theorem fsm_snapshot_prefix s0 s' log1 log2 :
  ok s0 →
  ∃ blob, fsm_Snapshot (fsm_replay log1 s0) = Ok blob ∧
    (fsm_Restore (Ok blob) s').2 = None ∧
    view (fsm_replay log2 (fsm_Restore (Ok blob) s').1) = view (fsm_replay (log1 ++ log2) s0).
Proof.
  intros Hs. destruct (fsm_snapshot_restore (fsm_replay log1 s0) s') as (blob & H1 & H2 & H3).
  { by apply fsm_replay_ok. }
  exists blob. split_and!; [done..|]. rewrite !fsm_replay_view, H3, fsm_replay_view.
  by rewrite foldl_app.
Qed.

(** An entry for which [Apply] reports an error leaves the state unchanged: bytes
    that are no command, a payload that is no member, an empty identifier. *)
Theorem fsm_error_unchanged data s e : (fsm_Apply data s).2 = Some e → (fsm_Apply data s).1 = s.
Proof.
  unfold fsm_Apply. destruct (Unmarshal Command_codec data) as [cmd|]; [|done].
  case_decide; [|case_decide; [|done]].
  - destruct (Unmarshal MemberInfo_codec _) as [mi|]; [|done].
    destruct (add_view mi s) as [[-> _]|(Hn & _)]; [done|congruence].
  - destruct (Unmarshal RemoveReq_codec _) as [id|]; [|done].
    destruct (remove_view id s) as [[-> _]|(Hn & _)]; [done|congruence].
Qed.

End FSM.

(** The operations on the sink of a snapshot and how they end. *)
Inductive sinkOp : Type := SinkWrite (b : bytes) | SinkCancel | SinkClose.

(** [Persist], given the outcomes of [Write] and [Close]. *)
Definition Persist (blob : bytes) (write_err close_err : option string) : list sinkOp * option string :=
  match write_err with
  | Some e => ([SinkWrite blob; SinkCancel], Some e)
  | None => ([SinkWrite blob; SinkClose], close_err)
  end.

(** ** The state machine behind the adapter *)

(** A log entry as [applyAddNode] and [Node.Apply] write it. *)
Definition addNode_entry (mi : MemberInfo) : bytes :=
  Marshal Command_codec (mkCommand "AddNode" (Some (Marshal MemberInfo_codec mi))).

Definition removeNode_entry (id : string) : bytes :=
  Marshal Command_codec (mkCommand "RemoveNode" (Some (Marshal RemoveReq_codec id))).

Lemma Command_roundtrip c : Command_wf c = true → Unmarshal Command_codec (Marshal Command_codec c) = Some c.
Proof. intros. by eapply (Unmarshal_Marshal _ _ _ _ Command_codec_ok). Qed.

(** What the leader writes is what every replica does: an entry written for a member
    or an identifier of valid UTF-8 has exactly the effect of adding or removing it, and
    is refused, without effect, when the identifier is empty. *)
Theorem entry_effect mi nid (s : State.State) :
  MemberInfo_wf mi = true → utf8_valid nid = true →
  fsm_Apply (addNode_entry mi) s = State.applyAddNode mi s ∧
  fsm_Apply (removeNode_entry nid) s = State.applyRemoveNode nid s.
Proof.
  intros Hmi Hid. unfold fsm_Apply, addNode_entry, removeNode_entry.
  rewrite !Command_roundtrip by done. cbn [Op Payload default from_option].
  rewrite decide_True by done. rewrite decide_False by done. rewrite decide_True by done.
  cbn [id from_option]. erewrite (Unmarshal_Marshal MemberInfo_codec), (Unmarshal_Marshal RemoveReq_codec);
    [done|apply _|done|done|apply _|done|done].
Qed.

(** The states the Raft library can bring the machine to: entries and snapshots with
    arbitrary bytes. *)
Inductive fsm_reach : State.State → Prop :=
  | reach_new : fsm_reach State.New
  | reach_apply data s : fsm_reach s → fsm_reach (fsm_Apply data s).1
  | reach_restore rc s : fsm_reach s → fsm_reach (fsm_Restore rc s).1.

Lemma fsm_reach_ok s : fsm_reach s → State.state_ok s.
Proof.
  induction 1 as [|data s _ IH|[b|e] s _ IH]; [apply State.New_ok|by apply fsm_Apply_ok| |done].
  cbn [fsm_Restore]. pose proof (restore_ok b s IH) as Hk. by destruct (Restore b s).
Qed.

(** C22. Every state the log can lead to, by entries and snapshots of arbitrary bytes,
    survives a snapshot: restoring it gives back exactly the same state, whatever was
    there before. *)
Theorem reachable_snapshot_roundtrip s s' :
  fsm_reach s → fsm_Restore (Ok (State.snapshot s).1) s' = (s, None).
Proof.
  intros Hs%fsm_reach_ok. cbn [fsm_Restore]. cbn [State.snapshot fst].
  change (Restore ?b s') with (State.restore b s').
  by rewrite (State.restore_snapshot_of s).
Qed.

(** ** Witnesses *)

Definition node_a : MemberInfo := mkMember "a" "10.0.0.1:7946" (Some {["mgmt" := "10.0.0.1:17946"]}).
Definition node_b : MemberInfo := mkMember "b" "10.0.0.2:7946" None.
Definition state_ab : State.State :=
  fsm_replay [addNode_entry node_a; addNode_entry node_b] State.New.

Lemma state_ab_reach : fsm_reach state_ab.
Proof. repeat constructor. Qed.

Lemma snapshot_deterministic_witness :
  Marshal State.snapshot_codec (State.mkSnapshot 1 (Some [node_a; node_b])) = (State.snapshot state_ab).1.
Proof.
  apply (State.snapshot_deterministic state_ab [node_b; node_a] [node_a; node_b]).
  - apply fsm_reach_ok, state_ab_reach.
  - assert ((map_to_list (State.members state_ab)).*2 ≡ₚ [node_a; node_b]) as -> by (vm_compute; apply perm_swap || reflexivity).
    apply perm_swap.
  - apply perm_swap.
  - repeat constructor.
Defined.

Lemma fsm_snapshot_prefix_witness :
  ∃ blob, fsm_Snapshot (fsm_replay [addNode_entry node_a] State.New) = Ok blob ∧
    State.members (fsm_replay [addNode_entry node_b] (fsm_Restore (Ok blob) State.New).1) =
    State.members state_ab.
Proof.
  destruct (fsm_snapshot_prefix State.New State.New [addNode_entry node_a] [addNode_entry node_b]
    State.New_ok) as (blob & H1 & _ & H3).
  exists blob. split; [exact H1|exact H3].
Defined.

Lemma fsm_error_unchanged_witness : (fsm_Apply "nonsense" state_ab).1 = state_ab.
Proof. apply (fsm_error_unchanged "nonsense" state_ab ErrJSON). vm_compute. reflexivity. Defined.

Lemma entry_effect_witness :
  fsm_Apply (addNode_entry node_a) State.New = State.applyAddNode node_a State.New ∧
  fsm_Apply (removeNode_entry "b") State.New = State.applyRemoveNode "b" State.New.
Proof. apply (entry_effect node_a "b" State.New); vm_compute; reflexivity. Defined.

Lemma reachable_snapshot_roundtrip_witness :
  fsm_Restore (Ok (State.snapshot state_ab).1) State.New = (state_ab, None).
Proof. apply (reachable_snapshot_roundtrip state_ab State.New state_ab_reach). Defined.
