(* ===== verification/Effects.v ===== *)
(** * Programs over the components' interfaces

    The methods of [Cluster] do their work by calling other components through Go
    interfaces: consensus, membership, the management server and client, the
    application, the event bus.  Such a method is a program whose calls are data, and
    whose continuation takes the answer: between two calls anything may happen in
    another goroutine, so every answer is possible at every call.  [exec] lists the
    calls of an execution with their answers. *)
From S2P Require Import Prelude Metrics Types Logging.
From stdpp Require Import options.

(** ** Calls *)

(** The goroutines [Start] and [Publish] launch. *)
Inductive goroutine : Type :=
  | GoReconcile | GoMembershipEvents | GoReplicationSubscribe | GoReplicationRetry
  | GoElectionWatch | GoLeaderWatch
  | GoPostAppSync (addr : string) (req : AppSyncRequest).

(** An error is [Some text], nil is [None]. *)
Inductive call : Type → Type :=
  (** [consensus.Consensus], [Reconfigurer] *)
  | CConsStart : call (option string)
  | CConsStop : call (option string)
  | CApply (cmd : Command) : call (option string)
  | CIsLeader : call bool
  | CLeader : call (option (string * string))
  | CTerm : call Z
  | CAddVoter (id addr : string) : call (option string)
  | CRemoveServer (id : string) : call (option string)
  (** [membership.Membership], [discovery.Discovery], [transport.Transport] *)
  | CMemStart : call (option string)
  | CMemJoin (seeds : list string) : call (option string)
  | CMembers : call (option (list MemberInfo))
  | CMemLeave : call (option string)
  | CMemStop : call (option string)
  | CSeeds : call (list string)
  | CTransportAddr : call string
  (** [transport.RPCServer] and its optional replication methods *)
  | CSrvStart : call (option string)
  | CSrvAddr : call string
  | CSrvStop : call (option string)
  | CAckedAll : call (option (gmap string Z))
  | CBroadcastWithSeq (topic : string) (data : bytes) (seq : Z) : call Z
  (** [transport.RPCClient] *)
  | CGetStatus (addr : string) : call (gores bytes)
  | CPostJoin (addr : string) (req : JoinRequest) : call (gores JoinResponse)
  | CPostAppWrite (addr : string) (req : AppWriteRequest) : call (gores AppWriteResponse)
  | CSubscribe (addr nodeID : string) : call (option string)
  (** [AppHandlers] and the callbacks of the options *)
  | CHandleWrite (op : string) (data : option bytes) : call (gores (option bytes))
  | CHandleSync (topic : string) (data : option bytes) : call (option string)
  | COnLeaderChange (li : LeaderInfo) : call unit
  | COnElectionStart : call unit
  | COnElectionEnd (li : LeaderInfo) : call unit
  (** the node itself: metrics, the event bus, the replication store, the disk, the
      clock, the context, goroutines, the log and tracing spans *)
  | CRegisterMetrics : call unit
  | CMetricSet (m : metric) (labels : list string) (v : Z) : call unit
  | CMetricInc (m : metric) (labels : list string) : call unit
  | CPublishEvent (ev : Event) : call unit
  | CSeq (topic : string) : call Z
  | CCommit (topic : string) (data : bytes) : call Z
  | CRetryPass (acked : gmap string Z) : call (list (string * bytes * Z))
  | CMkdirAll (dir : string) : call unit
  | CRestoreBuffer (dir : string) : call unit
  | CNow : call Z
  | CWait : call (option string)
  | CGo (g : goroutine) : call unit
  | CLog (x : logLine) : call unit
  | CSpanStart (name : string) : call unit
  | CSpanEnd (name : string) : call unit
  (** the process: the provider of traces, the standard logger and output, and the wait for
      the end of the context *)
  | CTracingSetup : call (option string)
  | CTracingShutdown : call (option string)
  | CStdLog (text : string) : call unit
  | CPrintln (text : string) : call unit
  | CCtxDone : call unit.

(** ** Programs *)

Inductive prog (A : Type) : Type :=
  | Ret (a : A)
  | Vis {X : Type} (c : call X) (k : X → prog A)
  | Panic.
Arguments Ret {A} a.
Arguments Vis {A X} c k.
Arguments Panic {A}.

Fixpoint prog_bind {A B} (f : A → prog B) (p : prog A) : prog B :=
  match p with
  | Ret a => f a
  | Vis c k => Vis c (λ x, prog_bind f (k x))
  | Panic => Panic
  end.

Global Instance prog_ret : MRet prog := λ A a, Ret a.
Global Instance prog_mbind : MBind prog := λ A B f p, prog_bind f p.

(** A single call. *)
Definition ask {X} (c : call X) : prog X := Vis c Ret.

(** A call whose answer is ignored, [_ = f()]. *)
Notation "'do!' c ; p" := (Vis c (λ _, p)) (at level 100, c at level 200, p at level 200, right associativity).

(** A loop over a list whose body is run for its effects. *)
Fixpoint each {A} (f : A → prog unit) (l : list A) : prog unit :=
  match l with
  | [] => Ret ()
  | a :: l' => f a ≫= λ _, each f l'
  end.

(** [ctx, end := tracing.StartSpan(ctx, name); defer end()] around the rest of a method. *)
Definition in_span {A} (name : string) (p : prog A) : prog A :=
  do! CSpanStart name; a ← p; do! CSpanEnd name; Ret a.

(** ** Executions *)

Inductive action : Type :=
  | Act {X : Type} (c : call X) (x : X).

(** [None] is a panic. *)
Fixpoint exec {A} (p : prog A) (tr : list action) (o : option A) : Prop :=
  match p with
  | Ret a => tr = [] ∧ o = Some a
  | Vis c k => ∃ x tr', tr = Act c x :: tr' ∧ exec (k x) tr' o
  | Panic => tr = [] ∧ o = None
  end.

Lemma exec_bind {A B} (p : prog A) (f : A → prog B) tr o :
  exec (p ≫= f) tr o ↔
  (∃ tr1 tr2 a, tr = tr1 ++ tr2 ∧ exec p tr1 (Some a) ∧ exec (f a) tr2 o) ∨
  (o = None ∧ exec p tr None).
Proof.
  revert tr. induction p as [a|X c k IH|]; intros tr; cbn [mbind prog_mbind prog_bind exec].
  - split.
    + intros H. left. by exists [], tr, a.
    + intros [(tr1 & tr2 & a' & -> & [-> Ha] & Hf)|[_ [_ ?]]]; [by simplify_eq|done].
  - split.
    + intros (x & tr' & -> & H). apply IH in H as [(tr1 & tr2 & a & -> & H1 & H2)|[-> H]].
      * left. exists (Act c x :: tr1), tr2, a. split_and!; [done| |done]. by exists x, tr1.
      * right. split; [done|]. by exists x, tr'.
    + intros [(tr1 & tr2 & a & -> & (x & tr' & -> & H1) & H2)|[-> (x & tr' & -> & H)]].
      * exists x, (tr' ++ tr2). split; [done|]. apply IH. left. by exists tr', tr2, a.
      * exists x, tr'. split; [done|]. apply IH. by right.
  - split; [intros [-> ->]; by right|]. by intros [(? & ? & ? & _ & [_ ?] & _)|[-> [-> _]]].
Qed.

(** ** Obligations on every execution *)

(** [obeys owes next w p]: along every execution of [p] from the bookkeeping state [w],
    each call satisfies what [owes] asks of it in the state that [next] has reached. *)
Section obeys.
  Context {W : Type} (owes : ∀ X, call X → W → Prop) (next : ∀ X, call X → X → W → W).

Fixpoint obeys {A} (w : W) (p : prog A) (Q : A → W → Prop) : Prop :=
  match p with
  | Ret a => Q a w
  | Vis c k => owes _ c w ∧ ∀ x, obeys (next _ c x w) (k x) Q
  | Panic => True
  end.

(** The same of the actions of one execution. *)
Fixpoint obeyed (w : W) (tr : list action) : Prop :=
  match tr with
  | [] => True
  | Act c x :: tr' => owes _ c w ∧ obeyed (next _ c x w) tr'
  end.

Fixpoint after (w : W) (tr : list action) : W :=
  match tr with
  | [] => w
  | Act c x :: tr' => after (next _ c x w) tr'
  end.

Lemma obeys_bind {A B} w (p : prog A) (f : A → prog B) Q :
  obeys w p (λ a w', obeys w' (f a) Q) → obeys w (p ≫= f) Q.
Proof.
  revert w. induction p as [a|X c k IH|]; intros w; cbn; [done| |done].
  intros [Ho Hk]. split; [done|]. intros x. apply IH, Hk.
Qed.

Lemma obeys_mono {A} w (p : prog A) (Q Q' : A → W → Prop) :
  (∀ a w', Q a w' → Q' a w') → obeys w p Q → obeys w p Q'.
Proof.
  intros HQ. revert w. induction p as [a|X c k IH|]; intros w; cbn; [apply HQ| |done].
  intros [Ho Hk]. split; [done|]. intros x. apply IH, Hk.
Qed.

Lemma obeys_each {A} w (f : A → prog unit) l (I : W → Prop) :
  (∀ a w', a ∈ l → I w' → obeys w' (f a) (λ _, I)) → I w → obeys w (each f l) (λ _, I).
Proof.
  revert w. induction l as [|a l IH]; intros w Hf Hw; [done|]. cbn [each]. apply obeys_bind.
  eapply obeys_mono; [|apply Hf; [set_solver|done]]. intros [] w' Hw'. apply IH; [|done].
  intros b w'' Hb. apply Hf. set_solver.
Qed.

Lemma obeys_exec {A} w (p : prog A) Q tr o :
  obeys w p Q → exec p tr o → obeyed w tr ∧ ∀ a, o = Some a → Q a (after w tr).
Proof.
  revert w tr. induction p as [a|X c k IH|]; intros w tr; cbn [obeys exec].
  - intros HQ [-> ->]. split; [done|]. by intros ? [= <-].
  - intros [Ho Hk] (x & tr' & -> & H). cbn [obeyed after].
    destruct (IH x _ _ (Hk x) H) as [? ?]. done.
  - intros _ [-> ->]. done.
Qed.
End obeys.

(** ** Calls a program never makes *)

Section avoids.
  Context (bad : ∀ X, call X → bool).

Fixpoint avoids {A} (p : prog A) : Prop :=
  match p with
  | Ret _ | Panic => True
  | Vis c k => bad _ c = false ∧ ∀ x, avoids (k x)
  end.

Definition action_bad (a : action) : bool := match a with Act c _ => bad _ c end.

Lemma avoids_bind {A B} (p : prog A) (f : A → prog B) :
  avoids p → (∀ a, avoids (f a)) → avoids (p ≫= f).
Proof.
  intros Hp Hf. induction p as [a|X c k IH|]; cbn in *; [apply Hf| |done].
  destruct Hp as [Hc Hk]. split; [done|]. intros x. by apply IH.
Qed.

Lemma avoids_each {A} (f : A → prog unit) l : (∀ a, avoids (f a)) → avoids (each f l).
Proof. intros Hf. induction l as [|a l IH]; cbn [each]; [done|]. by apply avoids_bind. Qed.

Lemma avoids_exec {A} (p : prog A) tr out a :
  avoids p → exec p tr out → a ∈ tr → action_bad a = false.
Proof.
  revert tr. induction p as [x|X c k IH|]; intros tr; cbn [avoids exec].
  - intros _ [-> _]. set_solver.
  - intros [Hc Hk] (x & tr' & -> & H) [->|Ha]%elem_of_cons; [done|]. by eapply IH.
  - intros _ [-> _]. set_solver.
Qed.

Lemma avoids_obeys {A W} (owes : ∀ X, call X → W → Prop) (next : ∀ X, call X → X → W → W) w (p : prog A) :
  (∀ X (c : call X) w, bad X c = false → owes X c w) → avoids p → obeys owes next w p (λ _ _, True).
Proof.
  intros Ho. revert w. induction p as [a|X c k IH|]; intros w; cbn; [done| |done].
  intros [Hc Hk]. split; [by apply Ho|]. intros x. apply IH, Hk.
Qed.

(** A program that makes no call of interest keeps the bookkeeping as it is. *)
Lemma avoids_keeps {A W} (owes : ∀ X, call X → W → Prop) (next : ∀ X, call X → X → W → W) w (p : prog A) :
  (∀ X (c : call X), bad X c = false → owes X c w ∧ ∀ x, next X c x w = w) → avoids p →
  obeys owes next w p (λ _ w', w' = w).
Proof.
  intros Ho. induction p as [a|X c k IH|]; cbn; [done| |done].
  intros [Hc Hk]. destruct (Ho X c Hc) as [H1 H2]. split; [done|]. intros x. rewrite H2. by apply IH.
Qed.
End avoids.

(** Walk through a program, checking each call. *)
Ltac avoid :=
  repeat (cbn beta iota;
    match goal with
    | |- avoids _ (each _ _) => apply avoids_each
    | |- avoids _ (in_span _ _) => unfold in_span
    | |- avoids _ (_ ≫= _) => apply avoids_bind
    | |- avoids _ (Vis _ _) => split; [reflexivity|]
    | |- avoids _ (ask _) => split; [reflexivity|]
    | |- avoids _ (Ret _) => exact I
    | |- avoids _ Panic => exact I
    | |- avoids _ (if ?b then _ else _) => destruct b
    | |- avoids _ (match ?x with _ => _ end) => destruct x
    | |- avoids _ (_ match ?x with _ => _ end) => destruct x
    | |- ∀ _, _ => intros ?
    end).
