(* ===== verification/Cluster.v ===== *)
(** * The cluster facade

    [pkg/cluster/cluster.go] and [options.go]: the methods of [Cluster], the handlers
    [Start] gives to the management server and the bodies of its background loops, as
    programs over the components' interfaces ([Effects]).  Time limits of calls are left
    out. *)
From S2P Require Import Prelude GoStrings Metrics Utf8 Json Types JsonCodec Replication Logging Effects.
From stdpp Require Import options.

(** ** Options *)

(** What [Options] holds.  An interface that may be nil, and an optional interface a
    component may implement, is a boolean: the calls themselves are in [Effects]. *)
Record Options := mkOptions {
  NodeID : string;
  has_transport : bool;
  has_discovery : bool;
  has_logger : bool;
  has_cons : bool;
  cons_reconfigurer : bool;
  cons_notifier : bool;
  has_mem : bool;
  has_rpcS : bool;
  rpcS_acks : bool;
  rpcS_broadcast : bool;
  has_rpcC : bool;
  rpcC_subscribe : bool;
  has_app : bool;
  ReplWindow : Z;
  ReplBufferDir : string;
  has_OnLeaderChange : bool;
  has_OnElectionStart : bool;
  has_OnElectionEnd : bool;
}.

Definition Validate (o : Options) : option string :=
  if decide (NodeID o = EmptyString) then Some "cluster: empty NodeID"
  else if negb (has_transport o) then Some "cluster: nil Transport"
  else if negb (has_discovery o) then Some "cluster: nil Discovery"
  else if negb (has_logger o) then Some "cluster: nil Logger"
  else if negb (has_mem o) then Some "cluster: nil Membership"
  else None.

(** ** State *)

(** The flags of [run] and [el]; the options do not change.  The replication store and
    the event bus are components of their own ([Replication], [EventBus]). *)
Record Cluster := mkCluster {
  opts : Options;
  started : bool;
  closed : bool;
  hadLeader : bool;
  inProgress : bool;
}.

Definition New (o : Options) : gores Cluster :=
  match Validate o with
  | Some e => Err e
  | None => Ok (mkCluster o false false false false)
  end.

Definition ErrNotLeader : string := "cluster: not leader".

(** ** Looking up a member *)

(** The management address of the metadata, else the gossip address. *)
Definition mgmt_addr (m : MemberInfo) : string :=
  match Meta m with
  | Some meta => let mgmt := default EmptyString (meta !! "mgmt") in
                 if decide (mgmt = EmptyString) then Addr m else mgmt
  | None => Addr m
  end.

Fixpoint find_member (id : string) (ms : list MemberInfo) : string :=
  match ms with
  | [] => EmptyString
  | m :: ms' => if decide (ID m = id) then mgmt_addr m else find_member id ms'
  end.

Definition lookupMemberAddr (o : Options) (id : string) : prog string :=
  if has_mem o then ms ← ask CMembers; Ret (find_member id (default [] ms))
  else Ret EmptyString.

(** [if id, _, ok := c.cons.Leader(); ok { leaderMgmt = c.lookupMemberAddr(id) }]. *)
Definition leaderMgmt (o : Options) : prog string :=
  l ← ask CLeader;
  match l with
  | Some (id, _) => lookupMemberAddr o id
  | None => Ret EmptyString
  end.

(** The guard [c.cons == nil || !c.cons.IsLeader()], negated. *)
Definition isLeader (o : Options) : prog bool :=
  if has_cons o then ask CIsLeader else Ret false.

(** ** Writing to the log *)

Definition applyAddNode (o : Options) (mi : MemberInfo) : prog unit :=
  led ← isLeader o;
  if led : bool
  then do! CApply (mkCommand "AddNode" (Some (Marshal MemberInfo_codec mi))); Ret ()
  else Ret ().

Definition applyRemoveNode (o : Options) (id : string) : prog unit :=
  led ← isLeader o;
  if led : bool
  then do! CApply (mkCommand "RemoveNode" (Some (Marshal RemoveReq_codec id))); Ret ()
  else Ret ().

Definition removeServer (o : Options) (id : string) : prog unit :=
  led ← isLeader o;
  if led : bool
  then if cons_reconfigurer o then
         e ← ask (CRemoveServer id);
         match e with
         | Some err => do! CLog (LRemoveVoterFailed id err); Ret ()
         | None => do! CLog (LRemovedVoter id); Ret ()
         end
       else Ret ()
  else Ret ().

(** ** Starting and stopping *)

(** The part of [Start] for each component, with the error that ends it. *)
Definition start_buffer (o : Options) : prog unit :=
  if decide (ReplBufferDir o = EmptyString) then Ret ()
  else do! CMkdirAll (ReplBufferDir o); do! CRestoreBuffer (ReplBufferDir o); Ret ().

Definition start_mem (o : Options) : prog (option string) :=
  if has_mem o then
    e ← ask CMemStart;
    match e with
    | Some err => Ret (Some err)
    | None =>
        seeds ← ask CSeeds;
        match seeds with
        | [] => Ret None
        | _ => do! CLog (LJoiningSeeds seeds); do! CMemJoin seeds; Ret None
        end
    end
  else Ret None.

Definition start_cons (o : Options) : prog (option string) :=
  if has_cons o then
    e ← ask CConsStart;
    match e with
    | Some err => Ret (Some err)
    | None =>
        do! CGo GoReconcile; do! CGo GoMembershipEvents; do! CGo GoReplicationSubscribe;
        do! CGo GoReplicationRetry; do! CGo GoElectionWatch;
        if cons_notifier o then do! CGo GoLeaderWatch; Ret None else Ret None
    end
  else Ret None.

Definition start_rpcS (o : Options) : prog (option string) :=
  if has_rpcS o then
    e ← ask CSrvStart;
    match e with
    | Some err => Ret (Some err)
    | None => addr ← ask CSrvAddr; do! CLog (LListening addr); Ret None
    end
  else Ret None.

(** [e] ends the method, else the rest follows. *)
Definition or_else (p q : prog (option string)) : prog (option string) :=
  e ← p; match e with Some err => Ret (Some err) | None => q end.

Definition Start (c : Cluster) : prog (option string * Cluster) :=
  if started c then Ret (None, c) else
  let o := opts c in
  let c' := mkCluster o true (closed c) (hadLeader c) (inProgress c) in
  do! CRegisterMetrics;
  _ ← start_buffer o;
  e ← or_else (start_mem o) (or_else (start_cons o) (start_rpcS o));
  Ret (e, c').

Definition Stop (c : Cluster) : prog (option string * Cluster) :=
  if closed c then Ret (None, c) else
  let o := opts c in
  let c' := mkCluster o (started c) true (hadLeader c) (inProgress c) in
  _ ← (if has_cons o then do! CConsStop; Ret () else Ret ());
  _ ← (if has_mem o then do! CMemLeave; do! CMemStop; Ret () else Ret ());
  _ ← (if has_rpcS o then do! CSrvStop; Ret () else Ret ());
  Ret (None, c').

(** [Close] is [Stop] with a context that does not end. *)
Definition Close (c : Cluster) : prog (option string * Cluster) := Stop c.

(** [LeaderCh]: the channel of the consensus engine, when it notifies of leaders. *)
Definition LeaderCh {A} (o : Options) (ch : A) : option A :=
  if has_cons o && cons_notifier o then Some ch else None.

(** ** Joining *)

(** What the seed's status says of the leader, or the seed itself. *)
Definition leader_of_status (fallback : string) (r : gores bytes) : string :=
  match r with
  | Ok data =>
      match Unmarshal ClusterStatus_codec data with
      | Some st => if decide (LeaderAddr st = EmptyString) then fallback else LeaderAddr st
      | None => fallback
      end
  | Err _ => fallback
  end.

Definition join_result (r : gores JoinResponse) : option string :=
  match r with
  | Err e => Some e
  | Ok resp =>
      if jp_accepted resp then None
      else if decide (jp_error resp = "not leader") then Some ErrNotLeader
      else if decide (jp_error resp = EmptyString) then Some "cluster: join rejected"
      else Some (jp_error resp)
  end.

Definition join_at (o : Options) (addr : string) : prog (option string) :=
  if decide (addr = EmptyString) then Ret (Some "cluster: cannot resolve leader management address")
  else
    raft ← ask CTransportAddr;
    r ← ask (CPostJoin addr (mkJoinRequest (NodeID o) raft));
    Ret (join_result r).

Definition Join (o : Options) (seedLeader : string) : prog (option string) :=
  if has_rpcC o then
    if decide (seedLeader = EmptyString) then
      if has_cons o then addr ← leaderMgmt o; join_at o addr
      else Ret (Some "cluster: no consensus to discover leader")
    else
      r ← ask (CGetStatus seedLeader);
      join_at o (leader_of_status seedLeader r)
  else Ret (Some "cluster: no RPC client configured").

Definition handleJoin (o : Options) (req : JoinRequest) : prog JoinResponse :=
  in_span "cluster.handleJoin" (
    led ← isLeader o;
    if led : bool then
      e ← (if cons_reconfigurer o then ask (CAddVoter (jr_id req) (jr_raftAddr req)) else Ret None);
      match e with
      | Some err =>
          do! CLog (LAddVoterFailed (jr_id req) (jr_raftAddr req) err);
          Ret (mkJoinResponse false EmptyString err)
      | None =>
          do! CMetricInc JoinRequests ["accepted"];
          do! CLog (LJoinAccepted (jr_id req) (jr_raftAddr req));
          Ret (mkJoinResponse true EmptyString EmptyString)
      end
    else
      hint ← (if has_cons o then leaderMgmt o else Ret EmptyString);
      do! CMetricInc JoinRequests ["rejected"];
      do! CLog (LJoinRejected (jr_id req));
      Ret (mkJoinResponse false hint "not leader")).

Definition handleLeave (o : Options) (req : LeaveRequest) : prog LeaveResponse :=
  in_span "cluster.handleLeave" (
    led ← isLeader o;
    if led : bool then
      _ ← removeServer o (lr_id req);
      _ ← applyRemoveNode o (lr_id req);
      do! CLog (LLeaveAccepted (lr_id req));
      Ret (mkLeaveResponse true EmptyString)
    else do! CLog (LLeaveRejected (lr_id req)); Ret (mkLeaveResponse false "not leader")).

(** ** Status *)

(** The local view: the members and the gauges. *)
Definition status_local (o : Options) (healthy : bool) (term : Z) (leader addr : string) : prog ClusterStatus :=
  ms ← (if has_mem o then
          ms ← ask CMembers;
          do! CMetricSet ClusterMembers [] (Z.of_nat (length (default [] ms))); Ret ms
        else Ret None);
  led ← isLeader o;
  do! CMetricSet IsLeader [] (if led : bool then 1 else 0);
  Ret (mkStatus healthy term leader addr ms None).

(** What the leader answered, when it answered and the answer is a status. *)
Definition proxied (r : gores bytes) : option ClusterStatus :=
  match r with
  | Ok data => Unmarshal ClusterStatus_codec data
  | Err _ => None
  end.

Definition Status (o : Options) : prog ClusterStatus :=
  if has_cons o then
    term ← ask CTerm;
    l ← ask CLeader;
    match l with
    | None => status_local o false term EmptyString EmptyString
    | Some (id, _) =>
        led ← ask CIsLeader;
        if (led : bool) && has_rpcS o then
          addr ← ask CSrvAddr; status_local o true term id addr
        else if has_rpcC o && has_mem o then
          la ← lookupMemberAddr o id;
          if decide (la = EmptyString) then status_local o true term id EmptyString
          else
            r ← ask (CGetStatus la);
            match proxied r with
            | Some rs => Ret rs
            | None => status_local o true term id EmptyString
            end
        else status_local o true term id EmptyString
    end
  else status_local o false 0 EmptyString EmptyString.

Definition statusLocalJSON (o : Options) : prog bytes :=
  st ← Status o; Ret (Marshal ClusterStatus_codec st).

(** ** Application writes *)

(** The leader as this node's own status endpoint reports it. *)
Definition leader_by_status (o : Options) (addr : string) : prog string :=
  if decide (addr = EmptyString) then
    if has_rpcS o then
      own ← ask CSrvAddr;
      r ← ask (CGetStatus own);
      Ret (leader_of_status EmptyString r)
    else Ret EmptyString
  else Ret addr.

Definition write_result (r : gores AppWriteResponse) : gores (option bytes) :=
  match r with
  | Err e => Err e
  | Ok resp => if decide (wp_error resp = EmptyString) then Ok (wp_data resp) else Err (wp_error resp)
  end.

(** A node without consensus that has a client dereferences a nil interface. *)
Definition AppWrite (o : Options) (op : string) (data : option bytes) : prog (gores (option bytes)) :=
  led ← isLeader o;
  if led : bool then
    if has_app o then ask (CHandleWrite op data) else Ret (Err "cluster: no app handlers")
  else if has_rpcC o then
    if has_cons o then
      addr0 ← leaderMgmt o;
      addr ← leader_by_status o addr0;
      if decide (addr = EmptyString) then Ret (Err ErrNotLeader)
      else r ← ask (CPostAppWrite addr (mkAppWriteRequest op data)); Ret (write_result r)
    else Panic
  else Ret (Err "cluster: no RPC client configured").

Definition handleAppWrite (o : Options) (req : AppWriteRequest) : prog AppWriteResponse :=
  led ← isLeader o;
  if led : bool then
    if has_app o then
      r ← ask (CHandleWrite (wr_op req) (wr_data req));
      match r with
      | Ok out => Ret (mkAppWriteResponse out EmptyString)
      | Err e => Ret (mkAppWriteResponse None e)
      end
    else Ret (mkAppWriteResponse None "no app handlers")
  else Ret (mkAppWriteResponse None "not leader").

(** ** Publishing *)

(** The waiting loop, for at most [rounds] rounds: [None] when it is still waiting. *)
Fixpoint publish_rounds (o : Options) (topic : string) (rounds : nat) : prog (option wait_result) :=
  match rounds with
  | O => Ret None
  | S rounds' =>
      acked ← (if rpcS_acks o then ask CAckedAll else Ret None);
      cur ← ask (CSeq topic);
      if window_open (ReplWindow o) cur (from_option (λ a, get0 a topic) 0%Z acked)
      then Ret (Some Proceed)
      else
        cancelled ← ask CWait;
        match cancelled with
        | Some e => Ret (Some (Cancelled e))
        | None => publish_rounds o topic rounds'
        end
  end.

(** The fan-out over the management client, one goroutine per other member. *)
Definition fan_out (o : Options) (topic : string) (data : option bytes) : prog unit :=
  if has_rpcC o && has_mem o then
    ms ← ask CMembers;
    each (λ m, if decide (ID m = NodeID o) then Ret ()
               else do! CGo (GoPostAppSync (mgmt_addr m) (mkAppSyncRequest topic data)); Ret ())
      (default [] ms)
  else Ret ().

(** [Publish]; the outer [None] is a call that still waits after [rounds] rounds. *)
Definition Publish (o : Options) (topic : string) (data : option bytes) (rounds : nat)
    : prog (option (option string)) :=
  led ← isLeader o;
  if led : bool then
    w ← publish_rounds o topic rounds;
    match w with
    | None | Some Blocked => Ret None
    | Some (Cancelled e) => Ret (Some (Some e))
    | Some Proceed =>
        _ ← (if has_app o then do! CHandleSync topic data; Ret () else Ret ());
        s ← ask (CCommit topic (default EmptyString data));
        do! CMetricInc ReplicationPublishedTotal [topic];
        do! CMetricSet ReplicationSeq [topic] s;
        n ← (if rpcS_broadcast o
             then ask (CBroadcastWithSeq topic (default EmptyString data) s) else Ret 0%Z);
        if (0 <? n)%Z then Ret (Some None)
        else _ ← fan_out o topic data; Ret (Some None)
    end
  else Ret (Some (Some ErrNotLeader)).

Definition handleAppSync (o : Options) (req : AppSyncRequest) : prog AppSyncResponse :=
  if has_app o then
    e ← ask (CHandleSync (sr_topic req) (sr_data req));
    Ret (mkAppSyncResponse (default EmptyString e))
  else Ret (mkAppSyncResponse EmptyString).

(** ** Background loops *)

(** One round of [replicationSubscribeLoop] once the context is live: [false] when no
    leader to subscribe to is known. *)
Definition subscribe_round (o : Options) : prog bool :=
  addr ← (if has_cons o then
            l ← ask CLeader;
            match l with
            | Some (id, _) => if decide (id = NodeID o) then Ret EmptyString else lookupMemberAddr o id
            | None => Ret EmptyString
            end
          else Ret EmptyString);
  if decide (addr = EmptyString) then Ret false
  else do! CSubscribe addr (NodeID o); Ret true.

(** One tick of [replicationRetryLoop].  [CRetryPass] is the pass over the buffers under
    the mutex ([Replication.retry_topics]): it forgets what was acknowledged and yields
    what is sent again. *)
Definition retry_tick (o : Options) : prog unit :=
  led ← isLeader o;
  if led : bool then
    acked ← (if rpcS_acks o then ask CAckedAll else Ret (Some ∅));
    out ← ask (CRetryPass (default ∅ acked));
    if rpcS_broadcast o
    then each (λ m, do! CBroadcastWithSeq m.1.1 m.1.2 m.2; Ret ()) out
    else Ret ()
  else Ret ().

(** One membership event. *)
Definition membership_event (o : Options) (e : MemEvent) : prog unit :=
  led ← isLeader o;
  if led : bool then
    let m := me_member e in
    _ ← match me_type e with
        | EventJoin => applyAddNode o m
        | EventLeave | EventFailed =>
            _ ← removeServer o (ID m); applyRemoveNode o (ID m)
        end;
    _ ← (if has_mem o then
           ms ← ask CMembers;
           do! CMetricSet ClusterMembers [] (Z.of_nat (length (default [] ms))); Ret ()
         else Ret ());
    let t := match me_type e with
             | EventJoin => EventMemberJoin
             | EventLeave => EventMemberLeave
             | EventFailed => EventMemberFailed
             end in
    do! CPublishEvent (mkEvent t (me_at e) None (Some m) 0); Ret ()
  else Ret ().

Definition reconcileMembers (o : Options) : prog unit :=
  led ← isLeader o;
  if (led : bool) && has_mem o then
    ms ← ask CMembers; each (applyAddNode o) (default [] ms)
  else Ret ().

(** A leader reported by the notifier. *)
Definition leader_observed (c : Cluster) (li : LeaderInfo) : prog Cluster :=
  let o := opts c in
  do! CMetricInc LeaderChanges [];
  do! CLog (LLeaderChange (li_id li) (li_term li));
  now ← ask CNow;
  do! CPublishEvent (mkEvent EventLeaderChanged now (Some li) None (li_term li));
  _ ← (if has_OnLeaderChange o then do! COnLeaderChange li; Ret () else Ret ());
  _ ← (if has_OnElectionEnd o then do! COnElectionEnd li; Ret () else Ret ());
  Ret (mkCluster o (started c) (closed c) true false).

(** One tick of [electionWatchLoop]. *)
Definition election_tick (c : Cluster) : prog Cluster :=
  let o := opts c in
  if has_cons o then
    l ← ask CLeader;
    if hadLeader c && bool_decide (l = None) && negb (inProgress c) then
      now ← ask CNow;
      do! CPublishEvent (mkEvent EventElectionStart now None None 0);
      _ ← (if has_OnElectionStart o then do! COnElectionStart; Ret () else Ret ());
      Ret (mkCluster o (started c) (closed c) (hadLeader c) true)
    else Ret c
  else Ret c.
