(* ===== verification/ClusterSpec.v ===== *)
(** * What the facade guarantees

    Theorems about the programs of [Cluster], over all their executions: only a leader
    changes anything, the lifecycle, the replies of the handlers, the election watch. *)
From S2P Require Import Prelude GoStrings Metrics Utf8 Json Types JsonCodec Replication Logging Effects Cluster.
From stdpp Require Import options.

(** ** Only a leader writes *)

(** The calls that change the cluster: the Raft log and configuration, the application
    state, the replication stream. *)
Definition is_write {X} (c : call X) : bool :=
  match c with
  | CApply _ | CAddVoter _ _ | CRemoveServer _ | CHandleWrite _ _
  | CCommit _ _ | CRetryPass _ | CBroadcastWithSeq _ _ _ => true
  | CGo (GoPostAppSync _ _) => true
  | _ => false
  end.

(** The last answer of [IsLeader]. *)
Definition led_after {X} (c : call X) : X → bool → bool :=
  match c in call X return X → bool → bool with
  | CIsLeader => λ x _, x
  | _ => λ _ led, led
  end.

Definition write_led (X : Type) (c : call X) (led : bool) : Prop := is_write c = true → led = true.

(** Each write of the execution was made when the last answer of [IsLeader] in it was
    yes. *)
Definition leader_gated (tr : list action) : Prop :=
  obeyed write_led (λ X, led_after (X:=X)) false tr.

Definition gated {A} (led : bool) (p : prog A) (Q : A → bool → Prop) : Prop :=
  obeys write_led (λ X, led_after (X:=X)) led p Q.

(** The methods of [Cluster], the handlers of its server and the rounds of its loops. *)
Inductive entry_point (c : Cluster) : ∀ {A}, prog A → Prop :=
  | ep_Start : entry_point c (Start c)
  | ep_Stop : entry_point c (Stop c)
  | ep_Join seed : entry_point c (Join (opts c) seed)
  | ep_Status : entry_point c (Status (opts c))
  | ep_statusLocalJSON : entry_point c (statusLocalJSON (opts c))
  | ep_handleJoin req : entry_point c (handleJoin (opts c) req)
  | ep_handleLeave req : entry_point c (handleLeave (opts c) req)
  | ep_AppWrite op data : entry_point c (AppWrite (opts c) op data)
  | ep_handleAppWrite req : entry_point c (handleAppWrite (opts c) req)
  | ep_Publish topic data n : entry_point c (Publish (opts c) topic data n)
  | ep_handleAppSync req : entry_point c (handleAppSync (opts c) req)
  | ep_subscribe : entry_point c (subscribe_round (opts c))
  | ep_retry : entry_point c (retry_tick (opts c))
  | ep_event e : entry_point c (membership_event (opts c) e)
  | ep_reconcile : entry_point c (reconcileMembers (opts c))
  | ep_leader li : entry_point c (leader_observed c li)
  | ep_election : entry_point c (election_tick c).

Lemma gated_bind {A B} led (p : prog A) (f : A → prog B) Q :
  gated led p (λ a led', gated led' (f a) Q) → gated led (p ≫= f) Q.
Proof. apply obeys_bind. Qed.

Lemma gated_vis {A X} led (c : call X) (k : X → prog A) Q :
  (is_write c = true → led = true) → (∀ x, gated (led_after c x led) (k x) Q) → gated led (Vis c k) Q.
Proof. by split. Qed.

Lemma gated_ret {A} led (a : A) (Q : A → bool → Prop) : Q a led → gated led (Ret a) Q.
Proof. done. Qed.

Lemma gated_isLeader o led : gated led (isLeader o) (λ b led', b = true → led' = true).
Proof. unfold isLeader. case_match; cbn; [|done]. split; [done|]. by intros x. Qed.

(** A program that never asks to write. *)
Definition reads_only {A} (p : prog A) : Prop := avoids (λ X, is_write (X:=X)) p.

(** The guard of a handler. *)
Lemma gated_guard {A} o led (f : bool → prog A) Q :
  gated true (f true) Q → (∀ led', gated led' (f false) Q) → gated led (isLeader o ≫= f) Q.
Proof.
  intros Ht Hf. apply gated_bind. unfold isLeader. destruct (has_cons o); [|apply Hf].
  apply gated_vis; [done|]. intros []; [apply Ht|apply Hf].
Qed.

Lemma gated_True {A} led (p : prog A) Q :
  gated led p Q → gated led p (λ _ _, True).
Proof. by apply obeys_mono. Qed.

(** Walk through a program: each call is checked, each test splits. *)
Ltac gate :=
  repeat (cbn beta iota;
    match goal with
    | |- gated _ (isLeader _ ≫= _) _ => apply gated_guard
    | |- gated _ (in_span _ _) _ => unfold in_span
    | |- gated _ (_ ≫= _) _ => apply gated_bind
    | |- gated _ (Vis _ _) _ => apply gated_vis; [cbn; congruence|]
    | |- gated _ (ask _) _ => apply gated_vis; [cbn; congruence|]
    | |- gated _ (Ret _) _ => apply gated_ret
    | |- gated _ Panic _ => exact I
    | |- gated _ (if ?b then _ else _) _ => destruct b
    | |- gated _ (match ?x with _ => _ end) _ => destruct x
    | |- gated _ (_ match ?x with _ => _ end) _ => destruct x
    | |- ∀ _, _ => intros ?
    | |- True => exact I
    | |- led_after _ _ _ = _ => reflexivity
    | |- @eq bool ?x ?x => reflexivity
    end).

Lemma gated_lookup o id led : gated led (lookupMemberAddr o id) (λ _ led', led' = led).
Proof. unfold lookupMemberAddr. gate. Qed.

Lemma gated_leaderMgmt o led : gated led (leaderMgmt o) (λ _ led', led' = led).
Proof. unfold leaderMgmt. gate. apply gated_lookup. Qed.

(** A program that keeps what is known of the leader, followed by another. *)
Lemma gated_seq {A B} led (p : prog A) (f : A → prog B) Q :
  gated led p (λ _ led', led' = led) → (∀ a, gated led (f a) Q) → gated led (p ≫= f) Q.
Proof.
  intros Hp Hf. apply gated_bind. eapply obeys_mono; [|apply Hp]. intros a ? ->. apply Hf.
Qed.

(** A program that says nothing of the leader, followed by another. *)
Lemma gated_any {A B} led (p : prog A) (f : A → prog B) Q :
  gated led p (λ _ _, True) → (∀ a led', gated led' (f a) Q) → gated led (p ≫= f) Q.
Proof. intros Hp Hf. apply gated_bind. eapply obeys_mono; [|apply Hp]. intros a led' _. apply Hf. Qed.

Lemma gated_each {A} led (f : A → prog unit) l :
  (∀ a led', gated led' (f a) (λ _ _, True)) → gated led (each f l) (λ _ _, True).
Proof. intros Hf. apply (obeys_each _ _ led f l (λ _, True)); [|done]. intros a led' _ _. apply Hf. Qed.

Lemma gated_applyAddNode o mi led : gated led (applyAddNode o mi) (λ _ _, True).
Proof. unfold applyAddNode. gate. Qed.

Lemma gated_applyRemoveNode o id led : gated led (applyRemoveNode o id) (λ _ _, True).
Proof. unfold applyRemoveNode. gate. Qed.

Lemma gated_removeServer o id led : gated led (removeServer o id) (λ _ _, True).
Proof. unfold removeServer. gate. Qed.

Lemma gated_status_local o h t l a led : gated led (status_local o h t l a) (λ _ _, True).
Proof. unfold status_local. gate. Qed.

Lemma gated_Status o led : gated led (Status o) (λ _ _, True).
Proof.
  unfold Status. gate; try apply gated_status_local; unfold lookupMemberAddr; gate; apply gated_status_local.
Qed.

Lemma gated_Start c led : gated led (Start c) (λ _ _, True).
Proof. unfold Start, start_buffer, or_else, start_mem, start_cons, start_rpcS. gate. Qed.

Lemma gated_Join o seed led : gated led (Join o seed) (λ _ _, True).
Proof.
  unfold Join, join_at. gate. eapply obeys_mono; [|apply gated_leaderMgmt]. intros a ? _. gate.
Qed.

Lemma gated_handleJoin o req led : gated led (handleJoin o req) (λ _ _, True).
Proof.
  unfold handleJoin. gate. eapply obeys_mono; [|apply gated_leaderMgmt]. intros a ? _. gate.
Qed.

Lemma gated_handleLeave o req led : gated led (handleLeave o req) (λ _ _, True).
Proof.
  unfold handleLeave. gate. eapply obeys_mono; [|apply gated_removeServer]. intros a ? _. gate.
  eapply obeys_mono; [|apply gated_applyRemoveNode]. intros ? ? _. gate.
Qed.

Lemma gated_AppWrite o op data led : gated led (AppWrite o op data) (λ _ _, True).
Proof.
  unfold AppWrite, leader_by_status. gate. eapply obeys_mono; [|apply gated_leaderMgmt].
  intros a ? _. gate.
Qed.

Lemma gated_publish_rounds o topic n led : gated led (publish_rounds o topic n) (λ _ led', led' = led).
Proof. revert led. induction n as [|n IH]; intros led; cbn [publish_rounds]; gate; apply IH. Qed.

Lemma gated_fan_out o topic data : gated true (fan_out o topic data) (λ _ _, True).
Proof.
  unfold fan_out. gate.
  apply (obeys_mono _ _ _ _ (λ _ led, led = true)); [done|].
  apply (obeys_each _ _ _ _ _ (λ led, led = true)); [|done].
  intros m led _ ->. change (gated true (if decide (ID m = NodeID o) then Ret ()
    else do! CGo (GoPostAppSync (mgmt_addr m) (mkAppSyncRequest topic data)); Ret ()) (λ _ led, led = true)).
  gate.
Qed.

Lemma gated_Publish o topic data n led : gated led (Publish o topic data n) (λ _ _, True).
Proof.
  unfold Publish. gate. eapply obeys_mono; [|apply gated_publish_rounds]. intros a ? ->. gate.
  all: eapply obeys_mono; [|apply gated_fan_out]; intros ? ? _; gate.
Qed.

Lemma gated_retry o led : gated led (retry_tick o) (λ _ _, True).
Proof.
  unfold retry_tick. gate.
  all: apply (obeys_mono _ _ _ _ (λ _ led, led = true)); [done|].
  all: apply (obeys_each _ _ _ _ _ (λ led, led = true)); [|done].
  all: intros m ? _ ->; split; done.
Qed.

Lemma gated_event o e led : gated led (membership_event o e) (λ _ _, True).
Proof.
  unfold membership_event. gate.
  all: try (eapply obeys_mono; [|apply gated_applyAddNode]; intros ? ? _; gate).
  all: eapply obeys_mono; [|apply gated_removeServer]; intros ? ? _.
  all: eapply obeys_mono; [|apply gated_applyRemoveNode]; intros ? ? _; gate.
Qed.

Lemma gated_reconcile o led : gated led (reconcileMembers o) (λ _ _, True).
Proof. unfold reconcileMembers. gate; apply gated_each; intros; apply gated_applyAddNode. Qed.

Lemma entry_point_gated c A (p : prog A) : entry_point c p → gated false p (λ _ _, True).
Proof.
  destruct 1; eauto using gated_Start, gated_Join, gated_Status, gated_handleJoin, gated_handleLeave,
    gated_AppWrite, gated_Publish, gated_retry, gated_event, gated_reconcile.
  - unfold Stop. gate.
  - unfold statusLocalJSON. apply gated_any; [apply gated_Status|done].
  - unfold handleAppWrite. gate.
  - unfold handleAppSync. gate.
  - unfold subscribe_round, lookupMemberAddr. gate.
  - unfold leader_observed. gate.
  - unfold election_tick. gate.
Qed.

(** C1. In every execution of every method, handler and loop of the facade, whatever the
    components answer, a call that changes the cluster (a Raft log entry, a voter added or
    removed, an application write, a replicated message) is made only when the last
    answer of [IsLeader] in that execution was yes. *)
Theorem only_leader_writes c A (p : prog A) tr out :
  entry_point c p → exec p tr out → leader_gated tr.
Proof. intros Hp He. by destruct (obeys_exec _ _ _ _ _ _ _ (entry_point_gated c A p Hp) He) as [? _]. Qed.

(** ** Starting *)

(** Which components have been started without error. *)
Record up := mkUp { up_mem : bool; up_cons : bool }.

Definition up_after {X} (c : call X) : X → up → up :=
  match c in call X return X → up → up with
  | CMemStart => λ e u, mkUp (bool_decide (e = None)) (up_cons u)
  | CConsStart => λ e u, mkUp (up_mem u) (bool_decide (e = None))
  | _ => λ _ u, u
  end.

(** What must be running when a component is started, and nothing is joined or launched
    before its component runs. *)
Definition start_owes (o : Options) (X : Type) (c : call X) (u : up) : Prop :=
  match c with
  | CMemJoin _ => up_mem u = true
  | CConsStart => has_mem o = true → up_mem u = true
  | CGo _ => up_cons u = true
  | CSrvStart => (has_mem o = true → up_mem u = true) ∧ (has_cons o = true → up_cons u = true)
  | _ => True
  end.

Definition starts {A} (o : Options) (u : up) (p : prog A) Q : Prop :=
  obeys (start_owes o) (λ X, up_after (X:=X)) u p Q.

Lemma starts_bind {A B} o u (p : prog A) (f : A → prog B) Q :
  starts o u p (λ a u', starts o u' (f a) Q) → starts o u (p ≫= f) Q.
Proof. apply obeys_bind. Qed.

Lemma starts_mem o u :
  starts o u (start_mem o) (λ e u', (e = None → has_mem o = true → up_mem u' = true) ∧ up_cons u' = up_cons u).
Proof.
  unfold start_mem. destruct (has_mem o); [|done]. split; [done|]. intros [e|]; [by split|].
  split; [done|]. intros [|s seeds]; [done|]. by split.
Qed.

Lemma starts_cons o u :
  (has_mem o = true → up_mem u = true) →
  starts o u (start_cons o) (λ e u',
    (e = None → has_cons o = true → up_cons u' = true) ∧ up_mem u' = up_mem u).
Proof.
  intros Hu. unfold start_cons. destruct (has_cons o); [|done]. split; [done|].
  intros [e|]; [by split|]. do 5 (split; [done|]; intros []).
  destruct (cons_notifier o); [|done]. split; [done|]. by intros [].
Qed.

Lemma starts_Start c u : starts (opts c) u (Start c) (λ _ _, True).
Proof.
  unfold Start, or_else. destruct (started c); [done|]. split; [done|]. intros [].
  apply starts_bind. unfold start_buffer.
  assert (∀ u, starts (opts c) u (e ← (e ← start_mem (opts c);
     match e with
     | Some err => Ret (Some err)
     | None => e ← start_cons (opts c);
               match e with Some err => Ret (Some err) | None => start_rpcS (opts c) end
     end); Ret (e, mkCluster (opts c) true (closed c) (hadLeader c) (inProgress c))) (λ _ _, True)) as Hrest.
  { intros v. apply starts_bind, starts_bind. eapply obeys_mono; [|apply starts_mem].
    intros [e|] v1 [Hm Hc]; [done|]. apply starts_bind.
    eapply obeys_mono; [|apply starts_cons; auto]. intros [e|] v2 [Hc2 Hm2]; [done|].
    unfold start_rpcS. destruct (has_rpcS (opts c)); [|done]. split; [|by intros [e|]].
    cbn. rewrite Hm2. split; auto. }
  case_decide; [apply Hrest|]. split; [done|]. intros []. split; [done|]. intros []. apply Hrest.
Qed.

(** C27. [Start] brings the components up in order in every execution: seeds are joined
    only after membership started, consensus is started only after membership, the
    background loops only after consensus, and the management server, through which other
    nodes reach the handlers, only after both; an error of one stops the ones after it. *)
Theorem start_in_order c tr out :
  exec (Start c) tr out →
  obeyed (start_owes (opts c)) (λ X, up_after (X:=X)) (mkUp false false) tr.
Proof. intros He. by destruct (obeys_exec _ _ _ _ _ _ _ (starts_Start c (mkUp false false)) He). Qed.

(** [Start] marks the node as started before anything is started: after an error a
    second [Start] calls nothing and reports success. *)
Theorem failed_start_not_retried c tr e c1 tr2 out :
  exec (Start c) tr (Some (Some e, c1)) → exec (Start c1) tr2 out →
  tr2 = [] ∧ out = Some (None, c1).
Proof.
  intros H1 H2. assert (started c1 = true) as Hs.
  { revert H1. unfold Start. destruct (started c) eqn:E; [by intros [_ [= ? ?]]|].
    cbn [exec]. intros (x & tr1 & _ & H1).
    apply exec_bind in H1 as [(t1 & t2 & [] & _ & _ & H1)|[? _]]; [|done].
    apply exec_bind in H1 as [(t3 & t4 & r & _ & _ & [_ [= _ ->]])|[? _]]; done. }
  unfold Start in H2. by rewrite Hs in H2.
Qed.

(** The calls that stop the components a node has, with the errors they return. *)
Definition stop_calls (o : Options) (e1 e2 e3 e4 : option string) : list action :=
  (if has_cons o then [Act CConsStop e1] else []) ++
  (if has_mem o then [Act CMemLeave e2; Act CMemStop e3] else []) ++
  (if has_rpcS o then [Act CSrvStop e4] else []).

(** [Stop] always succeeds and stops what there is, consensus first, then gossip
    (announcing the departure before it stops), then the management server; a second
    [Stop] calls nothing. *)
Theorem stop_order c tr out :
  exec (Stop c) tr out →
  ∃ c', out = Some (None, c') ∧ closed c' = true ∧
    if closed c then tr = [] ∧ c' = c else ∃ e1 e2 e3 e4, tr = stop_calls (opts c) e1 e2 e3 e4.
Proof.
  unfold Stop, stop_calls. destruct (closed c) eqn:Ec.
  { intros [-> ->]. exists c. done. }
  intros H. eexists (mkCluster (opts c) (started c) true (hadLeader c) (inProgress c)).
  destruct (has_cons (opts c)), (has_mem (opts c)), (has_rpcS (opts c)); cbn in H;
    repeat match goal with H : ∃ _, _ |- _ => destruct H as (?x & ?t & -> & H) end;
    destruct H as [-> ->]; (split; [done|]; split; [done|]); cbn match;
    unshelve refine (ex_intro _ _ (ex_intro _ _ (ex_intro _ _ (ex_intro _ _ eq_refl)))); exact None.
Qed.

(** ** Replies *)

(** Open an execution call by call. *)
Ltac walk :=
  repeat match goal with
  | H : exec (Ret _) _ _ |- _ => destruct H as [? ?]; simplify_eq
  | H : exec Panic _ _ |- _ => destruct H as [? ?]; simplify_eq
  | H : exec (in_span _ _) _ _ |- _ => unfold in_span in H
  | H : exec (Vis _ _) _ _ |- _ => destruct H as (? & ? & -> & H)
  | H : exec (ask _) _ _ |- _ => destruct H as (? & ? & -> & H)
  | H : exec (_ ≫= _) _ (Some _) |- _ =>
      apply exec_bind in H as [(? & ? & ? & -> & ? & H)|[? _]]; [|done]
  | H : exec (if ?b then _ else _) _ _ |- _ => destruct b eqn:?
  | H : exec (match ?x with _ => _ end) _ _ |- _ => destruct x eqn:?
  end; simplify_eq.

Lemma reads_only_lookup o id : reads_only (lookupMemberAddr o id).
Proof. unfold lookupMemberAddr. case_match; cbn; done. Qed.

Lemma reads_only_leaderMgmt o : reads_only (leaderMgmt o).
Proof.
  unfold leaderMgmt. apply avoids_bind; [done|]. intros [[id addr]|]; [apply reads_only_lookup|done].
Qed.

(** The calls of an execution that are of one kind, with what they asked and were
    answered. *)
Definition select {B} (f : ∀ X, call X → X → option B) (tr : list action) : list B :=
  omap (λ a, match a with Act c x => f _ c x end) tr.

Definition voter_call X (c : call X) : X → option (string * string * option string) :=
  match c in call X return X → _ with
  | CAddVoter id addr => λ e, Some (id, addr, e)
  | _ => λ _, None
  end.

(** [AddVoter] calls: identifier, address and error. *)
Definition voters : list action → list (string * string * option string) := select voter_call.

Lemma select_cons {B} (f : ∀ X, call X → X → option B) X (c : call X) x tr :
  select f (Act c x :: tr) = match f X c x with Some b => b :: select f tr | None => select f tr end.
Proof. unfold select. cbn. by destruct (f X c x). Qed.

Lemma select_app {B} (f : ∀ X, call X → X → option B) tr1 tr2 :
  select f (tr1 ++ tr2) = select f tr1 ++ select f tr2.
Proof. unfold select. by rewrite omap_app. Qed.

(** Nothing is selected from the execution of a reading program. *)
Lemma select_reads_only {A B} (f : ∀ X, call X → X → option B) (p : prog A) tr out :
  (∀ X (c : call X) x, is_Some (f X c x) → is_write c = true) → reads_only p → exec p tr out →
  select f tr = [].
Proof.
  intros Hf Hp He. 
  assert (∀ a, a ∈ tr → action_bad (λ X, is_write (X:=X)) a = false) as Ha by (intros; by eapply avoids_exec).
  clear He. induction tr as [|[X c x] tr IH]; [done|]. cbn.
  destruct (f X c x) eqn:E; [|apply IH; set_solver].
  exfalso. assert (action_bad (λ X, is_write (X:=X)) (Act c x) = false) as Hn by (apply Ha; set_solver).
  cbn in Hn. rewrite (Hf X c x) in Hn; [done|by eauto].
Qed.

(** A join request is accepted exactly when this node, as leader, added the voter it
    asks for.  Any other reply carries the reason: the words for a node that is not the
    leader, and then no voter was asked for, or the error of the consensus engine, which
    was asked exactly once. *)
Theorem handleJoin_correct o req tr r :
  has_cons o = true → cons_reconfigurer o = true → exec (handleJoin o req) tr (Some r) →
  (jp_accepted r = true ↔ voters tr = [(jr_id req, jr_raftAddr req, None)]) ∧
  (jp_accepted r = false →
    jp_error r = "not leader" ∧ voters tr = [] ∨
    voters tr = [(jr_id req, jr_raftAddr req, Some (jp_error r))]).
Proof.
  intros Hc Hr. unfold handleJoin, isLeader. rewrite Hc, Hr. intros H. walk.
  - cbn. split; [done|]. intros _. by right.
  - done.
  - match goal with H : exec (leaderMgmt o) ?x _ |- _ => assert (voters x = []) as Hx end.
    { eapply select_reads_only; [|apply reads_only_leaderMgmt|done]. intros ? []; cbn; intros ? [? ?]; done. }
    unfold voters in *. rewrite select_cons, !select_app, Hx. cbn. split; [done|]. intros _. by left.
Qed.

(** A leave request is answered with an acceptance even when removing the server
    from the Raft configuration and writing the removal to the log both failed: the
    handler drops both errors. *)
Theorem leave_accepted_despite_errors o req e1 e2 :
  has_cons o = true → cons_reconfigurer o = true →
  exec (handleLeave o req)
    [Act (CSpanStart "cluster.handleLeave") (); Act CIsLeader true; Act CIsLeader true;
     Act (CRemoveServer (lr_id req)) (Some e1); Act (CLog (LRemoveVoterFailed (lr_id req) e1)) ();
     Act CIsLeader true;
     Act (CApply (mkCommand "RemoveNode" (Some (Marshal RemoveReq_codec (lr_id req))))) (Some e2);
     Act (CLog (LLeaveAccepted (lr_id req))) (); Act (CSpanEnd "cluster.handleLeave") ()]
    (Some (mkLeaveResponse true EmptyString)).
Proof.
  intros Hc Hr. unfold handleLeave, in_span, removeServer, applyRemoveNode, isLeader. rewrite Hc, Hr.
  cbn. repeat (eexists _, _; split; [reflexivity|]; cbn). done.
Qed.

(** ** Publishing *)

Definition commit_call X (c : call X) : X → option (string * bytes * Z) :=
  match c in call X return X → _ with
  | CCommit topic data => λ s, Some (topic, data, s)
  | _ => λ _, None
  end.
Definition broadcast_call X (c : call X) : X → option (string * bytes * Z * Z) :=
  match c in call X return X → _ with
  | CBroadcastWithSeq topic data s => λ n, Some (topic, data, s, n)
  | _ => λ _, None
  end.
Definition post_call X (c : call X) : X → option (string * AppSyncRequest) :=
  match c in call X return X → _ with
  | CGo (GoPostAppSync addr req) => λ _, Some (addr, req)
  | _ => λ _, None
  end.
Definition sync_call X (c : call X) : X → option (string * option bytes) :=
  match c in call X return X → _ with
  | CHandleSync topic data => λ _, Some (topic, data)
  | _ => λ _, None
  end.
Definition members_call X (c : call X) : X → option (option (list MemberInfo)) :=
  match c in call X return X → _ with
  | CMembers => λ ms, Some ms
  | _ => λ _, None
  end.

(** Messages stored, broadcast and posted, deliveries to the local application, and the
    membership that was read. *)
Definition commits : list action → list (string * bytes * Z) := select commit_call.
Definition broadcasts : list action → list (string * bytes * Z * Z) := select broadcast_call.
Definition posts : list action → list (string * AppSyncRequest) := select post_call.
Definition syncs : list action → list (string * option bytes) := select sync_call.
Definition members_read : list action → list (option (list MemberInfo)) := select members_call.

(** None of these calls. *)
Definition quiet (tr : list action) : Prop :=
  commits tr = [] ∧ broadcasts tr = [] ∧ posts tr = [] ∧ syncs tr = [] ∧ members_read tr = [].

Lemma quiet_app tr1 tr2 : quiet tr1 → quiet tr2 → quiet (tr1 ++ tr2).
Proof.
  unfold quiet, commits, broadcasts, posts, syncs, members_read. rewrite !select_app.
  intros (-> & -> & -> & -> & ->) (-> & -> & -> & -> & ->). done.
Qed.

(** *** The rounds of the waiting loop *)

(** The rounds an execution went through, from its calls: the last answers of [AckedAll] and
    of the sequence, and what the wait that followed a closed window ended with. *)
Definition round : Type := option (gmap string Z) * option Z.

Definition poll_step X (c : call X) : X → round → list poll * round :=
  match c in call X return X → round → list poll * round with
  | CAckedAll => λ a r, ([], (a, r.2))
  | CSeq _ => λ cur r, ([], (r.1, Some cur))
  | CWait => λ e r, (from_option (λ cur, [mkPoll r.1 cur e]) [] r.2, (r.1, None))
  | _ => λ _ r, ([], r)
  end.

Fixpoint poll_run (r : round) (tr : list action) : list poll * round :=
  match tr with
  | [] => ([], r)
  | Act c x :: tr' =>
      let '(ps, r1) := poll_step _ c x r in let '(ps', r2) := poll_run r1 tr' in (ps ++ ps', r2)
  end.

(** The round that did not have to wait. *)
Definition last_poll (r : round) : list poll := from_option (λ cur, [mkPoll r.1 cur None]) [] r.2.

Definition polls (tr : list action) : list poll := let '(ps, r) := poll_run (None, None) tr in ps ++ last_poll r.

Lemma poll_run_app r tr1 tr2 :
  poll_run r (tr1 ++ tr2) =
  let '(ps1, r1) := poll_run r tr1 in let '(ps2, r2) := poll_run r1 tr2 in (ps1 ++ ps2, r2).
Proof.
  revert r. induction tr1 as [|[X c x] tr1 IH]; intros r; cbn [app poll_run]; [by destruct (poll_run r tr2)|].
  destruct (poll_step _ c x r) as [ps r1]. rewrite IH. destruct (poll_run r1 tr1) as [ps1 r2].
  destruct (poll_run r2 tr2) as [ps2 r3]. by rewrite app_assoc.
Qed.

Definition is_poll X (c : call X) : bool := match c with CAckedAll | CSeq _ | CWait => true | _ => false end.

Lemma poll_run_avoids {A} (p : prog A) tr out r :
  avoids is_poll p → exec p tr out → poll_run r tr = ([], r).
Proof.
  revert tr. induction p as [a|X c k IH|]; intros tr; cbn [avoids exec].
  - by intros _ [-> _].
  - intros [Hc Hk] (x & tr' & -> & H). cbn [poll_run].
    assert (poll_step X c x r = ([], r)) as -> by by destruct c. by rewrite (IH x tr' (Hk x) H).
  - by intros _ [-> _].
Qed.

(** The rounds of the waiting loop are those of [Replication.publish_wait]. *)
Lemma publish_rounds_exec o topic n tr w a :
  exec (publish_rounds o topic n) tr (Some w) → (rpcS_acks o = false → a = None) →
  quiet tr ∧
  let '(ps, r) := poll_run (a, None) tr in
  length (ps ++ last_poll r) ≤ n ∧ publish_wait (ReplWindow o) topic (ps ++ last_poll r) = default Blocked w ∧
  (rpcS_acks o = false → Forall (λ p, p_acked p = None) (ps ++ last_poll r)).
Proof.
  revert tr a. induction n as [|n IH]; intros tr a; cbn [publish_rounds].
  { intros [-> [= ->]] _. split; [done|]. split_and!; [cbn; lia|done|by constructor]. }
  intros H Ha0. apply exec_bind in H as [(tr1 & tr2 & acked & -> & H1 & H)|[? _]]; [|done].
  assert (quiet tr1 ∧ (rpcS_acks o = false → acked = None) ∧ poll_run (a, None) tr1 = ([], (acked, None)))
    as (Hs1 & Ha & Hp1).
  { destruct (rpcS_acks o); [by destruct H1 as (x & t & -> & -> & [= ->])|].
    destruct H1 as [-> [= ->]]. by rewrite Ha0. }
  rewrite poll_run_app, Hp1. clear Hp1. cbn -[window_open] in H. destruct H as (cur & tr3 & -> & H).
  cbn [poll_run poll_step fst snd app].
  destruct (window_open _ _ _) eqn:Ew.
  - destruct H as [-> [= ->]]. split; [by apply quiet_app|].
    cbn -[window_open]. unfold poll_open, poll_ack. cbn -[window_open]. rewrite Ew.
    split_and!; [lia|done|]. intros E. constructor; [by apply Ha|done].
  - cbn in H. destruct H as ([e|] & tr4 & -> & H).
    + destruct H as [-> [= ->]]. split; [by apply quiet_app|].
      cbn -[window_open]. unfold poll_open, poll_ack. cbn -[window_open]. rewrite Ew.
      split_and!; [lia|done|]. intros E. constructor; [by apply Ha|done].
    + apply (IH tr4 acked) in H as (Hs2 & H); [|done]. split; [by apply quiet_app|].
      cbn [poll_run poll_step fst snd from_option]. destruct (poll_run (acked, None) tr4) as [ps r].
      destruct H as (Hl & Hw & Hf). cbn [app].
      cbn -[window_open]. unfold poll_open, poll_ack. cbn -[window_open]. rewrite Ew.
      split_and!; [lia|done|]. intros E. constructor; [by apply Ha|by apply Hf].
Qed.

(** The rest of [Publish] polls nothing. *)
Lemma led_polls o : avoids is_poll (if has_cons o then ask CIsLeader else Ret false).
Proof. avoid. Qed.

Lemma proceed_polls o topic data :
  avoids is_poll (_ ← (if has_app o then do! CHandleSync topic data; Ret () else Ret ());
    s ← ask (CCommit topic (default EmptyString data));
    do! CMetricInc ReplicationPublishedTotal [topic];
    do! CMetricSet ReplicationSeq [topic] s;
    n ← (if rpcS_broadcast o then ask (CBroadcastWithSeq topic (default EmptyString data) s) else Ret 0%Z);
    if (0 <? n)%Z then Ret (Some (None : option string)) else _ ← fan_out o topic data; Ret (Some None)).
Proof. unfold fan_out. avoid. Qed.

(** The other members, with the request each is sent. *)
Definition fan_out_list (o : Options) (topic : string) (data : option bytes) (ms : list MemberInfo)
    : list (string * AppSyncRequest) :=
  map (λ m, (mgmt_addr m, mkAppSyncRequest topic data)) (filter (λ m, ID m ≠ NodeID o) ms).

Lemma fan_out_exec o topic data tr :
  exec (fan_out o topic data) tr (Some ()) →
  commits tr = [] ∧ broadcasts tr = [] ∧ syncs tr = [] ∧
  (if has_rpcC o && has_mem o
   then ∃ ms, members_read tr = [ms] ∧ posts tr = fan_out_list o topic data (default [] ms)
   else posts tr = []).
Proof.
  unfold fan_out. destruct (has_rpcC o && has_mem o); [|by intros [-> _]].
  cbn [mbind prog_mbind prog_bind ask exec]. intros (ms & tr' & -> & H).
  assert (commits tr' = [] ∧ broadcasts tr' = [] ∧ syncs tr' = [] ∧ members_read tr' = [] ∧
    posts tr' = fan_out_list o topic data (default [] ms)) as (H1 & H2 & H3 & H4 & H5).
  { revert tr' H. induction (default [] ms) as [|m l IH]; intros tr' H.
    - destruct H as [-> _]. done.
    - cbn [each] in H. apply exec_bind in H as [(t1 & t2 & [] & -> & Hm & H)|[? _]]; [|done].
      apply IH in H as (E1 & E2 & E3 & E4 & E5). unfold fan_out_list. rewrite filter_cons.
      case_decide; walk; [by rewrite decide_False by naive_solver|].
      rewrite decide_True by done. split_and!; try done. unfold fan_out_list in E5. cbn. by f_equal. }
  unfold commits, broadcasts, syncs, members_read, posts in *.
  rewrite !select_cons. cbn [commit_call broadcast_call sync_call members_call post_call].
  split_and!; [done..|]. exists ms. split; [by rewrite H4|done].
Qed.

(** A [Publish] that reports success, in whatever execution, waited until the window
    was open, delivered the message to the local application exactly once when there is
    one, stored it under exactly one sequence number, and handed it on:
    to the subscribed streams when the broadcast under that number reached one, and
    otherwise by one request to every other member of the membership it read, at its
    management address. *)
Theorem publish_correct_trace o topic data n tr :
  exec (Publish o topic data n) tr (Some (Some None)) →
  let payload := default EmptyString data in
  (length (polls tr) ≤ n ∧ publish_wait (ReplWindow o) topic (polls tr) = Proceed) ∧
  syncs tr = (if has_app o then [(topic, data)] else []) ∧
  ∃ s, commits tr = [(topic, payload, s)] ∧
    ((∃ k, broadcasts tr = [(topic, payload, s, k)] ∧ (0 < k)%Z ∧ posts tr = []) ∨
     (Forall (λ b, b.2 ≤ 0)%Z (broadcasts tr) ∧
      if has_rpcC o && has_mem o
      then ∃ ms, members_read tr = [ms] ∧ posts tr = fan_out_list o topic data (default [] ms)
      else posts tr = [])).
Proof.
  unfold Publish, isLeader. intros H.
  apply exec_bind in H as [(t0 & t1 & led & -> & Hl & H)|[? _]]; [|done].
  assert (quiet t0) as Hq0 by (destruct (has_cons o); walk; done).
  destruct led; [|by destruct H].
  apply exec_bind in H as [(t2 & t3 & w & -> & Hw & H)|[? _]]; [|done].
  apply (publish_rounds_exec _ _ _ _ _ None) in Hw as (Hq2 & Hw); [|done].
  destruct w as [[]|]; [|by destruct H..].
  split.
  { unfold polls. rewrite poll_run_app. erewrite (poll_run_avoids _ t0); [|apply (led_polls o)|exact Hl].
    rewrite poll_run_app. destruct (poll_run (None, None) t2) as [ps r].
    erewrite (poll_run_avoids _ t3); [|apply (proceed_polls o topic data)|exact H].
    rewrite app_nil_l, app_nil_r. by destruct Hw as (? & ? & _). }
  apply exec_bind in H as [(t4 & t5 & [] & -> & Hs & H)|[? _]]; [|done].
  cbn [mbind prog_mbind prog_bind ask exec] in H.
  destruct H as (s & t6 & -> & [] & t7 & -> & [] & t8 & -> & H).
  apply exec_bind in H as [(t9 & t10 & k & -> & Hb & H)|[? _]]; [|done].
  apply (quiet_app _ _ Hq0) in Hq2 as (Q1 & Q2 & Q3 & Q4 & Q5). rewrite app_assoc.
  unfold commits, broadcasts, posts, syncs, members_read in *. rewrite !select_app in *.
  assert (select sync_call t4 = (if has_app o then [(topic, data)] else []) ∧ select commit_call t4 = [] ∧
    select broadcast_call t4 = [] ∧ select post_call t4 = [] ∧ select members_call t4 = [])
    as (S1 & S2 & S3 & S4 & S5) by (destruct (has_app o); walk; done).
  assert (select sync_call t9 = [] ∧ select commit_call t9 = [] ∧ select post_call t9 = [] ∧
    select members_call t9 = [] ∧
    ((0 < k)%Z → select broadcast_call t9 = [(topic, default EmptyString data, s, k)]) ∧
    ((k ≤ 0)%Z → Forall (λ b, b.2 ≤ 0)%Z (select broadcast_call t9)))
    as (B1 & B2 & B3 & B4 & B5 & B6).
  { destruct (rpcS_broadcast o); walk; split_and!; try done; intros; repeat constructor; done || lia. }
  rewrite !select_cons, !select_app, Q1, Q2, Q3, Q4, Q5, S1, S2, S3, S4, S5, B1, B2, B3, B4.
  cbn [commit_call broadcast_call sync_call members_call post_call app].
  destruct (Z.ltb_spec 0 k).
  - destruct H as [-> _]. rewrite !app_nil_r. split; [done|].
    exists s. split; [done|]. left. exists k. rewrite B5 by done. done.
  - apply exec_bind in H as [(t11 & t12 & [] & -> & Hf & [-> _])|[? _]]; [|done].
    apply fan_out_exec in Hf as (F1 & F2 & F3 & F4).
    unfold commits, broadcasts, posts, syncs, members_read in *. rewrite !app_nil_r, F1, F2, F3, !app_nil_r.
    split; [done|]. exists s. split; [done|]. right. split; [by apply B6|done].
Qed.

(** ** Elections *)

(** The flags of [el], what the watch loop and the observer of leaders are in the middle
    of, and the events published so far.  Each of the two goroutines reads or writes the
    flags under a mutex and publishes outside it, so the steps of the two interleave. *)
Record elect := mkElect {
  el_had : bool;
  el_inProgress : bool;
  el_starting : bool;   (** the watch loop has decided and not yet published *)
  el_observing : bool;  (** the observer has published and not yet set the flags *)
  el_log : list EventType;
}.

Definition elect_init : elect := mkElect false false false false [].

(** The decision of [election_tick], given whether a leader is known. *)
Definition el_decide (ok : bool) (e : elect) : elect :=
  if el_had e && negb ok && negb (el_inProgress e)
  then mkElect (el_had e) true true (el_observing e) (el_log e)
  else e.

Definition el_publish_start (e : elect) : elect :=
  mkElect (el_had e) (el_inProgress e) false (el_observing e) (el_log e ++ [EventElectionStart]).
Definition el_publish_leader (e : elect) : elect :=
  mkElect (el_had e) (el_inProgress e) (el_starting e) true (el_log e ++ [EventLeaderChanged]).
Definition el_set (e : elect) : elect :=
  mkElect true false (el_starting e) false (el_log e).

Inductive elect_step : elect → elect → Prop :=
  | es_decide ok e : el_starting e = false → elect_step e (el_decide ok e)
  | es_publish_start e : el_starting e = true → elect_step e (el_publish_start e)
  | es_publish_leader e : el_observing e = false → elect_step e (el_publish_leader e)
  | es_set e : el_observing e = true → elect_step e (el_set e).

Definition count (t : EventType) (l : list EventType) : nat := length (filter (λ x, x = t) l).

Lemma count_snoc_eq t l : count t (l ++ [t]) = S (count t l).
Proof. unfold count. rewrite filter_app, length_app, filter_cons, decide_True by done. simpl. lia. Qed.

Lemma count_snoc_ne t l x : x ≠ t → count t (l ++ [x]) = count t l.
Proof. intros. unfold count. rewrite filter_app, length_app, filter_cons, decide_False by done. simpl. lia. Qed.

(** Elections announced or about to be, leaders whose observation is complete. *)
Definition elect_inv (e : elect) : Prop :=
  let starts := count EventElectionStart (el_log e) + (if el_starting e then 1 else 0) in
  let leaders := count EventLeaderChanged (el_log e) - (if el_observing e then 1 else 0) in
  starts ≤ leaders ∧
  (el_observing e = true → 0 < count EventLeaderChanged (el_log e)) ∧
  (el_had e = true → el_inProgress e = false → starts < leaders).

Lemma elect_inv_step e e' : elect_inv e → elect_step e e' → elect_inv e'.
Proof.
  intros Hi Hs. destruct Hs as [ok e H|e H|e H|e H]; destruct e as [had ip st ob lg];
    cbn [el_starting el_observing] in H; subst; revert Hi; unfold elect_inv, el_decide;
    cbn [el_had el_inProgress el_starting el_observing el_log el_publish_start el_publish_leader el_set];
    rewrite ?count_snoc_eq, ?count_snoc_ne by done; cbv zeta.
  - destruct had, ok, ip; cbn [andb negb]; try done.
    cbn [el_had el_inProgress el_starting el_observing el_log]. destruct ob; intuition lia.
  - destruct ob; intuition lia.
  - destruct st; intuition lia.
  - destruct st; intuition lia.
Qed.

Lemma elect_reachable_inv e : rtc elect_step elect_init e → elect_inv e.
Proof.
  apply rtc_ind_r; [by split_and!|]. intros e1 e2 _ Hs Hi. by eapply elect_inv_step.
Qed.

(** In every interleaving of the election watch and the observer of leader changes,
    an application sees at least as many leader changes as election starts: no election
    is announced before a leader was, and no more elections than leaders. *)
Theorem election_starts_bounded e :
  rtc elect_step elect_init e →
  count EventElectionStart (el_log e) ≤ count EventLeaderChanged (el_log e).
Proof. intros (H1 & H2 & _)%elect_reachable_inv. destruct (el_starting e), (el_observing e); lia. Qed.

(** Two election starts in a row are possible: a new leader was observed between the
    decision and its event. *)
Definition elect_repeat : elect :=
  el_publish_start (el_decide false (el_publish_start (el_set (el_publish_leader
    (el_decide false (el_set (el_publish_leader elect_init))))))).

Lemma elect_repeat_reachable : rtc elect_step elect_init elect_repeat.
Proof.
  unfold elect_repeat.
  repeat first [ apply rtc_refl | eapply rtc_r;
    [|first [ apply es_publish_start; reflexivity | apply es_set; reflexivity
            | apply es_publish_leader; reflexivity | apply es_decide; reflexivity ]] ].
Qed.

(** ** Witnesses *)

Definition demo_opts : Options :=
  mkOptions "n1" true true true true true true true true false false true false true
    0 EmptyString false false false.
Definition demo_node : Cluster := mkCluster demo_opts false false false false.

(** Give the answers of an execution one by one. *)
Ltac answers := cbn; repeat (eexists _, _; split; [reflexivity|]; cbn); done.

(** The calls of an accepted join. *)
Definition demo_join_calls : list action :=
  [Act (CSpanStart "cluster.handleJoin") (); Act CIsLeader true; Act (CAddVoter "n2" "h2:9520") None;
   Act (CMetricInc JoinRequests ["accepted"]) (); Act (CLog (LJoinAccepted "n2" "h2:9520")) ();
   Act (CSpanEnd "cluster.handleJoin") ()].

Lemma only_leader_writes_witness : leader_gated demo_join_calls.
Proof.
  apply (only_leader_writes demo_node JoinResponse
    (handleJoin (opts demo_node) (mkJoinRequest "n2" "h2:9520")) _
    (Some (mkJoinResponse true EmptyString EmptyString))); [apply ep_handleJoin|answers].
Defined.

Lemma start_in_order_witness :
  obeyed (start_owes demo_opts) (λ X, up_after (X:=X)) (mkUp false false)
    [Act CRegisterMetrics (); Act CMemStart (Some "bind")].
Proof.
  apply (start_in_order demo_node _
    (Some (Some "bind", mkCluster demo_opts true false false false))). answers.
Defined.

Lemma failed_start_not_retried_witness :
  ([] : list action) = [] ∧
  Some (None, mkCluster demo_opts true false false false) =
  Some ((None : option string), mkCluster demo_opts true false false false).
Proof.
  apply (failed_start_not_retried demo_node
    [Act CRegisterMetrics (); Act CMemStart (Some "bind")] "bind"
    (mkCluster demo_opts true false false false)); [answers|done].
Defined.

Lemma stop_order_witness :
  ∃ c', Some (None, mkCluster demo_opts false true false false) = Some ((None : option string), c') ∧
    closed c' = true.
Proof.
  destruct (stop_order demo_node
    [Act CConsStop None; Act CMemLeave None; Act CMemStop None; Act CSrvStop None]
    (Some (None, mkCluster demo_opts false true false false))) as (c' & H1 & H2 & _); [answers|].
  by exists c'.
Defined.

Lemma handleJoin_correct_witness :
  voters demo_join_calls = [("n2", "h2:9520", None)].
Proof.
  apply (handleJoin_correct demo_opts (mkJoinRequest "n2" "h2:9520") _
    (mkJoinResponse true EmptyString EmptyString) eq_refl eq_refl); [answers|done].
Defined.

Lemma leave_accepted_despite_errors_witness :
  ∃ tr, exec (handleLeave demo_opts (mkLeaveRequest "n2")) tr (Some (mkLeaveResponse true EmptyString)).
Proof.
  eexists. apply (leave_accepted_despite_errors demo_opts (mkLeaveRequest "n2") "timeout" "timeout");
    reflexivity.
Defined.

Lemma publish_correct_trace_witness :
  ∃ s, commits [Act CIsLeader true; Act (CSeq "t") 0%Z; Act (CHandleSync "t" (Some "x")) None;
    Act (CCommit "t" "x") 1%Z; Act (CMetricInc ReplicationPublishedTotal ["t"]) ();
    Act (CMetricSet ReplicationSeq ["t"] 1) (); Act CMembers None] = [("t", "x", s)].
Proof.
  destruct (publish_correct_trace demo_opts "t" (Some "x") 1
    [Act CIsLeader true; Act (CSeq "t") 0%Z; Act (CHandleSync "t" (Some "x")) None;
     Act (CCommit "t" "x") 1%Z; Act (CMetricInc ReplicationPublishedTotal ["t"]) ();
     Act (CMetricSet ReplicationSeq ["t"] 1) (); Act CMembers None]) as (_ & _ & s & H & _); [answers|].
  by exists s.
Defined.

Lemma election_starts_bounded_witness :
  count EventElectionStart (el_log elect_repeat) ≤ count EventLeaderChanged (el_log elect_repeat).
Proof. exact (election_starts_bounded elect_repeat elect_repeat_reachable). Defined.
