(* ===== verification/Discovery.v ===== *)
(** * Discovery of seed nodes

    [pkg/discovery]: seeds given as a list or a comma separated text ([static]), read from
    an environment variable or from files with a cache ([file]), and resolved through DNS
    with a cache ([dns]).  The file system, the environment, the clock and the resolver
    are inputs. *)
From S2P Require Import Prelude GoStrings.
From stdpp Require Import options.

(** ** Lists of seeds *)

(** Trim every element and drop the empty ones. *)
Fixpoint clean (l : list string) : list string :=
  match l with
  | [] => []
  | v :: l' => let p := TrimSpace v in
               if decide (p = EmptyString) then clean l' else p :: clean l'
  end.

(** A seed as every source returns it: not empty, no space around it. *)
Definition seed_ok (s : string) : Prop := s ≠ EmptyString ∧ TrimSpace s = s.

Module Static.

Definition New (seeds : list string) : list string := clean seeds.

Definition Parse (csv : string) : list string :=
  if decide (csv = EmptyString) then [] else clean (Split csv ",").

End Static.

(** ** Files *)

Module File.

Record Options := mkOptions { Path : string; Env : string; Refresh : Z }.

(** A zero time is 0. *)
Record impl := mkImpl { opts : Options; last : Z; mtime : Z; cache : list string }.

Definition New (o : Options) : impl :=
  mkImpl (mkOptions (Path o) (Env o) (if (Refresh o <=? 0)%Z then 5000000000%Z else Refresh o)) 0 0 [].

Definition parseSeeds (csv : string) : list string :=
  if decide (csv = EmptyString) then [] else sort_strings (clean (Split csv ",")).

(** [bufio.Scanner] gives up on a line that does not fit its buffer. *)
Definition max_token : nat := 64 * 1024.

Definition drop_cr (line : string) : string := TrimSuffix line (String "013" EmptyString).

(** The lines of a text; [None] when one is too long.  What follows the last newline is
    a line when it is not empty. *)
Definition scan_lines (text : bytes) : option (list string) :=
  let pieces := Split text "010" in
  let lines := match List.last pieces EmptyString with
               | EmptyString => removelast pieces
               | _ => pieces
               end in
  if forallb (λ l, bool_decide (String.length l < max_token)) lines then Some (map drop_cr lines)
  else None.

(** The seeds of one line: none in a comment. *)
Definition line_seeds (text : string) : list string :=
  let line := TrimSpace text in
  if decide (line = EmptyString) then []
  else if HasPrefix line "#" then []
  else clean (Split line ",").

(** Without duplicates, in order. *)
Definition normalize (seeds : list string) : list string :=
  sort_strings (elements (list_to_set seeds : gset string)).

(** [None] for a file that cannot be opened. *)
Definition loadFile (content : option bytes) : list string :=
  match content with
  | None => []
  | Some text =>
      match scan_lines text with
      | None => []
      | Some lines => normalize (flat_map line_seeds lines)
      end
  end.

(** What a call finds: the value of the variable, the time, the modification time and
    content of the file when it exists, and the contents of the files the path matches
    as a pattern. *)
Record world := mkWorld {
  w_env : string;
  w_now : Z;
  w_stat : option Z;
  w_file : option bytes;
  w_glob : list (option bytes);
}.

Definition Seeds (w : world) (i : impl) : list string * impl :=
  let v := TrimSpace (w_env w) in
  if decide (Env (opts i) ≠ EmptyString ∧ v ≠ EmptyString) then (parseSeeds v, i)
  else if decide (Path (opts i) = EmptyString) then ([], i)
  else
    match w_stat w with
    | Some m =>
        let i' := if ((mtime i <? m) || (Refresh (opts i) <=? w_now w - last i))%Z
                  then mkImpl (opts i) (w_now w) m (loadFile (w_file w)) else i in
        (cache i', i')
    | None =>
        match w_glob w with
        | [] => (cache i, i)
        | matches =>
            let out := normalize (flat_map loadFile matches) in
            (out, mkImpl (opts i) (w_now w) (mtime i) out)
        end
    end.

End File.

(** ** DNS *)

Module Dns.

Section resolver.
  (** [LookupSRV] and [LookupHost] of the resolver: [None] is an error. *)
  Variable LookupSRV : string → string → string → option (list (string * Z)).
  Variable LookupHost : string → option (list string).

Record Options := mkOptions { Names : list string; Port : Z; Refresh : Z }.
Record impl := mkImpl { opts : Options; last : Z; cache : list string }.

Definition New (o : Options) : impl :=
  mkImpl (mkOptions (Names o) (if decide (Port o = 0)%Z then 7946%Z else Port o)
                    (if (Refresh o <=? 0)%Z then 5000000000%Z else Refresh o)) 0 [].

Definition parseSRVName (fqdn : string) : string * string * string :=
  match SplitN fqdn "." 3 with
  | [a; b; n] => (TrimPrefix a "_", TrimPrefix b "_", n)
  | _ => (EmptyString, EmptyString, EmptyString)
  end.

Definition lookupSRV (fqdn : string) : list string :=
  let '(svc, proto, domain) := parseSRVName fqdn in
  if decide (svc = EmptyString ∨ proto = EmptyString ∨ domain = EmptyString) then []
  else match LookupSRV svc proto domain with
       | None => []
       | Some addrs => map (λ a, JoinHostPort (TrimSuffix a.1 ".") (FormatInt a.2)) addrs
       end.

Definition lookupHost (host : string) (port : Z) : list string :=
  match LookupHost host with
  | None => []
  | Some ips => map (λ ip, JoinHostPort ip (FormatInt port)) ips
  end.

(** What one name stands for. *)
Definition resolve_name (port : Z) (raw : string) : list string :=
  let name := TrimSpace raw in
  if decide (name = EmptyString) then []
  else if Contains name ":" && negb (HasPrefix name "_") then [name]
  else
    let srv := if HasPrefix name "_" && Contains name "._" then lookupSRV name else [] in
    match srv with
    | [] => lookupHost name port
    | _ => srv
    end.

(** The loop over the addresses of one name: append those not seen yet. *)
Fixpoint add_new (l : list string) (out : list string) (seen : gset string) : list string * gset string :=
  match l with
  | [] => (out, seen)
  | hp :: l' => if decide (hp ∈ seen) then add_new l' out seen
                else add_new l' (out ++ [hp]) ({[hp]} ∪ seen)
  end.

Fixpoint resolve_loop (port : Z) (names : list string) (out : list string) (seen : gset string) : list string :=
  match names with
  | [] => out
  | n :: names' => let '(out', seen') := add_new (resolve_name port n) out seen in
                   resolve_loop port names' out' seen'
  end.

Definition resolveAll (o : Options) : list string :=
  sort_strings (resolve_loop (Port o) (Names o) [] ∅).

(** [Seeds] called at time [now]: a cached answer is reused while it is fresh and not
    empty; otherwise the resolution ends at time [done]. *)
Definition Seeds (now done : Z) (d : impl) : list string * impl :=
  if (now - last d <? Refresh (opts d))%Z && negb (bool_decide (cache d = [])) then (cache d, d)
  else let res := resolveAll (opts d) in (res, mkImpl (opts d) done res).

End resolver.
End Dns.

(** ** Lemmas *)

Lemma clean_ok l : Forall seed_ok (clean l).
Proof.
  induction l as [|v l IH]; cbn [clean]; [constructor|]. case_decide; [done|].
  constructor; [|done]. split; [done|]. apply TrimSpace_idem.
Qed.

Lemma clean_elem l s : s ∈ clean l ↔ s ≠ EmptyString ∧ ∃ v, v ∈ l ∧ s = TrimSpace v.
Proof.
  induction l as [|v l IH]; cbn [clean]; [set_solver|]. case_decide; set_solver.
Qed.

Lemma sort_strings_perm l : sort_strings l ≡ₚ l.
Proof. apply merge_sort_Permutation. Qed.

Lemma sort_strings_sorted l : StronglySorted str_le (sort_strings l).
Proof. apply StronglySorted_merge_sort; apply _. Qed.

Lemma normalize_spec l :
  NoDup (File.normalize l) ∧ StronglySorted str_le (File.normalize l) ∧
  ∀ s, s ∈ File.normalize l ↔ s ∈ l.
Proof.
  unfold File.normalize. split_and!.
  - rewrite sort_strings_perm. apply NoDup_elements.
  - apply sort_strings_sorted.
  - intros s. rewrite sort_strings_perm, elem_of_elements, elem_of_list_to_set. done.
Qed.

(** What a source returns: well-formed seeds, in order. *)
Definition seeds_ok (l : list string) : Prop := Forall seed_ok l ∧ StronglySorted str_le l.

Lemma parseSeeds_ok csv : seeds_ok (File.parseSeeds csv).
Proof.
  unfold File.parseSeeds. case_decide; [by repeat constructor|]. split; [|apply sort_strings_sorted].
  rewrite sort_strings_perm. apply clean_ok.
Qed.

Lemma line_seeds_ok text : Forall seed_ok (File.line_seeds text).
Proof. unfold File.line_seeds. repeat case_match; try constructor. apply clean_ok. Qed.

Lemma Forall_flat_map {A B} (P : B → Prop) (f : A → list B) l :
  (∀ x, x ∈ l → Forall P (f x)) → Forall P (flat_map f l).
Proof.
  induction l as [|x l IH]; intros Hf; [constructor|]. cbn [flat_map]. apply Forall_app.
  split; [apply Hf; set_solver|apply IH; set_solver].
Qed.

Lemma normalize_ok l : Forall seed_ok l → seeds_ok (File.normalize l).
Proof.
  intros Hl. destruct (normalize_spec l) as (_ & Hs & He). split; [|done].
  rewrite Forall_forall in *. intros s Hs'. by apply Hl, He.
Qed.

Lemma loadFile_ok c : seeds_ok (File.loadFile c).
Proof.
  unfold File.loadFile. destruct c as [text|]; [|by repeat constructor].
  destruct (File.scan_lines text) as [lines|]; [|by repeat constructor].
  apply normalize_ok, Forall_flat_map. intros. apply line_seeds_ok.
Qed.

Lemma File_Seeds_ok w i : seeds_ok (File.cache i) →
  seeds_ok (File.Seeds w i).1 ∧ seeds_ok (File.cache (File.Seeds w i).2).
Proof.
  intros Hc. unfold File.Seeds. case_decide; [by split; [apply parseSeeds_ok|]|].
  case_decide; [by split; [split; constructor|]|]. destruct (File.w_stat w) as [m|].
  - case_match; cbn; split; try done; apply loadFile_ok.
  - destruct (File.w_glob w) as [|x l]; [done|]. cbn.
    assert (seeds_ok (File.normalize (flat_map File.loadFile (x :: l)))); [|done].
    apply normalize_ok, Forall_flat_map. intros y _. apply loadFile_ok.
Qed.

(** ** Theorems *)

(** The calls of a program on one source. *)
Fixpoint file_calls (ws : list File.world) (i : File.impl) : list (list string) :=
  match ws with
  | [] => []
  | w :: ws' => let '(l, i') := File.Seeds w i in l :: file_calls ws' i'
  end.

(** Whatever the environment and the file system contain and however they change
    between calls, every list of seeds the file source returns is sorted and holds only
    non-empty seeds without surrounding space. *)
Theorem file_seeds_well_formed o ws l :
  l ∈ file_calls ws (File.New o) → seeds_ok l.
Proof.
  assert (∀ i, seeds_ok (File.cache i) → l ∈ file_calls ws i → seeds_ok l) as H.
  { induction ws as [|w ws IH]; intros i Hi; cbn [file_calls]; [set_solver|].
    destruct (File_Seeds_ok w i Hi) as [H1 H2]. destruct (File.Seeds w i) as [l' i'].
    intros [->|Hl]%elem_of_cons; [done|]. by eapply IH. }
  apply H. by repeat constructor.
Qed.

(** A path that names one file, which may be missing for a while, and only changes with
    its modification time, which does not go back: [content m] is what it holds when its
    modification time is [m]. *)
Fixpoint file_history (content : Z → option bytes) (prev : Z) (ws : list File.world) : Prop :=
  match ws with
  | [] => True
  | w :: ws' =>
      match File.w_stat w with
      | Some m => (prev ≤ m)%Z ∧ File.w_file w = content m ∧ file_history content m ws'
      | None => File.w_glob w = [] ∧ file_history content prev ws'
      end
  end.

(** The seeds without a cache: those of the variable when it is set, else those of the
    file as it is, or as it was last seen when it is missing. *)
Fixpoint uncached_seeds (o : File.Options) (known : list string) (ws : list File.world) : list (list string) :=
  match ws with
  | [] => []
  | w :: ws' =>
      if decide (File.Env o ≠ EmptyString ∧ TrimSpace (File.w_env w) ≠ EmptyString)
      then File.parseSeeds (TrimSpace (File.w_env w)) :: uncached_seeds o known ws'
      else
        let l := if File.w_stat w then File.loadFile (File.w_file w) else known in
        l :: uncached_seeds o l ws'
  end.

(** What the cache knows of the file: it is the file as it was last seen by [Seeds], or the
    file has been modified since. *)
Lemma file_calls_uncached content ws i prev o :
  File.Path (File.opts i) ≠ EmptyString → File.Env (File.opts i) = File.Env o →
  ((File.mtime i < prev)%Z ∨ File.mtime i = prev ∧ File.cache i = File.loadFile (content prev)) →
  file_history content prev ws → file_calls ws i = uncached_seeds o (File.cache i) ws.
Proof.
  revert i prev. induction ws as [|w ws IH]; intros i prev Hp He Hi; [done|].
  cbn [file_history file_calls uncached_seeds]. unfold File.Seeds. rewrite He.
  case_decide as Henv.
  - intros Hh. f_equal. destruct (File.w_stat w) as [m|].
    + destruct Hh as (Hm & Hf & Hh). apply (IH _ m); [done|done| |done].
      destruct (decide (m = prev)) as [->|]; [done|]. left. destruct Hi as [?|[? _]]; lia.
    + destruct Hh as [_ Hh]. by apply (IH _ prev).
  - rewrite decide_False by done. destruct (File.w_stat w) as [m|].
    + intros (Hm & Hf & Hh). destruct ((File.mtime i <? m) || _)%Z eqn:E; cbn [File.cache].
      * f_equal. apply (IH (File.mkImpl _ _ _ _) m); [done|done| |done]. right. cbn. by rewrite Hf.
      * apply orb_false_iff in E as [E%Z.ltb_ge _].
        destruct Hi as [Hi|[Hi Hc]]; [lia|]. assert (m = prev) as -> by lia.
        rewrite Hf, <-Hc. f_equal. apply (IH _ prev); [done|done| |done]. by right.
    + intros [-> Hh]. f_equal. by apply (IH _ prev).
Qed.

(** C40. The cache of the file source changes nothing: for a path that names one file, as
    long as a change of the file moves its modification time forward, every call returns the
    seeds of the variable when it is set, else those of the file as it is at that call, or
    as it was last seen when it is missing, although most calls do not read it. *)
Theorem file_cache_coherent o content ws m0 :
  File.Path o ≠ EmptyString → (0 < m0)%Z → file_history content m0 ws →
  file_calls ws (File.New o) = uncached_seeds o [] ws.
Proof.
  intros Hp Hm0 Hh. apply (file_calls_uncached content ws (File.New o) m0 o); [done|done| |done].
  left. cbn. lia.
Qed.

Lemma add_new_spec l out (seen : gset string) :
  NoDup out → (∀ x, x ∈ out ↔ x ∈ seen) →
  let '(out', seen') := Dns.add_new l out seen in
  NoDup out' ∧ (∀ x, x ∈ out' ↔ x ∈ seen') ∧ ∀ x, x ∈ out' ↔ x ∈ out ∨ x ∈ l.
Proof.
  revert out seen. induction l as [|hp l IH]; intros out seen Hnd Hs; cbn [Dns.add_new]; [set_solver|].
  case_decide as Hin.
  - specialize (IH out seen Hnd Hs). destruct (Dns.add_new l out seen) as [out' seen'].
    destruct IH as (H1 & H2 & H3). split_and!; [done..|]. intros x. rewrite H3, elem_of_cons.
    split; [tauto|]. intros [?|[->|?]]; [tauto| |tauto]. left. by apply Hs.
  - specialize (IH (out ++ [hp]) ({[hp]} ∪ seen)).
    destruct (Dns.add_new l (out ++ [hp]) ({[hp]} ∪ seen)) as [out' seen'].
    destruct IH as (H1 & H2 & H3).
    + apply NoDup_app. split_and!; [done| |apply NoDup_singleton]. intros x Hx. rewrite Hs in Hx. set_solver.
    + set_solver.
    + split_and!; [done..|]. intros x. rewrite H3. set_solver.
Qed.

(** DNS resolution returns, in order and without duplicates, exactly the addresses
    the configured names stand for: names that carry a port as they are, service records
    where the name is one and has records, and otherwise the addresses of the host with
    the configured port.  [LookupSRV] and [LookupHost] are arbitrary. *)
Theorem dns_resolve_exact srv host o :
  let l := Dns.resolveAll srv host o in
  NoDup l ∧ StronglySorted str_le l ∧
  ∀ hp, hp ∈ l ↔ ∃ n, n ∈ Dns.Names o ∧ hp ∈ Dns.resolve_name srv host (Dns.Port o) n.
Proof.
  cbn zeta. unfold Dns.resolveAll.
  assert (∀ names out seen, NoDup out → (∀ x, x ∈ out ↔ x ∈ seen) →
    NoDup (Dns.resolve_loop srv host (Dns.Port o) names out seen) ∧
    ∀ hp, hp ∈ Dns.resolve_loop srv host (Dns.Port o) names out seen ↔
      hp ∈ out ∨ ∃ n, n ∈ names ∧ hp ∈ Dns.resolve_name srv host (Dns.Port o) n) as H.
  { induction names as [|n names IH]; intros out seen Hnd Hs; cbn [Dns.resolve_loop]; [set_solver|].
    pose proof (add_new_spec (Dns.resolve_name srv host (Dns.Port o) n) out seen Hnd Hs) as Ha.
    destruct (Dns.add_new _ out seen) as [out' seen']. destruct Ha as (H1 & H2 & H3).
    destruct (IH out' seen' H1 H2) as [H4 H5]. split; [done|]. intros hp. rewrite H5, H3. set_solver. }
  destruct (H (Dns.Names o) [] ∅) as [H1 H2]; [constructor|set_solver|].
  split_and!.
  - by rewrite sort_strings_perm.
  - apply sort_strings_sorted.
  - intros hp. rewrite sort_strings_perm, H2. set_solver.
Qed.

(** ** Witnesses *)

Definition demo_file : File.Options := File.mkOptions "/etc/seeds" EmptyString 0.
Definition demo_text : bytes := "b:7946, a:7946" +:+ String "010" "# comment".

Lemma file_seeds_well_formed_witness : seeds_ok ["a:7946"; "b:7946"].
Proof.
  apply (file_seeds_well_formed demo_file [File.mkWorld EmptyString 10 (Some 5%Z) (Some demo_text) []]).
  vm_compute. left.
Defined.

Lemma file_cache_coherent_witness :
  file_calls [File.mkWorld EmptyString 10 (Some 5%Z) (Some demo_text) [];
              File.mkWorld EmptyString 11 (Some 5%Z) (Some demo_text) [];
              File.mkWorld EmptyString 12 None None [];
              File.mkWorld EmptyString 13 (Some 6%Z) (Some EmptyString) []] (File.New demo_file) =
  [["a:7946"; "b:7946"]; ["a:7946"; "b:7946"]; ["a:7946"; "b:7946"]; []].
Proof.
  rewrite (file_cache_coherent demo_file (λ m, if (m =? 5)%Z then Some demo_text else Some EmptyString) _ 1);
    [vm_compute; reflexivity|done|lia|]. cbn. repeat (split; [done || lia|]). done.
Defined.
