(* ===== verification/Http.v ===== *)
(** * Management over HTTP

    [pkg/transport/httpjson]: the handlers of the server and the client with its three
    attempts.  The network is a script of what happens to each attempt.  A request is
    built once and sent again: its body is a reader, which [net/http] consumes with the
    first attempt that reaches the server and does not rewind, so a later attempt finds
    it empty and fails before the server sees a complete request.  The functions behind the
    handlers change the state of the node: a handler takes that state and returns it. *)
From S2P Require Import Prelude GoStrings Utf8 Json Types JsonCodec.
From stdpp Require Import options.

(** ** Server *)

(** [OtherMethod] is any other one but CONNECT. *)
Inductive method : Type := GET | POST | OtherMethod.

Record response := mkResponse { code : Z; rbody : bytes }.

(** [http.Error]: the text and a newline. *)
Definition http_error (text : string) (c : Z) : response :=
  mkResponse c (text +:+ String "010" EmptyString).

Section handlers.
  (** The text of the error [json.Decoder.Decode] reports for a body. *)
  Variable decode_error : bytes → string.
  (** The state of the node. *)
  Context {St : Type}.

(** [/status]. *)
Definition status_handler (status : St → gores bytes * St) (m : method) (s : St) : response * St :=
  match m with
  | GET => match status s with
           | (Ok data, s') => (mkResponse 200 data, s')
           | (Err e, s') => (http_error ("status error: " +:+ e) 500, s')
           end
  | _ => (http_error "method not allowed" 405, s)
  end.

(** [/healthz]. *)
Definition healthz_handler (m : method) : response :=
  match m with
  | GET => mkResponse 200 "ok"
  | _ => http_error "method not allowed" 405
  end.

(** The handlers that decode a request and encode a reply: [unsupported] is the text for a
    missing function, [on_error] what becomes of the reply when there is an error. *)
Definition post_handler {Q R} (cq : codec Q) (cr : codec R) (unsupported : string)
    (on_error : R → string → R) (f : option (Q → St → (R * option string) * St)) (m : method) (body : bytes)
    (s : St) : response * St :=
  match m with
  | POST =>
      match f with
      | None => (http_error unsupported 501, s)
      | Some f =>
          match Decode cq body with
          | None => (http_error ("bad request: " +:+ decode_error body) 400, s)
          | Some req =>
              match f req s with
              | ((resp, Some e), s') => (mkResponse 500 (Encode cr (on_error resp e)), s')
              | ((resp, None), s') => (mkResponse 200 (Encode cr resp), s')
              end
          end
      end
  | _ => (http_error "method not allowed" 405, s)
  end.

Definition join_handler := post_handler JoinRequest_codec JoinResponse_codec
  "join not supported" (λ r _, r).
Definition leave_handler := post_handler LeaveRequest_codec LeaveResponse_codec
  "leave not supported" (λ r _, r).
Definition appwrite_handler := post_handler AppWriteRequest_codec AppWriteResponse_codec
  "appwrite not supported"
  (λ r e, if decide (wp_error r = EmptyString) then mkAppWriteResponse (wp_data r) e else r).
Definition appsync_handler := post_handler AppSyncRequest_codec AppSyncResponse_codec
  "appsync not supported"
  (λ r e, if decide (sp_error r = EmptyString) then mkAppSyncResponse e else r).

End handlers.

(** A handler whose function only replies. *)
Definition replying {Q R} (h : option (Q → unit → (R * option string) * unit) → method → bytes → unit → response * unit)
    (f : Q → R * option string) (body : bytes) : response :=
  (h (Some (λ q s, (f q, s))) POST body ()).1.

(** ** Client *)

(** What happens to an attempt: the connection fails before anything is sent, the reply
    is lost after the server handled the request, or the reply arrives. *)
Inductive fate : Type := Refused | Lost | Delivered.

(** [EServer] is [fmt.Errorf] of the text of the server, [EStatus] the status and body. *)
Inductive clientErr : Type :=
  | ENet
  | EBodyConsumed
  | EServer (format : string)
  | EStatus (c : Z) (body : bytes)
  | ECtx.

(** The request as the loop holds it: whether the body was read, and how many times the
    server handled it. *)
Record sending := mkSending { body_read : bool; handled : nat }.

(** [c.httpc.Do(httpReq)]: the reply, when there is one. *)
Definition Do (srv : bytes → response) (body : bytes) (f : fate) (s : sending)
    : (response + clientErr) * sending :=
  match f with
  | Refused => (inr ENet, s)
  | _ =>
      if body_read s then (inr EBodyConsumed, s)
      else
        let s' := mkSending true (S (handled s)) in
        match f with
        | Delivered => (inl (srv body), s')
        | _ => (inr ENet, s')
        end
  end.

(** The loop of [PostJoin] and the like; each attempt is followed by the backoff, which
    the context may end. *)
Fixpoint post_loop {R} (cr : codec R) (err_of : R → string) (srv : bytes → response) (body : bytes)
    (attempts : list (fate * bool)) (out : R) (lastErr : option clientErr) (s : sending)
    : (R * option clientErr) * sending :=
  match attempts with
  | [] => ((out, lastErr), s)
  | (f, cancelled) :: rest =>
      let '(r, s') := Do srv body f s in
      let '(out', lastErr') :=
        match r with
        | inr e => (out, Some e)
        | inl resp =>
            let out' := (Unmarshal_into cr (rbody resp) out).1 in
            if decide (code resp = 200)%Z then (out', None)
            else if decide (err_of out' = EmptyString) then (out', Some (EStatus (code resp) (rbody resp)))
            else (out', Some (EServer (err_of out')))
        end in
      match lastErr' with
      | None => ((out', None), s')
      | Some _ => if cancelled then ((out', lastErr'), s')
                  else post_loop cr err_of srv body rest out' lastErr' s'
      end
  end.

(** Three attempts at most: [plan] says what becomes of them. *)
Definition post {Q R} (cq : codec Q) (cr : codec R) (err_of : R → string) (srv : bytes → response)
    (plan : list (fate * bool)) (req : Q) : (R * option clientErr) * sending :=
  post_loop cr err_of srv (Marshal cq req) (take 3 plan) (c_zero cr) None (mkSending false 0).

Definition PostJoin := post JoinRequest_codec JoinResponse_codec jp_error.
Definition PostLeave := post LeaveRequest_codec LeaveResponse_codec lp_error.
Definition PostAppWrite := post AppWriteRequest_codec AppWriteResponse_codec wp_error.
Definition PostAppSync := post AppSyncRequest_codec AppSyncResponse_codec sp_error.

(** [GetStatus]: a request without a body is simply sent again. *)
Fixpoint get_loop (srv : response) (attempts : list (fate * bool)) (lastErr : option clientErr)
    : bytes + option clientErr :=
  match attempts with
  | [] => inr lastErr
  | (f, cancelled) :: rest =>
      match f with
      | Delivered =>
          if decide (code srv = 200)%Z then inl (rbody srv)
          else if cancelled then inr (Some ECtx)
          else get_loop srv rest (Some (EStatus (code srv) (rbody srv)))
      | _ => if cancelled then inr (Some ECtx) else get_loop srv rest (Some ENet)
      end
  end.

Definition GetStatus (srv : response) (plan : list (fate * bool)) : bytes + option clientErr :=
  get_loop srv (take 3 plan) None.

(** ** Lemmas *)

Lemma Do_handled srv body f s :
  (if body_read s then handled s = 1 else handled s = 0) →
  let '(r, s') := Do srv body f s in
  (if body_read s' then handled s' = 1 else handled s' = 0) ∧
  (∀ resp, r = inl resp → f = Delivered ∧ body_read s = false ∧ body_read s' = true ∧ resp = srv body).
Proof. destruct s as [[] h], f; cbn; intros ->; split; naive_solver. Qed.

Lemma post_loop_handled {R} (cr : codec R) err_of srv body attempts out lastErr s :
  (if body_read s then handled s = 1 else handled s = 0) → lastErr ≠ None ∨ attempts ≠ [] →
  let '((out', err), s') := post_loop cr err_of srv body attempts out lastErr s in
  handled s' ≤ 1 ∧ (err = None → handled s' = 1 ∧ code (srv body) = 200%Z).
Proof.
  revert out lastErr s. induction attempts as [|[f cancelled] rest IH]; intros out lastErr s Hs Hne;
    cbn [post_loop].
  { split; [destruct (body_read s); lia|]. naive_solver. }
  pose proof (Do_handled srv body f s Hs) as Hd. destruct (Do srv body f s) as [r s1].
  destruct Hd as [Hs1 Hr]. destruct r as [resp|e].
  - destruct (Hr resp eq_refl) as (-> & Hb & Hb1 & ->). rewrite Hb1 in Hs1.
    case_decide as Ec; [by rewrite Hs1|].
    assert (∀ e, let '((out', err), s') :=
      (if cancelled then (((Unmarshal_into cr (rbody (srv body)) out).1, Some e), s1)
       else post_loop cr err_of srv body rest (Unmarshal_into cr (rbody (srv body)) out).1 (Some e) s1) in
      handled s' ≤ 1 ∧ (err = None → handled s' = 1 ∧ code (srv body) = 200%Z)) as Hrest.
    { intros e. destruct cancelled; [by rewrite Hs1|]. apply IH; [by rewrite Hb1|by left]. }
    case_decide; apply Hrest.
  - destruct cancelled; [|apply IH; [done|by left]]. split; [destruct (body_read s1); lia|done].
Qed.

(** A request posted with retries is handled by the server at most once, whatever
    happens to the attempts: a reply that is lost does not make an application write run
    twice.  A call that reports success was handled exactly once and answered with status
    200. *)
Theorem post_at_most_once {Q R} (cq : codec Q) (cr : codec R) err_of srv plan req :
  plan ≠ [] →
  let '((out, err), s) := post cq cr err_of srv plan req in
  handled s ≤ 1 ∧ (err = None → handled s = 1 ∧ code (srv (Marshal cq req)) = 200%Z).
Proof.
  intros Hp. apply post_loop_handled; [done|]. right. by destruct plan.
Qed.

(** After the body was read nothing but transport errors can follow. *)
Lemma post_loop_consumed {R} (cr : codec R) err_of srv body attempts out lastErr s :
  body_read s = true → attempts ≠ [] →
  ∃ e, (e = ENet ∨ e = EBodyConsumed) ∧
    post_loop cr err_of srv body attempts out lastErr s = ((out, Some e), s).
Proof.
  revert lastErr. induction attempts as [|[f cancelled] rest IH]; intros lastErr Hs Hne; [done|].
  cbn [post_loop]. unfold Do. rewrite Hs.
  assert (∀ e, e = ENet ∨ e = EBodyConsumed → ∃ e', (e' = ENet ∨ e' = EBodyConsumed) ∧
    (if cancelled then ((out, Some e), s) else post_loop cr err_of srv body rest out (Some e) s) =
    ((out, Some e'), s)) as H.
  { intros e He. destruct cancelled; [by exists e|]. destruct rest as [|a rest]; [by exists e|].
    by apply IH. }
  destruct f; apply H; auto.
Qed.

(** The retries cannot help after the server has answered: when it replies with an
    error status and there is time for another attempt, the call still fails, and what it
    reports is a transport error of a later attempt instead of what the server said. *)
Theorem server_error_lost {Q R} (cq : codec Q) (cr : codec R) err_of srv f2 plan req :
  code (srv (Marshal cq req)) ≠ 200%Z →
  let '((out, err), s) := post cq cr err_of srv ((Delivered, false) :: f2 :: plan) req in
  (err = Some ENet ∨ err = Some EBodyConsumed) ∧ handled s = 1.
Proof.
  intros Hc. unfold post. cbn [take post_loop Do body_read handled].
  rewrite decide_False by done. set (out' := (Unmarshal_into cr _ _).1).
  assert (∀ e, let '((out, err), s) :=
    post_loop cr err_of srv (Marshal cq req) (f2 :: take 1 plan) out' (Some e) (mkSending true 1) in
    (err = Some ENet ∨ err = Some EBodyConsumed) ∧ handled s = 1) as H.
  { intros e. destruct (post_loop_consumed cr err_of srv (Marshal cq req) (f2 :: take 1 plan) out'
      (Some e) (mkSending true 1) eq_refl ltac:(done)) as (e' & He' & ->). naive_solver. }
  case_decide; [apply (H (EStatus (code (srv (Marshal cq req))) (rbody (srv (Marshal cq req)))))|
    apply (H (EServer (err_of out')))].
Qed.

Lemma Decode_Marshal {A} (c : codec A) wf depth a :
  CodecOk c wf depth → (depth ≤ max_depth)%Z → wf a = true → Decode c (Marshal c a) = Some a.
Proof.
  intros [Hj Hd He] Hmax Hw. unfold Decode, Marshal.
  rewrite <-(str_app_nil_r (print_json (c_enc c a))).
  rewrite decode_first_print; [|by apply Hj|specialize (Hd a); lia|done]. simpl. by rewrite He.
Qed.

Lemma Unmarshal_into_Encode {A} (c : codec A) wf depth a :
  CodecOk c wf depth → (depth ≤ max_depth)%Z → wf a = true →
  Unmarshal_into c (Encode c a) (c_zero c) = (a, true).
Proof.
  intros Hc Hmax Hw. pose proof (Unmarshal_Encode c wf depth a Hc Hmax Hw) as H.
  unfold Unmarshal in H. destruct (Unmarshal_into c (Encode c a) (c_zero c)) as [a' []]; congruence.
Qed.

(** Client and server agree: for requests and replies of valid UTF-8, a call whose
    attempts are refused until one is delivered returns exactly what the handler function
    answered to exactly the request that was sent. *)
Theorem http_post_roundtrip {Q R} (cq : codec Q) (cr : codec R) wfq wfr dq dr err_of
    decode_error unsupported on_error (f : Q → R) req k rest :
  CodecOk cq wfq dq → CodecOk cr wfr dr → (dq ≤ max_depth)%Z → (dr ≤ max_depth)%Z →
  wfq req = true → wfr (f req) = true → k < 3 →
  post cq cr err_of
    (replying (post_handler decode_error cq cr unsupported on_error) (λ q, (f q, None)))
    (repeat (Refused, false) k ++ (Delivered, false) :: rest) req =
  ((f req, None), mkSending true 1).
Proof.
  intros Hq Hr Hdq Hdr Hwq Hwr Hk. unfold post.
  set (srv := replying _ _).
  assert (srv (Marshal cq req) = mkResponse 200 (Encode cr (f req))) as Hsrv.
  { unfold srv, replying, post_handler. by rewrite (Decode_Marshal cq wfq dq). }
  assert (∀ lastErr rest, post_loop cr err_of srv (Marshal cq req) ((Delivered, false) :: rest) (c_zero cr) lastErr
    (mkSending false 0) = ((f req, None), mkSending true 1)) as H.
  { intros lastErr rest'. cbn [post_loop Do body_read handled]. rewrite Hsrv. cbn [code rbody].
    rewrite decide_True by done. by rewrite (Unmarshal_into_Encode cr wfr dr). }
  destruct k as [|[|[|k]]]; [apply (H None)|apply (H (Some ENet))..|lia].
Qed.

(** ** Witnesses *)

Definition demo_join : JoinRequest → JoinResponse := λ r, mkJoinResponse true EmptyString EmptyString.

Lemma post_at_most_once_witness :
  handled (PostJoin (λ _, mkResponse 500 EmptyString) [(Lost, false); (Delivered, false)]
             (mkJoinRequest "n" "h:1")).2 ≤ 1.
Proof.
  pose proof (post_at_most_once JoinRequest_codec JoinResponse_codec jp_error
    (λ _, mkResponse 500 EmptyString) [(Lost, false); (Delivered, false)] (mkJoinRequest "n" "h:1")
    ltac:(done)) as H.
  unfold PostJoin. destruct (post _ _ _ _ _ _) as [[out err] s]. exact (proj1 H).
Defined.

Lemma server_error_lost_witness :
  handled (PostJoin (λ _, mkResponse 500 EmptyString) [(Delivered, false); (Delivered, false)]
             (mkJoinRequest "n" "h:1")).2 = 1.
Proof.
  pose proof (server_error_lost JoinRequest_codec JoinResponse_codec jp_error
    (λ _, mkResponse 500 EmptyString) (Delivered, false) [] (mkJoinRequest "n" "h:1") ltac:(done)) as H.
  unfold PostJoin. destruct (post _ _ _ _ _ _) as [[out err] s]. exact (proj2 H).
Defined.

Lemma http_post_roundtrip_witness :
  PostJoin (replying (join_handler (λ _, EmptyString)) (λ q, (demo_join q, None)))
    [(Refused, false); (Delivered, false)] (mkJoinRequest "n" "h:1") =
  ((mkJoinResponse true EmptyString EmptyString, None), mkSending true 1).
Proof.
  exact (http_post_roundtrip JoinRequest_codec JoinResponse_codec JoinRequest_wf JoinResponse_wf 1 1
    jp_error (λ _, EmptyString) "join not supported" (λ r _, r) demo_join (mkJoinRequest "n" "h:1") 1 []
    _ _ ltac:(done) ltac:(done) eq_refl eq_refl ltac:(lia)).
Defined.
