(* ===== verification/RaftNode.v ===== *)
(** * The Raft node

    [pkg/consensus/raft/raft.go]: [Node] on top of the Raft library.  The library is a
    parameter: its state, what it answers and how its operations change it. *)
From S2P Require Import Prelude GoStrings Utf8 Json Types JsonCodec.
From stdpp Require Import options.

(** ** Options and timeouts *)

Record Options := mkOptions {
  NodeID : string;
  Bootstrap : bool;
  HeartbeatTimeout : Z;
  ElectionTimeout : Z;
  CommitTimeout : Z;
  ApplyTimeout : Z;
  BindAddr : string;
  DataDir : string;
  SnapshotsRetained : Z;
}.

(** The timeouts of the library's configuration. *)
Record timeouts := mkTimeouts { t_heartbeat : Z; t_lease : Z; t_election : Z; t_commit : Z }.

(** The part of [Start] that adjusts the library's defaults [d]. *)
Definition configure (o : Options) (d : timeouts) : timeouts :=
  let '(hb, lease) :=
    if (0 <? HeartbeatTimeout o)%Z then
      let hb := HeartbeatTimeout o in
      if (hb <? t_lease d)%Z then
        let lease := (hb / 2)%Z in (hb, if decide (lease = 0)%Z then hb else lease)
      else (hb, t_lease d)
    else (t_heartbeat d, t_lease d) in
  mkTimeouts hb lease
    (if (0 <? ElectionTimeout o)%Z then ElectionTimeout o else t_election d)
    (if (0 <? CommitTimeout o)%Z then CommitTimeout o else t_commit d).

(** Whatever heartbeat timeout is configured, the leader lease stays positive and
    never exceeds the heartbeat timeout, the condition the Raft library puts on its
    configuration, and a configured timeout is used as it is. *)
Theorem lease_within_heartbeat o d :
  (0 < t_lease d ≤ t_heartbeat d)%Z →
  let c := configure o d in
  (0 < t_lease c ≤ t_heartbeat c)%Z ∧
  (0 < HeartbeatTimeout o → t_heartbeat c = HeartbeatTimeout o)%Z ∧
  (0 < ElectionTimeout o → t_election c = ElectionTimeout o)%Z.
Proof.
  intros Hd. unfold configure.
  assert (HeartbeatTimeout o / 2 * 2 ≤ HeartbeatTimeout o)%Z
    by (pose proof (Z.mul_div_le (HeartbeatTimeout o) 2); lia).
  destruct (Z.ltb_spec 0 (HeartbeatTimeout o)); [destruct (Z.ltb_spec (HeartbeatTimeout o) (t_lease d))|];
    cbn; repeat case_decide; cbn; destruct (Z.ltb_spec 0 (ElectionTimeout o)); try lia.
  all: assert (0 ≤ HeartbeatTimeout o / 2)%Z by (apply Z.div_pos; lia); split_and!; lia.
Qed.

(** ** Leader notifications *)

Definition lch_cap : nat := 16.

(** [emitLeader]: a full channel keeps what it has. *)
Definition emitLeader (li : LeaderInfo) (lch : list LeaderInfo) : list LeaderInfo :=
  try_send lch_cap lch li.

(** A full leader channel drops the newest leader, not the oldest: after sixteen
    unread changes the reader keeps seeing the old ones and never the last. *)
Theorem full_channel_drops_newest li lch :
  length lch = lch_cap → emitLeader li lch = lch.
Proof. intros H. unfold emitLeader, try_send. rewrite decide_False by lia. done. Qed.

(** ** The node *)

(** What the node uses of the library. *)
Record raftLib (R : Type) := mkLib {
  State_is_leader : R → bool;
  LeaderWithID : R → string * string;          (** address and identifier *)
  current_term : R → string;                   (** [Stats()] of that name, or empty *)
  GetConfiguration : R → option (list (string * string));  (** identifiers and addresses *)
  RaftAddVoter : string → string → R → option string * R;
  RaftRemoveServer : string → R → option string * R;
  RaftApply : bytes → Z → R → (option string * option string) * R;  (** error, FSM error *)
  Shutdown : R → option string;
}.
Arguments State_is_leader {R}.
Arguments LeaderWithID {R}.
Arguments current_term {R}.
Arguments GetConfiguration {R}.
Arguments RaftAddVoter {R}.
Arguments RaftRemoveServer {R}.
Arguments RaftApply {R}.
Arguments Shutdown {R}.

Section node.
  Context {R : Type} (lib : raftLib R).

Record Node := mkNode { opts : Options; r : option R; lch : list LeaderInfo }.

Definition New (o : Options) : gores Node :=
  if decide (NodeID o = EmptyString) then Err "raftcons: empty NodeID" else Ok (mkNode o None []).

Definition set_r (x : R) (n : Node) : Node := mkNode (opts n) (Some x) (lch n).

Definition IsLeader (n : Node) : bool :=
  match r n with None => false | Some x => State_is_leader lib x end.

Definition Leader (n : Node) : option (string * string) :=
  match r n with
  | None => None
  | Some x => let '(a, sid) := LeaderWithID lib x in
              if decide (sid = EmptyString) then None else Some (sid, a)
  end.

Definition Term (n : Node) : Z :=
  match r n with
  | None => 0%Z
  | Some x => let v := current_term lib x in
              if decide (v = EmptyString) then 0%Z else default 0%Z (ParseUint v)
  end.

(** The observer of the library's leader changes. *)
Definition observe (n : Node) : Node :=
  match Leader n with
  | Some (id, addr) => mkNode (opts n) (r n) (emitLeader (mkLeaderInfo id addr (Term n)) (lch n))
  | None => n
  end.

Definition Apply (cmd : Command) (timeout : Z) (n : Node) : option string * Node :=
  match r n with
  | None => (Some "raftcons: not started", n)
  | Some x =>
      if State_is_leader lib x then
        let t := if (timeout <=? 0)%Z && (0 <? ApplyTimeout (opts n))%Z then ApplyTimeout (opts n) else timeout in
        let '((e, resp), x') := RaftApply lib (Marshal Command_codec cmd) t x in
        (match e with Some err => Some err | None => resp end, set_r x' n)
      else (Some "raftcons: not leader", n)
  end.

Definition Stop (n : Node) : option string * Node :=
  match r n with
  | None => (None, n)
  | Some x => match Shutdown lib x with
              | Some e => (Some e, n)
              | None => (None, mkNode (opts n) None (lch n))
              end
  end.

(** What the constructors [Start] calls return: the data directory, the store, the
    snapshot store, the address of the TCP transport, the Raft instance for a
    configuration, and bootstrapping it with the single server given. *)
Record startEnv := mkStartEnv {
  e_MkdirAll : option string;
  e_NewBoltStore : option string;
  e_NewFileSnapshotStore : Z → option string;
  e_NewTCPTransport : string → gores string;
  e_NewRaft : timeouts → gores R;
  e_BootstrapCluster : list (string * string) → R → option string * R;
}.

Definition set_retained (n : Node) : Node :=
  let o := opts n in
  mkNode (mkOptions (NodeID o) (Bootstrap o) (HeartbeatTimeout o) (ElectionTimeout o) (CommitTimeout o)
    (ApplyTimeout o) (BindAddr o) (DataDir o)
    (if decide (SnapshotsRetained o = 0)%Z then 2%Z else SnapshotsRetained o)) (r n) (lch n).

(** The stores: on disk when a directory is configured, else in memory. *)
Definition open_stores (env : startEnv) (n : Node) : option string * Node :=
  if decide (DataDir (opts n) = EmptyString) then (None, n)
  else
    let n1 := set_retained n in
    match e_MkdirAll env with
    | Some e => (Some e, n1)
    | None => match e_NewBoltStore env with
              | Some e => (Some e, n1)
              | None => (e_NewFileSnapshotStore env (SnapshotsRetained (opts n1)), n1)
              end
    end.

(** The address of the transport: TCP when a bind address is configured, else in memory. *)
Definition open_transport (env : startEnv) (n : Node) : gores string :=
  if decide (BindAddr (opts n) = EmptyString) then Ok (NodeID (opts n))
  else e_NewTCPTransport env (BindAddr (opts n)).

Definition Start (env : startEnv) (defaults : timeouts) (n : Node) : option string * Node :=
  match r n with
  | Some _ => (None, n)
  | None =>
      match open_stores env n with
      | (Some e, n1) => (Some e, n1)
      | (None, n1) =>
          match open_transport env n1 with
          | Err e => (Some e, n1)
          | Ok addr =>
              match e_NewRaft env (configure (opts n1) defaults) with
              | Err e => (Some e, n1)
              | Ok x =>
                  if Bootstrap (opts n1)
                  then let '(e, x') := e_BootstrapCluster env [(NodeID (opts n1), addr)] x in (e, set_r x' n1)
                  else (None, set_r x n1)
              end
          end
      end
  end.

(** The first server of the configuration with the identifier. *)
Definition find_server (id : string) (l : list (string * string)) : option string :=
  snd <$> List.find (λ s, bool_decide (s.1 = id)) l.

Definition AddVoter (id addr : string) (n : Node) : option string * Node :=
  match r n with
  | None => (Some "raftcons: not started", n)
  | Some x =>
      match GetConfiguration lib x ≫= find_server id with
      | Some a =>
          if decide (a = addr) then (None, n)
          else
            match RaftRemoveServer lib id x with
            | (Some e, x1) => (Some e, set_r x1 n)
            | (None, x1) => let '(e, x2) := RaftAddVoter lib id addr x1 in (e, set_r x2 n)
            end
      | None => let '(e, x2) := RaftAddVoter lib id addr x in (e, set_r x2 n)
      end
  end.

Definition RemoveServer (id : string) (n : Node) : option string * Node :=
  match r n with
  | None => (Some "raftcons: not started", n)
  | Some x => let '(e, x') := RaftRemoveServer lib id x in (e, set_r x' n)
  end.

(** ** Starting *)

(** When [Start] of a node that is not running reports an error, either nothing is
    running, or bootstrapping failed and the Raft instance runs all the same: a second
    [Start] then reports success without bootstrapping.  When it reports success, the
    instance was made with the configured timeouts. *)
Theorem start_outcome env defaults n e n' :
  r n = None → Start env defaults n = (e, n') →
  match e with
  | Some err => r n' = None ∨
      Bootstrap (opts n) = true ∧ is_Some (r n') ∧ Start env defaults n' = (None, n')
  | None => ∃ x x', e_NewRaft env (configure (opts n) defaults) = Ok x ∧ r n' = Some x' ∧
      (Bootstrap (opts n) = false → x' = x)
  end.
Proof.
  intros Hr. unfold Start. rewrite Hr.
  destruct (open_stores env n) as [e0 n1] eqn:Es.
  assert (r n1 = None ∧ Bootstrap (opts n1) = Bootstrap (opts n) ∧
    configure (opts n1) defaults = configure (opts n) defaults) as (H1 & H2 & H3).
  { unfold open_stores in Es. repeat case_match; simplify_eq; done. }
  rewrite H2, H3. destruct e0; [by intros [= <- <-]; left|].
  destruct (open_transport env n1) as [addr|]; [|by intros [= <- <-]; left].
  destruct (e_NewRaft env _) as [x|]; [|by intros [= <- <-]; left].
  destruct (Bootstrap (opts n)).
  - destruct (e_BootstrapCluster env _ x) as [eb x']. intros [= <- <-]. destruct eb; cbn.
    + right. split_and!; [done|by eexists|done].
    + by exists x, x'.
  - intros [= <- <-]. by exists x, x.
Qed.

(** ** Reconfiguration *)

(** The documented effect of the library's operations when they succeed: an added voter
    is in the configuration under the given address, a removed server is not, and other
    servers stay; a configuration holds an identifier once. *)
Class LibConfig : Prop := {
  conf_unique x l : GetConfiguration lib x = Some l → NoDup l.*1;
  add_voter_conf id addr x x' l :
    RaftAddVoter lib id addr x = (None, x') → GetConfiguration lib x = Some l →
    ∃ l', GetConfiguration lib x' = Some l' ∧
      ∀ i a, (i, a) ∈ l' ↔ (i = id ∧ a = addr) ∨ (i ≠ id ∧ (i, a) ∈ l);
  remove_server_conf id x x' l :
    RaftRemoveServer lib id x = (None, x') → GetConfiguration lib x = Some l →
    ∃ l', GetConfiguration lib x' = Some l' ∧ ∀ i a, (i, a) ∈ l' ↔ i ≠ id ∧ (i, a) ∈ l;
}.

Lemma find_server_Some id l a : find_server id l = Some a → (id, a) ∈ l.
Proof.
  unfold find_server. intros ([i a'] & E & ->)%fmap_Some.
  apply List.find_some in E as [Hin Hi%bool_decide_eq_true]. cbn in *. subst. by apply list_elem_of_In.
Qed.

(** When [AddVoter] succeeds on a started node, the configuration holds the server
    under exactly the given address, and every other server as before: a server that was
    known under another address is moved, and one already known under this address costs
    no change of configuration. *)
Theorem add_voter_configuration `{LibConfig} id addr n x l n' :
  r n = Some x → GetConfiguration lib x = Some l → AddVoter id addr n = (None, n') →
  ∃ x' l', r n' = Some x' ∧ GetConfiguration lib x' = Some l' ∧
    (∀ i a, (i, a) ∈ l' ↔ (i = id ∧ a = addr) ∨ (i ≠ id ∧ (i, a) ∈ l)) ∧
    ((id, addr) ∈ l → n' = n).
Proof.
  intros Hx Hl Ha. unfold AddVoter in Ha. rewrite Hx, Hl in Ha. cbn [mbind option_bind] in Ha.
  pose proof (conf_unique x l Hl) as Hnd.
  destruct (find_server id l) as [a0|] eqn:E.
  - apply find_server_Some in E. case_decide as Ea; [subst a0; simplify_eq|].
    + exists x, l. split_and!; [done..| |done]. intros i a. split.
      * intros Hin. destruct (decide (i = id)) as [->|]; [|by right]. left. split; [done|].
        by eapply (NoDup_fst_eq l).
      * by intros [[-> ->]|[_ ?]].
    + destruct (RaftRemoveServer lib id x) as [[e|] x1] eqn:Er; [done|].
      destruct (RaftAddVoter lib id addr x1) as [e x2] eqn:Ev. simplify_eq.
      destruct (remove_server_conf _ _ _ _ Er Hl) as (l1 & Hl1 & H1).
      destruct (add_voter_conf _ _ _ _ _ Ev Hl1) as (l2 & Hl2 & H2).
      exists x2, l2. split_and!; [done..| |].
      * intros i a. rewrite H2, H1. naive_solver.
      * intros Hin. exfalso. apply Ea. by eapply (NoDup_fst_eq l).
  - destruct (RaftAddVoter lib id addr x) as [e x2] eqn:Ev. simplify_eq.
    destruct (add_voter_conf _ _ _ _ _ Ev Hl) as (l2 & Hl2 & H2).
    exists x2, l2. split_and!; [done..|]. intros Hin. exfalso.
    unfold find_server in E. apply fmap_None in E.
    pose proof (List.find_none _ _ E (id, addr) (proj1 (list_elem_of_In _ _) Hin)) as Hn.
    by apply bool_decide_eq_false in Hn.
Qed.

End node.

(** ** Witnesses *)

(** A library whose state is its configuration. *)
Definition demo_lib : raftLib (gmap string string) :=
  mkLib _ (λ _, true) (λ _, ("a:1", "a")) (λ _, "7") (λ m, Some (map_to_list m))
    (λ id addr m, (None, <[id := addr]> m)) (λ id m, (None, delete id m))
    (λ _ _ m, ((None, None), m)) (λ _, None).

Global Instance demo_lib_config : LibConfig demo_lib.
Proof.
  split.
  - intros x l [= <-]. apply NoDup_fst_map_to_list.
  - intros id addr x x' l [= <-] [= <-]. eexists. split; [done|]. intros i a.
    rewrite !elem_of_map_to_list, lookup_insert_Some. naive_solver.
  - intros id x x' l [= <-] [= <-]. eexists. split; [done|]. intros i a.
    rewrite !elem_of_map_to_list, lookup_delete_Some. naive_solver.
Qed.

Definition demo_opts : Options := mkOptions "a" true 0 0 0 0 EmptyString EmptyString 0.

Lemma add_voter_configuration_witness :
  ∃ x' l', r (mkNode demo_opts (Some (<["b" := "b:2"]> (delete "b" {["b" := "b:1"]}))) []) = Some x' ∧
    GetConfiguration demo_lib x' = Some l' ∧ ("b", "b:2") ∈ l'.
Proof.
  destruct (add_voter_configuration demo_lib "b" "b:2" (mkNode demo_opts (Some {["b" := "b:1"]}) [])
    {["b" := "b:1"]} (map_to_list {["b" := "b:1"]})
    (mkNode demo_opts (Some (<["b" := "b:2"]> (delete "b" {["b" := "b:1"]}))) [])
    eq_refl eq_refl ltac:(unfold AddVoter; cbn [r GetConfiguration demo_lib mbind option_bind]; rewrite map_to_list_singleton; reflexivity)) as (x' & l' & H1 & H2 & H3 & _).
  exists x', l'. split_and!; [done..|]. apply H3. by left.
Defined.

Definition demo_env : startEnv (R := gmap string string) :=
  mkStartEnv None None (λ _, None) Ok (λ _, Ok ∅) (λ _ x, (Some "bootstrap only works on new clusters", x)).

Lemma start_outcome_witness :
  Start demo_env (mkTimeouts 1000 500 1000 50) (mkNode demo_opts (Some ∅) []) = (None, mkNode demo_opts (Some ∅) []).
Proof.
  destruct (start_outcome demo_env (mkTimeouts 1000 500 1000 50) (mkNode demo_opts None [])
    (Some "bootstrap only works on new clusters") (mkNode demo_opts (Some ∅) []) eq_refl eq_refl) as [H|(_ & _ & H)].
  - done.
  - exact H.
Defined.

Lemma lease_within_heartbeat_witness :
  (0 < t_lease (configure (mkOptions "a" true 100 0 0 0 EmptyString EmptyString 0)
                          (mkTimeouts 1000 500 1000 50)) ≤ 100)%Z.
Proof.
  apply (lease_within_heartbeat (mkOptions "a" true 100 0 0 0 EmptyString EmptyString 0)
           (mkTimeouts 1000 500 1000 50)). cbn. lia.
Defined.

Lemma full_channel_drops_newest_witness :
  emitLeader (mkLeaderInfo "new" "n:1" 2) (replicate 16 (mkLeaderInfo "old" "o:1" 1)) =
  replicate 16 (mkLeaderInfo "old" "o:1" 1).
Proof. apply (full_channel_drops_newest (mkLeaderInfo "new" "n:1" 2) (replicate 16 (mkLeaderInfo "old" "o:1" 1))). reflexivity. Defined.
