(* ===== verification/Gossip.v ===== *)
(** * Gossip membership

    [pkg/membership/memberlist/memberlist.go]: the adapter that gives the facade its view
    of the members and their events.  The memberlist library is a parameter: what it
    answers for a configuration and which nodes it knows. *)
From S2P Require Import Prelude GoStrings Utf8 Json JsonPrefix Types JsonCodec Effects Cluster.
From stdpp Require Import options.

(** ** Addresses *)

(** [net.SplitHostPort]. *)
Inductive addrErr : Type := MissingPort | TooManyColons | MissingBracket | UnexpectedOpen | UnexpectedClose.

(** What is before and after the first [c]. *)
Fixpoint cut_byte (c : ascii) (s : string) : option (string * string) :=
  match s with
  | EmptyString => None
  | String a s' => if decide (a = c) then Some (EmptyString, s')
                   else '(h, t) ← cut_byte c s'; Some (String a h, t)
  end.

(** The tests on brackets after host and port have been found: [j] and [k] are the texts
    in which a bracket is unexpected. *)
Definition no_brackets (j k host port : string) : addrErr + string * string :=
  if has_byte "[" j then inl UnexpectedOpen
  else if has_byte "]" k then inl UnexpectedClose
  else inr (host, port).

Definition SplitHostPort (hostport : string) : addrErr + string * string :=
  match LastIndexByte hostport ":" with
  | None => inl MissingPort
  | Some i =>
      let port := str_drop (S i) hostport in
      match hostport with
      | String "[" inner =>
          match cut_byte "]" inner with
          | None => inl MissingBracket
          | Some (host, EmptyString) => inl MissingPort
          | Some (host, String c rest) =>
              (** the position behind the bracket is that of the last colon *)
              if decide (S (S (String.length host)) = i)
              then no_brackets inner (String c rest) host port
              else if decide (c = ":"%char) then inl TooManyColons else inl MissingPort
          end
      | _ =>
          let host := str_take i hostport in
          if has_byte ":" host then inl TooManyColons
          else no_brackets hostport hostport host port
      end
  end.

(** What [fmt.Sscanf(s, "%d", &p)] skips before the number: a newline is an error. *)
Fixpoint skip_blanks (s : string) : option string :=
  match s with
  | EmptyString => Some s
  | String a s1 =>
      if decide (a = "010"%char) then None
      else if space1 a then skip_blanks s1
      else match s1 with
           | EmptyString => Some s
           | String b s2 =>
               if space2 a b then skip_blanks s2
               else match s2 with
                    | EmptyString => Some s
                    | String c s3 => if space3 a b c then skip_blanks s3 else Some s
                    end
           end
  end.

(** The longest prefix of decimal digits. *)
Fixpoint take_digits (s : string) : string :=
  match s with
  | String a s' => if digit_val a is Some _ then String a (take_digits s') else EmptyString
  | EmptyString => EmptyString
  end.

(** The token [%d] reads: a sign and digits; what follows is not looked at. *)
Definition number_token (s : string) : string :=
  match s with
  | String a s' => if decide (a = "+"%char ∨ a = "-"%char) then String a (take_digits s') else take_digits s
  | EmptyString => EmptyString
  end.

Definition Sscanf_d (s : string) : option Z := s' ← skip_blanks s; ParseInt (number_token s').

Definition parsePort (s : string) : option Z :=
  p ← Sscanf_d s; if decide (0 ≤ p ≤ 65535)%Z then Some p else None.

(** ** Options and the node's configuration *)

Record Options := mkOptions {
  NodeID : string;
  Bind : string;
  Advertise : string;
  Meta : option (gmap string string);
  ProbeInterval : Z;
  ProbeTimeout : Z;
  SuspicionMult : Z;
}.

(** What [Start] sets in the library's configuration. *)
Record config := mkConfig {
  c_name : string;
  c_bind : string * Z;
  c_advertise : string * Z;
  c_probeInterval : Z;
  c_probeTimeout : Z;
  c_suspicionMult : Z;
  c_meta : bytes;       (** of the node delegate *)
}.

Inductive startErr : Type :=
  | BadBind (e : addrErr) | BadAdvertise (e : addrErr) | BadPort (s : string) | CreateFailed (e : string).

Definition hostport_of (bad : addrErr → startErr) (s : string) : startErr + string * Z :=
  match SplitHostPort s with
  | inl e => inl (bad e)
  | inr (host, portStr) =>
      match parsePort portStr with
      | Some p => inr (host, p)
      | None => inl (BadPort portStr)
      end
  end.

(** The configuration [Start] builds from the library's defaults [d]. *)
Definition configure (o : Options) (d : config) : startErr + config :=
  match hostport_of BadBind (Bind o) with
  | inl e => inl e
  | inr b =>
      match (if decide (Advertise o = EmptyString) then inr (c_advertise d)
             else hostport_of BadAdvertise (Advertise o)) with
      | inl e => inl e
      | inr a =>
          inr (mkConfig (NodeID o) b a
            (if (0 <? ProbeInterval o)%Z then ProbeInterval o else c_probeInterval d)
            (if (0 <? ProbeTimeout o)%Z then ProbeTimeout o else c_probeTimeout d)
            (if (0 <? SuspicionMult o)%Z then SuspicionMult o else c_suspicionMult d)
            (Marshal map_codec (Meta o)))
      end
  end.

(** [nodeDelegate.NodeMeta]: what is gossiped of the metadata. *)
Definition NodeMeta (meta : bytes) (limit : Z) : bytes :=
  if (Z.of_nat (String.length meta) <=? limit)%Z then meta
  else if (limit <=? 0)%Z then EmptyString
  else str_take (Z.to_nat limit) meta.

(** ** Members *)

(** A node of the library: its name, address, port and gossiped metadata. *)
Record mlNode := mkMlNode { n_name : string; n_ip : string; n_port : Z; n_meta : bytes }.

Definition decode_meta (meta : bytes) : option (gmap string string) :=
  if decide (meta = EmptyString) then Some ∅ else (Unmarshal_into map_codec meta (Some ∅)).1.

Definition node_addr (n : mlNode) : string := JoinHostPort (n_ip n) (FormatInt (n_port n)).

Definition member_of (n : mlNode) : MemberInfo := mkMember (n_name n) (node_addr n) (decode_meta (n_meta n)).

(** ** The adapter *)

Definition evts_cap : nat := 64.

Record impl (M : Type) := mkImpl {
  opts : Options;
  ml : option M;
  evts : list MemEvent;
  evts_closed : bool;
  closed : bool;
}.
Arguments mkImpl {M}.
Arguments opts {M}.
Arguments ml {M}.
Arguments evts {M}.
Arguments evts_closed {M}.
Arguments closed {M}.

Definition New {M} (o : Options) : gores (impl M) :=
  if decide (NodeID o = EmptyString) then Err "memberlist: empty NodeID"
  else if decide (Bind o = EmptyString) then Err "memberlist: empty Bind address"
  else Ok (mkImpl o None [] false false).

Section adapter.
  Context {M : Type} (defaults : config) (Create : config → gores M).
  Context (LocalNode : M → mlNode) (MlMembers : M → list mlNode) (GetHealthScore : M → Z).
  Context (MlJoin : M → list string → option string * M) (MlLeave : M → M).

Definition set_ml (x : option M) (i : impl M) : impl M :=
  mkImpl (opts i) x (evts i) (evts_closed i) (closed i).

Definition Start (i : impl M) : option startErr * impl M :=
  match ml i with
  | Some _ => (None, i)
  | None =>
      match configure (opts i) defaults with
      | inl e => (Some e, i)
      | inr cfg =>
          match Create cfg with
          | Err e => (Some (CreateFailed e), i)
          | Ok x => (None, set_ml (Some x) i)
          end
      end
  end.

Definition Join (seeds : list string) (i : impl M) : option string * impl M :=
  match ml i with
  | None => (Some "memberlist: not started", i)
  | Some x => if decide (seeds = []) then (None, i)
              else let '(e, x') := MlJoin x seeds in (e, set_ml (Some x') i)
  end.

(** The result of the library's [Leave] is dropped. *)
Definition Leave (i : impl M) : impl M :=
  match ml i with None => i | Some x => set_ml (Some (MlLeave x)) i end.

Definition Local (i : impl M) : MemberInfo :=
  match ml i with
  | None => mkMember EmptyString EmptyString None
  | Some x =>
      let n := LocalNode x in
      mkMember (n_name n) (node_addr n)
        (if decide (n_meta n = EmptyString)
         then match Meta (opts i) with Some m => Some m | None => Some ∅ end
         else decode_meta (n_meta n))
  end.

Definition Members (i : impl M) : option (list MemberInfo) :=
  match ml i with
  | None => None
  | Some x => Some (map member_of (MlMembers x))
  end.

(** Closing a closed channel panics ([None]). *)
Definition Stop (i : impl M) : option (impl M) :=
  if closed i then Some i
  else if evts_closed i then None
  else Some (mkImpl (opts i) None (evts i) true true).

Definition HealthScore (i : impl M) : Z :=
  match ml i with None => -1 | Some x => GetHealthScore x end.

(** Sending on the closed channel panics, which [emit] recovers from. *)
Definition emit (e : MemEvent) (i : impl M) : impl M :=
  if evts_closed i then i
  else mkImpl (opts i) (ml i) (try_send evts_cap (evts i) e) (evts_closed i) (closed i).

(** The events of the library; a node may be nil. *)
Definition NotifyJoin (n : option mlNode) (now : Z) (i : impl M) : impl M :=
  match n with None => i | Some n => emit (mkMemEvent EventJoin (member_of n) now) i end.

Definition NotifyLeave (n : option mlNode) (now : Z) (i : impl M) : impl M :=
  match n with None => i | Some n => emit (mkMemEvent EventLeave (member_of n) now) i end.

Definition NotifyUpdate (n : option mlNode) (now : Z) (i : impl M) : impl M :=
  match n with None => i | Some n => emit (mkMemEvent EventJoin (member_of n) now) i end.

End adapter.

(** ** Addresses round trip *)

Lemma cut_byte_app c h t : has_byte c h = false → cut_byte c (h +:+ String c t) = Some (h, t).
Proof.
  induction h as [|a h IH]; rewrite ?app_Empty, ?app_String; simpl.
  - intros _. by rewrite decide_True.
  - intros [Ha Hh]%orb_false_iff. apply bool_decide_eq_false_1 in Ha.
    by rewrite decide_False, IH.
Qed.

Definition plain_host (h : string) : Prop := has_byte "[" h = false ∧ has_byte "]" h = false.

Lemma SplitHostPort_join h p :
  plain_host h → plain_host p → has_byte ":" p = false → SplitHostPort (JoinHostPort h p) = inr (h, p).
Proof.
  intros [Ho Hc] [Hpo Hpc] Hp. unfold JoinHostPort. destruct (has_byte ":" h) eqn:Eh.
  - assert ("[" +:+ (h +:+ ("]:" +:+ p)) = (String "[" h +:+ "]") +:+ String ":" p) as E.
    { replace ("]:" +:+ p) with ("]" +:+ String ":" p) by done.
      by rewrite str_app_assoc. }
    rewrite E. unfold SplitHostPort. rewrite LastIndexByte_app, str_drop_app_S by done.
    rewrite !app_String, str_app_assoc.
    replace ("]" +:+ String ":" p) with (String "]" (String ":" p)) by done.
    rewrite cut_byte_app by done. rewrite decide_True.
    2: { cbn [String.length]. rewrite length_app_str. cbn. lia. }
    unfold no_brackets. rewrite !has_byte_app. cbn [has_byte]. by rewrite Ho, Hpo, Hpc.
  - unfold SplitHostPort. replace (":" +:+ p) with (String ":" p) by done.
    rewrite LastIndexByte_app, str_drop_app_S by done.
    assert (no_brackets (h +:+ String ":" p) (h +:+ String ":" p) h p = inr (h, p)) as E.
    { unfold no_brackets. rewrite !has_byte_app. cbn [has_byte]. by rewrite Ho, Hc, Hpo, Hpc. }
    rewrite str_take_app, Eh. destruct h as [|a h]; [exact E|]. rewrite app_String in *.
    cbn [has_byte] in Ho. apply orb_false_iff in Ho as [Ha _].
    by destruct a as [[] [] [] [] [] [] [] []].
Qed.

Fixpoint digits_only (s : string) : Prop :=
  match s with String a s' => digit_val a ≠ None ∧ digits_only s' | EmptyString => True end.

Lemma format_digits_only fuel n acc : digits_only acc → digits_only (format_digits fuel n acc).
Proof.
  revert n acc. induction fuel as [|f IH]; intros n acc H; cbn [format_digits]; [done|].
  assert (digits_only (String (digit_char (n `mod` 10)) acc)) as H'.
  { split; [|done]. rewrite digit_val_char; [done|]. apply Z.mod_pos_bound. lia. }
  case_decide; [done|by apply IH].
Qed.

Lemma take_digits_only s : digits_only s → take_digits s = s.
Proof.
  induction s as [|a s IH]; [done|]. intros [Ha Hs]. cbn [take_digits].
  destruct (digit_val a); [|done]. by rewrite IH.
Qed.

Lemma digit_token a s :
  digit_val a ≠ None → digits_only s →
  skip_blanks (String a s) = Some (String a s) ∧ number_token (String a s) = String a s ∧
  ParseInt (String a s) = (n ← ParseUint (String a s); if decide (n < 2 ^ 63)%Z then Some n else None).
Proof.
  intros Ha Hs. unfold number_token. rewrite (take_digits_only s), (take_digits_only (String a s)) by done.
  destruct a as [[] [] [] [] [] [] [] []]; try (exfalso; apply Ha; reflexivity);
    (split_and!; [destruct s as [|? [|? ?]]; done|reflexivity|reflexivity]).
Qed.

Lemma parsePort_FormatInt p : (0 ≤ p ≤ 65535)%Z → parsePort (FormatInt p) = Some p.
Proof.
  intros Hp. unfold parsePort, Sscanf_d, FormatInt. rewrite decide_False by lia.
  assert (is_u64 p) as Hu by (unfold is_u64, w64; lia).
  pose proof (ParseUint_FormatUint p Hu) as E. unfold FormatUint in *.
  pose proof (format_digits_only 20 p EmptyString I) as Hd.
  destruct (format_digits 20 p EmptyString) as [|a s]; [done|]. destruct Hd as [Ha Hs].
  destruct (digit_token a s Ha Hs) as (-> & Ht & Hi). cbn [mbind option_bind].
  rewrite Ht, Hi, E. cbn [mbind option_bind]. rewrite decide_True by lia.
  cbn [mbind option_bind]. by rewrite decide_True.
Qed.

Lemma FormatInt_plain p : (0 ≤ p)%Z → plain_host (FormatInt p) ∧ has_byte ":" (FormatInt p) = false.
Proof.
  intros Hp. unfold FormatInt. rewrite decide_False by lia.
  by repeat split; apply FormatUint_no_byte.
Qed.

Lemma hostport_of_join bad h p :
  plain_host h → (0 ≤ p ≤ 65535)%Z → hostport_of bad (JoinHostPort h (FormatInt p)) = inr (h, p).
Proof.
  intros Hh Hp. destruct (FormatInt_plain p) as [? ?]; [lia|]. unfold hostport_of.
  rewrite SplitHostPort_join by done. by rewrite parsePort_FormatInt.
Qed.

Lemma hostport_of_range bad s h p : hostport_of bad s = inr (h, p) → (0 ≤ p ≤ 65535)%Z.
Proof.
  unfold hostport_of, parsePort. destruct (SplitHostPort s) as [|[h' ps]]; [done|].
  destruct (Sscanf_d ps) as [q|]; cbn; [|done]. case_decide; intros; by simplify_eq.
Qed.

(** [Start] gives the library exactly the configured addresses: a bind and an
    advertise address written as host and port, the host with or without colons, are split
    back into that host and port; and whatever the options are, a port that reaches the
    library is a 16-bit one. *)
Theorem configured_addresses o d bh bp ah ap :
  Bind o = JoinHostPort bh (FormatInt bp) → Advertise o = JoinHostPort ah (FormatInt ap) →
  plain_host bh → plain_host ah → (0 ≤ bp ≤ 65535)%Z → (0 ≤ ap ≤ 65535)%Z →
  (∃ cfg, configure o d = inr cfg ∧ c_name cfg = NodeID o ∧ c_bind cfg = (bh, bp) ∧
     c_advertise cfg = (ah, ap)) ∧
  ∀ o' cfg, configure o' d = inr cfg → (0 ≤ (c_bind cfg).2 ≤ 65535)%Z.
Proof.
  intros Eb Ea Hb Ha Hbp Hap. split.
  - unfold configure. rewrite Eb, Ea, !hostport_of_join by done. case_decide as En.
    + exfalso. unfold JoinHostPort in En. destruct (has_byte ":" ah); [done|]. by destruct ah.
    + eexists. split_and!; reflexivity.
  - intros o' cfg. unfold configure. destruct (hostport_of BadBind (Bind o')) as [|[h p]] eqn:E; [done|].
    apply hostport_of_range in E. case_match; [done|]. intros [= <-]. done.
Qed.

(** ** Metadata *)

Lemma decode_gossiped m limit :
  map_wf m = true → (Z.of_nat (String.length (Marshal map_codec m)) ≤ limit)%Z →
  decode_meta (NodeMeta (Marshal map_codec m) limit) = m.
Proof.
  intros Hw Hl. unfold NodeMeta. rewrite (proj2 (Z.leb_le _ _)) by done. unfold decode_meta.
  pose proof (Unmarshal_Marshal map_codec map_wf 1 m _ ltac:(done) Hw) as E.
  unfold Unmarshal, Unmarshal_into in *. destruct (parse_json _) as [v|] eqn:Ep; [|done].
  rewrite decide_False by (intros En; by rewrite En in Ep). cbn [fst].
  destruct v; cbn [c_dec map_codec c_zero default from_option id] in *; try done.
  - by simplify_eq.
  - by destruct (dec_entries l ∅) as [? []]; simplify_eq.
Qed.

Lemma map_codec_jnums (m : gmap string string) : jnums (c_enc map_codec (Some m)) = true.
Proof.
  cbn [c_enc map_codec jnums]. apply List.forallb_forall. by intros [k v] ([k' v'] & [= <- <-] & _)%List.in_map_iff.
Qed.

Lemma take_drop_str n s : str_take n s +:+ str_drop n s = s.
Proof. revert s. induction n as [|n IH]; intros [|a s]; try done. cbn. rewrite app_String. by rewrite IH. Qed.

Lemma str_take_length n s : String.length (str_take n s) ≤ n.
Proof. revert s. induction n as [|n IH]; intros [|a s]; cbn; [lia..|]. specialize (IH s). lia. Qed.

Lemma decode_cut (m : gmap string string) limit :
  (limit < Z.of_nat (String.length (Marshal map_codec (Some m))))%Z →
  decode_meta (NodeMeta (Marshal map_codec (Some m)) limit) = Some ∅.
Proof.
  intros Hl. unfold NodeMeta. rewrite (proj2 (Z.leb_gt _ _)) by done. case_match; [done|].
  unfold decode_meta. case_decide; [done|]. set (b := Marshal map_codec (Some m)) in *.
  unfold Unmarshal_into. rewrite (object_prefix_undecodable (map (λ kv, (kv.1, JStr kv.2)) (sorted_entries m)) _ (str_drop (Z.to_nat limit) b)); [done|..].
  - apply (map_codec_jnums m).
  - pose proof (enc_depth (c:=map_codec) (Some m)) as Hd. unfold max_depth. etrans; [exact Hd|done].
  - symmetry. apply take_drop_str.
  - intros E. pose proof (take_drop_str (Z.to_nat limit) b) as Ht. rewrite E, str_app_nil_r in Ht.
    pose proof (str_take_length (Z.to_nat limit) b). rewrite Ht in *. lia.
Qed.

(** The node as the library announces it to its peers. *)
Definition announced (o : Options) (limit : Z) (n : mlNode) : Prop :=
  n_name n = NodeID o ∧ n_meta n = NodeMeta (Marshal map_codec (Meta o)) limit.

Lemma announced_lookup o limit n before after :
  announced o limit n → map_wf (Meta o) = true →
  (Z.of_nat (String.length (Marshal map_codec (Meta o))) ≤ limit)%Z →
  (∀ m, m ∈ before → n_name m ≠ NodeID o) →
  find_member (NodeID o) (map member_of (before ++ n :: after)) =
  let mgmt := default EmptyString (Meta o ≫= λ m, m !! "mgmt") in
  if decide (mgmt = EmptyString) then node_addr n else mgmt.
Proof.
  intros [Hn Hm] Hw Hl Hb. induction before as [|m before IH]; cbn [app map find_member].
  - cbn [member_of ID]. rewrite decide_True by done. unfold mgmt_addr, member_of. cbn [Types.Meta Addr].
    rewrite Hm, decode_gossiped by done. by destruct (Meta o).
  - cbn [member_of ID]. rewrite decide_False by (apply Hb; left). apply IH. intros m' ?. apply Hb. by right.
Qed.

(** C29. Peers see the metadata of a node whole or not at all: when its encoding is longer than
    the limit of the library it is cut, and whatever the cut leaves, even in the middle of a
    character, never decodes; the node then appears without metadata and is looked up under
    its gossip address instead of the management address it announces. *)
Theorem metadata_whole_or_none o m limit n before after :
  announced o limit n → Meta o = Some m → map_wf (Some m) = true →
  (∀ m, m ∈ before → n_name m ≠ NodeID o) →
  let fits := bool_decide (Z.of_nat (String.length (Marshal map_codec (Some m))) ≤ limit)%Z in
  Types.Meta (member_of n) = Some (if fits then m else ∅) ∧
  find_member (NodeID o) (map member_of (before ++ n :: after)) =
    (if fits then let mgmt := default EmptyString (m !! "mgmt") in
       if decide (mgmt = EmptyString) then node_addr n else mgmt
     else node_addr n).
Proof.
  intros Ha Em Hw Hb fits. pose proof Ha as [Hn Hm]. rewrite Em in Hm.
  unfold fits. case_bool_decide as Hl.
  - split; [cbn [member_of Types.Meta]; by rewrite Hm, decode_gossiped|].
    rewrite (announced_lookup o limit) by (rewrite ?Em; done). by rewrite Em.
  - assert (decode_meta (n_meta n) = Some ∅) as Hd by (rewrite Hm; apply decode_cut; lia).
    split; [by cbn [member_of Types.Meta]; rewrite Hd|].
    clear Ha. induction before as [|m' before IH]; cbn [app map find_member].
    + cbn [member_of ID]. rewrite decide_True by done. unfold mgmt_addr, member_of. cbn [Types.Meta Addr].
      by rewrite Hd.
    + cbn [member_of ID]. rewrite decide_False by (apply Hb; left). apply IH. intros x ?. apply Hb. by right.
Qed.

(** ** Events *)

(** The adapter with what its callbacks were told and what its reader has read. *)
Record gsys (M : Type) := mkGsys { g_impl : impl M; g_told : list MemEvent; g_read : list MemEvent }.
Arguments mkGsys {M}.
Arguments g_impl {M}.
Arguments g_told {M}.
Arguments g_read {M}.

Section events.
  Context {M : Type} (defaults : config) (Create : config → gores M).

Inductive gossip_step : gsys M → gsys M → Prop :=
  | gs_start y : gossip_step y (mkGsys (Start defaults Create (g_impl y)).2 (g_told y) (g_read y))
  | gs_stop y i' :
      Stop (g_impl y) = Some i' → gossip_step y (mkGsys i' (g_told y) (g_read y))
  | gs_join y n now :
      gossip_step y (mkGsys (NotifyJoin (Some n) now (g_impl y))
        (g_told y ++ [mkMemEvent EventJoin (member_of n) now]) (g_read y))
  | gs_leave y n now :
      gossip_step y (mkGsys (NotifyLeave (Some n) now (g_impl y))
        (g_told y ++ [mkMemEvent EventLeave (member_of n) now]) (g_read y))
  | gs_update y n now :
      gossip_step y (mkGsys (NotifyUpdate (Some n) now (g_impl y))
        (g_told y ++ [mkMemEvent EventJoin (member_of n) now]) (g_read y))
  | gs_read y e q :
      evts (g_impl y) = e :: q →
      gossip_step y (mkGsys (mkImpl (opts (g_impl y)) (ml (g_impl y)) q (evts_closed (g_impl y)) (closed (g_impl y)))
        (g_told y) (g_read y ++ [e])).

Record gossip_inv (y : gsys M) : Prop := mkGossipInv {
  gi_closed : evts_closed (g_impl y) = closed (g_impl y);
  gi_cap : length (evts (g_impl y)) ≤ evts_cap;
  gi_sub : g_read y ++ evts (g_impl y) `sublist_of` g_told y;
}.

Lemma gossip_inv_emit y e :
  gossip_inv y → gossip_inv (mkGsys (emit e (g_impl y)) (g_told y ++ [e]) (g_read y)).
Proof.
  intros [Hc Hl Hs]. unfold emit. destruct (evts_closed (g_impl y)) eqn:E; split; cbn; try congruence.
  - by apply sublist_inserts_r.
  - unfold try_send. case_decide; [rewrite length_app; cbn; lia|done].
  - unfold try_send. case_decide; [|by apply sublist_inserts_r].
    rewrite (assoc_L (++)). by apply sublist_app.
Qed.

Lemma gossip_inv_step y y' : gossip_inv y → gossip_step y y' → gossip_inv y'.
Proof.
  intros Hy Hs. destruct Hs; try by apply gossip_inv_emit.
  - destruct Hy as [Hc Hl Hs]. unfold Start. repeat case_match; by split.
  - destruct Hy as [Hc Hl Hs]. unfold Stop in H.
    destruct (closed (g_impl y)) eqn:E; [|rewrite Hc in H]; simplify_eq; split; cbn; congruence.
  - destruct Hy as [Hc Hl Hs]. split; cbn; [done| |].
    + rewrite H in Hl. cbn in Hl. lia.
    + rewrite <-(assoc_L (++)). cbn [app]. by rewrite <-H.
Qed.

Lemma gossip_reachable_inv o i y :
  New o = Ok i → rtc gossip_step (mkGsys i [] []) y → gossip_inv y.
Proof.
  intros Hn. assert (gossip_inv (mkGsys i [] [])) as H0.
  { unfold New in Hn. repeat case_decide; simplify_eq. split; cbn; [done|lia|done]. }
  intros Hs. induction Hs; [done|]. eauto using gossip_inv_step.
Qed.

(** C34. In every interleaving of the library's callbacks, starts, stops (from the facade or
    because the context ended) and reads, [Stop] never closes the channel twice, the
    channel holds at most 64 events, what has been read followed by what is still there
    is a subsequence of what the library reported, and a report after the stop, which
    sends on a closed channel, is dropped without a panic. *)
Theorem gossip_events_in_order o i y :
  New o = Ok i → rtc gossip_step (mkGsys i [] []) y →
  is_Some (Stop (g_impl y)) ∧ length (evts (g_impl y)) ≤ 64 ∧
  g_read y ++ evts (g_impl y) `sublist_of` g_told y ∧
  (closed (g_impl y) = true → ∀ e, emit e (g_impl y) = g_impl y).
Proof.
  intros Hn Hr. destruct (gossip_reachable_inv _ _ _ Hn Hr) as [Hc Hl Hs].
  split_and!; [|done..|].
  - unfold Stop. destruct (closed (g_impl y)) eqn:E; [by eexists|]. rewrite Hc. by eexists.
  - intros E e. unfold emit. by rewrite Hc, E.
Qed.

(** A membership that is started again after it was stopped creates a new instance of
    the library that no [Stop] shuts down. *)
Theorem restarted_membership_not_stopped i x e i' n :
  closed i = true → ml i = None → Start defaults Create i = (e, i') → ml i' = Some x →
  e = None ∧ Nat.iter n (λ o, o ≫= Stop) (Some i') = Some i'.
Proof.
  intros Hc Hm Hs Hx. unfold Start in Hs. rewrite Hm in Hs.
  repeat case_match; simplify_eq; try congruence. split; [done|].
  induction n as [|n IH]; [done|]. cbn [Nat.iter nat_rect]. unfold Nat.iter in IH. rewrite IH.
  cbn [mbind option_bind]. unfold Stop. cbn [closed set_ml]. by rewrite Hc.
Qed.

End events.

(** ** Examples and witnesses *)

(** [parsePort] stops at the first byte that is not a digit. *)
Example parsePort_trailing : parsePort "80x" = Some 80%Z ∧ parsePort "-1" = None ∧ parsePort "65536" = None.
Proof. done. Qed.

(** Metadata cut at the limit is no JSON any more: the node is seen without any, although
    its management address is in what was sent. *)
Example truncated_meta_lost :
  let meta := Marshal map_codec (Some {["mgmt" := "a:1"; "zone" := "z"]}) in
  decode_meta (NodeMeta meta 24) = Some ∅ ∧ Contains (NodeMeta meta 24) "a:1" = true.
Proof. vm_compute. done. Qed.

Definition demo_opts : Options :=
  mkOptions "n1" "127.0.0.1:7946" "[::1]:7946" (Some {["mgmt" := "h1:17946"]}) 0 0 0.
Definition demo_defaults : config := mkConfig EmptyString ("0.0.0.0", 7946%Z) (EmptyString, 7946%Z) 1 2 4 EmptyString.
Definition demo_node : mlNode := mkMlNode "n1" "127.0.0.1" 7946 (NodeMeta (Marshal map_codec (Meta demo_opts)) 512).

Lemma configured_addresses_witness :
  ∃ cfg, configure demo_opts demo_defaults = inr cfg ∧ c_advertise cfg = ("::1", 7946%Z).
Proof.
  destruct (configured_addresses demo_opts demo_defaults "127.0.0.1" 7946 "::1" 7946
    eq_refl eq_refl ltac:(done) ltac:(done) ltac:(lia) ltac:(lia)) as [(cfg & H1 & _ & _ & H2) _].
  by exists cfg.
Defined.

(** A limit of 18 bytes is too short for the 19 bytes of this node. *)
Lemma metadata_whole_or_none_witness :
  let n := mkMlNode "n1" "127.0.0.1" 7946 (NodeMeta (Marshal map_codec (Meta demo_opts)) 18) in
  Types.Meta (member_of n) = Some ∅ ∧ find_member (NodeID demo_opts) (map member_of [n]) = node_addr n.
Proof.
  intros n.
  assert (bool_decide (Z.of_nat (String.length (Marshal map_codec (Some {["mgmt" := "h1:17946"]}))) ≤ 18)%Z = false)
    as E by (vm_compute; reflexivity).
  assert (map_wf (Some {["mgmt" := "h1:17946"]}) = true) as Hw by (vm_compute; reflexivity).
  assert (announced demo_opts 18 n) as Ha by (unfold announced, n; split; reflexivity).
  assert (∀ m, m ∈ @nil mlNode → n_name m ≠ NodeID demo_opts) as Hb
    by (intros m Hm; destruct (not_elem_of_nil m Hm)).
  assert (Meta demo_opts = Some {["mgmt" := "h1:17946"]}) as Em by reflexivity.
  pose proof (metadata_whole_or_none demo_opts {["mgmt" := "h1:17946"]} 18 n [] [] Ha Em Hw Hb) as H.
  cbv zeta in H. rewrite E in H. exact H.
Defined.

Definition demo_create (c : config) : gores nat := Ok 0.
Definition demo_impl : impl nat := mkImpl demo_opts None [] false false.

Lemma gossip_events_in_order_witness :
  let y := mkGsys (NotifyJoin (Some demo_node) 5 demo_impl) [mkMemEvent EventJoin (member_of demo_node) 5] [] in
  is_Some (Stop (g_impl y)).
Proof.
  apply (gossip_events_in_order demo_defaults demo_create demo_opts demo_impl
    (mkGsys (NotifyJoin (Some demo_node) 5 demo_impl) [mkMemEvent EventJoin (member_of demo_node) 5] []));
    [reflexivity|].
  apply rtc_once, (gs_join demo_defaults demo_create (mkGsys demo_impl [] []) demo_node 5).
Defined.

Lemma restarted_membership_not_stopped_witness :
  Stop (mkImpl demo_opts (Some 0) [] true true) = Some (mkImpl demo_opts (Some 0) [] true true).
Proof.
  apply (restarted_membership_not_stopped demo_defaults demo_create (mkImpl demo_opts None [] true true) 0 None
    (mkImpl demo_opts (Some 0) [] true true) 1); reflexivity.
Defined.
