(* ===== verification/Memdemo.v ===== *)
(** * The membership demo

    [cmd/memdemo/main.go]: a program that runs the gossip membership of [Gossip] alone.  Its
    goroutines, [main], the one [Start] launches to stop the membership when the context ends,
    the one that prints events, the library's callbacks and the signal handler, interleave on
    the shared adapter.  [libcall]s record what is asked of the memberlist library, whose
    [Leave] panics on an instance that was shut down. *)
From S2P Require Import Prelude GoStrings Types Discovery Gossip.
From stdpp Require Import options.

(** ** Flags *)

Record demoFlags := mkDemoFlags { df_id : string; df_bind : string; df_advertise : string; df_join : string }.

Definition demo_flag_defaults : demoFlags := mkDemoFlags "node-1" ":7946" EmptyString EmptyString.

(** The loop of [splitCSV]. *)
Fixpoint split_loop (parts : list string) : list string :=
  match parts with
  | [] => []
  | p :: parts' =>
      let p := TrimSpace p in
      if decide (p = EmptyString) then split_loop parts' else p :: split_loop parts'
  end.

Definition splitCSV (s : string) : list string :=
  if decide (s = EmptyString) then [] else split_loop (Split s ",").

Definition demo_options (f : demoFlags) : Gossip.Options :=
  Gossip.mkOptions (df_id f) (df_bind f) (df_advertise f) None 0 0 0.

(** ** Events *)

(** [%-6s]. *)
Fixpoint pad_right (n : nat) (s : string) : string :=
  match n, s with
  | S n', String a s' => String a (pad_right n' s')
  | S n', EmptyString => String " " (pad_right n' EmptyString)
  | 0, _ => s
  end.

Definition type_name (t : MemEventType) : string :=
  match t with EventJoin => "join" | EventLeave => "leave" | EventFailed => "failed" end.

(** The line for an event; [fmt_time] is [Format(time.RFC3339)]. *)
Definition event_line (fmt_time : Z → string) (e : MemEvent) : string :=
  "event: " +:+ (pad_right 6 (type_name (me_type e)) +:+ (" id=" +:+ (ID (me_member e) +:+
  (" addr=" +:+ (Addr (me_member e) +:+ (" at=" +:+ (fmt_time (me_at e) +:+ String "010" EmptyString))))))).

(** ** The program *)

Inductive libcall : Type := LCreate | LJoin (seeds : list string) | LLeave | LShutdown.

Global Instance libcall_eq_dec : EqDecision libcall.
Proof. solve_decision. Defined.

(** Where [main] is: before [Start], before [Join], waiting for the signal, in [Leave] with the
    instance it read, before [Stop], at its end; or it ended with a fatal error or a panic. *)
Inductive mainpc (M : Type) : Type :=
  | MainStart | MainJoin (seeds : list string) | MainWait | MainLeave (x : option M) | MainStop | MainDone
  | MainFatal | MainPanic.
Arguments MainStart {M}.
Arguments MainJoin {M}.
Arguments MainWait {M}.
Arguments MainLeave {M}.
Arguments MainStop {M}.
Arguments MainDone {M}.
Arguments MainFatal {M}.
Arguments MainPanic {M}.

(** The goroutine that prints is launched after [Join]. *)
Definition printing {M} (pc : mainpc M) : bool :=
  match pc with MainWait | MainLeave _ | MainStop | MainDone => true | _ => false end.

(** The goroutine of [Start] that waits for the context. *)
Inductive watchpc : Type := WNone | WWait | WDone.

Record demo (M : Type) := mkDemo {
  d_main : mainpc M;
  d_watch : watchpc;
  d_ctx : bool;              (** the context is done *)
  d_gossip : gsys M;
  d_lib : list libcall;
}.
Arguments mkDemo {M}.
Arguments d_main {M}.
Arguments d_watch {M}.
Arguments d_ctx {M}.
Arguments d_gossip {M}.
Arguments d_lib {M}.

Definition with_impl {M} (i : impl M) (g : gsys M) : gsys M := mkGsys i (g_told g) (g_read g).

(** The library is shut down when the membership is stopped for the first time. *)
Definition stop_calls {M} (i : impl M) : list libcall :=
  if closed i then [] else match ml i with Some _ => [LShutdown] | None => [] end.

Definition join_calls {M} (seeds : list string) (i : impl M) : list libcall :=
  match ml i with Some _ => if decide (seeds = []) then [] else [LJoin seeds] | None => [] end.

(** The library's [Leave] on the live instance [x]: it does not touch the adapter's field. *)
Definition leave_on {M} (MlLeave : M → M) (x : option M) (i : impl M) : impl M :=
  match x, ml i with Some x, Some _ => set_ml (Some (MlLeave x)) i | _, _ => i end.

Section memdemo.
  Context {M : Type} (defaults : config) (Create : config → gores M).
  Context (MlJoin : M → list string → option string * M) (MlLeave : M → M).
  Context (f : demoFlags).

(** [main] up to [Start]: an error of [New] or [Start] is fatal. *)
Definition demo_start (y : demo M) : demo M :=
  match New (demo_options f) with
  | Err _ => mkDemo MainFatal (d_watch y) (d_ctx y) (d_gossip y) (d_lib y)
  | Ok i =>
      match Start defaults Create i with
      | (Some _, _) => mkDemo MainFatal (d_watch y) (d_ctx y) (d_gossip y) (d_lib y)
      | (None, i') =>
          mkDemo (if decide (df_join f = EmptyString) then MainWait else MainJoin (splitCSV (df_join f)))
            WWait (d_ctx y) (mkGsys i' [] []) (d_lib y ++ [LCreate])
      end
  end.

(** [Stop], called by one of the goroutines, which then is at [pc] and [w]. *)
Definition demo_stop (pc : mainpc M) (w : watchpc) (y : demo M) : demo M :=
  match Stop (g_impl (d_gossip y)) with
  | None => mkDemo MainPanic w (d_ctx y) (d_gossip y) (d_lib y)
  | Some i' => mkDemo pc w (d_ctx y) (with_impl i' (d_gossip y)) (d_lib y ++ stop_calls (g_impl (d_gossip y)))
  end.

(** [Leave] of the instance [x] that was read before: the library panics when it has been
    shut down since. *)
Definition demo_leave (x : option M) (y : demo M) : demo M :=
  match x with
  | None => mkDemo MainStop (d_watch y) (d_ctx y) (d_gossip y) (d_lib y)
  | Some _ =>
      if decide (LShutdown ∈ d_lib y)
      then mkDemo MainPanic (d_watch y) (d_ctx y) (d_gossip y) (d_lib y ++ [LLeave])
      else mkDemo MainStop (d_watch y) (d_ctx y) (with_impl (leave_on MlLeave x (g_impl (d_gossip y))) (d_gossip y))
             (d_lib y ++ [LLeave])
  end.

(** A panic ends the process: no goroutine goes on after it. *)
Inductive demo_step : demo M → demo M → Prop :=
  | ds_start y : d_main y = MainStart → demo_step y (demo_start y)
  (** an error of [Join] is only logged *)
  | ds_join y seeds e i' :
      d_main y = MainJoin seeds → Join MlJoin seeds (g_impl (d_gossip y)) = (e, i') →
      demo_step y (mkDemo MainWait (d_watch y) (d_ctx y) (with_impl i' (d_gossip y))
        (d_lib y ++ join_calls seeds (g_impl (d_gossip y))))
  | ds_signal y :
      d_main y ≠ MainPanic →
      demo_step y (mkDemo (d_main y) (d_watch y) true (d_gossip y) (d_lib y))
  (** [Leave] reads the instance, then calls it without the lock *)
  | ds_wake y :
      d_main y = MainWait → d_ctx y = true →
      demo_step y (mkDemo (MainLeave (ml (g_impl (d_gossip y)))) (d_watch y) true (d_gossip y) (d_lib y))
  | ds_leave y x :
      d_main y = MainLeave x → demo_step y (demo_leave x y)
  | ds_stop y :
      d_main y = MainStop → demo_step y (demo_stop MainDone (d_watch y) y)
  | ds_watch y :
      d_watch y = WWait → d_ctx y = true → d_main y ≠ MainPanic → demo_step y (demo_stop (d_main y) WDone y)
  (** the library reports, the printing goroutine reads *)
  | ds_notify y e :
      LCreate ∈ d_lib y → d_main y ≠ MainPanic →
      demo_step y (mkDemo (d_main y) (d_watch y) (d_ctx y)
        (mkGsys (emit e (g_impl (d_gossip y))) (g_told (d_gossip y) ++ [e]) (g_read (d_gossip y))) (d_lib y))
  | ds_print y e q :
      printing (d_main y) = true → evts (g_impl (d_gossip y)) = e :: q →
      demo_step y (mkDemo (d_main y) (d_watch y) (d_ctx y)
        (let i := g_impl (d_gossip y) in
         mkGsys (mkImpl (opts i) (ml i) q (evts_closed i) (closed i)) (g_told (d_gossip y)) (g_read (d_gossip y) ++ [e]))
        (d_lib y)).

Definition demo_init : demo M :=
  mkDemo MainStart WNone false (mkGsys (mkImpl (demo_options f) None [] false false) [] []) [].

End memdemo.

(** ** The life of the membership *)

Definition calls (c : libcall) (l : list libcall) : nat := length (filter (c =.) l).

Lemma calls_app c l k : calls c (l ++ k) = calls c l + calls c k.
Proof. unfold calls. by rewrite filter_app, length_app. Qed.

Lemma calls_single c d : calls c [d] = if decide (c = d) then 1 else 0.
Proof. unfold calls. rewrite filter_cons. by case_decide. Qed.

Lemma calls_join {M} c seeds (i : impl M) : (∀ l, c ≠ LJoin l) → calls c (join_calls seeds i) = 0.
Proof.
  intros Hc. unfold join_calls. destruct (ml i); [|done]. case_decide; [done|]. rewrite calls_single.
  case_decide; [by destruct (Hc seeds)|done].
Qed.

Definition started {M} (pc : mainpc M) : bool :=
  match pc with MainStart | MainFatal => false | _ => true end.

(** [main] has passed its call of [Leave]. *)
Definition leave_done {M} (pc : mainpc M) : bool :=
  match pc with MainStop | MainDone | MainPanic => true | _ => false end.

(** The library was asked to leave after it was shut down. *)
Definition left_late (l : list libcall) : Prop := ∃ l1 l2, l = l1 ++ LShutdown :: l2 ∧ LLeave ∈ l2.

Lemma left_late_app l k : LLeave ∉ k → left_late (l ++ k) → left_late l.
Proof.
  intros Hk (l1 & l2 & E & Hin). revert l2 E Hin. induction k as [|c k IH] using rev_ind; intros l2 E Hin.
  { rewrite app_nil_r in E. by exists l1, l2. }
  destruct l2 as [|d l2 _] using rev_ind; [by apply elem_of_nil in Hin|].
  rewrite (assoc_L (++)) in E. rewrite app_comm_cons, (assoc_L (++)) in E. apply app_inj_tail in E as [E <-].
  apply elem_of_app in Hin as [Hin|Hin]; [|set_solver]. eapply (IH ltac:(set_solver)); [|done]. by rewrite E.
Qed.

Lemma left_late_fresh l : LShutdown ∉ l → left_late (l ++ [LLeave]) → False.
Proof.
  intros Hl (l1 & l2 & E & Hin). destruct l2 as [|d l2 _] using rev_ind; [by apply elem_of_nil in Hin|].
  rewrite app_comm_cons, (assoc_L (++)) in E. apply app_inj_tail in E as [-> _]. set_solver.
Qed.

Definition b2n (b : bool) : nat := if b then 1 else 0.

Record demo_inv {M} (y : demo M) : Prop := mkDemoInv {
  di_gossip : gossip_inv (d_gossip y);
  di_late : left_late (d_lib y) ↔ d_main y = MainPanic;
  di_stopped : closed (g_impl (d_gossip y)) = true → d_main y = MainDone ∨ d_watch y = WDone;
  di_watch : d_watch y = WNone ↔ started (d_main y) = false;
  di_create : calls LCreate (d_lib y) = b2n (started (d_main y));
  di_shut : calls LShutdown (d_lib y) = b2n (closed (g_impl (d_gossip y)));
  di_leave : calls LLeave (d_lib y) ≤ b2n (leave_done (d_main y));
  di_field : started (d_main y) = true → (ml (g_impl (d_gossip y)) = None ↔ closed (g_impl (d_gossip y)) = true);
  di_closed : closed (g_impl (d_gossip y)) = true → d_ctx y = true ∧ started (d_main y) = true;
  di_waited : leave_done (d_main y) = true → d_ctx y = true;
  di_leaving : ∀ x, d_main y = MainLeave x → d_ctx y = true;
  di_watched : d_watch y = WDone → closed (g_impl (d_gossip y)) = true;
  di_done : d_main y = MainDone → closed (g_impl (d_gossip y)) = true;
}.

Lemma stop_inv {M} (i : impl M) : evts_closed i = closed i → ∃ i', Stop i = Some i' ∧
  closed i' = true ∧ evts_closed i' = true ∧ evts i' = evts i ∧
  (closed i = false → ml i' = None) ∧ (closed i = true → i' = i).
Proof. intros E. unfold Stop. rewrite E. destruct (closed i) eqn:Ec; eexists; split_and!; done. Qed.

(** Reduce the fields of a state that was just built. *)
Ltac fields := cbn [d_main d_watch d_ctx d_gossip d_lib with_impl g_impl g_told g_read].

Section lifecycle.
  Context {M : Type} (defaults : config) (Create : config → gores M).
  Context (MlJoin : M → list string → option string * M) (MlLeave : M → M).
  Context (f : demoFlags).
  Notation step := (demo_step defaults Create MlJoin MlLeave f).

Lemma demo_init_inv : demo_inv (demo_init (M:=M) f).
Proof.
  split; cbn; try done; try lia; [split; cbn; [done|lia|done]|].
  split; [|done]. intros (l1 & l2 & E & _). by destruct l1.
Qed.

(** Stopping keeps the invariant, whichever goroutine does it. *)
Lemma demo_stop_inv (pc : mainpc M) w (y : demo M) :
  demo_inv y → started (d_main y) = true → d_ctx y = true → w ≠ WNone → d_main y ≠ MainPanic →
  pc ≠ MainPanic → (pc = MainDone ∨ w = WDone) → started pc = true →
  (leave_done (d_main y) = true → leave_done pc = true) →
  demo_inv (demo_stop pc w y).
Proof.
  intros [[Gc Gl Gs] Dp Dst Dw Dc Ds Dl Df Dcl Dwt Dlv Dwd Dd] Hst Hctx Hw Hm Hpc Hpw Hspc Hlv.
  destruct (stop_inv (g_impl (d_gossip y)) Gc) as (i' & Ei & Hc' & He' & Hev & Hml & Hsame).
  unfold demo_stop. rewrite Ei. split; fields; try done; try tauto.
  - split; cbn; [congruence|by rewrite Hev..].
  - split; [|done]. intros Hl%left_late_app; [by apply Dp in Hl|].
    unfold stop_calls. repeat case_match; clear; set_solver.
  - rewrite Hspc. split; [done|by intros].
  - rewrite calls_app, Dc, Hst, Hspc. unfold stop_calls. by repeat case_match.
  - rewrite calls_app, Ds, Hc'. unfold stop_calls. destruct (closed (g_impl (d_gossip y))) eqn:Ec; [done|].
    destruct (ml (g_impl (d_gossip y))) eqn:Em; [done|]. exfalso. by discriminate (proj1 (Df Hst) eq_refl).
  - rewrite calls_app. assert (calls LLeave (stop_calls (g_impl (d_gossip y))) = 0) as ->.
    { unfold stop_calls. by repeat case_match. }
    destruct (leave_done (d_main y)) eqn:E; cbn in Dl; [rewrite Hlv by done; cbn; lia|lia].
  - intros _. split; [done|]. intros _. destruct (closed (g_impl (d_gossip y))) eqn:Ec; [|auto].
    rewrite Hsame by done. by apply Df.
Qed.

Lemma demo_start_inv y : demo_inv y → d_main y = MainStart → demo_inv (demo_start defaults Create f y).
Proof.
  intros [G Dp Dst Dw Dc Ds Dl Df Dcl Dwt Dlv Dwd Dd] Hm. rewrite Hm in *. cbn in Dc, Dl.
  assert (closed (g_impl (d_gossip y)) = false) as Hc.
  { destruct (closed _); [|done]. by destruct Dcl. }
  rewrite Hc in *. assert (demo_inv (mkDemo MainFatal (d_watch y) (d_ctx y) (d_gossip y) (d_lib y))) as Hfatal.
  { split; fields; rewrite ?Hc; try done. split; [intros Hl; by apply Dp in Hl|done]. }
  unfold demo_start. destruct (New (demo_options f)) as [i|] eqn:En; [|done].
  assert (i = mkImpl (demo_options f) None [] false false) as ->.
  { unfold New in En. repeat case_decide; by simplify_eq. }
  unfold Start. cbn [ml opts]. destruct (configure _ _) as [|cfg]; [done|]. destruct (Create cfg) as [x|]; [|done].
  assert (∀ pc : mainpc M, pc = (if decide (df_join f = EmptyString) then MainWait else MainJoin (splitCSV (df_join f))) →
    started pc = true ∧ leave_done pc = false ∧ pc ≠ MainPanic ∧ pc ≠ MainDone ∧ ∀ x, pc ≠ MainLeave x) as Hpc.
  { intros pc ->. by case_decide. }
  revert Hpc. generalize (if decide (df_join f = EmptyString) then MainWait else MainJoin (M:=M) (splitCSV (df_join f))).
  intros pc Hpc. destruct (Hpc pc eq_refl) as (H1 & H2 & H3 & H4 & H5).
  split; fields; rewrite ?calls_app, ?H1, ?H2, ?Dc, ?Ds; cbn; try done; try lia.
  - split; cbn; [done|lia|done].
  - split; [|done]. intros Hl%left_late_app; [by apply Dp in Hl|clear; set_solver].
  - rewrite decide_False by done. cbn. lia.
  - intros x' E. by destruct (H5 x').
Qed.

(** A step that leaves the calls and the position alone. *)
Lemma demo_frame_inv (y : demo M) g :
  demo_inv y → gossip_inv g → ml (g_impl g) = ml (g_impl (d_gossip y)) →
  closed (g_impl g) = closed (g_impl (d_gossip y)) →
  demo_inv (mkDemo (d_main y) (d_watch y) (d_ctx y) g (d_lib y)).
Proof.
  intros [G Dp Dst Dw Dc Ds Dl Df Dcl Dwt Dlv Dwd Dd] Hg Hml Hc. split; fields; rewrite ?Hml, ?Hc; done.
Qed.

(** The adapter after [Join] or [Leave]: only the instance may have changed. *)
Definition same_life (i i' : impl M) : Prop :=
  closed i' = closed i ∧ evts i' = evts i ∧ evts_closed i' = evts_closed i ∧ (ml i' = None ↔ ml i = None).

Lemma Join_life seeds i e i' : Join MlJoin seeds i = (e, i') → same_life i i'.
Proof.
  unfold Join, same_life. destruct (ml i) eqn:Em; [|by intros; simplify_eq; rewrite Em].
  case_decide; [by intros; simplify_eq; rewrite Em|]. destruct (MlJoin _ _). by intros; simplify_eq.
Qed.

Lemma leave_life x i : same_life i (leave_on MlLeave x i).
Proof. unfold leave_on, same_life. destruct x, (ml i) eqn:Em; rewrite ?Em; done. Qed.

(** [main] calls the library and moves on. *)
Lemma demo_call_inv (y : demo M) pc i' c :
  demo_inv y → started (d_main y) = true → same_life (g_impl (d_gossip y)) i' →
  (pc = MainWait ∨ pc = MainStop ∧ d_ctx y = true) → ¬ left_late (d_lib y ++ c) → d_main y ≠ MainDone →
  calls LCreate c = 0 → calls LShutdown c = 0 → calls LLeave (d_lib y ++ c) ≤ b2n (leave_done pc) →
  demo_inv (mkDemo pc (d_watch y) (d_ctx y) (with_impl i' (d_gossip y)) (d_lib y ++ c)).
Proof.
  intros [[Gc Gl Gs] Dp Dst Dw Dc Ds Dl Df Dcl Dwt Dlv Dwd Dd] Hst (E1 & E2 & E3 & E4) Hpc Hlate Hnd H1 H2 H3.
  assert (started pc = true) as Hs by by destruct Hpc as [->|[-> _]].
  rewrite Hst in Dw, Dc. split; fields; rewrite ?E1, ?Hs; try done.
  - split; cbn; rewrite ?E1, ?E2, ?E3; done.
  - split; [done|]. by destruct Hpc as [->|[-> _]].
  - intros Hc. right. by destruct (Dst Hc).
  - by rewrite calls_app, Dc, H1.
  - by rewrite calls_app, Ds, H2, Nat.add_0_r.
  - intros _. rewrite E4. by apply Df.
  - intros Hc. by destruct (Dcl Hc).
  - by destruct Hpc as [->|[-> ?]].
  - by destruct Hpc as [->|[-> ?]].
  - by destruct Hpc as [->|[-> ?]].
Qed.

Lemma not_late (y : demo M) c : demo_inv y → d_main y ≠ MainPanic → LLeave ∉ c → ¬ left_late (d_lib y ++ c).
Proof. intros H Hm Hc Hl%left_late_app; [|done]. by apply H in Hl. Qed.

Lemma demo_leave_inv y x : demo_inv y → d_main y = MainLeave x → demo_inv (demo_leave MlLeave x y).
Proof.
  intros H Hm. pose proof H as [G Dp Dst Dw Dc Ds Dl Df Dcl Dwt Dlv Dwd Dd]. rewrite Hm in Dw, Dc, Dl, Dp, Dst, Df, Dcl.
  cbn [leave_done b2n] in Dl. unfold demo_leave. destruct x as [x|]; [case_decide as Hs|].
  - split; fields; rewrite ?calls_app, ?calls_single; try done.
    + split; [done|]. intros _. apply list_elem_of_split in Hs as (l1 & l2 & ->).
      exists l1, (l2 ++ [LLeave]). split; [by rewrite <-(assoc_L (++))|clear; set_solver].
    + intros Hc. right. by destruct (Dst Hc).
    + by rewrite Dc.
    + rewrite Ds, decide_False by done. lia.
    + rewrite decide_True by done. cbn. lia.
    + intros _. by eapply Dlv.
  - apply demo_call_inv; [done|by rewrite Hm|apply leave_life|right; split; [done|by eapply Dlv]|..].
    + intros Hl. by apply (left_late_fresh _ Hs).
    + by rewrite Hm.
    + done.
    + done.
    + rewrite calls_app, calls_single, decide_True by done. cbn. lia.
  - split; fields; try done.
    + split; [intros Hl; by apply Dp in Hl|done].
    + intros Hc. right. by destruct (Dst Hc).
    + cbn. lia.
    + intros _. by eapply Dlv.
Qed.

Lemma demo_step_inv y y' : demo_inv y → step y y' → demo_inv y'.
Proof.
  intros H Hs. destruct Hs as [y Hm|y seeds e i' Hm Hj|y Hm|y Hm Hctx|y x Hm|y Hm|y Hw Hctx Hm|y e Hc Hm|y e q Hc Hq];
    pose proof H as [G Dp Dst Dw Dc Ds Dl Df Dcl Dwt Dlv Dwd Dd].
  - by apply demo_start_inv.
  - apply demo_call_inv; [done|by rewrite Hm|by eapply Join_life|by left|..];
      [apply not_late; [done|by rewrite Hm|unfold join_calls; repeat case_match; clear; set_solver]|by rewrite Hm|..];
      rewrite ?calls_app, ?calls_join by done; rewrite Hm in Dl; cbn [leave_done b2n] in *; lia.
  - split; fields; try done. intros Hc. split; [done|]. by apply Dcl.
  - rewrite Hm in *. split; fields; try done; [split; [intros Hl; by apply Dp in Hl|done]|].
    intros Hc. right. by destruct (Dst Hc).
  - by apply demo_leave_inv.
  - apply demo_stop_inv; rewrite ?Hm; try done; [apply Dwt; by rewrite Hm| |by left].
    intros E. apply Dw in E. by rewrite Hm in E.
  - assert (started (d_main y) = true) as Hst.
    { destruct (started (d_main y)); [done|]. by rewrite (proj2 Dw eq_refl) in Hw. }
    apply demo_stop_inv; try done. by right.
  - apply demo_frame_inv; [done|apply (gossip_inv_emit (d_gossip y)), H|..]; cbn; unfold emit; by case_match.
  - apply demo_frame_inv; [done| |done|done].
    apply (gossip_inv_step defaults Create (d_gossip y)); [apply H|]. by apply gs_read.
Qed.

Lemma demo_reachable_inv y : rtc step (demo_init f) y → demo_inv y.
Proof.
  assert (∀ y0, rtc step y0 y → demo_inv y0 → demo_inv y) as H.
  { induction 1; eauto using demo_step_inv. }
  intros Hr. eapply H; [exact Hr|apply demo_init_inv].
Qed.

(** C31. In every interleaving of the demo's goroutines, signals and library callbacks: the
    library is created at most once and is not shut down before a signal, nor twice; the
    program panics exactly when it asks the library to leave after it was shut down, which
    takes a signal and the goroutine of [Start] stopping the membership while [main] is in
    [Leave]; when [main] has ended without a panic it left at most once, never after the
    shutdown, and the event channel is closed, so the printing goroutine ends too; and the
    lines printed so far are those of the library's reports, in order, with at most some
    missing. *)
Theorem memdemo_lifecycle fmt_time y :
  rtc step (demo_init f) y →
  calls LCreate (d_lib y) ≤ 1 ∧ calls LShutdown (d_lib y) ≤ 1 ∧ calls LLeave (d_lib y) ≤ 1 ∧
  (d_ctx y = false → calls LShutdown (d_lib y) = 0) ∧
  (d_main y = MainPanic ↔ left_late (d_lib y)) ∧
  (d_main y = MainPanic → d_ctx y = true ∧ d_watch y = WDone) ∧
  (d_main y = MainDone → d_ctx y = true ∧ calls LShutdown (d_lib y) = 1 ∧
     evts_closed (g_impl (d_gossip y)) = true) ∧
  event_line fmt_time <$> g_read (d_gossip y) `sublist_of` event_line fmt_time <$> g_told (d_gossip y).
Proof.
  intros Hr. destruct (demo_reachable_inv y Hr) as [[Gc Gl Gs] Dp Dst Dw Dc Ds Dl Df Dcl Dwt Dlv Dwd Dd].
  assert (∀ b, b2n b ≤ 1) as Hb by (by intros []; cbn; lia).
  split_and!; [by rewrite Dc|by rewrite Ds|pose proof (Hb (leave_done (d_main y))); lia|..].
  - intros Hc. rewrite Ds. destruct (closed _); [|done]. destruct Dcl as [? _]; congruence.
  - by rewrite Dp.
  - intros Hm. split; [apply Dwt; by rewrite Hm|]. pose proof (proj2 Dp Hm) as (l1 & l2 & El & _).
    destruct Dst as [E|?]; [|by rewrite Hm in E|done].
    rewrite El, calls_app in Ds. change (LShutdown :: l2) with ([LShutdown] ++ l2) in Ds.
    rewrite calls_app, calls_single, decide_True in Ds by done. destruct (closed _); [done|]. cbn in Ds. lia.
  - intros Hm. rewrite Hm in *. specialize (Dd eq_refl). rewrite Ds, Gc, Dd. split_and!; [by apply Dwt|done|done].
  - apply fmap_sublist. etrans; [|exact Gs]. by apply sublist_inserts_r.
Qed.

(** A signal stops the library from two goroutines at once.  The one of [Start] may come first:
    then the node never leaves the group, or it leaves through an instance that was shut down
    and the program panics. *)
Theorem departure_races cfg x :
  New (M:=M) (demo_options f) = Ok (mkImpl (demo_options f) None [] false false) →
  configure (demo_options f) defaults = inr cfg → Create cfg = Ok x → df_join f = EmptyString →
  (∃ y, rtc step (demo_init f) y ∧ d_main y = MainDone ∧ d_lib y = [LCreate; LShutdown]) ∧
  (∃ y, rtc step (demo_init f) y ∧ d_main y = MainPanic ∧ d_lib y = [LCreate; LShutdown; LLeave]).
Proof.
  intros En Ec Ex Ej.
  set (i := mkImpl (demo_options f) (Some x) [] false false).
  set (j := mkImpl (M:=M) (demo_options f) None [] true true).
  assert (rtc step (demo_init f) (mkDemo MainWait WWait true (mkGsys i [] []) [LCreate])) as Hs.
  { eapply rtc_l; [by apply ds_start|]. unfold demo_start. rewrite En. unfold Start. cbn [ml opts].
    rewrite Ec, Ex, Ej. rewrite decide_True by done. eapply rtc_l; [by apply ds_signal|]. done. }
  split.
  - exists (mkDemo MainDone WDone true (mkGsys j [] []) [LCreate; LShutdown]). split; [|done].
    etrans; [exact Hs|]. eapply rtc_l; [by apply ds_watch|]. eapply rtc_l; [by apply ds_wake|].
    eapply rtc_l; [by apply (ds_leave _ _ _ _ _ _ None)|]. eapply rtc_l; [by apply ds_stop|]. done.
  - exists (mkDemo MainPanic WDone true (mkGsys j [] []) [LCreate; LShutdown; LLeave]). split; [|done].
    etrans; [exact Hs|]. eapply rtc_l; [by apply ds_wake|]. eapply rtc_l; [by apply ds_watch|].
    eapply rtc_l; [by apply (ds_leave _ _ _ _ _ _ (Some x))|]. done.
Qed.

End lifecycle.

(** ** Examples and witnesses *)

Lemma splitCSV_parses s : splitCSV s = Static.Parse s.
Proof.
  unfold splitCSV, Static.Parse. case_decide; [done|]. induction (Split s ",") as [|p l IH]; [done|].
  cbn [split_loop clean]. by rewrite IH.
Qed.

Example demo_event_line :
  event_line (λ _, "2024-02-09T08:05:00Z") (mkMemEvent EventJoin (mkMember "n1" "h:1" None) 0) =
  "event: join   id=n1 addr=h:1 at=2024-02-09T08:05:00Z" +:+ String "010" EmptyString.
Proof. done. Qed.

Definition demo_mljoin (x : nat) (seeds : list string) : option string * nat := (None, x).

Lemma memdemo_lifecycle_witness :
  let f := mkDemoFlags "n1" ":7946" EmptyString "a:1, b:1" in
  ∃ y, rtc (demo_step demo_defaults demo_create demo_mljoin id f) (demo_init f) y ∧
    d_lib y = [LCreate; LJoin ["a:1"; "b:1"]; LLeave; LShutdown] ∧ evts_closed (g_impl (d_gossip y)) = true.
Proof.
  set (f := mkDemoFlags "n1" ":7946" EmptyString "a:1, b:1").
  set (i := mkImpl (M:=nat) (demo_options f) None [] true true).
  exists (mkDemo MainDone WWait true (mkGsys i [] []) [LCreate; LJoin ["a:1"; "b:1"]; LLeave; LShutdown]).
  assert (rtc (demo_step demo_defaults demo_create demo_mljoin id f) (demo_init f)
    (mkDemo MainDone WWait true (mkGsys i [] []) [LCreate; LJoin ["a:1"; "b:1"]; LLeave; LShutdown])) as Hr.
  { eapply rtc_l; [by apply ds_start|]. eapply rtc_l; [by eapply ds_join|]. eapply rtc_l; [by apply ds_signal|].
    eapply rtc_l; [by apply ds_wake|]. eapply rtc_l; [by eapply ds_leave|]. eapply rtc_l; [by apply ds_stop|]. done. }
  destruct (memdemo_lifecycle demo_defaults demo_create demo_mljoin id f (λ _, EmptyString) _ Hr)
    as (_ & _ & _ & _ & _ & _ & H & _).
  by destruct (H eq_refl) as (_ & _ & He).
Defined.

Lemma departure_races_witness :
  ∃ y, rtc (demo_step demo_defaults demo_create demo_mljoin id demo_flag_defaults) (demo_init demo_flag_defaults) y ∧
    d_lib y = [LCreate; LShutdown].
Proof.
  destruct (departure_races demo_defaults demo_create demo_mljoin id demo_flag_defaults
    _ 0 eq_refl eq_refl eq_refl eq_refl) as [(y & H1 & _ & H2) _].
  by exists y.
Defined.
