(* ===== verification/Grpc.v ===== *)
(** * Management over gRPC

    [pkg/transport/grpc]: the management service ([server.go]), its client ([client.go])
    and their JSON codec ([jsoncodec.go]).  What the gRPC library does between the two is a
    parameter: it takes the method and the bytes of a request to the bytes of a reply or
    an error.  The facade's view of a management transport is the interface [HonestRPC];
    the HTTP and the gRPC transport are its instances. *)
From S2P Require Import Prelude GoStrings Metrics ConnMgr Utf8 Json Types JsonCodec Effects Cluster Http.
From stdpp Require Import options.

(** ** Messages of the service *)

Definition statusBlob_codec : codec (option bytes) :=
  struct_codec None [fld "data" bytes_codec id (λ b _, b)].

Definition empty_codec : codec unit := struct_codec () [].

Global Instance statusBlob_codec_ok : CodecOk statusBlob_codec (λ _, true) 1.
Proof.
  split; intros b; intros; eval_struct.
  - by rewrite (enc_jwf (c:=bytes_codec) b).
  - pose proof (enc_depth (c:=bytes_codec) b). lia.
  - by rewrite dec_bytes.
Qed.

Global Instance empty_codec_ok : CodecOk empty_codec (λ _, true) 1.
Proof. by split; intros []. Qed.

(** ** Server *)

(** The functions given to [Start]; [join] and [status] are called without a test for nil. *)
Record mgmtImpl := mkMgmt {
  status : gores bytes;
  join : JoinRequest → JoinResponse * option string;
  leave : option (LeaveRequest → LeaveResponse * option string);
  appWrite : option (AppWriteRequest → AppWriteResponse * option string);
  appSync : option (AppSyncRequest → AppSyncResponse * option string);
}.

Definition mgmt_GetStatus (m : mgmtImpl) (_ : unit) : gores (option bytes) :=
  match status m with Ok b => Ok (Some b) | Err e => Err e end.

Definition mgmt_Join (m : mgmtImpl) (q : JoinRequest) : JoinResponse :=
  match join m q with
  | (_, Some e) => mkJoinResponse false EmptyString e
  | (out, None) => out
  end.

Definition mgmt_Leave (m : mgmtImpl) (q : LeaveRequest) : LeaveResponse :=
  match leave m with
  | None => mkLeaveResponse false "leave not supported"
  | Some f => match f q with
              | (_, Some e) => mkLeaveResponse false e
              | (out, None) => out
              end
  end.

Definition mgmt_AppWrite (m : mgmtImpl) (q : AppWriteRequest) : AppWriteResponse :=
  match appWrite m with
  | None => mkAppWriteResponse None "not implemented"
  | Some f => match f q with
              | (_, Some e) => mkAppWriteResponse None e
              | (out, None) => out
              end
  end.

Definition mgmt_AppSync (m : mgmtImpl) (q : AppSyncRequest) : AppSyncResponse :=
  match appSync m with
  | None => mkAppSyncResponse "not implemented"
  | Some f => match f q with
              | (_, Some e) => mkAppSyncResponse e
              | (out, None) => out
              end
  end.

(** A method handler with the codec: decode the request, run the method, encode. *)
Definition method_handler {Q R} (cq : codec Q) (cr : codec R) (h : Q → gores R) (body : bytes) : gores bytes :=
  match Unmarshal cq body with
  | None => Err "decode"
  | Some q => match h q with Ok r => Ok (Marshal cr r) | Err e => Err e end
  end.

(** The service descriptor: methods by name. *)
Definition Management (m : mgmtImpl) (name : string) : bytes → gores bytes :=
  if decide (name = "GetStatus") then method_handler empty_codec statusBlob_codec (mgmt_GetStatus m)
  else if decide (name = "Join") then
    method_handler JoinRequest_codec JoinResponse_codec (λ q, Ok (mgmt_Join m q))
  else if decide (name = "Leave") then
    method_handler LeaveRequest_codec LeaveResponse_codec (λ q, Ok (mgmt_Leave m q))
  else if decide (name = "AppWrite") then
    method_handler AppWriteRequest_codec AppWriteResponse_codec (λ q, Ok (mgmt_AppWrite m q))
  else if decide (name = "AppSync") then
    method_handler AppSyncRequest_codec AppSyncResponse_codec (λ q, Ok (mgmt_AppSync m q))
  else λ _, Err "unimplemented".

(** ** Client *)

Section client.
  (** What becomes of a request: the library's network. *)
  Context (net : string → bytes → gores bytes).
  (** [fmt.Errorf] of a text without operands. *)
  Context (Errorf : string → string).

(** [cc.Invoke] with the JSON codec, into a fresh reply. *)
Definition Invoke {Q R} (cq : codec Q) (cr : codec R) (name : string) (req : Q) : gores R :=
  match net name (Marshal cq req) with
  | Err e => Err e
  | Ok body => match Unmarshal cr body with Some r => Ok r | None => Err "unmarshal" end
  end.

(** A call over a managed connection ([getConn], the call, [defer rel()]): [dial] is the
    outcome of dialling when the target is not cached. *)
Definition with_conn {A} (now now' : Z) (dial : gores nat) (target : string) (call : gores A)
    (m : ConnManager) (mt : Metrics) : gores A * ConnManager * Metrics :=
  match get_cached now target m with
  | Some (_, m1) => (call, release now' target m1, mt)
  | None =>
      match dial with
      | Err e => (Err e, m, mt)
      | Ok c => let '(_, _, m1, mt1) := get_dialed now target c m mt in
                (call, release now' target m1, mt1)
      end
  end.

Definition GetStatus (now now' : Z) (dial : gores nat) (target : string) (m : ConnManager) (mt : Metrics)
    : gores (option bytes) * ConnManager * Metrics :=
  with_conn now now' dial target (Invoke empty_codec statusBlob_codec "GetStatus" ()) m mt.

Definition PostJoin (now now' : Z) (dial : gores nat) (target : string) (req : JoinRequest)
    (m : ConnManager) (mt : Metrics) : gores JoinResponse * ConnManager * Metrics :=
  with_conn now now' dial target (Invoke JoinRequest_codec JoinResponse_codec "Join" req) m mt.

Definition PostLeave (now now' : Z) (dial : gores nat) (target : string) (req : LeaveRequest)
    (m : ConnManager) (mt : Metrics) : gores LeaveResponse * ConnManager * Metrics :=
  with_conn now now' dial target (Invoke LeaveRequest_codec LeaveResponse_codec "Leave" req) m mt.

(** [PostAppWrite] and [PostAppSync] dial for themselves and turn an error in the reply
    into an error of the call. *)
Definition PostAppWrite (dial : gores nat) (req : AppWriteRequest) : gores AppWriteResponse :=
  match dial with
  | Err e => Err e
  | Ok _ =>
      match Invoke AppWriteRequest_codec AppWriteResponse_codec "AppWrite" req with
      | Err e => Err e
      | Ok resp => if decide (wp_error resp = EmptyString) then Ok resp else Err (Errorf (wp_error resp))
      end
  end.

Definition PostAppSync (dial : gores nat) (req : AppSyncRequest) : gores AppSyncResponse :=
  match dial with
  | Err e => Err e
  | Ok _ =>
      match Invoke AppSyncRequest_codec AppSyncResponse_codec "AppSync" req with
      | Err e => Err e
      | Ok resp => if decide (sp_error resp = EmptyString) then Ok resp else Err (Errorf (sp_error resp))
      end
  end.

End client.

(** ** Connections are given back *)

(** How often the manager counts a target as used. *)
Definition uses (m : ConnManager) (t : string) : Z := from_option ref 0%Z (conns m !! t).

Definition refs_ok (m : ConnManager) : Prop := ∀ t mc, conns m !! t = Some mc → (0 ≤ ref mc)%Z.

(** Every managed call gives its connection back: whether the connection was cached or
    dialled, and whether the call succeeds or fails, afterwards every target counts as many
    uses as before, and the target is still cached for the next call unless dialling it
    failed. *)
Theorem managed_call_balanced {A} (now now' : Z) (dial : gores nat) (target : string) (call : gores A) (m : ConnManager) (mt : Metrics) :
  refs_ok m →
  let '(r, m', mt') := with_conn now now' dial target call m mt in
  (∀ t, uses m' t = uses m t) ∧ refs_ok m' ∧
  (is_Some (conns m' !! target) ∨ conns m !! target = None ∧ m' = m ∧ ∃ e, dial = Err e ∧ r = Err e) ∧
  (∀ t, t ≠ target → conns m' !! t = conns m !! t).
Proof.
  intros Hm. unfold with_conn, get_cached. destruct (conns m !! target) as [mc|] eqn:E.
  - specialize (Hm _ _ E) as Hp. cbn. unfold release. cbn [conns set_conns].
    rewrite lookup_insert_eq. cbn [retain cc ref]. rewrite (proj2 (Z.ltb_lt _ _)) by lia.
    split_and!.
    + intros t. unfold uses. cbn. rewrite insert_insert_eq.
      destruct (decide (t = target)) as [->|]; [rewrite lookup_insert_eq, E; cbn; lia|by rewrite lookup_insert_ne].
    + intros t mc'. cbn. rewrite insert_insert_eq, lookup_insert_Some.
      intros [[<- <-]|[_ ?]]; [cbn; lia|by eapply Hm].
    + left. cbn. rewrite lookup_insert_eq. done.
    + intros t Ht. cbn. by rewrite !lookup_insert_ne.
  - destruct dial as [c|e]; cbn [get_dialed].
    2: { split_and!; [done|done| |done]. right. by eauto. }
    unfold get_dialed. rewrite E. cbn. unfold release. cbn [conns set_conns]. rewrite lookup_insert_eq.
    cbn [cc ref]. split_and!.
    + intros t. unfold uses. cbn. rewrite insert_insert_eq.
      destruct (decide (t = target)) as [->|]; [by rewrite lookup_insert_eq, E|by rewrite lookup_insert_ne].
    + intros t mc'. cbn. rewrite insert_insert_eq, lookup_insert_Some.
      intros [[<- <-]|[_ ?]]; [done|by eapply Hm].
    + left. cbn. rewrite lookup_insert_eq. done.
    + intros t Ht. cbn. by rewrite !lookup_insert_ne.
Qed.

(** ** The interface of a management transport *)

(** What the facade relies on: [answers f q r] says that a call with request [q] to a node
    whose handler is [f] may return [r].  A reply is the handler's reply, and a reply
    without an error text can arrive. *)
Class HonestRPC {Q R} (wfq : Q → bool) (wfr : R → bool) (err_of : R → string)
    (answers : (Q → R) → Q → gores R → Prop) : Prop := {
  honest_reply f q r : wfq q = true → wfr (f q) = true → answers f q (Ok r) → r = f q;
  can_reply f q : wfq q = true → wfr (f q) = true → err_of (f q) = EmptyString → answers f q (Ok (f q));
}.

(** *** gRPC *)

Lemma Invoke_handler {Q R} (cq : codec Q) (cr : codec R) wfq wfr dq dr net name (h : Q → gores R) q :
  CodecOk cq wfq dq → CodecOk cr wfr dr → (dq ≤ max_depth)%Z → (dr ≤ max_depth)%Z → wfq q = true →
  net name (Marshal cq q) = method_handler cq cr h (Marshal cq q) →
  (∀ r, h q = Ok r → wfr r = true) → Invoke net cq cr name q = h q.
Proof.
  intros Hq Hr Hdq Hdr Hw Hn Hwr. unfold Invoke. rewrite Hn. unfold method_handler.
  rewrite (Unmarshal_Marshal cq wfq dq) by done. destruct (h q) as [r|e]; [|done].
  by rewrite (Unmarshal_Marshal cr wfr dr) by auto.
Qed.

(** What the gRPC library promises of its network: a reply that arrives is what the
    service answered to the request that was sent. *)
Definition conveys (net service : string → bytes → gores bytes) : Prop :=
  ∀ name body r, net name body = Ok r → service name body = Ok r.

Lemma Invoke_honest {Q R} (cq : codec Q) (cr : codec R) wfq wfr dq dr net service name (f : Q → R) q r :
  CodecOk cq wfq dq → CodecOk cr wfr dr → (dq ≤ max_depth)%Z → (dr ≤ max_depth)%Z → wfq q = true →
  wfr (f q) = true → conveys net service →
  service name (Marshal cq q) = method_handler cq cr (λ q, Ok (f q)) (Marshal cq q) →
  Invoke net cq cr name q = Ok r → r = f q.
Proof.
  intros Hq Hr Hdq Hdr Hw Hwr Hc Hs Hi.
  destruct (net name (Marshal cq q)) as [body|e] eqn:E; unfold Invoke in Hi; rewrite E in Hi; [|done].
  apply Hc in E. rewrite Hs in E. unfold method_handler in E.
  rewrite (Unmarshal_Marshal cq wfq dq) in E by done. injection E as <-.
  rewrite (Unmarshal_Marshal cr wfr dr) in Hi by done. congruence.
Qed.

Definition with_join (f : JoinRequest → JoinResponse) : mgmtImpl :=
  mkMgmt (Err EmptyString) (λ q, (f q, None)) None None None.
Definition with_appWrite (f : AppWriteRequest → AppWriteResponse) : mgmtImpl :=
  mkMgmt (Err EmptyString) (λ _, (mkJoinResponse false EmptyString EmptyString, None)) None
    (Some (λ q, (f q, None))) None.

(** A call over gRPC in some state of the connection manager and with some network. *)
Definition grpc_join (f : JoinRequest → JoinResponse) (q : JoinRequest) (r : gores JoinResponse) : Prop :=
  ∃ net now now' dial target m mt, conveys net (Management (with_join f)) ∧
    (PostJoin net now now' dial target q m mt).1.1 = r.

Definition grpc_write (Errorf : string → string) (f : AppWriteRequest → AppWriteResponse)
    (q : AppWriteRequest) (r : gores AppWriteResponse) : Prop :=
  ∃ net dial, conveys net (Management (with_appWrite f)) ∧ PostAppWrite net Errorf dial q = r.

Global Instance grpc_join_honest : HonestRPC JoinRequest_wf JoinResponse_wf jp_error grpc_join.
Proof.
  split.
  - intros f q r Hq Hr (net & now & now' & dial & target & m & mt & Hc & E).
    unfold PostJoin, with_conn in E.
    assert (Invoke net JoinRequest_codec JoinResponse_codec "Join" q = Ok r) as Hi.
    { destruct (get_cached _ _ _) as [[? ?]|]; [done|]. destruct dial; [|done].
      by destruct (get_dialed _ _ _ _ _) as [[[? ?] ?] ?]. }
    by apply (Invoke_honest JoinRequest_codec JoinResponse_codec JoinRequest_wf JoinResponse_wf 1 1
      net (Management (with_join f)) "Join" f q r _ _).
  - intros f q Hq Hr _. exists (Management (with_join f)), 0%Z, 0%Z, (Ok 0), EmptyString,
      (NewConnManager 0), ∅. split; [by intros ???|].
    unfold PostJoin, with_conn, get_cached. cbn [NewConnManager conns]. rewrite lookup_empty. cbn [get_dialed].
    apply (Invoke_handler JoinRequest_codec JoinResponse_codec JoinRequest_wf JoinResponse_wf 1 1 _ "Join"
      (λ q, Ok (f q)) q _ _); [done..|]. by intros r [= <-].
Qed.

Global Instance grpc_write_honest Errorf :
  HonestRPC (λ q, utf8_valid (wr_op q)) AppWriteResponse_wf wp_error (grpc_write Errorf).
Proof.
  split.
  - intros f q r Hq Hr (net & dial & Hc & E). unfold PostAppWrite in E. destruct dial; [|done].
    destruct (Invoke net _ _ _ q) as [resp|] eqn:Hi; [|done]. case_decide; [|done]. injection E as <-.
    by apply (Invoke_honest AppWriteRequest_codec AppWriteResponse_codec (λ q, utf8_valid (wr_op q))
      AppWriteResponse_wf 1 1 net (Management (with_appWrite f)) "AppWrite" f q resp _ _).
  - intros f q Hq Hr He. exists (Management (with_appWrite f)), (Ok 0). split; [by intros ???|].
    unfold PostAppWrite.
    rewrite (Invoke_handler AppWriteRequest_codec AppWriteResponse_codec (λ q, utf8_valid (wr_op q))
      AppWriteResponse_wf 1 1 _ "AppWrite" (λ q, Ok (f q)) q _ _);
      [by rewrite decide_True|done..|]. by intros r [= <-].
Qed.

(** *** HTTP *)

(** How the facade sees the result of the HTTP client: only whether there is an error. *)
Definition http_result {R} (text : clientErr → string) (r : (R * option clientErr) * sending) : gores R :=
  match r with ((out, None), _) => Ok out | ((_, Some e), _) => Err (text e) end.

(** A call over HTTP to a handler [h] with some fate of the attempts. *)
Definition http_answers {Q R} (cq : codec Q) (cr : codec R) (err_of : R → string)
    (h : (Q → R * option string) → bytes → response) (f : Q → R) (q : Q) (r : gores R) : Prop :=
  ∃ plan text, plan ≠ [] ∧ http_result text (post cq cr err_of (h (λ q, (f q, None))) plan q) = r.

Lemma post_loop_honest {R} (cr : codec R) wfr dr err_of srv body attempts lastErr r :
  CodecOk cr wfr dr → (dr ≤ max_depth)%Z → wfr r = true →
  srv body = mkResponse 200 (Encode cr r) → lastErr ≠ None ∨ attempts ≠ [] →
  let '((out, err), _) :=
    post_loop cr err_of srv body attempts (c_zero cr) lastErr (mkSending false 0) in
  err = None → out = r.
Proof.
  intros Hr Hd Hw Hs. revert lastErr.
  induction attempts as [|[fate cancelled] rest IH]; intros lastErr Hne; [cbn; naive_solver|].
  cbn [post_loop]. destruct fate; cbn [Do body_read handled].
  - destruct cancelled; [done|]. apply IH. by left.
  - destruct cancelled; [done|]. destruct rest as [|a rest]; [done|].
    destruct (post_loop_consumed cr err_of srv body (a :: rest) (c_zero cr) (Some ENet)
      (mkSending true 1) eq_refl ltac:(done)) as (e & _ & ->). done.
  - rewrite Hs. cbn [code rbody]. rewrite decide_True by done.
    by rewrite (Unmarshal_into_Encode cr wfr dr).
Qed.

Lemma http_honest {Q R} (cq : codec Q) (cr : codec R) wfq wfr dq dr err_of de unsupported on_error :
  CodecOk cq wfq dq → CodecOk cr wfr dr → (dq ≤ max_depth)%Z → (dr ≤ max_depth)%Z →
  HonestRPC wfq wfr err_of (http_answers cq cr err_of
    (replying (post_handler de cq cr unsupported on_error))).
Proof.
  intros Hq Hr Hdq Hdr.
  assert (∀ f q, wfq q = true →
    replying (post_handler de cq cr unsupported on_error) (λ q, (f q, None)) (Marshal cq q) =
    mkResponse 200 (Encode cr (f q))) as Hh.
  { intros f q Hw. unfold replying, post_handler. by rewrite (Decode_Marshal cq wfq dq). }
  split.
  - intros f q r Hw Hwr (plan & text & Hp & E). unfold post in E.
    pose proof (post_loop_honest cr wfr dr err_of _ (Marshal cq q) (take 3 plan) None (f q)
      Hr Hdr Hwr (Hh f q Hw) ltac:(right; by destruct plan)) as H.
    destruct (post_loop _ _ _ _ _ _ _ _) as [[out [e|]] s]; [done|]. injection E as <-. by apply H.
  - intros f q Hw Hwr _. exists [(Delivered, false)], (λ _, EmptyString). split; [done|].
    unfold post. cbn [take post_loop Do body_read handled]. rewrite Hh by done.
    cbn [code rbody]. rewrite decide_True by done. by rewrite (Unmarshal_into_Encode cr wfr dr).
Qed.

Global Instance http_join_honest de : HonestRPC JoinRequest_wf JoinResponse_wf jp_error
  (http_answers JoinRequest_codec JoinResponse_codec jp_error (replying (join_handler de))).
Proof. by apply (http_honest JoinRequest_codec JoinResponse_codec JoinRequest_wf JoinResponse_wf 1 1 _ _ _ _ _ _). Qed.

Global Instance http_write_honest de : HonestRPC (λ q, utf8_valid (wr_op q)) AppWriteResponse_wf wp_error
  (http_answers AppWriteRequest_codec AppWriteResponse_codec wp_error (replying (appwrite_handler de))).
Proof.
  by apply (http_honest AppWriteRequest_codec AppWriteResponse_codec (λ q, utf8_valid (wr_op q))
    AppWriteResponse_wf 1 1 _ _ _ _ _ _).
Qed.

(** ** The facade over any transport *)

(** C28. Over every transport that keeps the interface, the facade's outcome is true: [Join]
    reports success only when the handler of the node it asked accepted, and a forwarded
    write reports a result only when the handler produced exactly that result without an
    error. *)
Theorem facade_outcome_true
    (join_rpc : (JoinRequest → JoinResponse) → JoinRequest → gores JoinResponse → Prop)
    (write_rpc : (AppWriteRequest → AppWriteResponse) → AppWriteRequest → gores AppWriteResponse → Prop)
    `{!HonestRPC JoinRequest_wf JoinResponse_wf jp_error join_rpc,
      !HonestRPC (λ q, utf8_valid (wr_op q)) AppWriteResponse_wf wp_error write_rpc} fj fw jq wq jr wr d :
  JoinRequest_wf jq = true → JoinResponse_wf (fj jq) = true →
  utf8_valid (wr_op wq) = true → AppWriteResponse_wf (fw wq) = true →
  join_rpc fj jq jr → write_rpc fw wq wr →
  (join_result jr = None → jp_accepted (fj jq) = true) ∧
  (write_result wr = Ok d → wp_error (fw wq) = EmptyString ∧ wp_data (fw wq) = d).
Proof.
  intros Hj Hjr Hw Hwr Haj Haw. split.
  - destruct jr as [r|e]; [|done]. pose proof (honest_reply fj jq r Hj Hjr Haj) as ->.
    unfold join_result. by destruct (jp_accepted (fj jq)); repeat case_decide.
  - destruct wr as [r|e]; [|done]. pose proof (honest_reply fw wq r Hw Hwr Haw) as ->.
    unfold write_result. case_decide; [|done]. by intros [= <-].
Qed.

(** The two transports agree on writes: when a reply arrives, the facade returns the same
    outcome over gRPC, whose client turns an error text of the reply into an error of the
    call, as over HTTP, whose client leaves it to the facade, as long as formatting the
    text leaves it as it is. *)
Theorem transports_agree_on_writes de Errorf f q s :
  utf8_valid (wr_op q) = true → AppWriteResponse_wf (f q) = true → Errorf (wp_error (f q)) = wp_error (f q) →
  write_result (PostAppWrite (Management (with_appWrite f)) Errorf (Ok s) q) =
  write_result (http_result (λ _, EmptyString)
    (Http.PostAppWrite (replying (appwrite_handler de) (λ q, (f q, None))) [(Delivered, false)] q)).
Proof.
  intros Hq Hr He. unfold PostAppWrite.
  rewrite (Invoke_handler AppWriteRequest_codec AppWriteResponse_codec (λ q, utf8_valid (wr_op q))
    AppWriteResponse_wf 1 1 _ "AppWrite" (λ q, Ok (f q)) q _ _); [|done..|by intros r [= <-]].
  assert (replying (appwrite_handler de) (λ q, (f q, None)) (Marshal AppWriteRequest_codec q) =
    mkResponse 200 (Encode AppWriteResponse_codec (f q))) as Hh.
  { unfold replying, appwrite_handler, post_handler. by rewrite (Decode_Marshal _ _ 1 q AppWriteRequest_codec_ok). }
  unfold Http.PostAppWrite, post. cbn [take post_loop Do body_read handled]. rewrite Hh. cbn [code rbody].
  rewrite (decide_True (P := (200%Z = 200%Z))) by done.
  rewrite (Unmarshal_into_Encode _ AppWriteResponse_wf 1 (f q) _) by done. cbn [http_result fst].
  case_decide; [done|]. cbn [write_result]. by rewrite decide_False, He.
Qed.

(** ** Witnesses *)

Definition demo_mgr : ConnManager := mkMgr {["h:1" := mkConn 7 5 2]} 30 false.

Lemma managed_call_balanced_witness :
  uses (with_conn 6 8 (Ok 9) "h:1" (Ok 3) demo_mgr ∅).1.2 "h:1" = 2%Z.
Proof.
  pose proof (managed_call_balanced 6 8 (Ok 9) "h:1" (Ok 3) demo_mgr ∅) as H.
  destruct (with_conn _ _ _ _ _ _ _) as [[r m'] mt'].
  destruct H as [H _]; [|exact (H "h:1")].
  intros t mc Ht. cbn in Ht. apply lookup_singleton_Some in Ht as [_ <-]. by cbn.
Defined.

Definition demo_accept (q : JoinRequest) : JoinResponse := mkJoinResponse true EmptyString EmptyString.
Definition demo_echo (q : AppWriteRequest) : AppWriteResponse := mkAppWriteResponse (wr_data q) EmptyString.

Lemma facade_outcome_true_witness :
  jp_accepted (demo_accept (mkJoinRequest "n" "h:1")) = true ∧
  wp_data (demo_echo (mkAppWriteRequest "set" (Some "x"))) = Some "x".
Proof.
  destruct (facade_outcome_true grpc_join (grpc_write id) demo_accept demo_echo (mkJoinRequest "n" "h:1")
    (mkAppWriteRequest "set" (Some "x")) (Ok (demo_accept (mkJoinRequest "n" "h:1")))
    (Ok (demo_echo (mkAppWriteRequest "set" (Some "x")))) (Some "x") eq_refl eq_refl eq_refl eq_refl) as [H1 H2].
  - by apply can_reply.
  - by apply can_reply.
  - split; [by apply H1|by apply H2].
Defined.

Lemma transports_agree_on_writes_witness :
  write_result (PostAppWrite (Management (with_appWrite demo_echo)) id (Ok 0) (mkAppWriteRequest "set" (Some "x"))) =
  write_result (http_result (λ _, EmptyString)
    (Http.PostAppWrite (replying (appwrite_handler (λ _, EmptyString)) (λ q, (demo_echo q, None)))
       [(Delivered, false)] (mkAppWriteRequest "set" (Some "x")))).
Proof. by apply (transports_agree_on_writes (λ _, EmptyString) id demo_echo (mkAppWriteRequest "set" (Some "x")) 0). Defined.
