(* ===== verification/Network.v ===== *)
(** * Several nodes

    Facades of several nodes that call each other: a remote call of one node goes through the
    HTTP or the gRPC client, over a network that may lose the request or the reply, and runs
    the handler of another node, so that calls nest across nodes.  Each node's consensus engine,
    gossip view and application are given by what they answer; voters added and application
    writes are recorded. *)
From S2P Require Import Prelude GoStrings Metrics ConnMgr Utf8 Json Types JsonCodec Replication Effects.
From S2P Require Import Cluster Http Grpc.
From stdpp Require Import options.

(** ** Nodes and worlds *)

Record node := mkNode {
  nd_opts : Options;
  nd_led : bool;                               (** [IsLeader] *)
  nd_leader : option (string * string);        (** [Leader] *)
  nd_term : Z;
  nd_members : option (list MemberInfo);       (** the gossip view *)
  nd_mgmt : string;                            (** where its server listens *)
  nd_raft : string;                            (** its Raft address *)
  nd_app : string → option bytes → gores (option bytes);  (** [HandleWrite] *)
  nd_voters : list (string * string);          (** voters it added *)
  nd_writes : list (string * option bytes);    (** writes its application handled *)
}.

(** The nodes by the address of their management server. *)
Abbreviation world := (gmap string node).

Definition add_voter (id addr : string) (n : node) : node :=
  mkNode (nd_opts n) (nd_led n) (nd_leader n) (nd_term n) (nd_members n) (nd_mgmt n) (nd_raft n)
    (nd_app n) (nd_voters n ++ [(id, addr)]) (nd_writes n).

Definition add_write (op : string) (data : option bytes) (n : node) : node :=
  mkNode (nd_opts n) (nd_led n) (nd_leader n) (nd_term n) (nd_members n) (nd_mgmt n) (nd_raft n)
    (nd_app n) (nd_voters n) (nd_writes n ++ [(op, data)]).

(** What a node answers its own facade: consensus, gossip and application as above, and
    no errors from the other local components. *)
Definition local X (c : call X) (n : node) : X * node :=
  match c in call X return X * node with
  | CIsLeader => (nd_led n, n)
  | CLeader => (nd_leader n, n)
  | CTerm => (nd_term n, n)
  | CMembers => (nd_members n, n)
  | CTransportAddr => (nd_raft n, n)
  | CSrvAddr => (nd_mgmt n, n)
  | CAddVoter id addr => (None, add_voter id addr n)
  | CHandleWrite op data => (nd_app n op data, add_write op data n)
  | CConsStart | CConsStop | CApply _ | CRemoveServer _ | CMemStart | CMemJoin _ | CMemLeave
  | CMemStop | CSrvStart | CSrvStop | CSubscribe _ _ | CHandleSync _ _ | CTracingSetup | CTracingShutdown => (None, n)
  | CSeeds => ([], n)
  | CAckedAll => (None, n)
  | CBroadcastWithSeq _ _ _ => (0%Z, n)
  | CGetStatus _ => (Err "no network", n)
  | CPostJoin _ _ => (Err "no network", n)
  | CPostAppWrite _ _ => (Err "no network", n)
  | COnLeaderChange _ | COnElectionStart | COnElectionEnd _ | CRegisterMetrics
  | CMetricSet _ _ _ | CMetricInc _ _ | CPublishEvent _ | CMkdirAll _ | CRestoreBuffer _
  | CGo _ | CLog _ | CSpanStart _ | CSpanEnd _ | CStdLog _ | CPrintln _ | CCtxDone => ((), n)
  | CSeq _ => (0%Z, n)
  | CCommit _ _ => (0%Z, n)
  | CRetryPass _ => ([], n)
  | CNow => (0%Z, n)
  | CWait => (Some "context canceled", n)
  end.

(** ** Running a program on a node *)

Inductive result (A : Type) : Type :=
  | Done (a : A) (w : world)
  | OutOfFuel
  | Panicked.
Arguments Done {A}.
Arguments OutOfFuel {A}.
Arguments Panicked {A}.

Definition result_map {A B} (f : A → B) (r : result A) : result B :=
  match r with
  | Done a w => Done (f a) w
  | OutOfFuel => OutOfFuel
  | Panicked => Panicked
  end.

(** How remote calls are answered: [None] for a call that is not remote. *)
Definition remote_fun : Type := ∀ X, call X → world → option (result X).

Fixpoint run_with {A} (remote : remote_fun) (p : prog A) (self : string) (w : world) : result A :=
  match p with
  | Ret a => Done a w
  | Panic => Panicked
  | Vis c k =>
      match remote _ c w with
      | Some (Done x w') => run_with remote (k x) self w'
      | Some OutOfFuel => OutOfFuel
      | Some Panicked => Panicked
      | None =>
          match w !! self with
          | Some n => let '(x, n') := local _ c n in run_with remote (k x) self (<[self := n']> w)
          | None => Panicked
          end
      end
  end.

(** ** The network *)

Inductive transport : Type := HTTP | GRPC.

(** The transport of the cluster, and what becomes of the attempts to send a request to an
    address: those that are not given are refused.  The rest are texts the model does not
    look into: of the HTTP client's errors, of the decoder's, of a failed gRPC call, and
    [fmt.Errorf] of a text without operands. *)
Record network := mkNetwork {
  nw_kind : transport;
  nw_plan : string → list (fate * bool);
  nw_text : clientErr → string;
  nw_decode : bytes → string;
  nw_lost : string;
  nw_Errorf : string → string;
}.

Definition attempts (nw : network) (addr : string) : list (fate * bool) :=
  take 3 (nw_plan nw addr ++ repeat (Refused, false) 3).

(** The one attempt of a gRPC call. *)
Definition first_fate (nw : network) (addr : string) : fate := from_option fst Refused (head (attempts nw addr)).

(** Some attempt reaches the server. *)
Fixpoint reached (l : list (fate * bool)) : bool :=
  match l with
  | [] => false
  | (Refused, cancelled) :: l' => if cancelled then false else reached l'
  | _ => true
  end.

Section calls.
  Context (nw : network).

(** A call of the HTTP client ([Http.post]) to the handler [h]: when an attempt reaches the
    server with a request that decodes, the function behind the handler runs, once, and its
    reply is what the client works with. *)
Definition http_call {Q R} (cq : codec Q) (cr : codec R) (err_of : R → string)
    (h : (Q → R * option string) → bytes → response) (addr : string) (req : Q) (w : world)
    (function : Q → result R) : result (gores R) :=
  let client resp :=
    http_result (nw_text nw) (post cq cr err_of (h (λ _, (resp, None))) (attempts nw addr) req) in
  match (if reached (attempts nw addr) then Decode cq (Marshal cq req) else None) with
  | None => Done (client (c_zero cr)) w
  | Some q => result_map client (function q)
  end.

(** A call of the gRPC client, [client], whose network conveys the request to the service. *)
Definition grpc_call {Q R} (cq : codec Q) (service : R → string → bytes → gores bytes)
    (client : (string → bytes → gores bytes) → gores R) (addr : string) (req : Q) (w : world)
    (function : Q → result R) : result (gores R) :=
  match first_fate nw addr, Unmarshal cq (Marshal cq req) with
  | Refused, _ => Done (client (λ _ _, Err (nw_lost nw))) w
  | _, None => Done (client (λ _ _, Err "decode")) w
  | Lost, Some q => result_map (λ _, client (λ _ _, Err (nw_lost nw))) (function q)
  | Delivered, Some q => result_map (λ resp, client (service resp)) (function q)
  end.

Definition serve_join (addr : string) (req : JoinRequest) (w : world) (function : JoinRequest → result JoinResponse)
    : result (gores JoinResponse) :=
  match nw_kind nw with
  | HTTP => http_call JoinRequest_codec JoinResponse_codec jp_error (replying (join_handler (nw_decode nw)))
              addr req w function
  | GRPC => grpc_call JoinRequest_codec (λ resp, Management (with_join (λ _, resp)))
              (λ net, (PostJoin net 0 0 (Ok 0) addr req (NewConnManager 0) ∅).1.1) addr req w function
  end.

Definition serve_write (addr : string) (req : AppWriteRequest) (w : world)
    (function : AppWriteRequest → result AppWriteResponse) : result (gores AppWriteResponse) :=
  match nw_kind nw with
  | HTTP => http_call AppWriteRequest_codec AppWriteResponse_codec wp_error (replying (appwrite_handler (nw_decode nw)))
              addr req w function
  | GRPC => grpc_call AppWriteRequest_codec (λ resp, Management (with_appWrite (λ _, resp)))
              (λ net, PostAppWrite net (nw_Errorf nw) (Ok 0) req) addr req w function
  end.

(** A status request: the HTTP client sends it again until a reply arrives. *)
Fixpoint http_get (l : list (fate * bool)) (lastErr : clientErr) (w : world) (function : world → result bytes)
    : result (gores bytes) :=
  match l with
  | [] => Done (Err (nw_text nw lastErr)) w
  | (Refused, cancelled) :: l' =>
      if cancelled then Done (Err (nw_text nw ECtx)) w else http_get l' ENet w function
  | (Lost, cancelled) :: l' =>
      match function w with
      | Done _ w' => if cancelled then Done (Err (nw_text nw ECtx)) w' else http_get l' ENet w' function
      | OutOfFuel => OutOfFuel
      | Panicked => Panicked
      end
  | (Delivered, _) :: _ => result_map Ok (function w)
  end.

Definition serve_status (addr : string) (w : world) (function : world → result bytes) : result (gores bytes) :=
  match nw_kind nw with
  | HTTP => http_get (attempts nw addr) ENet w function
  | GRPC =>
      let client net := match Invoke net empty_codec statusBlob_codec "GetStatus" () with
                        | Ok data => Ok (default EmptyString data)
                        | Err e => Err e
                        end in
      match first_fate nw addr with
      | Refused => Done (client (λ _ _, Err (nw_lost nw))) w
      | Lost => result_map (λ _, client (λ _ _, Err (nw_lost nw))) (function w)
      | Delivered => result_map (λ data, client (Management (mkMgmt (Ok data)
          (λ _, (mkJoinResponse false EmptyString EmptyString, None)) None None None))) (function w)
      end
  end.

(** How the nodes answer each other; nobody listens at other addresses. *)
Definition remote_of (rec : ∀ A, prog A → string → world → result A) : remote_fun := λ X c w,
  match c in call X return option (result X) with
  | CGetStatus addr => Some (match w !! addr with
      | None => Done (Err "unreachable") w
      | Some n => serve_status addr w (rec _ (statusLocalJSON (nd_opts n)) addr)
      end)
  | CPostJoin addr req => Some (match w !! addr with
      | None => Done (Err "unreachable") w
      | Some n => serve_join addr req w (λ r, rec _ (handleJoin (nd_opts n) r) addr w)
      end)
  | CPostAppWrite addr req => Some (match w !! addr with
      | None => Done (Err "unreachable") w
      | Some n => serve_write addr req w (λ r, rec _ (handleAppWrite (nd_opts n) r) addr w)
      end)
  | _ => None
  end.

(** [fuel] bounds how deeply remote calls nest. *)
Fixpoint run (fuel : nat) (A : Type) (p : prog A) (self : string) (w : world) : result A :=
  match fuel with
  | O => run_with (λ X c w, match remote_of (λ _ _ _ _, OutOfFuel) X c w with
                            | Some _ => Some OutOfFuel
                            | None => None
                            end) p self w
  | S fuel' => run_with (remote_of (run fuel')) p self w
  end.

(** ** Lemmas: stepping through a program *)

Definition is_remote {X} (c : call X) : bool :=
  match c with CGetStatus _ | CPostJoin _ _ | CPostAppWrite _ _ => true | _ => false end.

Definition rem_at (fuel : nat) : remote_fun :=
  match fuel with
  | O => λ X c w, match remote_of (λ _ _ _ _, OutOfFuel) X c w with
                  | Some _ => Some OutOfFuel
                  | None => None
                  end
  | S fuel' => remote_of (run fuel')
  end.

Lemma run_rem_at fuel A (p : prog A) self w : run fuel A p self w = run_with (rem_at fuel) p self w.
Proof. by destruct fuel. Qed.

Lemma rem_at_local fuel X (c : call X) w : is_remote c = false → rem_at fuel X c w = None.
Proof. destruct fuel, c; done. Qed.

(** A local call that does not change the node. *)
Lemma run_local {A X} fuel (c : call X) (k : X → prog A) self w n :
  w !! self = Some n → is_remote c = false → (local X c n).2 = n →
  run_with (rem_at fuel) (Vis c k) self w = run_with (rem_at fuel) (k (local X c n).1) self w.
Proof.
  intros Hn Hr Hl. cbn [run_with]. rewrite rem_at_local, Hn by done.
  destruct (local X c n) as [x n'] eqn:E. cbn in *. subst n'. by rewrite insert_id.
Qed.

Lemma run_with_bind {A B} rem (p : prog A) (f : A → prog B) self w :
  run_with rem (p ≫= f) self w =
    match run_with rem p self w with
    | Done a w' => run_with rem (f a) self w'
    | OutOfFuel => OutOfFuel
    | Panicked => Panicked
    end.
Proof.
  revert w. induction p as [a|X c k IH|]; intros w; cbn; [done| |done].
  destruct (rem X c w) as [[x w'| |]|]; [apply IH|done|done|].
  destruct (w !! self) as [n|]; [|done]. destruct (local X c n). apply IH.
Qed.

Lemma run_ret {A} rem (a : A) self w : run_with rem (Ret a) self w = Done a w.
Proof. done. Qed.

Lemma run_remote {A X} rem (c : call X) (k : X → prog A) self w x w' :
  rem X c w = Some (Done x w') → run_with rem (Vis c k) self w = run_with rem (k x) self w'.
Proof. intros E. cbn [run_with]. by rewrite E. Qed.

Global Arguments run_with : simpl never.
Global Arguments rem_at : simpl never.

(** Evaluate the local calls at the front of a program. *)
Ltac local_calls Hn :=
  repeat (rewrite (run_local _ _ _ _ _ _ Hn) by done; cbn [local fst]).

(** ** Calls that get through *)

(** A request to [addr] is delivered: by one of the three attempts of the HTTP client, after
    others that were refused, or by the one attempt of the gRPC client. *)
Definition delivers (addr : string) : Prop :=
  match nw_kind nw with
  | HTTP => ∃ k c rest, k < 3 ∧ nw_plan nw addr = repeat (Refused, false) k ++ (Delivered, c) :: rest
  | GRPC => ∃ c rest, nw_plan nw addr = (Delivered, c) :: rest
  end.

Lemma attempts_http addr :
  nw_kind nw = HTTP → delivers addr →
  ∃ k c rest, k < 3 ∧ attempts nw addr = repeat (Refused, false) k ++ (Delivered, c) :: rest.
Proof using Type.
  unfold delivers, attempts. intros -> (k & c & rest & Hk & ->). exists k, c.
  destruct k as [|[|[|k]]]; [..|lia]; cbn; eauto.
Qed.

Lemma first_grpc addr : nw_kind nw = GRPC → delivers addr → first_fate nw addr = Delivered.
Proof using Type. unfold delivers, first_fate, attempts. by intros -> (c & rest & ->). Qed.

Lemma http_call_ok {Q R} (cq : codec Q) (cr : codec R) wfq dq err_of uns on_error addr req w function resp w' :
  CodecOk cq wfq dq → (dq ≤ max_depth)%Z → wfq req = true → nw_kind nw = HTTP → delivers addr →
  function req = Done resp w' →
  http_call cq cr err_of (replying (post_handler (nw_decode nw) cq cr uns on_error)) addr req w function =
    Done (Ok (Unmarshal_into cr (Encode cr resp) (c_zero cr)).1) w'.
Proof using Type.
  intros Hq Hd Hw Hk Ha Hf. destruct (attempts_http addr Hk Ha) as (k & c & rest & Hlt & Ea).
  unfold http_call, post. assert (take 3 (attempts nw addr) = attempts nw addr) as -> by apply take_idemp.
  rewrite Ea. assert (reached (repeat (Refused, false) k ++ (Delivered, c) :: rest) = true) as ->.
  { clear. by induction k. }
  rewrite (Decode_Marshal cq wfq dq), Hf by done. cbn [result_map]. f_equal.
  set (srv := replying _ _).
  assert (srv (Marshal cq req) = mkResponse 200 (Encode cr resp)) as Hsrv.
  { unfold srv, replying, post_handler. by rewrite (Decode_Marshal cq wfq dq). }
  destruct k as [|[|[|k]]]; [..|lia]; cbn [repeat app post_loop Do body_read handled]; rewrite Hsrv; cbn [code rbody];
    by rewrite decide_True.
Qed.

(** A join request that is delivered is answered by the handler. *)
Lemma serve_join_ok addr req w function resp w' :
  delivers addr → JoinRequest_wf req = true → JoinResponse_wf resp = true → function req = Done resp w' →
  serve_join addr req w function = Done (Ok resp) w'.
Proof using Type.
  intros Ha Hq Hr Hf. unfold serve_join. destruct (nw_kind nw) eqn:Ek.
  - unfold join_handler. rewrite (http_call_ok _ _ JoinRequest_wf 1 _ _ _ _ _ _ _ resp w' _) by done.
    by rewrite (Unmarshal_into_Encode _ JoinResponse_wf 1 resp _).
  - unfold grpc_call. rewrite first_grpc by done. rewrite (Unmarshal_Marshal _ JoinRequest_wf 1 req _) by done.
    rewrite Hf. cbn [result_map]. f_equal. unfold PostJoin, with_conn, get_cached. cbn [NewConnManager conns].
    rewrite lookup_empty. cbn [get_dialed]. unfold get_dialed. cbn [NewConnManager conns]. rewrite lookup_empty. cbn [fst].
    apply (Invoke_handler JoinRequest_codec JoinResponse_codec JoinRequest_wf JoinResponse_wf 1 1 _ "Join"
      (λ _, Ok resp) req _ _); [done..|]. by intros r [= <-].
Qed.

Lemma http_get_delivers addr w function data w' :
  nw_kind nw = HTTP → delivers addr → function w = Done data w' →
  http_get (attempts nw addr) ENet w function = Done (Ok data) w'.
Proof using Type.
  intros Hk Ha Hf. destruct (attempts_http addr Hk Ha) as (k & c & rest & _ & ->).
  induction k as [|k IH]; cbn; [by rewrite Hf|done].
Qed.

(** The status is conveyed as it is. *)
Lemma serve_status_ok addr w function data w' :
  delivers addr → function w = Done data w' → serve_status addr w function = Done (Ok data) w'.
Proof using Type.
  intros Ha Hf. unfold serve_status. destruct (nw_kind nw) eqn:Ek; [by apply http_get_delivers|].
  rewrite first_grpc, Hf by done. cbn [result_map]. f_equal.
  rewrite (Invoke_handler empty_codec statusBlob_codec (λ _, true) (λ _, true) 1 1 _ "GetStatus"
    (λ _, Ok (Some data)) () _ _); by try intros r _.
Qed.

Lemma serve_status_fuel addr w function :
  delivers addr → function w = OutOfFuel → serve_status addr w function = OutOfFuel.
Proof using Type.
  intros Ha Hf. unfold serve_status. destruct (nw_kind nw) eqn:Ek; [|by rewrite first_grpc, Hf].
  destruct (attempts_http addr Ek Ha) as (k & c & rest & _ & ->).
  induction k as [|k IH]; cbn; [by rewrite Hf|done].
Qed.

(** ** Nodes that agree on the leader *)

Definition conf_ok (o : Options) : Prop :=
  has_cons o = true ∧ cons_reconfigurer o = true ∧ has_mem o = true ∧ has_rpcS o = true ∧
  has_rpcC o = true ∧ has_app o = true.

(** The node at [a] considers [lid] the leader, finds its management address [L] in its
    gossip view, and considers itself leader only if it is that node. *)
Record follows (L lid : string) (a : string) (n : node) : Prop := {
  fw_conf : conf_ok (nd_opts n);
  fw_mgmt : nd_mgmt n = a;
  fw_leader : ∃ raft, nd_leader n = Some (lid, raft);
  fw_members : find_member lid (default [] (nd_members n)) = L;
  fw_led : nd_led n = bool_decide (a = L);
}.

(** What the leader reports of itself. *)
Definition own_status (lid : string) (n : node) : ClusterStatus :=
  mkStatus true (nd_term n) lid (nd_mgmt n) (nd_members n) None.

Lemma run_status_local fuel o h t l addr self w n :
  w !! self = Some n → conf_ok o →
  run_with (rem_at fuel) (status_local o h t l addr) self w =
    Done (mkStatus h t l addr (nd_members n) None) w.
Proof.
  intros Hn (Hc & _ & Hm & _). unfold status_local, isLeader. rewrite Hc, Hm. cbn.
  by local_calls Hn.
Qed.

Lemma run_lookup fuel o id self w n :
  w !! self = Some n → has_mem o = true →
  run_with (rem_at fuel) (lookupMemberAddr o id) self w =
    Done (find_member id (default [] (nd_members n))) w.
Proof. intros Hn Hm. unfold lookupMemberAddr. rewrite Hm. cbn. by local_calls Hn. Qed.

(** The leader answers for itself. *)
Lemma run_Status_leader fuel L lid n w :
  w !! L = Some n → follows L lid L n →
  run fuel _ (Status (nd_opts n)) L w = Done (own_status lid n) w.
Proof.
  intros Hn [Hc Ha (raft & Hl) Hm Hled]. rewrite bool_decide_eq_true_2 in Hled by done.
  rewrite run_rem_at. pose proof Hc as (Hcons & _ & Hmem & HS & HC & _).
  unfold Status. rewrite Hcons. cbn. local_calls Hn. rewrite Hl. cbn. local_calls Hn.
  rewrite Hled, HS. cbn. local_calls Hn. rewrite (run_status_local _ _ _ _ _ _ _ _ n) by done. done.
Qed.

Lemma rem_at_GetStatus fuel addr w n data w' :
  w !! addr = Some n → delivers addr → run fuel _ (statusLocalJSON (nd_opts n)) addr w = Done data w' →
  rem_at (S fuel) _ (CGetStatus addr) w = Some (Done (Ok data) w').
Proof using Type. intros Hn Ha Hr. unfold rem_at, remote_of. rewrite Hn. f_equal. by apply serve_status_ok. Qed.

Lemma run_statusJSON fuel o self w st w' :
  run fuel _ (Status o) self w = Done st w' →
  run fuel _ (statusLocalJSON o) self w = Done (Marshal ClusterStatus_codec st) w'.
Proof. rewrite !run_rem_at. intros E. unfold statusLocalJSON. by rewrite run_with_bind, E. Qed.

Lemma ClusterStatus_roundtrip st :
  ClusterStatus_wf st = true → Unmarshal ClusterStatus_codec (Marshal ClusterStatus_codec st) = Some st.
Proof. intros. by eapply (Unmarshal_Marshal _ _ _ _ ClusterStatus_codec_ok). Qed.

(** A follower passes on what the leader answers. *)
Lemma run_Status_follower fuel L lid a n nL w :
  w !! L = Some nL → follows L lid L nL → w !! a = Some n → follows L lid a n →
  a ≠ L → L ≠ EmptyString → delivers L → ClusterStatus_wf (own_status lid nL) = true →
  run (S fuel) _ (Status (nd_opts n)) a w = Done (own_status lid nL) w.
Proof.
  intros HL HfL Hn [Hc Ha (raft & Hl) Hm Hled] Hne HLne HdL Hwf.
  rewrite bool_decide_eq_false_2 in Hled by done.
  rewrite run_rem_at. pose proof Hc as (Hcons & _ & Hmem & HS & HC & _).
  unfold Status. rewrite Hcons. cbn. local_calls Hn. rewrite Hl. cbn. local_calls Hn.
  rewrite Hled, HC, Hmem. cbn -[lookupMemberAddr].
  rewrite run_with_bind, (run_lookup _ _ _ _ _ n), Hm by done.
  rewrite decide_False by done. cbn -[Unmarshal Marshal].
  rewrite (run_remote _ _ _ _ _ (Ok (Marshal ClusterStatus_codec (own_status lid nL))) w).
  - cbn -[Unmarshal Marshal]. by rewrite ClusterStatus_roundtrip.
  - apply (rem_at_GetStatus _ _ _ nL); [done..|]. by eapply run_statusJSON, run_Status_leader.
Qed.

(** Every node of [D] follows the leader at [L]. *)
Definition agreement (D : gset string) (L lid : string) (w : world) : Prop :=
  L ∈ D ∧ L ≠ EmptyString ∧ ∀ a, a ∈ D → ∃ n, w !! a = Some n ∧ follows L lid a n.

Lemma run_Status_agreed fuel D L lid a n nL w :
  agreement D L lid w → delivers L → w !! L = Some nL → w !! a = Some n → a ∈ D →
  ClusterStatus_wf (own_status lid nL) = true →
  run (S fuel) _ (Status (nd_opts n)) a w = Done (own_status lid nL) w.
Proof.
  intros (HLD & HLne & HD) HdL HL Hn Ha Hwf.
  destruct (HD L HLD) as (nL' & HL' & HfL). assert (nL' = nL) as -> by congruence.
  destruct (HD a Ha) as (n' & Hn' & Hf). assert (n' = n) as -> by congruence.
  destruct (decide (a = L)) as [->|Hne].
  - assert (n = nL) as -> by congruence. by apply run_Status_leader.
  - by eapply run_Status_follower.
Qed.

(** When the nodes agree on the leader and requests to it are delivered, [Status] asked of any of them returns the
    leader's own view, with the leader's management address, after at most one remote
    call, and changes nothing. *)
Theorem status_agreement fuel D L lid a n nL w :
  agreement D L lid w → delivers L → w !! L = Some nL → w !! a = Some n → a ∈ D →
  ClusterStatus_wf (own_status lid nL) = true →
  run (S fuel) _ (Status (nd_opts n)) a w = Done (own_status lid nL) w.
Proof. apply run_Status_agreed. Qed.

(** When two nodes each take the other for the leader, [Status] on either asks the
    other, which asks back: the calls nest without end, whatever depth is allowed, when the
    requests are delivered. *)
Theorem status_disagreement_loops fuel a b ida idb ra rb na nb w :
  w !! a = Some na → w !! b = Some nb → conf_ok (nd_opts na) → conf_ok (nd_opts nb) →
  a ≠ EmptyString → b ≠ EmptyString → delivers a → delivers b →
  nd_led na = false → nd_led nb = false →
  nd_leader na = Some (idb, rb) → nd_leader nb = Some (ida, ra) →
  find_member idb (default [] (nd_members na)) = b →
  find_member ida (default [] (nd_members nb)) = a →
  run fuel _ (Status (nd_opts na)) a w = OutOfFuel.
Proof.
  revert a b ida idb ra rb na nb. induction fuel as [|fuel IH];
    intros a b ida idb ra rb na nb Ha Hb Hca Hcb Hane Hbne Hda Hdb Hla Hlb Hna Hnb Hma Hmb;
    rewrite run_rem_at; pose proof Hca as (Hcons & _ & Hmem & HS & HC & _);
    unfold Status; rewrite Hcons; cbn; local_calls Ha; rewrite Hna; cbn; local_calls Ha;
    rewrite Hla, HC, Hmem; cbn -[lookupMemberAddr];
    rewrite run_with_bind, (run_lookup _ _ _ _ _ na), Hma by done;
    rewrite decide_False by done; cbn; [done|].
  assert (rem_at (S fuel) _ (CGetStatus b) w = Some OutOfFuel) as E.
  { unfold rem_at, remote_of. rewrite Hb. f_equal. apply serve_status_fuel; [done|]. unfold statusLocalJSON.
    rewrite run_rem_at, run_with_bind, <-run_rem_at.
    by rewrite (IH b a idb ida rb ra nb na). }
  unfold run_with. by rewrite E.
Qed.

(** ** Joining *)

(** A call that changes the node it runs on. *)
Lemma run_local_change {A X} fuel (c : call X) (k : X → prog A) self w n :
  w !! self = Some n → is_remote c = false →
  run_with (rem_at fuel) (Vis c k) self w =
    run_with (rem_at fuel) (k (local X c n).1) self (<[self := (local X c n).2]> w).
Proof.
  intros Hn Hr. unfold run_with at 1. rewrite rem_at_local, Hn by done. fold (@run_with A).
  by destruct (local X c n).
Qed.

Lemma run_handleJoin_leader fuel L n req w :
  w !! L = Some n → conf_ok (nd_opts n) → nd_led n = true →
  run fuel _ (handleJoin (nd_opts n) req) L w =
    Done (mkJoinResponse true EmptyString EmptyString)
         (<[L := add_voter (jr_id req) (jr_raftAddr req) n]> w).
Proof.
  intros Hn (Hcons & Hr & _) Hled. rewrite run_rem_at. unfold handleJoin, in_span, isLeader.
  rewrite Hcons, Hr. cbn. local_calls Hn. rewrite Hled. cbn.
  rewrite (run_local_change _ _ _ _ _ n) by done. cbn.
  local_calls (lookup_insert_eq w L (add_voter (jr_id req) (jr_raftAddr req) n)). done.
Qed.

(** C16. Joining through any node of a cluster whose nodes agree on the leader succeeds, over
    HTTP and over gRPC, when requests to the seed and to the leader are delivered, whether the
    seed is the leader or not, and has exactly one effect: the leader adds the joining node,
    under its identifier and Raft address, as a voter. *)
Theorem join_reaches_leader fuel D L lid a n seed nL w :
  agreement D L lid w → w !! L = Some nL → seed ∈ D → seed ≠ EmptyString → a ∉ D → w !! a = Some n →
  has_rpcC (nd_opts n) = true → delivers seed → delivers L →
  ClusterStatus_wf (own_status lid nL) = true →
  JoinRequest_wf (mkJoinRequest (NodeID (nd_opts n)) (nd_raft n)) = true →
  run (S (S fuel)) _ (Join (nd_opts n) seed) a w =
    Done None (<[L := add_voter (NodeID (nd_opts n)) (nd_raft n) nL]> w).
Proof.
  intros HA HL Hseed Hsne Ha Hn HC Hds HdL Hwf Hreq. pose proof HA as (HLD & HLne & HD).
  destruct (HD L HLD) as (nL' & HL' & HfL). assert (nL' = nL) as -> by congruence.
  destruct (HD seed Hseed) as (ns & Hs & Hfs).
  rewrite run_rem_at. unfold Join. rewrite HC, decide_False by done. cbn -[join_at leader_of_status].
  rewrite (run_remote _ _ _ _ _ (Ok (Marshal ClusterStatus_codec (own_status lid nL))) w).
  2: { apply (rem_at_GetStatus _ _ _ ns); [done..|]. apply run_statusJSON. by eapply (run_Status_agreed _ D L). }
  cbn -[join_at Unmarshal Marshal]. rewrite ClusterStatus_roundtrip by done. cbn -[join_at].
  rewrite (fw_mgmt _ _ _ _ HfL), decide_False by done. unfold join_at. rewrite decide_False by done.
  cbn. local_calls Hn.
  rewrite (run_remote _ _ _ _ _ (Ok (mkJoinResponse true EmptyString EmptyString))
    (<[L := add_voter (NodeID (nd_opts n)) (nd_raft n) nL]> w)); [done|].
  unfold rem_at, remote_of. rewrite HL. f_equal. apply serve_join_ok; [done..|].
  apply (run_handleJoin_leader _ _ nL); [done|apply HfL|].
  rewrite (fw_led _ _ _ _ HfL). by apply bool_decide_eq_true_2.
Qed.

(** ** Application writes *)

(** What a follower's caller sees of the outcome of a write on the leader: an empty
    result becomes nil, an error without a text is taken for success, and the gRPC client
    formats the text of an error. *)
Definition forwarded (r : gores (option bytes)) : gores (option bytes) :=
  match r with
  | Ok (Some EmptyString) => Ok None
  | Ok d => Ok d
  | Err EmptyString => Ok None
  | Err e => Err (match nw_kind nw with HTTP => e | GRPC => nw_Errorf nw e end)
  end.

Definition outcome_utf8 (r : gores (option bytes)) : bool :=
  match r with Ok _ => true | Err e => utf8_valid e end.

Definition write_reply (r : gores (option bytes)) : AppWriteResponse :=
  match r with
  | Ok out => mkAppWriteResponse out EmptyString
  | Err e => mkAppWriteResponse None e
  end.

Lemma run_handleAppWrite_leader fuel L n req w :
  w !! L = Some n → conf_ok (nd_opts n) → nd_led n = true →
  run fuel _ (handleAppWrite (nd_opts n) req) L w =
    Done (write_reply (nd_app n (wr_op req) (wr_data req)))
         (<[L := add_write (wr_op req) (wr_data req) n]> w).
Proof.
  intros Hn (Hcons & _ & _ & _ & _ & Happ) Hled. rewrite run_rem_at. unfold handleAppWrite, isLeader.
  rewrite Hcons, Happ. cbn. local_calls Hn. rewrite Hled. cbn.
  rewrite (run_local_change _ _ _ _ _ n) by done. cbn.
  by destruct (nd_app n (wr_op req) (wr_data req)).
Qed.

(** What is read back from the reply: an empty result is left out of its text. *)
Definition read_back (r : gores (option bytes)) : AppWriteResponse :=
  write_reply match r with Ok (Some EmptyString) => Ok None | r => r end.

Lemma read_back_text r :
  Marshal AppWriteResponse_codec (write_reply r) = Marshal AppWriteResponse_codec (read_back r).
Proof using Type. destruct r as [[[|x d]|]|e]; [by vm_compute|done..]. Qed.

Lemma read_back_wf r : outcome_utf8 r = true → AppWriteResponse_wf (read_back r) = true.
Proof using Type.
  destruct r as [[[|x d]|]|e]; cbn [outcome_utf8]; intros Hu; [done..|].
  unfold AppWriteResponse_wf, read_back. cbn [write_reply wp_error wp_data]. by rewrite Hu.
Qed.

(** A write request that is delivered: the handler's reply, as the client passes it on. *)
Lemma serve_write_ok addr req w function r w' :
  delivers addr → utf8_valid (wr_op req) = true → outcome_utf8 r = true → function req = Done (write_reply r) w' →
  ∃ answer, serve_write addr req w function = Done answer w' ∧ write_result answer = forwarded r.
Proof using Type.
  intros Ha Hq Hr Hf. pose proof (read_back_wf r Hr) as Hwf. unfold serve_write, forwarded.
  destruct (nw_kind nw) eqn:Ek.
  - unfold appwrite_handler.
    rewrite (http_call_ok _ _ (λ q, utf8_valid (wr_op q)) 1 _ _ _ _ _ _ _ (write_reply r) w' _) by done.
    eexists. split; [done|]. unfold Encode. rewrite read_back_text.
    change (Marshal AppWriteResponse_codec (read_back r) +:+ _) with (Encode AppWriteResponse_codec (read_back r)).
    rewrite (Unmarshal_into_Encode _ AppWriteResponse_wf 1 _ _) by done. by destruct r as [[[]|]|[]].
  - unfold grpc_call. rewrite first_grpc by done.
    rewrite (Unmarshal_Marshal _ (λ q, utf8_valid (wr_op q)) 1 req _) by done. rewrite Hf. cbn [result_map].
    eexists. split; [done|]. unfold PostAppWrite, Invoke.
    change (Management (with_appWrite (λ _, write_reply r)) "AppWrite" (Marshal AppWriteRequest_codec req)) with
      (method_handler AppWriteRequest_codec AppWriteResponse_codec (λ _, Ok (write_reply r)) (Marshal AppWriteRequest_codec req)).
    unfold method_handler. rewrite (Unmarshal_Marshal _ (λ q, utf8_valid (wr_op q)) 1 req _) by done.
    rewrite read_back_text, (Unmarshal_Marshal _ AppWriteResponse_wf 1 _ _) by done. by destruct r as [[[]|]|[]].
Qed.

(** *** On any network *)

Lemma unreached_fails {R} (cr : codec R) err_of srv body l out lastErr :
  reached l = false → l ≠ [] ∨ lastErr ≠ None →
  ∃ out' e s, post_loop cr err_of srv body l out lastErr (mkSending false 0) = ((out', Some e), s).
Proof using Type.
  revert lastErr. induction l as [|[f cancelled] l IH]; intros lastErr Hr Hne.
  { destruct lastErr; [by eauto|naive_solver]. }
  destruct f; [|done..]. cbn in Hr |- *. destruct cancelled; [by eauto|]. apply IH; [done|by right].
Qed.

(** Whatever the network does, the function runs once or the call fails. *)
Lemma serve_write_once addr req w function resp w' :
  utf8_valid (wr_op req) = true → function req = Done resp w' →
  ∃ r, serve_write addr req w function = Done r w' ∨
       serve_write addr req w function = Done r w ∧ ∃ e, r = Err e.
Proof using Type.
  intros Hq Hf. unfold serve_write. destruct (nw_kind nw).
  - unfold http_call. destruct (reached (attempts nw addr)) eqn:Er.
    + rewrite (Decode_Marshal _ (λ q, utf8_valid (wr_op q)) 1 req _), Hf by done. eexists. by left.
    + unfold post. assert (take 3 (attempts nw addr) = attempts nw addr) as -> by apply take_idemp.
      destruct (unreached_fails AppWriteResponse_codec wp_error
        (replying (appwrite_handler (nw_decode nw)) (λ _, (c_zero AppWriteResponse_codec, None)))
        (Marshal AppWriteRequest_codec req) (attempts nw addr) (c_zero AppWriteResponse_codec) None Er)
        as (out' & e & s & E); [left; unfold attempts; by destruct (nw_plan nw addr)|].
      rewrite E. eexists. right. split; [done|]. by eexists.
  - unfold grpc_call. rewrite (Unmarshal_Marshal _ (λ q, utf8_valid (wr_op q)) 1 req _), Hf by done.
    destruct (first_fate nw addr); cbn; eexists; [right; split; [done|by eexists]|by left..].
Qed.


End calls.

(** ** Witnesses *)

Definition demo_conf (id : string) : Options :=
  mkOptions id true true true true true false true true false false true false true
    0 EmptyString false false false.

Definition demo_view : option (list MemberInfo) :=
  Some [mkMember "n1" "h1:7946" (Some {["mgmt" := "h1:17946"]});
        mkMember "n2" "h2:7946" (Some {["mgmt" := "h2:17946"]})].

Definition demo_app (op : string) (data : option bytes) : gores (option bytes) :=
  if decide (op = "put") then Ok (Some "done") else Err "unknown operation".

Definition demo_n1 : node :=
  mkNode (demo_conf "n1") true (Some ("n1", "h1:9520")) 3 demo_view "h1:17946" "h1:9520" demo_app [] [].
Definition demo_n2 : node :=
  mkNode (demo_conf "n2") false (Some ("n1", "h1:9520")) 3 demo_view "h2:17946" "h2:9520" demo_app [] [].
Definition demo_n3 : node :=
  mkNode (demo_conf "n3") false None 0 None "h3:17946" "h3:9520" demo_app [] [].

Definition demo_world : world :=
  {["h1:17946" := demo_n1; "h2:17946" := demo_n2; "h3:17946" := demo_n3]}.

Definition demo_D : gset string := {["h1:17946"; "h2:17946"]}.

Lemma demo_agreement : agreement demo_D "h1:17946" "n1" demo_world.
Proof.
  split_and!; [set_solver|done|]. intros a [->%elem_of_singleton| ->%elem_of_singleton]%elem_of_union;
    eexists; (split; [vm_compute; reflexivity|]);
    (split; [by split_and!|reflexivity|by eexists|vm_compute; reflexivity|vm_compute; reflexivity]).
Qed.

(** A first attempt that is refused and a second that gets through, and a gRPC network. *)
Definition demo_http : network :=
  mkNetwork HTTP (λ _, [(Refused, false); (Delivered, false)]) (λ _, "error") (λ _, "EOF") "unavailable" id.
Definition demo_grpc : network :=
  mkNetwork GRPC (λ _, [(Delivered, false)]) (λ _, "error") (λ _, "EOF") "unavailable" id.

Lemma demo_http_delivers addr : delivers demo_http addr.
Proof. exists 1, false, []. split; [lia|reflexivity]. Qed.

Lemma status_agreement_witness :
  run demo_http 1 _ (Status (demo_conf "n2")) "h2:17946" demo_world = Done (own_status "n1" demo_n1) demo_world.
Proof.
  apply (status_agreement demo_http 0 demo_D "h1:17946" "n1" "h2:17946" demo_n2 demo_n1 demo_world demo_agreement);
    [apply demo_http_delivers|reflexivity|reflexivity|set_solver|vm_compute; reflexivity].
Defined.

Definition demo_b1 : node :=
  mkNode (demo_conf "n1") false (Some ("n2", "h2:9520")) 3 demo_view "h1:17946" "h1:9520" demo_app [] [].
Definition demo_b2 : node :=
  mkNode (demo_conf "n2") false (Some ("n1", "h1:9520")) 3 demo_view "h2:17946" "h2:9520" demo_app [] [].

Lemma status_disagreement_loops_witness :
  run demo_http 50 _ (Status (demo_conf "n1")) "h1:17946" {["h1:17946" := demo_b1; "h2:17946" := demo_b2]} = OutOfFuel.
Proof.
  apply (status_disagreement_loops demo_http 50 "h1:17946" "h2:17946" "n1" "n2" "h1:9520" "h2:9520" demo_b1 demo_b2);
    try reflexivity; try (by split_and!); try apply demo_http_delivers; vm_compute; congruence.
Defined.

Lemma join_reaches_leader_witness :
  run demo_http 2 _ (Join (demo_conf "n3") "h2:17946") "h3:17946" demo_world =
    Done None (<["h1:17946" := add_voter "n3" "h3:9520" demo_n1]> demo_world).
Proof.
  apply (join_reaches_leader demo_http 0 demo_D "h1:17946" "n1" "h3:17946" demo_n3 "h2:17946" demo_n1 demo_world
    demo_agreement); [reflexivity|set_solver|done|set_solver|reflexivity|reflexivity|apply demo_http_delivers..|
    vm_compute; reflexivity|vm_compute; reflexivity].
Defined.

