(* ===== verification/Tls.v ===== *)
(** * TLS configuration

    [pkg/security/tlsconfig/tlsconfig.go]: the configurations of servers and clients and
    the certificates they reload from disk.  Certificates are an abstract type; what
    loading a key pair or reading a file gives is an argument, because it depends on the
    disk at that moment.  Times are nanoseconds. *)
From S2P Require Import Prelude.
From stdpp Require Import options.

Record Options := mkOptions {
  Enable : bool;
  CAFile : string;
  CertFile : string;
  KeyFile : string;
  InsecureSkipVerify : bool;
  ServerName : string;
}.

Section tls.
  Context {C : Type}.

(** What the code sets of a [tls.Config]: certificates, the certificate pools as the text
    they were made from, whether client certificates are required and verified, and
    whether certificates come from [GetCertificate] or [GetClientCertificate]. *)
Record tlsConfig := mkTls {
  Certificates : list C;
  ClientCAs : option bytes;
  RootCAs : option bytes;
  verifyClients : bool;
  skipVerify : bool;
  expectName : string;
  getCert : bool;
  getClientCert : bool;
}.

Section files.
  Context (ReadFile : string → gores bytes) (LoadX509KeyPair : string → string → gores C).

Definition cert_required : string := "tls: server cert/key required when TLS enabled".

Definition Server (o : Options) : gores (option tlsConfig) :=
  if negb (Enable o) then Ok None
  else if decide (CertFile o = EmptyString ∨ KeyFile o = EmptyString) then Err cert_required
  else match LoadX509KeyPair (CertFile o) (KeyFile o) with
       | Err e => Err e
       | Ok cert =>
           if decide (CAFile o = EmptyString)
           then Ok (Some (mkTls [cert] None None false false EmptyString false false))
           else match ReadFile (CAFile o) with
                | Err e => Err e
                | Ok ca => Ok (Some (mkTls [cert] (Some ca) None true false EmptyString false false))
                end
       end.

Definition Client (o : Options) : gores (option tlsConfig) :=
  if negb (Enable o) then Ok None
  else
    match (if decide (CAFile o = EmptyString) then Ok None
           else match ReadFile (CAFile o) with Err e => Err e | Ok ca => Ok (Some ca) end) with
    | Err e => Err e
    | Ok roots =>
        match (if decide (CertFile o ≠ EmptyString ∧ KeyFile o ≠ EmptyString)
               then match LoadX509KeyPair (CertFile o) (KeyFile o) with Err e => Err e | Ok c => Ok [c] end
               else Ok []) with
        | Err e => Err e
        | Ok certs => Ok (Some (mkTls certs None roots false (InsecureSkipVerify o) (ServerName o) false false))
        end
    end.

Definition ServerHotReload (o : Options) : gores (option tlsConfig) :=
  if negb (Enable o) then Ok None
  else if decide (CertFile o = EmptyString ∨ KeyFile o = EmptyString) then Err cert_required
  else if decide (CAFile o = EmptyString)
  then Ok (Some (mkTls [] None None false false EmptyString true false))
  else match ReadFile (CAFile o) with
       | Err e => Err e
       | Ok ca => Ok (Some (mkTls [] (Some ca) None true false EmptyString true false))
       end.

Definition ClientHotReload (o : Options) : gores (option tlsConfig) :=
  if negb (Enable o) then Ok None
  else if decide (CAFile o = EmptyString)
  then Ok (Some (mkTls [] None None false (InsecureSkipVerify o) (ServerName o) false true))
  else match ReadFile (CAFile o) with
       | Err e => Err e
       | Ok ca => Ok (Some (mkTls [] None (Some ca) false (InsecureSkipVerify o) (ServerName o) false true))
       end.

End files.

(** ** Reloading *)

Definition reload_ttl : Z := 10 * 10 ^ 9.

(** [cached] and [lastLoad]. *)
Definition cache : Type := option (C * Z).

(** The first critical section of [load]: a certificate loaded less than ten seconds ago. *)
Definition load_cached (now : Z) (st : cache) : option C :=
  '(c, lastLoad) ← st; if (now - lastLoad <? reload_ttl)%Z then Some c else None.

(** The second one, after the key pair was loaded outside the lock. *)
Definition load_store (now : Z) (c : C) (st : cache) : cache := Some (c, now).

(** A call of [load] by a handshake: it has to look at the cache, has released the lock and
    has to load the key pair, or has loaded it, at a time that is kept, and has to store it. *)
Inductive loadpc : Type :=
  | Asked
  | Loading
  | Loaded (read : Z) (c : C).

(** Its next critical section, or the loading between the two, at [now], when the files
    give [disk].  The [load] of a client first looks whether it has files, and without them
    returns neither a certificate nor an error; a server always has them. *)
Definition load_next (o : Options) (now : Z) (disk : gores C) (pc : loadpc) (st : cache)
    : (loadpc + gores (option C)) * cache :=
  match pc with
  | Asked =>
      if decide (CertFile o = EmptyString ∨ KeyFile o = EmptyString) then (inr (Ok None), st)
      else match load_cached now st with
           | Some c => (inr (Ok (Some c)), st)
           | None => (inl Loading, st)
           end
  | Loading => match disk with Err e => (inr (Err e), st) | Ok c => (inl (Loaded now c), st) end
  | Loaded _ c => (inr (Ok (Some c)), load_store now c st)
  end.

(** The clock, the files, the cache and the running calls.  The rest is history: what was
    read from the files and when, the loads that were stored with the times of reading and
    storing, and what the calls returned and when. *)
Record tls_sys := mkSys {
  t_now : Z;
  t_disk : gores C;
  t_cache : cache;
  t_running : list loadpc;
  t_reads : list (Z * gores C);
  t_loads : list (C * Z * Z);
  t_results : list (Z * gores (option C));
}.

Definition tls_init (now : Z) (disk : gores C) : tls_sys := mkSys now disk None [] [] [] [].

Definition read_of (pc : loadpc) (s : tls_sys) : list (Z * gores C) :=
  match pc with Loading => [(t_now s, t_disk s)] | _ => [] end.
Definition stored_of (pc : loadpc) (s : tls_sys) : list (C * Z * Z) :=
  match pc with Loaded t c => [(c, t, t_now s)] | _ => [] end.

Section concurrent.
  Context (o : Options).

(** Handshakes run at the same time, while the clock goes on and the files are replaced. *)
Inductive tls_step : tls_sys → tls_sys → Prop :=
  | ts_tick s t :
      (t_now s ≤ t)%Z →
      tls_step s (mkSys t (t_disk s) (t_cache s) (t_running s) (t_reads s) (t_loads s) (t_results s))
  | ts_rotate s disk :
      tls_step s (mkSys (t_now s) disk (t_cache s) (t_running s) (t_reads s) (t_loads s) (t_results s))
  | ts_ask s :
      tls_step s (mkSys (t_now s) (t_disk s) (t_cache s) (Asked :: t_running s) (t_reads s) (t_loads s) (t_results s))
  | ts_move s ps1 pc ps2 pc' st :
      t_running s = ps1 ++ pc :: ps2 → load_next o (t_now s) (t_disk s) pc (t_cache s) = (inl pc', st) →
      tls_step s (mkSys (t_now s) (t_disk s) st (ps1 ++ pc' :: ps2) (t_reads s ++ read_of pc s)
        (t_loads s ++ stored_of pc s) (t_results s))
  | ts_return s ps1 pc ps2 r st :
      t_running s = ps1 ++ pc :: ps2 → load_next o (t_now s) (t_disk s) pc (t_cache s) = (inr r, st) →
      tls_step s (mkSys (t_now s) (t_disk s) st (ps1 ++ ps2) (t_reads s ++ read_of pc s)
        (t_loads s ++ stored_of pc s) (t_results s ++ [(t_now s, r)])).

(** What a call that returned [r] at [t] may rely on. *)
Definition result_ok (s : tls_sys) (t : Z) (r : gores (option C)) : Prop :=
  match r with
  | Ok (Some c) => ∃ tr ts, (tr, Ok c) ∈ t_reads s ∧ (c, tr, ts) ∈ t_loads s ∧
      (tr ≤ ts ≤ t)%Z ∧ (t - ts < 10000000000)%Z
  | Ok None => CertFile o = EmptyString ∨ KeyFile o = EmptyString
  | Err e => (t, Err e) ∈ t_reads s
  end.

Record tls_inv (s : tls_sys) : Prop := {
  tv_loaded : ∀ t c, Loaded t c ∈ t_running s → (t, Ok c) ∈ t_reads s ∧ (t ≤ t_now s)%Z;
  tv_loads : ∀ c tr ts, (c, tr, ts) ∈ t_loads s → (tr, Ok c) ∈ t_reads s ∧ (tr ≤ ts ≤ t_now s)%Z;
  tv_cache : ∀ c ts, t_cache s = Some (c, ts) → ∃ tr, (c, tr, ts) ∈ t_loads s;
  tv_results : ∀ t r, (t, r) ∈ t_results s → result_ok s t r;
}.

(** History only grows. *)
Lemma result_ok_mono s s' t r :
  t_reads s ⊆ t_reads s' → t_loads s ⊆ t_loads s' → result_ok s t r → result_ok s' t r.
Proof.
  intros Hr Hl. destruct r as [[c|]|e]; cbn; [|done|apply Hr].
  intros (tr & ts & H1 & H2 & H3). exists tr, ts. auto.
Qed.

(** A step of a running call: its new state, or its result. *)
Lemma load_next_ok s ps1 pc ps2 x st ps' res :
  tls_inv s → t_running s = ps1 ++ pc :: ps2 →
  load_next o (t_now s) (t_disk s) pc (t_cache s) = (x, st) →
  (∀ pc', pc' ∈ ps' → pc' ∈ ps1 ++ ps2 ∨ x = inl pc') →
  (∀ t r, (t, r) ∈ res → (t, r) ∈ t_results s ∨ t = t_now s ∧ x = inr r) →
  tls_inv (mkSys (t_now s) (t_disk s) st ps' (t_reads s ++ read_of pc s) (t_loads s ++ stored_of pc s) res).
Proof.
  intros [H1 H2 H3 H4] E En Hps Hres.
  assert (∀ t c, pc = Loaded t c → (t, Ok c) ∈ t_reads s ∧ (t ≤ t_now s)%Z) as Hpc.
  { intros t c ->. apply H1. rewrite E. set_solver. }
  split; cbn [t_now t_disk t_cache t_running t_reads t_loads t_results].
  - intros t c Hin. apply Hps in Hin as [Hin|Hin].
    + destruct (H1 t c) as [? ?]; [rewrite E; set_solver|]. split; [set_solver|done].
    + subst x. destruct pc; cbn in En; [repeat case_match; simplify_eq| |simplify_eq].
      destruct (t_disk s) eqn:Ed; simplify_eq. cbn. rewrite Ed. set_solver.
  - intros c tr ts [Hin|Hin]%elem_of_app; [destruct (H2 _ _ _ Hin); split; [set_solver|done]|].
    destruct pc as [| |t c']; cbn in Hin; [by apply elem_of_nil in Hin..|].
    apply list_elem_of_singleton in Hin as [= -> -> ->]. destruct (Hpc t c' eq_refl). split; [set_solver|lia].
  - intros c ts ->. destruct pc as [| |t c']; cbn in En.
    + destruct (H3 c ts) as [tr ?]; [by repeat case_match; simplify_eq|]. exists tr. set_solver.
    + destruct (H3 c ts) as [tr ?]; [by destruct (t_disk s); simplify_eq|]. exists tr. set_solver.
    + unfold load_store in En. simplify_eq. exists t. set_solver.
  - intros t r [Hr|[-> ->]]%Hres; [eapply result_ok_mono; [..|by apply H4]; cbn; set_solver|].
    destruct pc as [| |t c]; cbn in En.
    + case_decide; [by simplify_eq|]. unfold load_cached in En.
      destruct (t_cache s) as [[c ts]|] eqn:Ec; cbn in En; [|done].
      destruct (Z.ltb_spec (t_now s - ts) reload_ttl) as [Hlt|]; simplify_eq.
      destruct (H3 c ts eq_refl) as [tr Hl]. destruct (H2 _ _ _ Hl). exists tr, ts.
      split_and!; [set_solver..|lia|lia|unfold reload_ttl in Hlt; lia].
    + destruct (t_disk s) as [|e] eqn:Ed; simplify_eq. cbn. rewrite Ed. set_solver.
    + simplify_eq. destruct (Hpc t c eq_refl). exists t, (t_now s). cbn. split_and!; [set_solver..|lia|lia|lia].
Qed.

Lemma tls_inv_step s s' : tls_inv s → tls_step s s' → tls_inv s'.
Proof.
  intros Hi Hs.
  destruct Hs as [s t Ht|s disk|s|s ps1 pc ps2 pc' st E En|s ps1 pc ps2 r st E En].
  - destruct Hi as [H1 H2 H3 H4]. split; cbn; try done.
    + intros t' c Hl. destruct (H1 t' c Hl). split; [done|lia].
    + intros c tr ts Hl. destruct (H2 c tr ts Hl). split; [done|lia].
  - by destruct Hi as [H1 H2 H3 H4].
  - destruct Hi as [H1 H2 H3 H4]. split; cbn; try done.
    intros t c [?|?]%elem_of_cons; [done|by apply H1].
  - eapply load_next_ok; [done..|set_solver|]. intros t x Hx. by left.
  - eapply load_next_ok; [done|done|done|by left|].
    intros t x [?|[= -> ->]%list_elem_of_singleton]%elem_of_app; auto.
Qed.

(** C35. Rotation takes effect, however many handshakes load at the same time: every
    certificate presented was read from the files by a call that stored it less than ten
    seconds before, or stores it now; a call fails only with the error that loading the
    files gave it, and returns nothing only when no files are configured. *)
Theorem reload_fresh now disk s t r :
  rtc tls_step (tls_init now disk) s → (t, r) ∈ t_results s →
  match r with
  | Ok (Some c) => ∃ tr ts, (tr, Ok c) ∈ t_reads s ∧ (c, tr, ts) ∈ t_loads s ∧
      (tr ≤ ts ≤ t)%Z ∧ (t - ts < 10000000000)%Z
  | Ok None => CertFile o = EmptyString ∨ KeyFile o = EmptyString
  | Err e => (t, Err e) ∈ t_reads s
  end.
Proof.
  intros Hs. assert (tls_inv s) as Hi; [|apply (tv_results s Hi)].
  revert Hs. apply rtc_ind_r; [|intros s1 s2 _ H12 Hi; by eapply tls_inv_step].
  split; cbn; [by intros ?? ?%elem_of_nil|by intros ??? ?%elem_of_nil|done|by intros ?? ?%elem_of_nil].
Qed.

End concurrent.
End tls.
Arguments tlsConfig : clear implicits.
Arguments tls_sys : clear implicits.
Arguments loadpc : clear implicits.

(** ** Examples *)

Definition server_files : Options := mkOptions true EmptyString "crt.pem" "key.pem" false EmptyString.

(** Two handshakes that load at the same time may store in the other order: a certificate
    that was replaced on the disk is presented again after the new one was. *)
Lemma reload_can_go_back :
  ∃ s, rtc (tls_step server_files) (tls_init 0 (Ok "old")) s ∧ t_disk s = Ok "new" ∧
    t_results s = [(3, Ok (Some "new")); (4, Ok (Some "old")); (5, Ok (Some "old"))]%Z.
Proof.
  eexists. split.
  - eapply rtc_l; [apply ts_ask|]. cbn. eapply rtc_l; [apply ts_ask|]. cbn.
    eapply rtc_l; [eapply (ts_move _ _ [] _ [_]); reflexivity|]. cbn.
    eapply rtc_l; [eapply (ts_move _ _ [] _ [_]); reflexivity|]. cbn.
    eapply rtc_l; [apply (ts_rotate _ _ (Ok "new"))|]. cbn.
    eapply rtc_l; [eapply (ts_move _ _ [_] _ []); reflexivity|]. cbn.
    eapply rtc_l; [eapply (ts_move _ _ [_] _ []); reflexivity|]. cbn.
    eapply rtc_l; [apply (ts_tick _ _ 3); cbn; lia|]. cbn.
    eapply rtc_l; [eapply (ts_return _ _ [_] _ []); reflexivity|]. cbn.
    eapply rtc_l; [apply (ts_tick _ _ 4); cbn; lia|]. cbn.
    eapply rtc_l; [eapply (ts_return _ _ [] _ []); reflexivity|]. cbn.
    eapply rtc_l; [apply ts_ask|]. cbn.
    eapply rtc_l; [apply (ts_tick _ _ 5); cbn; lia|]. cbn.
    eapply rtc_l; [eapply (ts_return _ _ [] _ []); reflexivity|]. cbn.
    apply rtc_refl.
  - split; reflexivity.
Qed.

(** A client without certificate files returns neither a certificate nor an error. *)
Example client_load_nil {C} now (disk : gores C) st :
  load_next (mkOptions true "ca.pem" EmptyString EmptyString false EmptyString) now disk Asked st = (inr (Ok None), st).
Proof. done. Qed.

Lemma reload_fresh_witness :
  ∃ (s : tls_sys string) tr ts, t_results s !! 2 = Some (5%Z, Ok (Some "old")) ∧
    (tr, Ok "old") ∈ t_reads s ∧ ("old", tr, ts) ∈ t_loads s ∧ (tr ≤ ts ≤ 5)%Z ∧ (5 - ts < 10000000000)%Z.
Proof.
  destruct reload_can_go_back as (s & Hs & _ & Hr). exists s.
  destruct (reload_fresh server_files 0 (Ok "old") s 5 (Ok (Some "old")) Hs) as (tr & ts & H); [rewrite Hr; set_solver|].
  exists tr, ts. rewrite Hr. split; [reflexivity|exact H].
Defined.
