(* ===== verification/Bootstrap.v ===== *)
(** * Assembling a node

    [pkg/bootstrap/bootstrap.go]: [Build] makes the components from a configuration and
    gives them to the facade.  The instances of the Raft and gossip libraries are not
    started here, so their types are parameters. *)
From S2P Require Import Prelude GoStrings Utf8 Json Types JsonCodec Effects Cluster Network.
From S2P Require Import Discovery RaftNode Gossip Tls.
From stdpp Require Import options.

Record Config := mkConfig {
  cfg_NodeID : string;
  cfg_RaftAddr : string;
  cfg_MemBind : string;
  cfg_MemAdv : string;
  cfg_MgmtAddr : string;
  cfg_MgmtProto : string;
  cfg_DiscoveryKind : string;
  cfg_SeedsCSV : string;
  cfg_DNSNamesCSV : string;
  cfg_DNSPort : Z;
  cfg_DiscRefresh : Z;
  cfg_FilePath : string;
  cfg_FileEnv : string;
  cfg_DataDir : string;
  cfg_Bootstrap : bool;
  cfg_TLS : Tls.Options;       (** [TLSEnable], [TLSCA], [TLSCert], ... *)
  cfg_AppHandlers : bool;
  cfg_ReplWindow : Z;
  cfg_ReplBufferDir : string;
  cfg_OnLeaderChange : bool;
  cfg_OnElectionStart : bool;
  cfg_OnElectionEnd : bool;
}.

Inductive discoverySource : Type :=
  | FromStatic (seeds : list string)
  | FromDNS (d : Dns.impl)
  | FromFile (d : File.impl).

Definition discovery_of (c : Config) : discoverySource :=
  let refresh := if (0 <? cfg_DiscRefresh c)%Z then cfg_DiscRefresh c else 0%Z in
  if decide (cfg_DiscoveryKind c = "dns") then
    FromDNS (Dns.New (Dns.mkOptions (Static.Parse (cfg_DNSNamesCSV c)) (cfg_DNSPort c) refresh))
  else if decide (cfg_DiscoveryKind c = "file") then
    FromFile (File.New (File.mkOptions (cfg_FilePath c) (cfg_FileEnv c) refresh))
  else FromStatic (Static.New (Static.Parse (cfg_SeedsCSV c))).

Definition raft_options (c : Config) : RaftNode.Options :=
  RaftNode.mkOptions (cfg_NodeID c) (cfg_Bootstrap c) 0 0 0 0 (cfg_RaftAddr c) (cfg_DataDir c) 0.

(** The metadata that is gossiped: the management address when there is one. *)
Definition mem_meta (c : Config) : gmap string string :=
  if decide (cfg_MgmtAddr c = EmptyString) then ∅ else {["mgmt" := cfg_MgmtAddr c]}.

Definition mem_options (c : Config) : Gossip.Options :=
  Gossip.mkOptions (cfg_NodeID c) (cfg_MemBind c) (cfg_MemAdv c) (Some (mem_meta c)) 0 0 0.

Definition uses_grpc (c : Config) : bool := bool_decide (cfg_MgmtProto c = "grpc").

(** The options of the facade: the Raft node can change the configuration and notifies of
    leaders; only the gRPC server acknowledges and broadcasts, and only its client
    subscribes. *)
Definition cluster_options (c : Config) : Cluster.Options :=
  Cluster.mkOptions (cfg_NodeID c) true true true true true true true
    true (uses_grpc c) (uses_grpc c) true (uses_grpc c)
    (cfg_AppHandlers c) (cfg_ReplWindow c) (cfg_ReplBufferDir c)
    (cfg_OnLeaderChange c) (cfg_OnElectionStart c) (cfg_OnElectionEnd c).

(** [pkg/transport/udp]: a transport that carries its address and opens no socket. *)
Module Udp.
Record impl := mkImpl { addr : string }.
Definition Addr (i : impl) : string := addr i.
Definition New (a : string) : gores impl := Ok (mkImpl a).
End Udp.

Record built (R M C : Type) := mkBuilt {
  b_transport : Udp.impl;
  b_disc : discoverySource;
  b_cons : RaftNode.Node (R := R);
  b_mem : Gossip.impl M;
  b_mgmtBind : string;
  b_srvTLS : option (tlsConfig C);
  b_cliTLS : option (tlsConfig C);
  b_cluster : Cluster.Cluster;
}.
Arguments mkBuilt {R M C}.
Arguments b_transport {R M C}.
Arguments b_disc {R M C}.
Arguments b_cons {R M C}.
Arguments b_mem {R M C}.
Arguments b_mgmtBind {R M C}.
Arguments b_srvTLS {R M C}.
Arguments b_cliTLS {R M C}.
Arguments b_cluster {R M C}.

Section build.
  Context {R M C : Type} (ReadFile : string → gores bytes).

Definition tls_of (c : Config) : gores (option (tlsConfig C) * option (tlsConfig C)) :=
  if Tls.Enable (cfg_TLS c) then
    match Tls.ServerHotReload ReadFile (cfg_TLS c) with
    | Err e => Err e
    | Ok s => match Tls.ClientHotReload ReadFile (cfg_TLS c) with
              | Err e => Err e
              | Ok cl => Ok (s, cl)
              end
    end
  else Ok (None, None).

Definition Build (c : Config) : gores (built R M C) :=
  tr ← Udp.New (cfg_RaftAddr c);
  node ← RaftNode.New (raft_options c);
  mem ← Gossip.New (mem_options c);
  '(s, cl) ← tls_of c;
  k ← Cluster.New (cluster_options c);
  Ok (mkBuilt tr (discovery_of c) node mem (cfg_MgmtAddr c) s cl k).

(** [Run]: build and start; a node that did not start is dropped as it is. *)
Definition Run (c : Config) : prog (gores Cluster.Cluster) :=
  match Build c with
  | Err e => Ret (Err e)
  | Ok b =>
      r ← Cluster.Start (b_cluster b);
      match r with
      | (Some e, _) => Ret (Err e)
      | (None, k) => Ret (Ok k)
      end
  end.

(** ** Theorems *)

(** What the TLS files must be for [Build]. *)
Definition tls_files_ok (o : Tls.Options) : Prop :=
  CertFile o ≠ EmptyString ∧ KeyFile o ≠ EmptyString ∧
  (CAFile o ≠ EmptyString → ∃ ca, ReadFile (CAFile o) = Ok ca).

Lemma tls_of_ok c s cl :
  tls_of c = Ok (s, cl) →
  if Tls.Enable (cfg_TLS c) then
    tls_files_ok (cfg_TLS c) ∧
    ∃ sc cc, s = Some sc ∧ cl = Some cc ∧ getCert sc = true ∧ getClientCert cc = true ∧
      (verifyClients sc = true ↔ CAFile (cfg_TLS c) ≠ EmptyString)
  else s = None ∧ cl = None.
Proof.
  unfold tls_of, ServerHotReload, ClientHotReload, tls_files_ok.
  destruct (Tls.Enable (cfg_TLS c)); cbn [negb]; [|by intros [= <- <-]].
  case_decide as Hf; [done|]. case_decide as Hc.
  - intros [= <- <-]. split; [naive_solver|]. eexists _, _. naive_solver.
  - destruct (ReadFile (CAFile (cfg_TLS c))) as [ca|]; [|done]. intros [= <- <-].
    split; [naive_solver|]. eexists _, _. naive_solver.
Qed.

Lemma tls_of_total c :
  (Tls.Enable (cfg_TLS c) = true → tls_files_ok (cfg_TLS c)) → ∃ p, tls_of c = Ok p.
Proof.
  unfold tls_of, ServerHotReload, ClientHotReload, tls_files_ok.
  destruct (Tls.Enable (cfg_TLS c)); cbn [negb]; [|by eexists].
  intros (Hc & Hk & Ha); [done|]. rewrite decide_False by naive_solver.
  case_decide; [by eexists|]. destruct Ha as [ca ->]; [done|]. by eexists.
Qed.

(** [Build] succeeds exactly for the configurations with an identifier, a gossip address
    and, when TLS is enabled, certificate and key files and a readable CA file if one is
    named. *)
Theorem build_succeeds_iff c :
  (∃ b, Build c = Ok b) ↔
  cfg_NodeID c ≠ EmptyString ∧ cfg_MemBind c ≠ EmptyString ∧
  (Tls.Enable (cfg_TLS c) = true → tls_files_ok (cfg_TLS c)).
Proof.
  unfold Build, RaftNode.New, Gossip.New, Cluster.New, Validate. cbn [RaftNode.NodeID raft_options
    Gossip.NodeID mem_options Bind Cluster.NodeID cluster_options has_transport has_discovery has_logger
    has_mem negb]. split.
  - intros [b Hb]. repeat case_decide; try done. split_and!; [done..|]. intros Ht.
    destruct (tls_of c) as [[s cl]|] eqn:E; [|done]. apply tls_of_ok in E. rewrite Ht in E. by destruct E.
  - intros (Hn & Hm & Ht). rewrite !decide_False by done.
    destruct (tls_of_total c Ht) as [[s cl] ->]. by eexists.
Qed.

(** A node that [Build] returns is coherent: gossip, Raft and facade carry the same
    identifier; every component the facade can use is there; both ends of the management
    transport use TLS with reloaded certificates when it is enabled and neither does
    otherwise; clients are verified exactly when a CA is configured; and acknowledgements,
    broadcasts and subscriptions exist exactly with gRPC. *)
Theorem built_node_coherent c b :
  Build c = Ok b →
  let o := Cluster.opts (b_cluster b) in
  Udp.Addr (b_transport b) = RaftNode.BindAddr (RaftNode.opts (b_cons b)) ∧
  RaftNode.NodeID (RaftNode.opts (b_cons b)) = Cluster.NodeID o ∧
  Gossip.NodeID (Gossip.opts (b_mem b)) = Cluster.NodeID o ∧
  (cfg_AppHandlers c = true → conf_ok o) ∧
  (if Tls.Enable (cfg_TLS c) then
     ∃ sc cc, b_srvTLS b = Some sc ∧ b_cliTLS b = Some cc ∧ getCert sc = true ∧ getClientCert cc = true ∧
       (verifyClients sc = true ↔ CAFile (cfg_TLS c) ≠ EmptyString)
   else b_srvTLS b = None ∧ b_cliTLS b = None) ∧
  rpcS_acks o = uses_grpc c ∧ rpcS_broadcast o = uses_grpc c ∧ rpcC_subscribe o = uses_grpc c.
Proof.
  unfold Build. intros Hb.
  destruct (RaftNode.New (raft_options c)) as [node|] eqn:En; [|done].
  destruct (Gossip.New (mem_options c)) as [mem|] eqn:Em; [|done].
  destruct (tls_of c) as [[s cl]|] eqn:Et; [|done].
  destruct (Cluster.New (cluster_options c)) as [k|] eqn:Ek; [|done]. simplify_eq. cbn.
  unfold RaftNode.New in En. unfold Gossip.New in Em. unfold Cluster.New in Ek.
  destruct (Validate (cluster_options c)); [done|]. repeat case_decide; simplify_eq/=.
  split_and!; [done..| |done|done|done].
  apply tls_of_ok in Et. destruct (Tls.Enable (cfg_TLS c)); [by destruct Et|done].
Qed.

(** C33. The management address a node is configured with is the one its peers use: every
    node whose gossip view holds the announcement of a built node resolves its identifier
    to [MgmtAddr], when that is set, valid UTF-8 and short enough for the gossip. *)
Theorem built_node_resolved c b limit n before after :
  Build c = Ok b → announced (Gossip.opts (b_mem b)) limit n →
  cfg_MgmtAddr c ≠ EmptyString → utf8_valid (cfg_MgmtAddr c) = true →
  (Z.of_nat (String.length (Marshal map_codec (Some (mem_meta c)))) ≤ limit)%Z →
  (∀ m, m ∈ before → n_name m ≠ cfg_NodeID c) →
  find_member (cfg_NodeID c) (map member_of (before ++ n :: after)) = cfg_MgmtAddr c.
Proof.
  unfold Build. intros Hb Ha Hm Hu Hl Hne.
  destruct (RaftNode.New (raft_options c)) as [node|]; [|done].
  destruct (Gossip.New (mem_options c)) as [mem|] eqn:Em; [|done].
  destruct (tls_of c) as [[s cl]|]; [|done].
  destruct (Cluster.New (cluster_options c)) as [k|]; [|done]. simplify_eq/=.
  unfold Gossip.New in Em. repeat case_decide; simplify_eq. cbn [b_mem Gossip.opts] in Ha.
  pose proof (announced_lookup (mem_options c) limit n before after Ha) as Hf.
  cbn [Gossip.Meta mem_options Gossip.NodeID] in Hf. rewrite Hf; [|clear Hf|done|done].
  - assert (mem_meta c = {["mgmt" := cfg_MgmtAddr c]}) as -> by (unfold mem_meta; by rewrite decide_False).
    cbn [mbind option_bind]. rewrite lookup_singleton_eq. cbn [default from_option id]. by rewrite decide_False.
  - cbn [map_wf]. apply bool_decide_eq_true. unfold mem_meta. rewrite decide_False by done.
    by apply map_Forall_singleton.
Qed.

End build.

(** ** Witnesses *)

Definition demo_config : Config :=
  mkConfig "n1" "127.0.0.1:9521" "127.0.0.1:7946" EmptyString "127.0.0.1:17946" "grpc" "static"
    "127.0.0.1:7946" EmptyString 0 0 EmptyString EmptyString EmptyString true
    (Tls.mkOptions true "ca.pem" "cert.pem" "key.pem" false EmptyString) true 0 EmptyString false false false.

Definition demo_read (path : string) : gores bytes := Ok "pem".

Definition demo_built : built nat nat nat :=
  match Build demo_read demo_config with
  | Ok b => b
  | Err _ => mkBuilt (Udp.mkImpl EmptyString) (FromStatic []) (RaftNode.mkNode (raft_options demo_config) None [])
               (Gossip.mkImpl (mem_options demo_config) None [] false false) EmptyString None None
               (Cluster.mkCluster (cluster_options demo_config) false false false false)
  end.

Lemma built_node_coherent_witness : conf_ok (Cluster.opts (b_cluster demo_built)).
Proof.
  apply (built_node_coherent demo_read demo_config demo_built); reflexivity.
Defined.

Definition demo_peer : mlNode :=
  mkMlNode "n1" "127.0.0.1" 7946 (NodeMeta (Marshal map_codec (Some (mem_meta demo_config))) 512).

Lemma built_node_resolved_witness : find_member "n1" (map member_of [demo_peer]) = "127.0.0.1:17946".
Proof.
  apply (built_node_resolved demo_read demo_config demo_built 512 demo_peer [] []);
    [reflexivity|done|done|reflexivity|vm_compute; discriminate|].
  intros m Hm. by apply elem_of_nil in Hm.
Defined.
