(* ===== verification/Convergence.v ===== *)
(** * Convergence of the replicated membership

    The path of a membership change through the whole system: gossip reports an event, the
    facade of the node that is leader writes an entry ([membershipEventsLoop],
    [reconcileMembersLoop], [handleLeave] in [cluster.go]), the Raft library commits it, and
    the state machine of every replica applies it ([fsm.go], [state.go]), from the log or
    from a snapshot.  All goroutines of all nodes interleave call by call. *)
From S2P Require Import Prelude GoStrings Metrics Utf8 Json Types JsonCodec MemberState.
From S2P Require Import Replication Effects Cluster ClusterSpec.
From stdpp Require Import options.

(** ** What a node writes to the log *)

Definition add_command (mi : MemberInfo) : Command :=
  mkCommand "AddNode" (Some (Marshal MemberInfo_codec mi)).
Definition remove_command (id : string) : Command :=
  mkCommand "RemoveNode" (Some (Marshal RemoveReq_codec id)).

(** What a goroutine was told: the members that are up, the identifiers that left. *)
Record told := mkTold { t_up : list MemberInfo; t_gone : list string }.

Definition told_none : told := mkTold [] [].
Definition told_app (w1 w2 : told) : told := mkTold (t_up w1 ++ t_up w2) (t_gone w1 ++ t_gone w2).
Definition told_sub (w1 w2 : told) : Prop := t_up w1 ⊆ t_up w2 ∧ t_gone w1 ⊆ t_gone w2.

Definition command_told (w : told) (cmd : Command) : Prop :=
  (∃ mi, mi ∈ t_up w ∧ cmd = add_command mi) ∨ (∃ id, id ∈ t_gone w ∧ cmd = remove_command id).

(** A log entry repeats what the goroutine was told. *)
Definition apply_told (X : Type) (c : call X) (w : told) : Prop :=
  match c with CApply cmd => command_told w cmd | _ => True end.

(** What an answer tells. *)
Definition tells {X} (c : call X) : X → told :=
  match c in call X return X → told with
  | CMembers => λ ms, mkTold (default [] ms) []
  | _ => λ _, told_none
  end.

Definition hears {X} (c : call X) (x : X) (w : told) : told := told_app w (tells c x).

(** [speaks w p]: along every execution of [p], started knowing [w], entries repeat what
    was heard. *)
Definition speaks {A} (w : told) (p : prog A) (Q : A → told → Prop) : Prop :=
  obeys apply_told (λ X, hears (X:=X)) w p Q.

Lemma told_sub_refl w : told_sub w w.
Proof. by split. Qed.

Lemma told_sub_trans w1 w2 w3 : told_sub w1 w2 → told_sub w2 w3 → told_sub w1 w3.
Proof. intros [? ?] [? ?]. split; set_solver. Qed.

Lemma told_sub_l w1 w2 : told_sub w1 (told_app w1 w2).
Proof. split; cbn; set_solver. Qed.

Lemma told_sub_r w1 w2 : told_sub w2 (told_app w1 w2).
Proof. split; cbn; set_solver. Qed.

Lemma told_app_mono w1 w2 w : told_sub w1 w2 → told_sub (told_app w1 w) (told_app w2 w).
Proof. intros [? ?]. split; cbn; set_solver. Qed.

Lemma command_told_mono w1 w2 cmd : told_sub w1 w2 → command_told w1 cmd → command_told w2 cmd.
Proof. intros [Hu Hg] [(mi & ? & ?)|(id & ? & ?)]; [left; exists mi|right; exists id]; set_solver. Qed.

Create HintDb told.
#[export] Hint Resolve told_sub_refl told_sub_l told_sub_r : told.

(** A program that writes no entry. *)
Definition is_apply X (c : call X) : bool := match c with CApply _ => true | _ => false end.

Lemma silent_rounds o topic n : avoids is_apply (publish_rounds o topic n).
Proof.
  induction n as [|n IH]; cbn [publish_rounds]; [done|]. destruct (rpcS_acks o); avoid; apply IH.
Qed.

Lemma silent_speaks {A} w (p : prog A) : avoids is_apply p → speaks w p (λ _ _, True).
Proof. apply avoids_obeys. by intros X []. Qed.

Lemma speaks_bind {A B} w (p : prog A) (f : A → prog B) Q :
  speaks w p (λ a w', speaks w' (f a) Q) → speaks w (p ≫= f) Q.
Proof. apply obeys_bind. Qed.

Lemma speaks_isLeader o w : speaks w (isLeader o) (λ _ w', told_sub w w').
Proof. unfold isLeader. case_match; cbn; [|by split]. split; [done|]. intros b. apply told_sub_l. Qed.

(** The two programs that write an entry. *)
Lemma speaks_applyAddNode o mi w :
  mi ∈ t_up w → speaks w (applyAddNode o mi) (λ _ w', told_sub w w').
Proof.
  intros Hm. apply speaks_bind. eapply obeys_mono; [|apply speaks_isLeader].
  intros [] w' Hs; [|done]. split; [|intros x; cbn].
  - left. exists mi. split; [by apply Hs|done].
  - eapply told_sub_trans; [exact Hs|apply told_sub_l].
Qed.

Lemma speaks_applyRemoveNode o id w :
  id ∈ t_gone w → speaks w (applyRemoveNode o id) (λ _ w', told_sub w w').
Proof.
  intros Hm. apply speaks_bind. eapply obeys_mono; [|apply speaks_isLeader].
  intros [] w' Hs; [|done]. split; [|intros x; cbn].
  - right. exists id. split; [by apply Hs|done].
  - eapply told_sub_trans; [exact Hs|apply told_sub_l].
Qed.

Lemma speaks_removeServer o id w : speaks w (removeServer o id) (λ _ w', told_sub w w').
Proof.
  apply speaks_bind. eapply obeys_mono; [|apply speaks_isLeader]. intros [] w' Hs; [|done].
  destruct (cons_reconfigurer o); [|done]. split; [done|].
  intros [e|]; (split; [done|]); intros []; cbn;
    (eapply told_sub_trans; [exact Hs|]; eapply told_sub_trans; apply told_sub_l).
Qed.

(** ** Tasks *)

(** What a goroutine of a node runs: a method of [Cluster], a handler of its server, or a
    round of one of its loops. *)
Inductive task : Type :=
  | TStart | TStop | TJoin (seed : string) | TStatus | TStatusLocalJSON
  | THandleJoin (req : JoinRequest) | THandleLeave (req : LeaveRequest)
  | TAppWrite (op : string) (data : option bytes) | THandleAppWrite (req : AppWriteRequest)
  | TPublish (topic : string) (data : option bytes) (rounds : nat)
  | THandleAppSync (req : AppSyncRequest)
  | TSubscribe | TRetry | TEvent (e : MemEvent) | TReconcile
  | TLeader (li : LeaderInfo) | TElection.

Definition task_out (t : task) : Set :=
  match t with
  | TStart | TStop => option string * Cluster
  | TJoin _ => option string
  | TStatus => ClusterStatus
  | TStatusLocalJSON => bytes
  | THandleJoin _ => JoinResponse
  | THandleLeave _ => LeaveResponse
  | TAppWrite _ _ => gores (option bytes)
  | THandleAppWrite _ => AppWriteResponse
  | TPublish _ _ _ => option (option string)
  | THandleAppSync _ => AppSyncResponse
  | TSubscribe => bool
  | TRetry | TEvent _ | TReconcile => unit
  | TLeader _ | TElection => Cluster
  end.

Definition task_prog (c : Cluster) (t : task) : prog (task_out t) :=
  match t return prog (task_out t) with
  | TStart => Start c
  | TStop => Stop c
  | TJoin seed => Join (opts c) seed
  | TStatus => Status (opts c)
  | TStatusLocalJSON => statusLocalJSON (opts c)
  | THandleJoin req => handleJoin (opts c) req
  | THandleLeave req => handleLeave (opts c) req
  | TAppWrite op data => AppWrite (opts c) op data
  | THandleAppWrite req => handleAppWrite (opts c) req
  | TPublish topic data n => Publish (opts c) topic data n
  | THandleAppSync req => handleAppSync (opts c) req
  | TSubscribe => subscribe_round (opts c)
  | TRetry => retry_tick (opts c)
  | TEvent e => membership_event (opts c) e
  | TReconcile => reconcileMembers (opts c)
  | TLeader li => leader_observed c li
  | TElection => election_tick c
  end.

(** What a task is told when it starts: the member of an event, the identifier of a
    request to leave. *)
Definition task_told (t : task) : told :=
  match t with
  | TEvent e => match me_type e with
                | EventJoin => mkTold [me_member e] []
                | EventLeave | EventFailed => mkTold [] [ID (me_member e)]
                end
  | THandleLeave req => mkTold [] [lr_id req]
  | _ => told_none
  end.

Lemma task_entry_point c t : entry_point c (task_prog c t).
Proof. destruct t; constructor. Qed.

Lemma speaks_event o e :
  speaks (task_told (TEvent e)) (membership_event o e) (λ _ _, True).
Proof.
  assert (∀ w, speaks w (if has_mem o then ms ← ask CMembers;
      do! CMetricSet ClusterMembers [] (Z.of_nat (length (default [] ms))); Ret () else Ret ()) (λ _ _, True))
    as Hg by (intros w; destruct (has_mem o); cbn; done).
  apply speaks_bind. eapply obeys_mono; [|apply speaks_isLeader]. intros [] w' Hs; [|done].
  cbv zeta. apply speaks_bind. eapply obeys_mono with (Q := λ _ _, True).
  { intros [] w1 _. apply speaks_bind. eapply obeys_mono; [|apply Hg]. intros [] w2 _. done. }
  unfold task_told in Hs. destruct (me_type e).
  - eapply obeys_mono; [|apply speaks_applyAddNode; apply Hs; set_solver]. done.
  - apply speaks_bind. eapply obeys_mono; [|apply speaks_removeServer]. intros [] w2 Hs2.
    eapply obeys_mono; [|apply speaks_applyRemoveNode; apply Hs2, Hs; set_solver]. done.
  - apply speaks_bind. eapply obeys_mono; [|apply speaks_removeServer]. intros [] w2 Hs2.
    eapply obeys_mono; [|apply speaks_applyRemoveNode; apply Hs2, Hs; set_solver]. done.
Qed.

Lemma speaks_handleLeave o req :
  speaks (task_told (THandleLeave req)) (handleLeave o req) (λ _ _, True).
Proof.
  split; [done|]. intros []. apply speaks_bind, speaks_bind.
  eapply obeys_mono; [|apply speaks_isLeader]. intros [] w' Hs; [|by cbn].
  apply speaks_bind. eapply obeys_mono; [|apply speaks_removeServer]. intros [] w2 Hs2.
  apply speaks_bind. eapply obeys_mono; [by cbn|]. apply speaks_applyRemoveNode, Hs2, Hs, told_sub_l.
  cbn. set_solver.
Qed.

Lemma speaks_reconcile o w : speaks w (reconcileMembers o) (λ _ _, True).
Proof.
  apply speaks_bind. eapply obeys_mono; [|apply speaks_isLeader]. intros [] w' _; [|done].
  destruct (has_mem o); [|done]. split; [done|]. intros ms. cbn [prog_bind].
  set (w2 := hears CMembers ms w'). eapply obeys_mono; [|apply (obeys_each _ _ _ _ _ (told_sub w2))];
    [done| |apply told_sub_refl]. intros mi w3 Hmi Hs.
  eapply obeys_mono; [|apply speaks_applyAddNode; apply Hs; cbn; set_solver].
  intros [] w4 Hs4. by eapply told_sub_trans.
Qed.

Lemma speaks_task c t : speaks (task_told t) (task_prog c t) (λ _ _, True).
Proof.
  destruct t; try apply speaks_event; try apply speaks_handleLeave; try apply speaks_reconcile;
    apply silent_speaks; cbn [task_prog];
    unfold Start, start_buffer, or_else, start_mem, start_cons, start_rpcS, Stop, Join, join_at,
      statusLocalJSON, Status, status_local, handleJoin, AppWrite,
      leader_by_status, handleAppWrite, Publish, fan_out, handleAppSync, subscribe_round, retry_tick,
      leader_observed, election_tick, isLeader; avoid;
    unfold leaderMgmt, lookupMemberAddr; avoid; apply silent_rounds.
Qed.

(** ** The system *)

(** A goroutine: what is left of its program and what it has heard. *)
Record thread := mkThread { th_out : Type; th_prog : prog th_out; th_told : told }.

(** A replica: how many entries of the log it has applied, and its state. *)
Record replica := mkReplica { applied : nat; rstate : State.State }.

(** The committed log, the commands whose [Apply] returned an error and which may still be
    committed (a timeout does not withdraw them), the goroutines of all nodes, the
    replicas by node, the stored snapshots with their index, and, for the statements,
    all that any goroutine was ever told. *)
Record sys := mkSys {
  log : list bytes;
  pending : list bytes;
  threads : list thread;
  replicas : gmap string replica;
  snaps : list (nat * bytes);
  reported : told;
}.

Definition sys_init : sys := mkSys [] [] [] ∅ [] told_none.

(** What a call does to the log and to the commands in doubt. *)
Definition commit_call_effect {X} (c : call X) : X → list bytes * list bytes → list bytes * list bytes :=
  match c in call X return X → _ → _ with
  | CApply cmd => λ e lp,
      match e with
      | None => (lp.1 ++ [Marshal Command_codec cmd], lp.2)
      | Some _ => (lp.1, lp.2 ++ [Marshal Command_codec cmd])
      end
  | _ => λ _ lp, lp
  end.

Definition new_replica : replica := mkReplica 0 State.New.

Definition apply_entry (data : bytes) (r : replica) : replica :=
  mkReplica (S (applied r)) (fsm_Apply data (rstate r)).1.

Definition install (n : nat) (blob : bytes) (r : replica) : replica :=
  mkReplica n (fsm_Restore (Ok blob) (rstate r)).1.

Definition set_replica (id : string) (r : replica) (s : sys) : sys :=
  mkSys (log s) (pending s) (threads s) (<[id := r]> (replicas s)) (snaps s) (reported s).

Inductive sys_step : sys → sys → Prop :=
  (** a goroutine starts *)
  | ss_spawn c t s :
      sys_step s (mkSys (log s) (pending s)
        (mkThread (task_out t) (task_prog c t) (task_told t) :: threads s)
        (replicas s) (snaps s) (told_app (reported s) (task_told t)))
  (** a goroutine makes a call; every answer is possible *)
  | ss_call s ts1 ts2 A X (c : call X) (k : X → prog A) w x :
      threads s = ts1 ++ mkThread A (Vis c k) w :: ts2 →
      sys_step s
        (let '(l, p) := commit_call_effect c x (log s, pending s) in
         mkSys l p (ts1 ++ mkThread A (k x) (hears c x w) :: ts2)
           (replicas s) (snaps s) (told_app (reported s) (tells c x)))
  (** a command in doubt is committed late *)
  | ss_late s p1 p2 data :
      pending s = p1 ++ data :: p2 →
      sys_step s (mkSys (log s ++ [data]) (p1 ++ p2) (threads s) (replicas s) (snaps s) (reported s))
  (** a replica starts from nothing: a new node or one that lost its memory *)
  | ss_restart id s : sys_step s (set_replica id new_replica s)
  (** a replica applies the next entry *)
  | ss_apply id r data s :
      replicas s !! id = Some r → log s !! applied r = Some data →
      sys_step s (set_replica id (apply_entry data r) s)
  (** a replica takes a snapshot *)
  | ss_snapshot id r blob s :
      replicas s !! id = Some r → fsm_Snapshot (rstate r) = Ok blob →
      sys_step s (mkSys (log s) (pending s) (threads s) (replicas s) ((applied r, blob) :: snaps s) (reported s))
  (** a replica is given a snapshot, its own or another's *)
  | ss_install id r n blob s :
      replicas s !! id = Some r → (n, blob) ∈ snaps s →
      sys_step s (set_replica id (install n blob r) s).

Definition reachable (s : sys) : Prop := rtc sys_step sys_init s.

(** *** Invariant *)

(** The state after the first [n] entries. *)
Definition at_index (l : list bytes) (n : nat) : State.State := fsm_replay (take n l) State.New.

Definition entry_told (w : told) (data : bytes) : Prop :=
  ∃ cmd, command_told w cmd ∧ data = Marshal Command_codec cmd.

Record sys_inv (s : sys) : Prop := {
  inv_threads : Forall (λ t, speaks (th_told t) (th_prog t) (λ _ _, True) ∧
                             told_sub (th_told t) (reported s)) (threads s);
  inv_log : Forall (entry_told (reported s)) (log s);
  inv_pending : Forall (entry_told (reported s)) (pending s);
  inv_replicas id r : replicas s !! id = Some r →
    applied r ≤ length (log s) ∧ rstate r = at_index (log s) (applied r);
  inv_snaps n blob : (n, blob) ∈ snaps s →
    n ≤ length (log s) ∧ blob = (State.snapshot (at_index (log s) n)).1;
}.

Lemma at_index_ok l n : State.state_ok (at_index l n).
Proof. apply (fsm_replay_ok (S:=State.State)), State.New_ok. Qed.

Lemma at_index_app l l' n : n ≤ length l → at_index (l ++ l') n = at_index l n.
Proof. intros. unfold at_index. by rewrite take_app_le. Qed.

Lemma at_index_S l n data : l !! n = Some data → at_index l (S n) = (fsm_Apply data (at_index l n)).1.
Proof. intros H. unfold at_index. rewrite (take_S_r _ _ _ H). unfold fsm_replay. by rewrite foldl_app. Qed.

Lemma install_at_index l n r :
  install n (State.snapshot (at_index l n)).1 r = mkReplica n (at_index l n).
Proof.
  unfold install. f_equal. cbn [fsm_Restore].
  change (Restore ?b ?x) with (State.restore b x). cbn [State.snapshot fst].
  by rewrite (State.restore_snapshot_of (at_index l n)) by (done || apply at_index_ok).
Qed.

Lemma entry_told_mono w1 w2 data : told_sub w1 w2 → entry_told w1 data → entry_told w2 data.
Proof. intros Hs (cmd & Hc & ->). exists cmd. split; [|done]. by eapply command_told_mono. Qed.

#[export] Hint Resolve entry_told_mono command_told_mono told_sub_trans : told.

(** The replicas and snapshots of a log are those of a longer one. *)
Lemma indexed_app l l' (rs : gmap string replica) (sn : list (nat * bytes)) :
  (∀ id r, rs !! id = Some r → applied r ≤ length l ∧ rstate r = at_index l (applied r)) →
  (∀ n blob, (n, blob) ∈ sn → n ≤ length l ∧ blob = (State.snapshot (at_index l n)).1) →
  (∀ id r, rs !! id = Some r → applied r ≤ length (l ++ l') ∧ rstate r = at_index (l ++ l') (applied r)) ∧
  (∀ n blob, (n, blob) ∈ sn → n ≤ length (l ++ l') ∧ blob = (State.snapshot (at_index (l ++ l') n)).1).
Proof.
  intros Hr Hs. rewrite length_app. split.
  - intros id r [? ->]%Hr. rewrite at_index_app by done. split; [lia|done].
  - intros n blob [? ->]%Hs. rewrite at_index_app by done. split; [lia|done].
Qed.

Lemma threads_told_mono w1 w2 ts :
  told_sub w1 w2 →
  Forall (λ t, speaks (th_told t) (th_prog t) (λ _ _, True) ∧ told_sub (th_told t) w1) ts →
  Forall (λ t, speaks (th_told t) (th_prog t) (λ _ _, True) ∧ told_sub (th_told t) w2) ts.
Proof. intros Hs H. eapply Forall_impl; [exact H|]. intros t [? ?]. split; [done|]. by eapply told_sub_trans. Qed.

Lemma entries_told_mono w1 w2 l : told_sub w1 w2 → Forall (entry_told w1) l → Forall (entry_told w2) l.
Proof. intros Hs H. eapply Forall_impl; [exact H|]. intros d. by apply entry_told_mono. Qed.

Lemma inv_set_replica id r s :
  sys_inv s → applied r ≤ length (log s) → rstate r = at_index (log s) (applied r) →
  sys_inv (set_replica id r s).
Proof.
  intros [Ht Hl Hp Hr Hs] Hle Hst. split; cbn; [done..| |done].
  intros id' r' [[_ <-]|[_ ?]]%lookup_insert_Some; [done|by eapply Hr].
Qed.

(** What the log gains by a call was owed. *)
Lemma commit_call_told {X} (c : call X) x w l p l' p' :
  apply_told X c w → commit_call_effect c x (l, p) = (l', p') →
  ∃ dl dp, l' = l ++ dl ∧ p' = p ++ dp ∧ Forall (entry_told w) dl ∧ Forall (entry_told w) dp.
Proof.
  intros Ho He.
  assert ((l', p') = (l, p) ∨ ∃ cmd, command_told w cmd ∧
    ((l', p') = (l ++ [Marshal Command_codec cmd], p) ∨ (l', p') = (l, p ++ [Marshal Command_codec cmd])))
    as [[= -> ->]|(cmd & Hc & [[= -> ->]|[= -> ->]])].
  { destruct c; cbn in *; try (left; congruence). right. exists cmd. split; [done|].
    destruct x; [right|left]; congruence. }
  - exists [], []. by rewrite !app_nil_r.
  - exists [Marshal Command_codec cmd], []. rewrite app_nil_r. split_and!; [done..| |done].
    apply Forall_singleton. by exists cmd.
  - exists [], [Marshal Command_codec cmd]. rewrite app_nil_r. split_and!; [done..|].
    apply Forall_singleton. by exists cmd.
Qed.

Lemma sys_inv_call s ts1 ts2 A X (c : call X) (k : X → prog A) w x :
  sys_inv s → threads s = ts1 ++ mkThread A (Vis c k) w :: ts2 →
  sys_inv (let '(l, p) := commit_call_effect c x (log s, pending s) in
           mkSys l p (ts1 ++ mkThread A (k x) (hears c x w) :: ts2)
             (replicas s) (snaps s) (told_app (reported s) (tells c x))).
Proof.
  intros [Ht Hl Hp Hr Hs] E. rewrite E in Ht.
  apply Forall_app in Ht as [Ht1 [[[Ho Hk] Hw] Ht2]%Forall_cons]. cbn [th_told th_prog] in *.
  destruct (commit_call_effect c x (log s, pending s)) as [l p] eqn:Ec.
  destruct (commit_call_told c x w _ _ _ _ Ho Ec) as (dl & dp & -> & -> & Hdl & Hdp).
  assert (told_sub (reported s) (told_app (reported s) (tells c x))) as Hrep by apply told_sub_l.
  destruct (indexed_app (log s) dl (replicas s) (snaps s) Hr Hs) as [Hr' Hs'].
  split; cbn; [|apply Forall_app; split; eauto using entries_told_mono with told..|done|done].
  apply Forall_app. split; [by eapply threads_told_mono|].
  apply Forall_cons. split; [|by eapply threads_told_mono]. split; [apply Hk|].
  by apply told_app_mono.
Qed.

Lemma sys_inv_step s s' : sys_inv s → sys_step s s' → sys_inv s'.
Proof.
  intros Hi Hs. destruct Hs as [c t s|s ts1 ts2 A X c k w x E|s p1 p2 data E|id s|id r data s Hr Hd
    |id r blob s Hr Hb|id r n blob s Hr Hb].
  - destruct Hi as [Ht Hl Hp Hr Hs]. split; cbn; try done.
    + apply Forall_cons. split; [split; [apply speaks_task|apply told_sub_r]|].
      eapply threads_told_mono; [apply told_sub_l|done].
    + eapply entries_told_mono; [apply told_sub_l|done].
    + eapply entries_told_mono; [apply told_sub_l|done].
  - by apply sys_inv_call.
  - destruct Hi as [Ht Hl Hp Hr Hs]. rewrite E in Hp.
    apply Forall_app in Hp as [Hp1 [Hd Hp2]%Forall_cons].
    destruct (indexed_app (log s) [data] (replicas s) (snaps s) Hr Hs) as [Hr' Hs'].
    split; cbn; try done; apply Forall_app; [|done]. split; [done|]. by apply Forall_singleton.
  - apply inv_set_replica; [done|cbn; lia|done].
  - destruct (inv_replicas s Hi id r Hr) as [Hle Hst]. apply inv_set_replica; [done|cbn [apply_entry applied rstate]..].
    + apply lookup_lt_Some in Hd. lia.
    + by rewrite Hst, (at_index_S _ _ data Hd).
  - destruct (inv_replicas s Hi id r Hr) as [Hle Hst]. destruct Hi as [Ht Hl Hp Hrs Hs].
    split; cbn; try done. intros n b [[= -> ->]|Hin]%elem_of_cons; [|by apply Hs].
    split; [done|]. rewrite Hst in Hb. cbn in Hb. congruence.
  - destruct (inv_snaps s Hi n blob Hb) as [Hle ->]. rewrite install_at_index.
    apply inv_set_replica; done.
Qed.

Lemma sys_reachable_inv s : reachable s → sys_inv s.
Proof.
  apply rtc_ind_r; [|intros s1 s2 _ Hs Hi; by eapply sys_inv_step].
  split; [by apply Forall_nil..| |]; intros *; cbn; by rewrite ?lookup_empty, ?elem_of_nil.
Qed.

(** ** Agreement *)

(** Applying the rest of the log. *)
Lemma catch_up_steps s id r :
  sys_inv s → replicas s !! id = Some r →
  rtc sys_step s (set_replica id (mkReplica (length (log s)) (at_index (log s) (length (log s)))) s).
Proof.
  intros Hi. remember (length (log s) - applied r) as d eqn:Ed. revert s r Hi Ed.
  induction d as [|d IH]; intros s r Hi Ed Hr; destruct (inv_replicas s Hi id r Hr) as [Hle Hst].
  - assert (applied r = length (log s)) as E by lia. rewrite <-E, <-Hst.
    assert (set_replica id (mkReplica (applied r) (rstate r)) s = s) as ->; [|apply rtc_refl].
    unfold set_replica. rewrite insert_id by (by destruct r). by destruct s.
  - destruct (lookup_lt_is_Some_2 (log s) (applied r)) as [data Hd]; [lia|].
    pose proof (ss_apply id r data s Hr Hd) as Hstep. eapply rtc_l; [exact Hstep|].
    set (s1 := set_replica id (apply_entry data r) s) in *.
    assert (set_replica id (mkReplica (length (log s)) (at_index (log s) (length (log s)))) s =
      set_replica id (mkReplica (length (log s1)) (at_index (log s1) (length (log s1)))) s1) as ->.
    { unfold s1, set_replica. cbn. by rewrite insert_insert_eq. }
    apply (IH s1 (apply_entry data r)); [by eapply sys_inv_step|cbn; lia|].
    cbn. by rewrite lookup_insert_eq.
Qed.

(** C3. Replicas agree.  Whatever the goroutines of all nodes do, however their calls
    interleave, fail or are committed late, and whichever snapshots are taken and
    installed: two replicas that have applied the same number of entries have the same
    state, and a replica that is behind can always catch up with the whole log. *)
Theorem replicas_agree s id1 id2 r1 r2 :
  reachable s → replicas s !! id1 = Some r1 → replicas s !! id2 = Some r2 →
  (applied r1 = applied r2 → rstate r1 = rstate r2) ∧
  ∃ s' r, rtc sys_step s s' ∧ log s' = log s ∧ replicas s' !! id1 = Some r ∧ applied r = length (log s').
Proof.
  intros Hi%sys_reachable_inv H1 H2. split.
  - destruct (inv_replicas s Hi _ _ H1) as [_ ->], (inv_replicas s Hi _ _ H2) as [_ ->]. by intros ->.
  - eexists _, _. split_and!; [by apply (catch_up_steps s id1 r1)|done|cbn; apply lookup_insert_eq|done].
Qed.

(** ** Where a membership comes from *)

(** What a replica reads for a member, an identifier, that was written: the JSON text
    repairs invalid UTF-8. *)
Definition read_member (mi : MemberInfo) : option MemberInfo :=
  Unmarshal MemberInfo_codec (Marshal MemberInfo_codec mi).
Definition read_id (id : string) : option string :=
  Unmarshal RemoveReq_codec (Marshal RemoveReq_codec id).

Lemma read_member_wf mi : MemberInfo_wf mi = true → read_member mi = Some mi.
Proof. intros. unfold read_member. by erewrite (Unmarshal_Marshal MemberInfo_codec) by (done || apply _). Qed.

Lemma read_id_valid id : utf8_valid id = true → read_id id = Some id.
Proof. intros. unfold read_id. by erewrite (Unmarshal_Marshal RemoveReq_codec) by (done || apply _). Qed.

Lemma entry_of_add mi :
  entry_of (Marshal Command_codec (add_command mi)) =
  match read_member mi with
  | Some m => if decide (ID m = EmptyString) then ENone else EAdd m
  | None => ENone
  end.
Proof.
  unfold entry_of, add_command, read_member. rewrite Command_roundtrip by done. cbn [Op Payload from_option id].
  rewrite decide_True by done. reflexivity.
Qed.

Lemma entry_of_remove nid :
  entry_of (Marshal Command_codec (remove_command nid)) =
  match read_id nid with
  | Some id => if decide (id = EmptyString) then ENone else ERemove id
  | None => ENone
  end.
Proof.
  unfold entry_of, remove_command, read_id. rewrite Command_roundtrip by done. cbn [Op Payload from_option id].
  rewrite (decide_False (P := "RemoveNode" = "AddNode")), (decide_True (P := "RemoveNode" = "RemoveNode")) by done.
  reflexivity.
Qed.

(** What an entry of the log does is what was reported. *)
Lemma entry_told_of w data :
  entry_told w data →
  match entry_of data with
  | EAdd m => ID m ≠ EmptyString ∧ ∃ mi, mi ∈ t_up w ∧ read_member mi = Some m
  | ERemove id => id ≠ EmptyString ∧ ∃ nid, nid ∈ t_gone w ∧ read_id nid = Some id
  | ENone => True
  end.
Proof.
  intros (cmd & [(mi & Hm & ->)|(nid & Hn & ->)] & ->).
  - rewrite entry_of_add. destruct (read_member mi) as [m|] eqn:E; [|done]. case_decide; [done|].
    split; [done|]. by exists mi.
  - rewrite entry_of_remove. destruct (read_id nid) as [id|] eqn:E; [|done]. case_decide; [done|].
    split; [done|]. by exists nid.
Qed.

(** The membership after the first [n] entries. *)
Definition view_at (l : list bytes) (n : nat) : gmap string MemberInfo := State.members (at_index l n).

Lemma view_at_0 l : view_at l 0 = ∅.
Proof. done. Qed.

Lemma view_at_S l n data :
  l !! n = Some data → view_at l (S n) = entry_apply (entry_of data) (view_at l n).
Proof. intros H. unfold view_at. rewrite (at_index_S l n data H). apply (fsm_Apply_view (S:=State.State)). Qed.

Lemma view_at_app l l' n : n ≤ length l → view_at (l ++ l') n = view_at l n.
Proof. intros. unfold view_at. by rewrite at_index_app. Qed.

(** A member of a view was reported up. *)
Lemma view_reported w l n k m :
  Forall (entry_told w) l → n ≤ length l → view_at l n !! k = Some m →
  k = ID m ∧ ∃ mi, mi ∈ t_up w ∧ read_member mi = Some m.
Proof.
  intros Hl. revert m. induction n as [|n IH]; intros m Hn; [by rewrite view_at_0, lookup_empty|].
  destruct (lookup_lt_is_Some_2 l n) as [data Hd]; [lia|]. rewrite (view_at_S l n data Hd).
  pose proof (entry_told_of w data) as He. rewrite Forall_lookup in Hl. specialize (He (Hl _ _ Hd)).
  destruct (entry_of data) as [mi|id|]; cbn.
  - intros [[<- <-]|[_ Hk]]%lookup_insert_Some; [by destruct He|apply IH; [lia|done]].
  - intros [_ Hk]%lookup_delete_Some. apply IH; [lia|done].
  - apply IH. lia.
Qed.

(** A member that was added and never reported gone is in every later view. *)
Lemma view_keeps w l i n k data m :
  Forall (entry_told w) l → l !! i = Some data → entry_of data = EAdd m → k = ID m →
  (∀ nid, nid ∈ t_gone w → read_id nid ≠ Some k) → i < n ≤ length l →
  is_Some (view_at l n !! k).
Proof.
  intros Hl Hi He -> Hgone [Hin Hn]. revert Hn. induction Hin as [|n Hin IH]; intros Hn.
  - rewrite (view_at_S l i data Hi), He. cbn. rewrite lookup_insert_eq. by eexists.
  - destruct (lookup_lt_is_Some_2 l n) as [d Hd]; [lia|]. rewrite (view_at_S l n d Hd).
    pose proof (entry_told_of w d) as Ht. rewrite Forall_lookup in Hl. specialize (Ht (Hl _ _ Hd)).
    destruct IH as [m' Hm']; [lia|]. destruct (entry_of d) as [mi|id|]; cbn; [| |by eexists].
    + destruct (decide (ID mi = ID m)) as [->|]; [rewrite lookup_insert_eq; by eexists|].
      rewrite lookup_insert_ne by done. by eexists.
    + destruct Ht as (_ & nid & Hin' & Hr). rewrite lookup_delete_ne; [by eexists|].
      intros ->. by eapply Hgone.
Qed.

(** C8. Nothing is invented and nothing is forgotten.  In every reachable state of the
    system, a member a replica holds was reported by gossip to some node as up (and is that
    member exactly when it was valid UTF-8); and a member for which the replica has applied
    an entry is still there unless some node was told, by gossip or by a request to leave,
    that it is gone. *)
Theorem membership_reported s nid r :
  reachable s → replicas s !! nid = Some r →
  (∀ k m, State.members (rstate r) !! k = Some m →
    k = ID m ∧ ∃ mi, mi ∈ t_up (reported s) ∧ read_member mi = Some m ∧ (MemberInfo_wf mi = true → m = mi)) ∧
  (∀ i mi, log s !! i = Some (addNode_entry mi) → i < applied r → MemberInfo_wf mi = true →
    ID mi ≠ EmptyString → (∀ gone, gone ∈ t_gone (reported s) → read_id gone ≠ Some (ID mi)) →
    is_Some (State.members (rstate r) !! ID mi)).
Proof.
  intros Hi%sys_reachable_inv Hr. destruct (inv_replicas s Hi nid r Hr) as [Hle ->]. split.
  - intros k m Hk. destruct (view_reported _ _ _ _ _ (inv_log s Hi) Hle Hk) as (-> & mi & Hup & Hrd).
    split; [done|]. exists mi. split_and!; [done..|]. intros Hwf.
    rewrite (read_member_wf mi Hwf) in Hrd. congruence.
  - intros i mi Hlog Hlt Hwf Hne Hgone.
    apply (view_keeps (reported s) (log s) i (applied r) (ID mi) (addNode_entry mi) mi);
      [apply (inv_log s Hi)|done| |done..].
    change (addNode_entry mi) with (Marshal Command_codec (add_command mi)).
    by rewrite entry_of_add, (read_member_wf mi Hwf), decide_False.
Qed.

(** ** Refinement: one membership with a history *)

(** The specification knows neither logs of bytes nor replicas: one membership changes in one
    place, a change at a time.  A change is the addition of a member or the removal of an
    identifier. *)
Inductive change : Type :=
  | Join (mi : MemberInfo)
  | Leave (id : string).

(** What it does; the texts are read as they arrive, and a change without an identifier is
    refused. *)
Definition change_effect (m : gmap string MemberInfo) (c : change) : gmap string MemberInfo :=
  match c with
  | Join mi => match read_member mi with
               | Some m' => if decide (ID m' = EmptyString) then m else <[ID m' := m']> m
               | None => m
               end
  | Leave id => match read_id id with
                | Some id' => if decide (id' = EmptyString) then m else delete id' m
                | None => m
                end
  end.

(** A change may be proposed for what somebody was told. *)
Definition change_told (w : told) (c : change) : Prop :=
  match c with Join mi => mi ∈ t_up w | Leave id => id ∈ t_gone w end.

(** The changes made so far, those in doubt, and what was told. *)
Record spec := mkSpec { made : list change; doubt : list change; heard : told }.
Definition spec_init : spec := mkSpec [] [] told_none.

(** The membership after the first [n] changes. *)
Definition spec_view (a : spec) (n : nat) : gmap string MemberInfo := foldl change_effect ∅ (take n (made a)).

Inductive spec_step : spec → spec → Prop :=
  (** somebody is told something *)
  | sp_hear w a : spec_step a (mkSpec (made a) (doubt a) (told_app (heard a) w))
  (** a change is made, or remains in doubt *)
  | sp_make c a : change_told (heard a) c → spec_step a (mkSpec (made a ++ [c]) (doubt a) (heard a))
  | sp_doubt c a : change_told (heard a) c → spec_step a (mkSpec (made a) (doubt a ++ [c]) (heard a))
  (** a change in doubt is made after all *)
  | sp_late c a d1 d2 : doubt a = d1 ++ c :: d2 → spec_step a (mkSpec (made a ++ [c]) (d1 ++ d2) (heard a)).

(** The entry a node writes for a change. *)
Definition change_entry (c : change) : bytes :=
  Marshal Command_codec (match c with Join mi => add_command mi | Leave id => remove_command id end).

(** The system implements a state of the specification: its log holds the changes made, the
    commands that may still be committed are those in doubt, and every replica, whether it
    applied entries or installed snapshots, holds the membership of the specification at the
    number of changes it has applied. *)
Record implements (s : sys) (a : spec) : Prop := {
  im_log : log s = change_entry <$> made a;
  im_pending : pending s = change_entry <$> doubt a;
  im_told : reported s = heard a;
  im_replicas nid r : replicas s !! nid = Some r →
    applied r ≤ length (made a) ∧ State.members (rstate r) = spec_view a (applied r);
}.

Lemma entry_of_change c m : entry_apply (entry_of (change_entry c)) m = change_effect m c.
Proof.
  destruct c as [mi|id]; unfold change_entry; rewrite ?entry_of_add, ?entry_of_remove; cbn;
    repeat (case_match; [|done]); by case_decide.
Qed.

Lemma view_of_changes cs n : n ≤ length cs → view_at (change_entry <$> cs) n = foldl change_effect ∅ (take n cs).
Proof.
  induction n as [|n IH]; intros Hn; [by rewrite view_at_0|].
  destruct (lookup_lt_is_Some_2 cs n) as [c Hc]; [lia|].
  rewrite (view_at_S _ n (change_entry c)) by (by rewrite list_lookup_fmap, Hc).
  rewrite entry_of_change, IH, (take_S_r _ _ _ Hc), foldl_app by lia. done.
Qed.

(** The replicas follow from the log. *)
Lemma implements_log s a :
  sys_inv s → log s = change_entry <$> made a → pending s = change_entry <$> doubt a → reported s = heard a →
  implements s a.
Proof.
  intros Hi Hl Hp Hh. split; [done..|]. intros nid r [Hle Hst]%(inv_replicas s Hi).
  rewrite Hl, length_fmap in Hle. split; [done|]. rewrite Hst, Hl. by apply view_of_changes.
Qed.

Lemma command_told_change w cmd :
  command_told w cmd → ∃ c, change_told w c ∧ Marshal Command_codec cmd = change_entry c.
Proof. intros [(mi & ? & ->)|(id & ? & ->)]; [by exists (Join mi)|by exists (Leave id)]. Qed.

(** What a call does, by its kind. *)
Lemma commit_call_cases {X} (c : call X) x lp :
  commit_call_effect c x lp = lp ∨
  ∃ cmd, (∀ w, apply_told X c w → command_told w cmd) ∧ tells c x = told_none ∧
    (commit_call_effect c x lp = (lp.1 ++ [Marshal Command_codec cmd], lp.2) ∨
     commit_call_effect c x lp = (lp.1, lp.2 ++ [Marshal Command_codec cmd])).
Proof. destruct c; try (by left). right. exists cmd. split_and!; [done..|]. destruct x; cbn; auto. Qed.

Lemma told_app_none w : told_app w told_none = w.
Proof. destruct w. unfold told_app. cbn. by rewrite !app_nil_r. Qed.

Lemma implements_step s s' a :
  sys_inv s → implements s a → sys_step s s' → ∃ a', rtc spec_step a a' ∧ implements s' a'.
Proof.
  intros Hi [Hl Hp Hh _] Hs. pose proof (sys_inv_step s s' Hi Hs) as Hi'.
  destruct Hs as [c t s|s ts1 ts2 A X c k w x E|s p1 p2 data E|id s|id r data s Hr Hd|id r blob s Hr Hb|id r n blob s Hr Hb];
    try (exists a; split; [done|by apply implements_log]).
  - exists (mkSpec (made a) (doubt a) (told_app (heard a) (task_told t))). split; [by apply rtc_once, sp_hear|].
    apply implements_log; [done..|]. cbn. by rewrite Hh.
  - pose proof (inv_threads s Hi) as Ht. rewrite E in Ht.
    apply Forall_app in Ht as [_ [[[Ho _] Hw] _]%Forall_cons]. cbn [th_told th_prog] in *.
    destruct (commit_call_cases c x (log s, pending s)) as [Ec|(cmd & Hc & Hn & Ec)].
    { rewrite Ec in Hi' |- *. exists (mkSpec (made a) (doubt a) (told_app (heard a) (tells c x))).
      split; [by apply rtc_once, sp_hear|]. apply implements_log; [done..|]. cbn. by rewrite Hh. }
    rewrite Hn, told_app_none in *. rewrite Hh in Hw.
    destruct (command_told_change (heard a) cmd) as (ch & Hch & Em); [eapply command_told_mono; [exact Hw|by apply Hc]|].
    destruct Ec as [Ec|Ec]; rewrite Ec, Em in Hi' |- *; cbn [fst snd] in *.
    + exists (mkSpec (made a ++ [ch]) (doubt a) (heard a)). split; [by apply rtc_once, sp_make|].
      apply implements_log; cbn; [done|by rewrite fmap_app, Hl|done..].
    + exists (mkSpec (made a) (doubt a ++ [ch]) (heard a)). split; [by apply rtc_once, sp_doubt|].
      apply implements_log; cbn; [done|done|by rewrite fmap_app, Hp|done].
  - rewrite Hp in E. apply fmap_app_inv in E as (d1 & d' & E1 & E2 & Ed).
    symmetry in E2. apply fmap_cons_inv in E2 as (c & d2 & -> & -> & ->).
    exists (mkSpec (made a ++ [c]) (d1 ++ d2) (heard a)). split; [apply rtc_once; by apply sp_late|].
    apply implements_log; cbn; [done|by rewrite fmap_app, Hl|by rewrite fmap_app, E1|done].
Qed.

Lemma implements_steps s s' a :
  sys_inv s → implements s a → rtc sys_step s s' → ∃ a', rtc spec_step a a' ∧ implements s' a'.
Proof.
  intros Hi Ha Hr. revert a Hi Ha. induction Hr as [s|s1 s2 s3 H12 _ IH]; intros a Hi Ha; [by exists a|].
  destruct (implements_step s1 s2 a Hi Ha H12) as (a1 & H1 & Ha1).
  destruct (IH a1) as (a2 & H2 & Ha2); [by eapply sys_inv_step|done|]. exists a2. split; [by etrans|done].
Qed.

Lemma implements_init : implements sys_init spec_init.
Proof. split; [done..|]. intros nid r. cbn. by rewrite lookup_empty. Qed.

(** C4. The whole system refines a single membership.  Whatever the goroutines of all nodes do,
    its states follow the states of the specification: changes are appended to one sequence, each
    the addition of a member that some node was told is up or the removal of an identifier that
    some node was told is gone, made at once or, when its outcome was in doubt, later or never;
    what was made is never undone; and every replica holds exactly the members that the first
    changes leave, one by one, up to the number it has applied. *)
Theorem membership_refines s s' :
  reachable s → rtc sys_step s s' →
  ∃ a a', rtc spec_step spec_init a ∧ implements s a ∧ rtc spec_step a a' ∧ implements s' a'.
Proof.
  intros Hs Hr. destruct (implements_steps sys_init s spec_init) as (a & H1 & Ha);
    [apply sys_reachable_inv, rtc_refl|apply implements_init|done|].
  destruct (implements_steps s s' a) as (a' & H2 & Ha'); [by apply sys_reachable_inv|done|done|].
  by exists a, a'.
Qed.

(** ** From gossip events to the membership *)

Definition written_call X (c : call X) : X → option bytes :=
  match c in call X return X → _ with
  | CApply cmd => λ e, match e with None => Some (Marshal Command_codec cmd) | Some _ => None end
  | _ => λ _, None
  end.

(** The entries an execution added to the log. *)
Definition written : list action → list bytes := select written_call.

(** An action of a node that is and stays leader, and whose entries are committed. *)
Definition steady (a : action) : bool :=
  match a with
  | Act c x => match c in call X return X → bool with
               | CIsLeader => λ b, b
               | CApply _ => λ e, bool_decide (e = None)
               | _ => λ _, true
               end x
  end.

(** What an event means: the member is up, with this address and metadata, or gone. *)
Definition event_effect (m : gmap string MemberInfo) (e : MemEvent) : gmap string MemberInfo :=
  let mi := me_member e in
  if decide (ID mi = EmptyString) then m
  else match me_type e with
       | EventJoin => <[ID mi := mi]> m
       | EventLeave | EventFailed => delete (ID mi) m
       end.

Definition event_command (e : MemEvent) : Command :=
  match me_type e with
  | EventJoin => add_command (me_member e)
  | EventLeave | EventFailed => remove_command (ID (me_member e))
  end.

(** Take the answers of a leader: the others contradict [steady]. *)
Ltac steady_answers :=
  repeat match goal with
  | H : Forall _ (_ ++ _) |- _ => apply Forall_app in H as [? ?]
  | H : Forall _ (Act _ _ :: _) |- _ => apply Forall_cons in H as [? ?]
  | H : Is_true (steady (Act CIsLeader ?b)) |- _ => is_var b; destruct b; [|done]
  | H : Is_true (steady (Act (CApply _) ?e)) |- _ => is_var e; apply bool_decide_unpack in H; subst e
  end.

Lemma written_event o e tr :
  has_cons o = true → exec (membership_event o e) tr (Some ()) → Forall steady tr →
  written tr = [Marshal Command_codec (event_command e)].
Proof.
  intros Hc. unfold membership_event, applyAddNode, applyRemoveNode, removeServer, isLeader, event_command.
  rewrite Hc. intros H Hs. destruct (me_type e), (cons_reconfigurer o), (has_mem o); walk; cbn [app] in *;
    steady_answers; done.
Qed.

Lemma written_events o es tr :
  has_cons o = true → exec (each (membership_event o) es) tr (Some ()) → Forall steady tr →
  written tr = (λ e, Marshal Command_codec (event_command e)) <$> es.
Proof.
  intros Hc. revert tr. induction es as [|e es IH]; intros tr.
  - by intros [-> _].
  - cbn [each]. intros H. apply exec_bind in H as [(t1 & t2 & [] & -> & H1 & H2)|[? _]]; [|done].
    intros [S1 S2]%Forall_app. assert (written (t1 ++ t2) = written t1 ++ written t2) as -> by apply select_app.
    rewrite (written_event o e t1), (IH t2) by done. done.
Qed.

(** The members and identifiers of an event are valid UTF-8. *)
Definition event_wf (e : MemEvent) : Prop := MemberInfo_wf (me_member e) = true.

Lemma event_wf_id e : event_wf e → utf8_valid (ID (me_member e)) = true.
Proof. unfold event_wf, MemberInfo_wf. intros H. by repeat (apply andb_true_iff in H as [H ?]). Qed.

Lemma entry_of_event e m :
  event_wf e → entry_apply (entry_of (Marshal Command_codec (event_command e))) m = event_effect m e.
Proof.
  intros Hwf. unfold event_command, event_effect. pose proof (event_wf_id e Hwf).
  destruct (me_type e); rewrite ?entry_of_add, ?entry_of_remove, ?read_member_wf, ?read_id_valid by done;
    by case_decide.
Qed.

(** The membership a whole log stands for. *)
Definition final_view (l : list bytes) : gmap string MemberInfo := view_at l (length l).

Lemma final_view_snoc l data : final_view (l ++ [data]) = entry_apply (entry_of data) (final_view l).
Proof.
  unfold final_view. rewrite length_app, Nat.add_1_r. rewrite (view_at_S _ _ data).
  - by rewrite view_at_app.
  - by rewrite lookup_app_r, Nat.sub_diag.
Qed.

Lemma final_view_events l es :
  Forall event_wf es →
  final_view (l ++ ((λ e, Marshal Command_codec (event_command e)) <$> es)) = foldl event_effect (final_view l) es.
Proof.
  revert l. induction es as [|e es IH]; intros l; [by rewrite app_nil_r|]. intros [He Hes]%Forall_cons.
  cbn [fmap list_fmap foldl]. rewrite cons_middle, app_assoc, (IH _ Hes), final_view_snoc.
  by rewrite (entry_of_event e _ He).
Qed.

(** C9. A leader's handling of gossip events, in every execution in which it stays leader
    and its entries are committed, appends to the log entries whose effect is that of the
    events, in their order: every replica that has applied them holds the membership
    before them, changed by each join, update, leave and failure in turn. *)
Theorem events_converge o es tr l :
  has_cons o = true → exec (each (membership_event o) es) tr (Some ()) → Forall steady tr →
  Forall event_wf es →
  final_view (l ++ written tr) = foldl event_effect (final_view l) es.
Proof. intros Hc He Hs Hwf. rewrite (written_events o es tr) by done. by apply final_view_events. Qed.

(** *** Missed departures *)

Lemma written_applyAddNode o mi tr :
  exec (applyAddNode o mi) tr (Some ()) →
  written tr = [] ∨ written tr = [Marshal Command_codec (add_command mi)].
Proof.
  unfold applyAddNode, isLeader, written. destruct (has_cons o); intros H; walk; cbn [app];
    rewrite ?select_cons; cbn [written_call]; repeat case_match; simplify_eq; auto.
Qed.

Lemma written_reconcile o tr :
  exec (reconcileMembers o) tr (Some ()) →
  ∀ data, data ∈ written tr →
    ∃ ms mi, ms ∈ members_read tr ∧ mi ∈ default [] ms ∧ data = Marshal Command_codec (add_command mi).
Proof.
  assert (∀ l t, exec (each (applyAddNode o) l) t (Some ()) →
    ∀ data, data ∈ written t → ∃ mi, mi ∈ l ∧ data = Marshal Command_codec (add_command mi)) as Heach.
  { induction l as [|mi l IH]; intros t; cbn [each]; [intros [-> _]; by intros ? ?%elem_of_nil|].
    intros H. apply exec_bind in H as [(t1 & t2 & [] & -> & H1 & H2)|[? _]]; [|done].
    intros data. unfold written. rewrite select_app, elem_of_app. intros [Hd|Hd].
    - exists mi. split; [set_solver|]. unfold written in *.
      apply written_applyAddNode in H1 as [H1|H1]; unfold written in H1; rewrite H1 in Hd; set_solver.
    - destruct (IH t2 H2 data Hd) as (mi' & ? & ->). exists mi'. set_solver. }
  unfold reconcileMembers, isLeader. intros H data.
  apply exec_bind in H as [(t1 & t2 & led & -> & H1 & H2)|[? _]]; [|done].
  assert (written t1 = [] ∧ members_read t1 = []) as [Hw Hr] by (destruct (has_cons o); walk; done).
  unfold written, members_read in *. rewrite !select_app, Hw, Hr. cbn [app].
  destruct led, (has_mem o); cbn [andb] in H2; try (destruct H2 as [-> _]; by intros ?%elem_of_nil).
  cbn [mbind prog_mbind prog_bind ask exec] in H2. destruct H2 as (ms & t3 & -> & H2).
  rewrite !select_cons. cbn [written_call members_call]. intros Hd.
  destruct (Heach _ _ H2 data Hd) as (mi & Hmi & ->). exists ms, mi. set_solver.
Qed.

(** Entries that add other members leave a member alone. *)
Lemma final_view_other l dl k m :
  (∀ data, data ∈ dl → ∃ mi, data = Marshal Command_codec (add_command mi) ∧
    ∀ x, read_member mi = Some x → ID x ≠ k) →
  final_view l !! k = Some m → final_view (l ++ dl) !! k = Some m.
Proof.
  revert l. induction dl as [|d dl IH]; intros l Hd Hk; [by rewrite app_nil_r|].
  rewrite cons_middle, app_assoc. apply IH; [set_solver|]. rewrite final_view_snoc.
  destruct (Hd d) as (mi & -> & Hne); [set_solver|]. rewrite entry_of_add.
  destruct (read_member mi) as [x|] eqn:E; [|done]. case_decide; [done|]. cbn.
  by rewrite lookup_insert_ne by (by apply Hne).
Qed.

(** A departure that is reported while the node does not know itself leader is dropped,
    and reconciling, which only adds the members gossip knows, does not make up for it:
    once no node is leader when a member leaves, the replicated membership keeps the member
    although no gossip lists it any more. *)
Theorem missed_departure_stays o e tr out o' tr' l m :
  has_cons o = true → exec (membership_event o e) (Act CIsLeader false :: tr) out →
  exec (reconcileMembers o') tr' (Some ()) →
  (∀ ms mi x, ms ∈ members_read tr' → mi ∈ default [] ms → read_member mi = Some x →
    ID x ≠ ID (me_member e)) →
  final_view l !! ID (me_member e) = Some m →
  tr = [] ∧ final_view (l ++ written tr') !! ID (me_member e) = Some m.
Proof.
  intros Hc H1 H2 Hms Hk. split.
  - unfold membership_event, isLeader in H1. rewrite Hc in H1. cbn in H1.
    destruct H1 as (b & t & E & H1).
    assert (b = false) as -> by (apply (f_equal (map steady)) in E; cbn in E; congruence).
    apply (f_equal List.tl) in E. cbn in E. subst t. by destruct H1.
  - apply final_view_other; [|done]. intros data Hd.
    destruct (written_reconcile o' tr' H2 data Hd) as (ms & mi & Hin & Hmi & ->).
    exists mi. split; [done|]. intros x. by apply (Hms ms).
Qed.

(** ** Witnesses *)

Definition join_a : MemEvent := mkMemEvent EventJoin node_a 0.
Definition leave_a : MemEvent := mkMemEvent EventLeave node_a 0.

Definition log_a : list bytes := [addNode_entry node_a].
Definition state_a : State.State := at_index log_a 1.
Definition replica_a : replica := mkReplica 1 state_a.

(** A leader handles a join, its own replica applies the entry and takes a snapshot that
    another replica installs. *)
Lemma demo_reachable :
  ∃ s, reachable s ∧ log s = log_a ∧ node_a ∈ t_up (reported s) ∧ t_gone (reported s) = [] ∧
    replicas s = {["n1" := replica_a; "n2" := replica_a]}.
Proof.
  eexists. split.
  - eapply rtc_l; [apply (ss_spawn demo_node (TEvent join_a))|].
    eapply rtc_l; [eapply (ss_call _ [] [] _ bool) with (x := true); reflexivity|].
    eapply rtc_l; [eapply (ss_call _ [] [] _ bool) with (x := true); reflexivity|].
    eapply rtc_l; [eapply (ss_call _ [] [] _ (option string)) with (x := None); reflexivity|].
    eapply rtc_l; [apply (ss_restart "n2")|].
    eapply rtc_l; [apply (ss_restart "n1")|].
    eapply rtc_l; [eapply (ss_apply "n1"); reflexivity|].
    eapply rtc_l; [eapply (ss_snapshot "n1"); reflexivity|].
    eapply rtc_l; [eapply (ss_install "n2"); [reflexivity|apply list_elem_of_here]|].
    apply rtc_refl.
  - split_and!; [reflexivity|cbn; set_solver|reflexivity|].
    vm_compute. reflexivity.
Qed.

Lemma replicas_agree_witness :
  ∃ s s' r, reachable s ∧ rtc sys_step s s' ∧ replicas s' !! "n1" = Some r ∧ applied r = length (log s').
Proof.
  destruct demo_reachable as (s & Hs & Hl & _ & _ & Hr).
  destruct (replicas_agree s "n1" "n2" replica_a replica_a Hs) as (_ & s' & r & H1 & _ & H2 & H3);
    [rewrite Hr; reflexivity..|]. by exists s, s', r.
Defined.

Lemma membership_reported_witness :
  ∃ s mi, reachable s ∧ mi ∈ t_up (reported s) ∧ read_member mi = Some node_a ∧
    is_Some (State.members (rstate replica_a) !! ID node_a).
Proof.
  destruct demo_reachable as (s & Hs & Hl & _ & Hg & Hr).
  destruct (membership_reported s "n2" replica_a Hs) as [H1 H2]; [rewrite Hr; reflexivity|].
  destruct (H1 "a" node_a) as (_ & mi & Hmi & Hrd & _); [vm_compute; reflexivity|].
  exists s, mi. split; [exact Hs|]. split; [exact Hmi|]. split; [exact Hrd|].
  apply (H2 0 node_a).
  - rewrite Hl. reflexivity.
  - exact (le_n 1).
  - vm_compute. reflexivity.
  - discriminate.
  - rewrite Hg. by intros ? ?%elem_of_nil.
Defined.

Lemma membership_refines_witness :
  ∃ s a, log s = log_a ∧ rtc spec_step spec_init a ∧ implements s a ∧ spec_view a 1 = {["a" := node_a]}.
Proof.
  destruct demo_reachable as (s & Hs & Hl & _ & _ & Hr).
  destruct (membership_refines s s Hs (rtc_refl _ _)) as (a & _ & H1 & Ha & _).
  exists s, a. split; [exact Hl|]. split; [exact H1|]. split; [exact Ha|].
  destruct (im_replicas s a Ha "n2" replica_a) as [_ E]; [rewrite Hr; reflexivity|].
  change (applied replica_a) with 1 in E. rewrite <- E. vm_compute. reflexivity.
Defined.

Lemma events_converge_witness :
  final_view (log_a ++ written
    [Act CIsLeader true; Act CIsLeader true; Act CIsLeader true;
     Act (CApply (remove_command "a")) None; Act CMembers None;
     Act (CMetricSet ClusterMembers [] 0) (); Act (CPublishEvent (mkEvent EventMemberLeave 0 None (Some node_a) 0)) ()])
  = foldl event_effect (final_view log_a) [leave_a].
Proof.
  apply (events_converge (mkOptions "n1" true true true true false true true true false false true false true
    0 EmptyString false false false) [leave_a]); [reflexivity|answers| |].
  - repeat (constructor; [vm_compute; exact I|]). constructor.
  - constructor; [reflexivity|constructor].
Defined.

Lemma missed_departure_stays_witness :
  final_view (log_a ++ written [Act CIsLeader true; Act CMembers (Some [])]) !! ID node_a = Some node_a.
Proof.
  apply (missed_departure_stays demo_opts leave_a [] (Some ()) demo_opts
    [Act CIsLeader true; Act CMembers (Some [])] log_a node_a); [reflexivity|answers|answers| |].
  - intros ms mi x Hms. apply list_elem_of_singleton in Hms as ->. by intros ?%elem_of_nil.
  - vm_compute. reflexivity.
Defined.
