(* ===== verification/Node.v ===== *)
(** * A node: the facade on its components

    The facade's programs run on the state of the components they call: the Raft node, the
    gossip adapter, the replication buffer and its directory, the replication service, what
    it has sent on its streams, and the metrics.  Between two calls other goroutines and other
    nodes may change that state, as the relation [env] allows.  A history records each call
    with the states before and after it.  An execution on the components is an execution of the
    program ([nexec_exec]), so what is proved of all executions holds of the node, and what
    is proved of a component's operation holds of the states the history records. *)
From S2P Require Import Prelude GoStrings Metrics RepServer Replication Utf8 Json Types.
From S2P Require Import JsonCodec RaftNode Gossip Effects Cluster ClusterSpec.
From stdpp Require Import options.

Section node.
  Context {R M : Type}.

(** The state of a node's components. *)
Record node := mkNode {
  n_raft : RaftNode.Node (R:=R);
  n_mem : Gossip.impl M;
  n_rep : rep;
  n_disk : disk;
  n_srv : RepServer.Server;
  n_sent : list (gset nat * repMsg);   (** the streams that took a message, and the message *)
  n_metrics : Metrics;
}.

(** What the node's components use of libraries and of the operating system. *)
Record libs := mkLibs {
  l_raft : raftLib R;
  l_members : M → list mlNode;
  l_join : M → list string → option string * M;
  l_leave : M → M;
  l_dir : string;
  l_write : write_outcome;
  l_removed : string → bool;
  l_entries : disk → option (list dirent);
  l_sent : nat → bool;
}.

Context (lb : libs) (o : Cluster.Options).
(** What is outside the node: other nodes, the application, the clock. *)
Context (outside : ∀ X, call X → X).
(** What other goroutines and nodes do between two calls. *)
Context (env : node → node → Prop).

Definition set_raft (x : RaftNode.Node) (n : node) : node :=
  mkNode x (n_mem n) (n_rep n) (n_disk n) (n_srv n) (n_sent n) (n_metrics n).
Definition set_mem (x : Gossip.impl M) (n : node) : node :=
  mkNode (n_raft n) x (n_rep n) (n_disk n) (n_srv n) (n_sent n) (n_metrics n).
Definition set_rep (x : rep) (d : disk) (n : node) : node :=
  mkNode (n_raft n) (n_mem n) x d (n_srv n) (n_sent n) (n_metrics n).
Definition set_srv (x : RepServer.Server) (m : Metrics) (l : list (gset nat * repMsg)) (n : node) : node :=
  mkNode (n_raft n) (n_mem n) (n_rep n) (n_disk n) x (n_sent n ++ l) m.
Definition set_metrics (m : Metrics) (n : node) : node :=
  mkNode (n_raft n) (n_mem n) (n_rep n) (n_disk n) (n_srv n) (n_sent n) m.

(** The timeout [applyAddNode] and [applyRemoveNode] pass, in nanoseconds. *)
Definition apply_timeout : Z := 2000000000.

(** One call: its answer and the state it leaves; [None] when it never returns, as the
    retry pass whose counter wraps around. *)
Definition serve X (c : call X) (n : node) : option (X * node) :=
  match c in call X return option (X * node) with
  | CApply cmd => let '(e, x) := RaftNode.Apply (l_raft lb) cmd apply_timeout (n_raft n) in Some (e, set_raft x n)
  | CIsLeader => Some (RaftNode.IsLeader (l_raft lb) (n_raft n), n)
  | CLeader => Some (RaftNode.Leader (l_raft lb) (n_raft n), n)
  | CTerm => Some (RaftNode.Term (l_raft lb) (n_raft n), n)
  | CAddVoter id addr =>
      let '(e, x) := RaftNode.AddVoter (l_raft lb) id addr (n_raft n) in Some (e, set_raft x n)
  | CRemoveServer id =>
      let '(e, x) := RaftNode.RemoveServer (l_raft lb) id (n_raft n) in Some (e, set_raft x n)
  | CConsStop => let '(e, x) := RaftNode.Stop (l_raft lb) (n_raft n) in Some (e, set_raft x n)
  | CMembers => Some (Gossip.Members (l_members lb) (n_mem n), n)
  | CMemJoin seeds => let '(e, x) := Gossip.Join (l_join lb) seeds (n_mem n) in Some (e, set_mem x n)
  | CMemLeave => Some (None, set_mem (Gossip.Leave (l_leave lb) (n_mem n)) n)
  | CMemStop => x ← Gossip.Stop (n_mem n); Some (None, set_mem x n)
  | CAckedAll => Some (Some (AckedAll (n_srv n)), n)
  | CBroadcastWithSeq topic data s =>
      let '(x, m, sent, k) := BroadcastWithSeq (l_sent lb) topic data s (n_srv n) (n_metrics n) in
      Some (k, set_srv x m [(sent, mkRepMsg topic data s)] n)
  | CSeq topic => Some (get0 (seq (n_rep n)) topic, n)
  | CCommit topic data =>
      let '(s, r, d) := publish_commit (l_dir lb) (l_write lb) topic data (n_rep n) (n_disk n) in
      Some (s, set_rep r d n)
  | CRetryPass acked =>
      '(r, d, out) ← retry_topics (l_dir lb) (l_removed lb) (rpcS_broadcast o) acked
                       (map_to_list (buf (n_rep n))).*1 (n_rep n) (n_disk n);
      Some (out, set_rep r d n)
  | CRestoreBuffer _ =>
      Some ((), set_rep (restoreBufferFromDisk (l_entries lb (n_disk n)) (n_rep n)) (n_disk n) n)
  | CMetricSet m labels v => Some ((), set_metrics (mSet m labels v (n_metrics n)) n)
  | CMetricInc m labels => Some ((), set_metrics (mInc m labels (n_metrics n)) n)
  | c => Some (outside _ c, n)
  end.

(** A call that was made, with the states before and after it. *)
Record visit := mkVisit { v_pre : node; v_act : action; v_post : node }.

(** The calls of a history. *)
Abbreviation acts h := (v_act <$> h).

(** An execution: it starts in [n], the environment moves before each call. *)
Fixpoint nexec {A} (p : prog A) (n : node) (h : list visit) (out : option A) : Prop :=
  match p with
  | Ret a => h = [] ∧ out = Some a
  | Vis c k => ∃ n1 x n2 h', env n n1 ∧ serve _ c n1 = Some (x, n2) ∧
      h = mkVisit n1 (Act c x) n2 :: h' ∧ nexec (k x) n2 h' out
  | Panic => h = [] ∧ out = None
  end.

(** An execution on the components is an execution of the program. *)
Lemma nexec_exec {A} (p : prog A) n h out : nexec p n h out → exec p (acts h) out.
Proof.
  revert n h. induction p as [a|X c k IH|]; intros n h; cbn.
  - by intros [-> ->].
  - intros (n1 & x & n2 & h' & _ & _ & -> & H). eexists x, (acts h'). split; [done|]. by eapply IH.
  - by intros [-> ->].
Qed.

(** The calls of one kind: each was served in the state recorded before it. *)
Lemma nexec_selected {A B} (f : ∀ X, call X → X → option B) (p : prog A) n h out b :
  nexec p n h out → b ∈ select f (acts h) →
  ∃ v X (c : call X) x, v ∈ h ∧ v_act v = Act c x ∧ f X c x = Some b ∧ serve X c (v_pre v) = Some (x, v_post v).
Proof.
  revert n h. induction p as [v|X c k IH|]; intros n h; cbn [nexec].
  - intros [-> _]. by intros ?%elem_of_nil.
  - intros (n1 & x & n2 & h' & _ & Hs & -> & H). cbn [fmap list_fmap v_act]. rewrite select_cons.
    intros Hb. assert (f X c x = Some b ∨ b ∈ select f (acts h')) as [E|Hin]
      by (destruct (f X c x); [apply elem_of_cons in Hb as [->|?]; auto|auto]).
    + exists (mkVisit n1 (Act c x) n2), X, c, x. split_and!; [apply list_elem_of_here|done..].
    + destruct (IH x n2 h' H Hin) as (v & Y & d & y & Hv & Hrest). exists v, Y, d, y.
      split; [by apply list_elem_of_further|done].
  - intros [-> _]. by intros ?%elem_of_nil.
Qed.

(** ** Joining *)

Lemma voter_call_inv X (c : call X) x id addr e n n2 :
  voter_call X c x = Some (id, addr, e) → serve X c n = Some (x, n2) →
  RaftNode.AddVoter (l_raft lb) id addr (n_raft n) = (e, n_raft n2).
Proof.
  destruct c; try done. cbn. intros [= -> -> ->].
  destruct (RaftNode.AddVoter _ _ _ _). by intros [= -> <-].
Qed.

(** C5. A join request on a node and its Raft engine, whatever else happens meanwhile:
    when it is accepted, the Raft configuration held the joining server as a voter, under
    the address it asked for and no other, when [AddVoter] returned; when it is refused,
    the reply says that the node is not the leader or repeats the error the engine gave to
    this call. *)
Theorem join_adds_voter `{!LibConfig (l_raft lb)} req n h r :
  has_cons o = true → cons_reconfigurer o = true →
  (∀ x, is_Some (GetConfiguration (l_raft lb) x)) →
  nexec (handleJoin o req) n h (Some r) →
  if jp_accepted r
  then ∃ v x l, v ∈ h ∧ RaftNode.r (n_raft (v_post v)) = Some x ∧
         GetConfiguration (l_raft lb) x = Some l ∧
         ∀ a, (jr_id req, a) ∈ l ↔ a = jr_raftAddr req
  else jp_error r = "not leader" ∨
       ∃ v, v ∈ h ∧
         (RaftNode.AddVoter (l_raft lb) (jr_id req) (jr_raftAddr req) (n_raft (v_pre v))).1 = Some (jp_error r).
Proof.
  intros Hc Hr Hconf Hn. pose proof (nexec_exec _ _ _ _ Hn) as He.
  destruct (handleJoin_correct o req _ r Hc Hr He) as [Hacc Hrej]. clear He.
  assert (∀ e, voters (acts h) = [(jr_id req, jr_raftAddr req, e)] → ∃ v, v ∈ h ∧
    RaftNode.AddVoter (l_raft lb) (jr_id req) (jr_raftAddr req) (n_raft (v_pre v)) = (e, n_raft (v_post v))) as Hv.
  { intros e E. destruct (nexec_selected voter_call _ _ _ _ (jr_id req, jr_raftAddr req, e) Hn)
      as (v & X & c & x & Hin & _ & Hf & Hs); [change (select voter_call) with voters; rewrite E; apply list_elem_of_here|].
    exists v. split; [done|]. by eapply voter_call_inv. }
  clear Hn. destruct (jp_accepted r).
  - destruct (Hv None) as (v & Hin & Ea); [by apply Hacc|].
    destruct (RaftNode.r (n_raft (v_pre v))) as [x|] eqn:Ex; [|by unfold RaftNode.AddVoter in Ea; rewrite Ex in Ea].
    destruct (Hconf x) as [l El].
    destruct (add_voter_configuration (l_raft lb) _ _ _ _ _ _ Ex El Ea) as (y & l' & Hy & Hl' & Hmem & _).
    exists v, y, l'. split_and!; [done|done|done|]. intros a. rewrite Hmem. naive_solver.
  - destruct (Hrej eq_refl) as [[? _]|Hvo]; [by left|right].
    destruct (Hv _ Hvo) as (v & Hin & E). exists v. split; [done|]. by rewrite E.
Qed.

(** ** Publishing *)

(** The three calls of [Publish] that tell where a message went, as the components served them. *)
Lemma commit_call_inv X (c : call X) x topic data q n n2 :
  commit_call X c x = Some (topic, data, q) → serve X c n = Some (x, n2) →
  Act c x = Act (CCommit topic data) q ∧
  publish_commit (l_dir lb) (l_write lb) topic data (n_rep n) (n_disk n) = (q, n_rep n2, n_disk n2) ∧
  n2 = set_rep (n_rep n2) (n_disk n2) n.
Proof.
  destruct c; try done. cbn [commit_call serve]. intros [= -> -> ->].
  destruct (publish_commit _ _ _ _ _ _) as [[q' r'] d'] eqn:E. by intros [= -> <-].
Qed.

Lemma broadcast_call_inv X (c : call X) x topic data q k n n2 :
  broadcast_call X c x = Some (topic, data, q, k) → serve X c n = Some (x, n2) →
  Act c x = Act (CBroadcastWithSeq topic data q) k ∧
  ∃ sent, BroadcastWithSeq (l_sent lb) topic data q (n_srv n) (n_metrics n) = (n_srv n2, n_metrics n2, sent, k) ∧
    n_sent n2 = n_sent n ++ [(sent, mkRepMsg topic data q)].
Proof.
  destruct c; try done. cbn [broadcast_call serve]. intros [= -> -> -> ->].
  destruct (BroadcastWithSeq _ _ _ _ _ _) as [[[x' m] sent] k'] eqn:E. intros [= -> <-]. split; [done|]. by exists sent.
Qed.

Lemma members_call_inv X (c : call X) x ms n n2 :
  members_call X c x = Some ms → serve X c n = Some (x, n2) →
  Act c x = Act CMembers ms ∧ Gossip.Members (l_members lb) (n_mem n) = ms.
Proof. destruct c; try done. cbn. intros [= ->] [= <- <-]. done. Qed.

(** A broadcast that reached somebody reached the streams that take it, and keeps them. *)
Lemma broadcast_reached topic data q (x x' : RepServer.Server) m m' sent k :
  BroadcastWithSeq (l_sent lb) topic data q x m = (x', m', sent, k) → (0 < k)%Z →
  ∃ ss, subs x = Some ss ∧ subs x' = Some sent ∧ sent ≠ ∅ ∧ (∀ i, i ∈ sent ↔ i ∈ ss ∧ l_sent lb i = true) ∧
    ack x' = ack x ∧ get0 (rseq x') topic = q.
Proof.
  intros E Hk. destruct (subs x) as [ss|] eqn:Es.
  - pose proof (BroadcastWithSeq_correct (l_sent lb) topic data q x m ss Es) as Hb. rewrite E in Hb.
    destruct Hb as (H1 & H2 & H3 & H4 & H5 & _). exists ss. split_and!; try done.
    intros ->. rewrite size_empty in H2. cbn in H2. lia.
  - unfold BroadcastWithSeq in E. rewrite Es in E. injection E as _ _ _ <-. lia.
Qed.

(** What a commit does to the state it finds: the next number, stored, and nothing else. *)
Definition committed (topic : string) (payload : bytes) (q : Z) (n1 n2 : node) : Prop :=
  q = u64 (get0 (seq (n_rep n1)) topic + 1) ∧ seq (n_rep n2) = <[topic := q]> (seq (n_rep n1)) ∧
  (∀ t' q', getm (buf (n_rep n2)) t' !! q' =
     if decide (t' = topic ∧ q' = q) then Some payload else getm (buf (n_rep n1)) t' !! q') ∧
  n2 = set_rep (n_rep n2) (n_disk n2) n1.

(** What a broadcast does: every subscribed stream that takes the message is sent it, exactly
    those stay subscribed, and they are counted. *)
Definition sent_to_streams (topic : string) (payload : bytes) (q k : Z) (n1 n2 : node) : Prop :=
  ∃ ss sent, subs (n_srv n1) = Some ss ∧ (∀ i, i ∈ sent ↔ i ∈ ss ∧ l_sent lb i = true) ∧ sent ≠ ∅ ∧
    n_sent n2 = n_sent n1 ++ [(sent, mkRepMsg topic payload q)] ∧ k = Z.of_nat (size sent) ∧
    subs (n_srv n2) = Some sent ∧ ack (n_srv n2) = ack (n_srv n1) ∧ get0 (rseq (n_srv n2)) topic = q.

Lemma commit_committed topic payload q (n1 n2 : node) :
  publish_commit (l_dir lb) (l_write lb) topic payload (n_rep n1) (n_disk n1) = (q, n_rep n2, n_disk n2) →
  n2 = set_rep (n_rep n2) (n_disk n2) n1 → committed topic payload q n1 n2.
Proof.
  intros Hp Hset. split_and!; [| |intros t' q'|done].
  - unfold publish_commit in Hp. by injection Hp as <- _ _.
  - unfold publish_commit in Hp. injection Hp as Hq Hr _. rewrite <-Hr. cbn [seq]. by rewrite Hq.
  - pose proof (lookup_publish_commit (l_dir lb) (l_write lb) topic payload (n_rep n1) (n_disk n1) t' q') as H.
    by rewrite Hp in H.
Qed.

Lemma broadcast_sent topic payload q k (n1 n2 : node) sent :
  BroadcastWithSeq (l_sent lb) topic payload q (n_srv n1) (n_metrics n1) = (n_srv n2, n_metrics n2, sent, k) →
  n_sent n2 = n_sent n1 ++ [(sent, mkRepMsg topic payload q)] → (0 < k)%Z →
  sent_to_streams topic payload q k n1 n2.
Proof.
  intros Hb Hs Hk. destruct (broadcast_reached _ _ _ _ _ _ _ _ _ Hb Hk) as (ss & H1 & H2 & H3 & H4 & H5 & H6).
  exists ss, sent. split_and!; try done. unfold BroadcastWithSeq in Hb. rewrite H1 in Hb. by injection Hb as _ _ -> <-.
Qed.


(** ** Retrying *)

(** The keys of a listing of a map are its domain. *)
Lemma map_to_list_fst_dom {A} (m : gmap string A) : (map_to_list m).*1 ≡ₚ elements (dom m).
Proof.
  apply NoDup_Permutation; [apply NoDup_fst_map_to_list|apply NoDup_elements|]. intros t.
  rewrite elem_of_elements, elem_of_dom, list_elem_of_fmap. split.
  - intros ([? a] & -> & Ha%elem_of_map_to_list). by exists a.
  - intros [a Ha]. exists (t, a). by rewrite elem_of_map_to_list.
Qed.

(** What the retry pass relies on: the buffer is well formed, no topic has used up the 64-bit
    sequence numbers, and the acknowledgements of the subscribers are 64-bit. *)
Definition node_sound (n : node) : Prop :=
  rep_wf (n_rep n) ∧ (∀ t, (get0 (seq (n_rep n)) t < w64 - 1)%Z) ∧ acks_wf (AckedAll (n_srv n)).

(** The broadcasts of a list of messages are those messages, in order. *)
Lemma exec_each_broadcast (l : list (string * bytes * Z)) tr :
  exec (each (λ m, do! CBroadcastWithSeq m.1.1 m.1.2 m.2; Ret ()) l) tr (Some ()) →
  (broadcasts tr).*1 = l.
Proof.
  revert tr. induction l as [|[[t data] s] l IH]; intros tr; [by intros [-> _]|].
  cbn [each]. intros (k & tr' & -> & He). unfold broadcasts. rewrite select_cons. cbn [broadcast_call fmap list_fmap].
  f_equal. by apply IH.
Qed.

(** The pass over the buffers ends in every sound state. *)
Lemma retry_pass_served acked n :
  node_sound n → acks_wf acked → rpcS_broadcast o = true →
  ∃ out n2, serve _ (CRetryPass acked) n = Some (out, n2) ∧ n2 = set_rep (n_rep n2) (n_disk n2) n ∧
    seq (n_rep n2) = seq (n_rep n) ∧
    (∀ t s, getm (buf (n_rep n2)) t !! s =
       if decide (s ≤ get0 acked t)%Z then None else getm (buf (n_rep n)) t !! s) ∧
    (∀ t data s, (t, data, s) ∈ out ↔ getm (buf (n_rep n2)) t !! s = Some data).
Proof using env.
  intros (Hwf & Hmax & _) Hacks Hb. cbn [serve]. rewrite Hb.
  destruct (retry_pass_spec (l_dir lb) (l_removed lb) true acked
    (map_to_list (buf (n_rep n))).*1 (n_rep n) (n_disk n)) as (r' & d' & out & E & _ & Hs & Hl & Ho);
    [apply map_to_list_fst_dom|done..|].
  rewrite E. cbn. exists out, (set_rep r' d' n). split_and!; try done.
  intros t data s. cbn. rewrite Ho. tauto.
Qed.


End node.

Abbreviation acts h := (v_act <$> h).

(** ** Witnesses *)

Definition demo_libs : libs (R := gmap string string) (M := unit) :=
  mkLibs RaftNode.demo_lib (λ _, []) (λ m _, (None, m)) (λ m, m) EmptyString Written (λ _, true)
    (λ _, None) (λ _, true).

Definition demo_components : node (R := gmap string string) (M := unit) :=
  mkNode (RaftNode.mkNode RaftNode.demo_opts (Some ∅) [])
    (Gossip.mkImpl (Gossip.mkOptions "a" ":7946" EmptyString None 0 0 0) None [] false false)
    rep_new ∅ NewServer [] ∅.

(** An answer of each type, for the calls that leave the node. *)
Definition no_answer X (c : call X) : X :=
  match c in call X return X with
  | CConsStart | CConsStop | CApply _ | CAddVoter _ _ | CRemoveServer _ | CMemStart | CMemJoin _
  | CMemLeave | CMemStop | CSrvStart | CSrvStop | CSubscribe _ _ | CHandleSync _ _
  | CTracingSetup | CTracingShutdown => None
  | CIsLeader => false
  | CLeader => None
  | CTerm => 0%Z
  | CMembers => None
  | CSeeds => []
  | CTransportAddr | CSrvAddr => EmptyString
  | CAckedAll => None
  | CBroadcastWithSeq _ _ _ | CSeq _ | CCommit _ _ | CNow => 0%Z
  | CGetStatus _ => Err EmptyString
  | CPostJoin _ _ => Err EmptyString
  | CPostAppWrite _ _ => Err EmptyString
  | CHandleWrite _ _ => Err EmptyString
  | CRetryPass _ => []
  | CWait => None
  | COnLeaderChange _ | COnElectionStart | COnElectionEnd _ | CRegisterMetrics | CMetricSet _ _ _
  | CMetricInc _ _ | CPublishEvent _ | CMkdirAll _ | CRestoreBuffer _ | CGo _ | CLog _
  | CSpanStart _ | CSpanEnd _ | CStdLog _ | CPrintln _ | CCtxDone => ()
  end.

(** Run a program on the components. *)
Ltac node_run :=
  repeat (eexists _, _, _, _; split; [reflexivity|]; split; [reflexivity|]; split; [reflexivity|]); split; reflexivity.

Lemma join_adds_voter_witness :
  ∃ (n2 : node (R := gmap string string) (M := unit)) x l, RaftNode.r (n_raft n2) = Some x ∧
    GetConfiguration RaftNode.demo_lib x = Some l ∧ ("b", "b:2") ∈ l.
Proof.
  assert (∃ h, nexec demo_libs ClusterSpec.demo_opts no_answer eq
    (handleJoin ClusterSpec.demo_opts (mkJoinRequest "b" "b:2")) demo_components h
    (Some (mkJoinResponse true EmptyString EmptyString))) as [h Hh].
  { eexists. node_run. }
  destruct (join_adds_voter demo_libs ClusterSpec.demo_opts no_answer eq (mkJoinRequest "b" "b:2")
    demo_components h _ eq_refl eq_refl (λ x, ex_intro _ _ eq_refl) Hh) as (v & x & l & _ & H1 & H2 & H3).
  exists (v_post v), x, l. split; [exact H1|]. split; [exact H2|]. apply H3. reflexivity.
Defined.

(** A node with one subscribed stream and streams for its management server. *)
Definition stream_opts : Options :=
  mkOptions "a" true true true true true true true true true true true false false
    16 EmptyString false false false.

Definition subscribed_components : node (R := gmap string string) (M := unit) :=
  mkNode (n_raft demo_components) (n_mem demo_components) rep_new ∅ (addSub 0 (server_start NewServer) ∅).1 [] ∅.


(** A leader that has stored three messages, and a stream that has acknowledged the first. *)
Definition retrying_components : node (R := gmap string string) (M := unit) :=
  mkNode (n_raft demo_components) (n_mem demo_components) demo_rep ∅
    (Ack (mkRepAck "t" 1 "b") (addSub 0 (server_start NewServer) ∅).1 ∅).1 [] ∅.

Lemma retrying_components_sound : node_sound retrying_components.
Proof.
  split_and!; [apply demo_rep_wf|..]; intros t.
  - unfold retrying_components, get0, demo_rep. cbn.
    destruct (decide (t = "t")) as [->|]; simplify_map_eq; done.
  - assert (AckedAll (n_srv retrying_components) = {["t" := 1%Z]}) as -> by (vm_compute; reflexivity).
    unfold get0. destruct (decide (t = "t")) as [->|]; simplify_map_eq; done.
Qed.

