(* ===== verification/Observe.v ===== *)
(** * The metrics of a node are well typed

    Prometheus collectors check at run time what Go's types do not: a series must have as
    many label values as its collector has labels, and a counter must not go down, else the
    call panics.  Here every metric call of the facade, of the replication service and of the
    connection manager is checked against the declarations of [Metrics], in every execution
    of the node and whatever its other goroutines do meanwhile. *)
From S2P Require Import Prelude GoStrings Metrics RepServer Replication ConnMgr Utf8 Json Types.
From S2P Require Import JsonCodec RaftNode Gossip Effects Cluster ClusterSpec Node.
From stdpp Require Import options.

(** Every series has its labels, and counters are not negative. *)
Definition well_typed (m : Metrics) : Prop :=
  ∀ c ls v, m !! (c, ls) = Some v →
    length ls = length (metric_labels c) ∧ (kind_of c = Counter → (0 ≤ v)%Z).

Lemma well_typed_empty : well_typed ∅.
Proof. intros c ls v. by rewrite lookup_empty. Qed.

(** ** Operations *)

Lemma mSet_typed c ls v m :
  length ls = length (metric_labels c) → kind_of c = Gauge → well_typed m → well_typed (mSet c ls v m).
Proof.
  intros Hl Hk Hm c' ls' v'. unfold mSet. intros [[[= <- <-] <-]|[_ ?]]%lookup_insert_Some; [|by apply Hm].
  split; [done|congruence].
Qed.

Lemma mAdd_typed c ls v m :
  length ls = length (metric_labels c) → kind_of c = Gauge ∨ (0 ≤ v)%Z → well_typed m → well_typed (mAdd c ls v m).
Proof.
  intros Hl Hk Hm c' ls' v'. unfold mAdd, mSet. intros [[[= <- <-] <-]|[_ ?]]%lookup_insert_Some; [|by apply Hm].
  split; [done|]. intros Hc. assert (0 ≤ v)%Z by (destruct Hk; [congruence|done]). unfold metric_value, get0.
  destruct (m !! (c, ls)) as [x|] eqn:E; cbn; [|lia]. destruct (Hm _ _ _ E) as [_ Hx]. specialize (Hx Hc). lia.
Qed.

Create HintDb typed.
#[export] Hint Resolve mSet_typed mAdd_typed : typed.
#[export] Hint Extern 1 (length _ = length (metric_labels _)) => reflexivity : typed.
#[export] Hint Extern 1 (kind_of _ = Gauge) => reflexivity : typed.
#[export] Hint Extern 1 (kind_of _ = Gauge ∨ _) => first [left; reflexivity | right; lia] : typed.

Lemma mInc_typed c ls m :
  length ls = length (metric_labels c) → well_typed m → well_typed (mInc c ls m).
Proof. intros. apply mAdd_typed; [done|by right|done]. Qed.
#[export] Hint Resolve mInc_typed : typed.

(** The replication service. *)
Lemma addSub_typed sub s m : well_typed m → well_typed (addSub sub s m).2.
Proof. intros Hm. unfold addSub. destruct (srv s); cbn [snd]; auto with typed. Qed.

Lemma removeSub_typed sub s m : well_typed m → well_typed (removeSub sub s m).2.
Proof. intros Hm. unfold removeSub. destruct (subs s); [|done]. cbn [snd]. unfold mDec. auto with typed. Qed.

Lemma Ack_typed a s m : well_typed m → well_typed (Ack a s m).2.
Proof.
  intros Hm. unfold Ack. case_decide; [done|]. destruct (min_loop _ _ _) as [first mn].
  destruct (_ && _); cbn [snd]; auto 8 with typed.
Qed.

Lemma Broadcast_typed ok topic data s srv m : well_typed m → well_typed (BroadcastWithSeq ok topic data s srv m).1.1.2.
Proof.
  intros Hm. unfold BroadcastWithSeq. destruct (subs srv) as [ss|]; [|done]. cbn zeta.
  destruct (_ && _); cbn [fst snd]; auto 8 with typed.
Qed.
#[export] Hint Resolve addSub_typed removeSub_typed Ack_typed Broadcast_typed : typed.

(** The connection manager. *)
Lemma get_dialed_typed now target k cm m : well_typed m → well_typed (get_dialed now target k cm m).2.
Proof. intros Hm. unfold get_dialed. destruct (conns cm !! target); cbn [snd]; auto with typed. Qed.

Lemma janitor_typed now cm m : well_typed m → well_typed (janitor_tick now cm m).2.
Proof.
  intros Hm. unfold janitor_tick. cbn [snd]. apply mAdd_typed; [done|by left|].
  apply mAdd_typed; [done|right; lia|done].
Qed.
#[export] Hint Resolve get_dialed_typed janitor_typed : typed.

(** ** The facade *)

(** A metric call with the wrong number of labels, or that sets a counter. *)
Definition mistyped X (c : call X) : bool :=
  match c with
  | CMetricSet m ls _ =>
      negb (Nat.eqb (length ls) (length (metric_labels m))) || match kind_of m with Counter => true | Gauge => false end
  | CMetricInc m ls => negb (Nat.eqb (length ls) (length (metric_labels m)))
  | _ => false
  end.

Lemma rounds_typed o topic n : avoids mistyped (publish_rounds o topic n).
Proof.
  induction n as [|n IH]; cbn [publish_rounds]; [done|]. destruct (rpcS_acks o); avoid; apply IH.
Qed.

Lemma entry_point_typed c A (p : prog A) : entry_point c p → avoids mistyped p.
Proof.
  destruct 1;
    unfold Start, start_buffer, or_else, start_mem, start_cons, start_rpcS, Stop, Join, join_at,
      statusLocalJSON, Status, status_local, handleJoin, handleLeave, AppWrite,
      leader_by_status, handleAppWrite, Publish, fan_out, handleAppSync, subscribe_round, retry_tick,
      membership_event, reconcileMembers, leader_observed, election_tick, applyAddNode, applyRemoveNode,
      removeServer, isLeader; avoid;
    unfold applyAddNode, applyRemoveNode, leaderMgmt, lookupMemberAddr, isLeader; avoid; apply rounds_typed.
Qed.

(** ** The node *)

(** A call that some execution of a program may make. *)
Inductive makes {X} (c : call X) : ∀ {A}, prog A → Prop :=
  | makes_here {A} (k : X → prog A) : makes c (Vis c k)
  | makes_later {A Y} (d : call Y) (k : Y → prog A) y : makes c (k y) → makes c (Vis d k).

Lemma makes_avoids {X} (c : call X) bad {A} (p : prog A) : makes c p → avoids bad p → bad X c = false.
Proof. induction 1; intros [Hc Hk]; [done|]. by apply IHmakes. Qed.

Section node.
  Context {R M : Type} (lb : libs (R:=R) (M:=M)) (outside : ∀ X, call X → X).

(** What happens to a node between two calls of a goroutine: another goroutine makes a call of
    any method, handler or loop of the facade; a stream is opened or ends, a node
    acknowledges; the connection manager dials or evicts; or the Raft engine, the gossip
    library, the disk and the streams change by themselves. *)
Inductive moves (cl : Cluster) : node (R:=R) (M:=M) → node (R:=R) (M:=M) → Prop :=
  | mv_call {A X} (p : prog A) (q : call X) n x n' :
      entry_point cl p → makes q p → serve lb (opts cl) outside X q n = Some (x, n') → moves cl n n'
  | mv_subscribe sub n :
      moves cl n (let '(x, m) := addSub sub (n_srv n) (n_metrics n) in set_srv x m [] n)
  | mv_unsubscribe sub n :
      moves cl n (let '(x, m) := removeSub sub (n_srv n) (n_metrics n) in set_srv x m [] n)
  | mv_ack a n :
      moves cl n (let '(x, m) := Ack a (n_srv n) (n_metrics n) in set_srv x m [] n)
  | mv_dialed now target k cm n :
      moves cl n (set_metrics (get_dialed now target k cm (n_metrics n)).2 n)
  | mv_evict now cm n :
      moves cl n (set_metrics (janitor_tick now cm (n_metrics n)).2 n)
  | mv_outside n n' : n_metrics n' = n_metrics n → moves cl n n'.

Lemma serve_typed o X (c : call X) (n n' : node (R:=R) (M:=M)) x :
  mistyped X c = false → serve lb o outside X c n = Some (x, n') →
  well_typed (n_metrics n) → well_typed (n_metrics n').
Proof.
  intros Hc Hs Hn. destruct c; cbn [serve] in Hs; try (by injection Hs as _ <-).
  all: try (destruct (RaftNode.Apply _ _ _ _); by injection Hs as _ <-).
  all: try (destruct (RaftNode.AddVoter _ _ _ _); by injection Hs as _ <-).
  all: try (destruct (RaftNode.RemoveServer _ _ _); by injection Hs as _ <-).
  all: try (destruct (RaftNode.Stop _ _); by injection Hs as _ <-).
  all: try (destruct (Gossip.Join _ _ _); by injection Hs as _ <-).
  - destruct (Gossip.Stop (n_mem n)); [|done]. by injection Hs as _ <-.
  - pose proof (Broadcast_typed (l_sent lb) topic data seq (n_srv n) (n_metrics n) Hn) as Hb.
    destruct (BroadcastWithSeq _ _ _ _ _ _) as [[[y m] ?] k]. by injection Hs as _ <-.
  - injection Hs as _ <-. cbn in Hc. apply orb_false_iff in Hc as [Hl%negb_false_iff%Nat.eqb_eq Hk].
    apply mSet_typed; [done|by destruct (kind_of m)|done].
  - injection Hs as _ <-. apply negb_false_iff, Nat.eqb_eq in Hc. by apply mInc_typed.
  - destruct (retry_topics _ _ _ _ _ _ _) as [[[r d] out]|]; [|done]. by injection Hs as _ <-.
Qed.

Lemma moves_typed cl n n' : rtc (moves cl) n n' → well_typed (n_metrics n) → well_typed (n_metrics n').
Proof.
  induction 1 as [|n1 n2 n3 H12 _ IH]; [done|]. intros Hn. apply IH. clear IH.
  destruct H12 as [A X p q n1 x n2 Hp Hq Hs|sub n|sub n|a n|now target k cm n|now cm n|n n' ->]; [..|done].
  - eapply serve_typed; [|done|done]. apply (makes_avoids q mistyped p Hq), (entry_point_typed cl A p Hp).
  - pose proof (addSub_typed sub (n_srv n) (n_metrics n) Hn). by destruct (addSub _ _ _).
  - pose proof (removeSub_typed sub (n_srv n) (n_metrics n) Hn). by destruct (removeSub _ _ _).
  - pose proof (Ack_typed a (n_srv n) (n_metrics n) Hn). by destruct (Ack _ _ _).
  - by apply get_dialed_typed.
  - by apply janitor_typed.
Qed.


End node.

(** ** Witnesses *)

(** A join request, after a stream was opened and a node acknowledged on it. *)
Definition acked_components : node (R := gmap string string) (M := unit) :=
  let '(x, m) := addSub 0 (server_start NewServer) ∅ in
  let '(x', m') := Ack (mkRepAck "t" 1 "b") x m in set_srv x' m' [] demo_components.

