(* ===== verification/Journal.v ===== *)
(** * What the facade logs and traces

    The log calls and the spans in the programs of [cluster.go].  The log is an account of the
    Raft reconfigurations: every call that changes the configuration is followed by the line
    that tells its outcome, before anything else is changed, and no line tells of a change that
    was not made.  Together with [Logging] this holds of the file a reader sees. *)
From S2P Require Import Prelude GoStrings Metrics Tracing Utf8 Json Types JsonCodec Logging.
From S2P Require Import Replication Effects Cluster ClusterSpec.
From stdpp Require Import options.

(** ** Reconfigurations and the lines about them *)

(** A voter was to be added or a server removed, with the error of the engine. *)
Inductive reconf : Type :=
  | Added (id addr : string) (e : option string)
  | Removed (id : string) (e : option string).

Definition reconf_call X (c : call X) : X → option reconf :=
  match c in call X return X → _ with
  | CAddVoter id addr => λ e, Some (Added id addr e)
  | CRemoveServer id => λ e, Some (Removed id e)
  | _ => λ _, None
  end.

Definition log_call X (c : call X) (_ : X) : option logLine :=
  match c with CLog x => Some x | _ => None end.

(** What a reader concludes from a line. *)
Definition line_reconf (x : logLine) : option reconf :=
  match x with
  | LAddVoterFailed id addr e => Some (Added id addr (Some e))
  | LJoinAccepted id addr => Some (Added id addr None)
  | LRemoveVoterFailed id e => Some (Removed id (Some e))
  | LRemovedVoter id => Some (Removed id None)
  | _ => None
  end.

(** The reconfigurations of an execution, and the lines it logs. *)
Definition reconfigurations : list action → list reconf := select reconf_call.
Definition logs : list action → list logLine := select log_call.

(** ** The obligation to log *)

(** [w] is a reconfiguration that has been made and not logged: nothing is changed while there
    is one, and a line tells of that one. *)
Definition reports (X : Type) (c : call X) (w : option reconf) : Prop :=
  match c with
  | CAddVoter _ _ | CRemoveServer _ => w = None
  | CLog x => ∀ r, line_reconf x = Some r → w = Some r
  | _ => True
  end.

Definition due (X : Type) (c : call X) : X → option reconf → option reconf :=
  match c in call X return X → _ → _ with
  | CAddVoter id addr => λ e _, Some (Added id addr e)
  | CRemoveServer id => λ e _, Some (Removed id e)
  | CLog x => λ _ w, match line_reconf x with Some _ => None | None => w end
  | _ => λ _ w, w
  end.

Definition accounts {A} (w : option reconf) (p : prog A) (Q : A → option reconf → Prop) : Prop :=
  obeys reports due w p Q.

(** An execution that owes nothing in the end logged exactly what it did. *)
Lemma accounted tr w :
  obeyed reports due w tr → after due w tr = None →
  omap line_reconf (logs tr) = option_list w ++ reconfigurations tr.
Proof.
  revert w. induction tr as [|[X c x] tr IH]; intros w; [cbn [after]; by intros _ ->|].
  cbn [obeyed after]. intros [Hc Ho] Ha. specialize (IH _ Ho Ha).
  unfold logs, reconfigurations in *. rewrite !select_cons.
  destruct c; cbn [log_call reconf_call due reports] in *; try done.
  - subst w. by rewrite IH.
  - subst w. by rewrite IH.
  - cbn [omap list_omap]. destruct (line_reconf x0) as [r|] eqn:E; [|done].
    rewrite (Hc r eq_refl), IH. done.
Qed.

Lemma accounts_bind {A B} w (p : prog A) (f : A → prog B) Q :
  accounts w p (λ a w', accounts w' (f a) Q) → accounts w (p ≫= f) Q.
Proof. apply obeys_bind. Qed.

(** A program that neither changes the configuration nor logs. *)
Definition notable X (c : call X) : bool :=
  match c with
  | CAddVoter _ _ | CRemoveServer _ => true
  | CLog x => match line_reconf x with Some _ => true | None => false end
  | _ => false
  end.

Lemma quiet_accounts {A} w (p : prog A) : avoids notable p → accounts w p (λ _ w', w' = w).
Proof.
  apply avoids_keeps. intros X c Hc. destruct c; try done. cbn in *. by destruct (line_reconf x).
Qed.

(** Followed by another program. *)
Lemma quiet_then {A B} w (p : prog A) (f : A → prog B) Q :
  avoids notable p → (∀ a, accounts w (f a) Q) → accounts w (p ≫= f) Q.
Proof.
  intros Hp Hf. apply accounts_bind. eapply obeys_mono; [|by apply quiet_accounts]. intros a ? ->. apply Hf.
Qed.

Lemma quiet_isLeader o : avoids notable (isLeader o).
Proof. unfold isLeader. avoid. Qed.

Lemma quiet_rounds o topic n : avoids notable (publish_rounds o topic n).
Proof. induction n as [|n IH]; cbn [publish_rounds]; [done|]. destruct (rpcS_acks o); avoid; apply IH. Qed.

Lemma quiet_leaderMgmt o : avoids notable (leaderMgmt o).
Proof. unfold leaderMgmt, lookupMemberAddr. avoid. Qed.

Lemma quiet_applyRemoveNode o id : avoids notable (applyRemoveNode o id).
Proof. unfold applyRemoveNode. apply avoids_bind; [apply quiet_isLeader|avoid]. Qed.

Lemma quiet_applyAddNode o mi : avoids notable (applyAddNode o mi).
Proof. unfold applyAddNode. apply avoids_bind; [apply quiet_isLeader|avoid]. Qed.

(** ** The programs that change the configuration *)

Lemma accounts_removeServer o id : accounts None (removeServer o id) (λ _ w, w = None).
Proof.
  apply quiet_then; [apply quiet_isLeader|]. intros []; [|done]. destruct (cons_reconfigurer o); [|done].
  split; [done|]. intros [e|]; (split; [|done]); by intros r [= <-].
Qed.

Lemma accounts_handleLeave o req : accounts None (handleLeave o req) (λ _ w, w = None).
Proof.
  split; [done|]. intros []. apply accounts_bind, quiet_then; [apply quiet_isLeader|]. intros [].
  - apply accounts_bind. eapply obeys_mono; [|apply accounts_removeServer]. intros [] ? ->.
    apply quiet_then; [apply quiet_applyRemoveNode|]. by intros [].
  - done.
Qed.

Lemma accounts_handleJoin o req :
  cons_reconfigurer o = true → accounts None (handleJoin o req) (λ _ w, w = None).
Proof.
  intros Hr. split; [done|]. intros []. apply accounts_bind, quiet_then; [apply quiet_isLeader|]. rewrite Hr. intros [].
  - split; [done|]. intros [e|]; cbn.
    + split; [by intros r [= <-]|done].
    + split; [done|]. intros []. split; [by intros r [= <-]|done].
  - apply quiet_then; [|done]. destruct (has_cons o); [apply quiet_leaderMgmt|done].
Qed.

Lemma accounts_event o e : accounts None (membership_event o e) (λ _ w, w = None).
Proof.
  apply quiet_then; [apply quiet_isLeader|]. intros []; [|done]. cbv zeta.
  apply accounts_bind. eapply obeys_mono with (Q := λ _ w, w = None).
  - intros [] ? ->. apply quiet_then; [avoid|]. by intros [].
  - destruct (me_type e); [apply quiet_accounts, quiet_applyAddNode|..];
      (apply accounts_bind; eapply obeys_mono; [|apply accounts_removeServer]; intros [] ? ->;
       apply quiet_accounts, quiet_applyRemoveNode).
Qed.

Lemma entry_point_accounts c A (p : prog A) :
  cons_reconfigurer (opts c) = true → entry_point c p → accounts None p (λ _ w, w = None).
Proof.
  intros Hr. destruct 1; try apply accounts_handleLeave; try apply accounts_event;
    try (by apply accounts_handleJoin); apply quiet_accounts;
    unfold Start, start_buffer, or_else, start_mem, start_cons, start_rpcS, Stop, Join, join_at,
      statusLocalJSON, Status, status_local, AppWrite, leader_by_status, handleAppWrite, Publish, fan_out,
      handleAppSync, subscribe_round, retry_tick, reconcileMembers, leader_observed, election_tick, isLeader;
    avoid; try apply quiet_applyAddNode; unfold leaderMgmt, lookupMemberAddr; avoid; apply quiet_rounds.
Qed.

(** C30. In every execution of every method, handler and loop of a node whose engine can be
    reconfigured, the lines about voters are exactly the reconfigurations that were made, in
    order and with the outcome the engine reported: none is missing, made up or told wrong.  In
    JSON mode, with a logger that adds neither a prefix nor a time, these lines are what is read
    back from the file, one per call, with level, message and time. *)
Theorem log_tells_reconfigurations c A (p : prog A) tr a file l st ts :
  entry_point c p → cons_reconfigurer (opts c) = true → exec p tr (Some a) →
  jsonMode st = true → lg_flags (logger_of l st) = 0%Z → lg_prefix (logger_of l st) = EmptyString →
  length ts = length (logs tr) →
  omap line_reconf (logs tr) = reconfigurations tr ∧
  ∃ st' out, log_lines file l (zip ts (logs tr)) st = Some st' ∧
    (∀ w, default EmptyString (written st' !! w) =
       default EmptyString (written st !! w) +:+ (if decide (w = lg_out (logger_of l st)) then out else EmptyString)) ∧
    length (lines_of out) = length (logs tr) ∧
    parse_json <$> lines_of out = (λ '(t, x), Some (read_event t.1 x)) <$> zip ts (logs tr).
Proof.
  intros Hp Hr He Hj Hf Hpre Hts. split.
  - destruct (obeys_exec _ _ _ _ _ _ _ (entry_point_accounts c A p Hr Hp) He) as [Ho Ha].
    apply (accounted tr None Ho). by apply (Ha a).
  - destruct (json_log_readable file l st (zip ts (logs tr)) Hj Hf Hpre) as (st' & out & H1 & H2 & H3).
    exists st', out. split_and!; [done|done| |rewrite H3; apply list_fmap_ext; by intros i [[t now] x] _].
    apply (f_equal length) in H3. rewrite !length_fmap, length_zip in H3. lia.
Qed.

(** ** Spans *)

Definition span_call X (c : call X) (_ : X) : option (spanEvent (Span:=string)) :=
  match c with CSpanStart n => Some (SpanStart n) | CSpanEnd n => Some (SpanEnd n) | _ => None end.
Definition spans : list action → list spanEvent := select span_call.

(** The open spans as bookkeeping: only the one opened last is ended. *)
Definition span_owes (X : Type) (c : call X) (w : list string) : Prop :=
  match c with CSpanEnd n => head w = Some n | _ => True end.
Definition span_next (X : Type) (c : call X) (_ : X) (w : list string) : list string :=
  match c with CSpanStart n => n :: w | CSpanEnd _ => tail w | _ => w end.

Lemma spans_open tr w :
  obeyed span_owes span_next w tr → open_spans (spans tr) w = Some (after span_next w tr).
Proof.
  revert w. induction tr as [|[X c x] tr IH]; intros w; [done|]. cbn [obeyed after]. intros [Hc Ho].
  apply IH in Ho. unfold spans in *. rewrite select_cons.
  destruct c; cbn [span_call span_next span_owes] in *; try done.
  destruct w as [|n w]; [done|]. injection Hc as ->. cbn [open_spans]. by rewrite decide_True.
Qed.

Definition is_span X (c : call X) : bool :=
  match c with CSpanStart _ | CSpanEnd _ => true | _ => false end.

Lemma spanless {A} w (p : prog A) : avoids is_span p → obeys span_owes span_next w p (λ _ w', w' = w).
Proof. apply avoids_keeps. by intros X []. Qed.

(** A span around a program without spans is closed by the end. *)
Lemma in_span_closed {A} n w (p : prog A) :
  avoids is_span p → obeys span_owes span_next w (in_span n p) (λ _ w', w' = w).
Proof.
  intros Hp. split; [done|]. intros []. apply obeys_bind. eapply obeys_mono; [|by apply spanless].
  intros a ? ->. split; done.
Qed.

Lemma spanless_rounds o topic n : avoids is_span (publish_rounds o topic n).
Proof. induction n as [|n IH]; cbn [publish_rounds]; [done|]. destruct (rpcS_acks o); avoid; apply IH. Qed.

Lemma entry_point_spans c A (p : prog A) w :
  entry_point c p → obeys span_owes span_next w p (λ _ w', w' = w).
Proof.
  destruct 1; try apply in_span_closed; try apply spanless;
    unfold Start, start_buffer, or_else, start_mem, start_cons, start_rpcS, Stop, Join, join_at,
      statusLocalJSON, Status, status_local, AppWrite, leader_by_status, handleAppWrite, Publish, fan_out,
      handleAppSync, subscribe_round, retry_tick, membership_event, reconcileMembers, leader_observed,
      election_tick, applyAddNode, applyRemoveNode, removeServer, isLeader; avoid;
    unfold applyAddNode, applyRemoveNode, leaderMgmt, lookupMemberAddr, isLeader; avoid; apply spanless_rounds.
Qed.

(** Every execution of the facade that returns has ended the spans it started, the last one
    first, and leaves those of its caller, the handler of the management server, open. *)
Theorem facade_spans_nest c A (p : prog A) tr a stack :
  entry_point c p → exec p tr (Some a) → open_spans (spans tr) stack = Some stack.
Proof.
  intros Hp He. destruct (obeys_exec _ _ _ _ _ _ _ (entry_point_spans c A p stack Hp) He) as [Ho Ha].
  rewrite (spans_open tr stack Ho). f_equal. by apply (Ha a).
Qed.

(** ** Witnesses *)

Lemma log_tells_reconfigurations_witness :
  reconfigurations demo_join_calls = [Added "n2" "h2:9520" None] ∧
  ∃ out, length (lines_of out) = 1.
Proof.
  destruct (log_tells_reconfigurations demo_node _ (handleJoin (opts demo_node) (mkJoinRequest "n2" "h2:9520"))
    demo_join_calls (mkJoinResponse true EmptyString EmptyString) "logutil.go" (Some demo_logger)
    (demo_logging true) [(demo_time, demo_time)]) as (H1 & st' & out & _ & _ & H2 & _);
    [apply ep_handleJoin|reflexivity|answers|reflexivity..|].
  split; [rewrite <-H1; reflexivity|]. exists out. exact H2.
Defined.

Lemma facade_spans_nest_witness : open_spans (spans demo_join_calls) ["http.join"] = Some ["http.join"].
Proof.
  apply (facade_spans_nest demo_node _ (handleJoin (opts demo_node) (mkJoinRequest "n2" "h2:9520"))
    demo_join_calls (mkJoinResponse true EmptyString EmptyString)); [apply ep_handleJoin|answers].
Defined.
