(* ===== verification/Window.v ===== *)
(** * Back-pressure with concurrent publishers

    [Publish] ([cluster.go], lines 433 to 496) reads the acknowledgements, then the
    sequence under the mutex, and numbers its message in a later critical section: other
    goroutines publish in between.  Here any number of [Publish] calls interleave call by
    call on one replication buffer and one replication service, while acknowledgements
    arrive: the handler stores whatever number a node sends, so the least acknowledged
    number may fall. *)
From S2P Require Import Prelude GoStrings Metrics RepServer Replication Utf8 Json Types.
From S2P Require Import JsonCodec Effects Cluster ClusterSpec.
From stdpp Require Import options.

(** ** The discipline of a publisher *)

(** What a goroutine has read for a topic: the acknowledged sequence, and whether the
    sequence it read after that was within the window and not yet used. *)
Record seen := mkSeen { sn_ack : Z; sn_open : bool }.

Definition seen_none : seen := mkSeen 0 false.

Section discipline.
  Context (W : Z) (t : string).

Definition look {X} (c : call X) : X → seen → seen :=
  match c in call X return X → seen → seen with
  | CAckedAll => λ a _, mkSeen (get0 (default ∅ a) t) false
  | CSeq t' => λ cur s, if decide (t' = t) then mkSeen (sn_ack s) (window_open W cur (sn_ack s)) else s
  | CCommit t' _ => λ _ s, if decide (t' = t) then mkSeen (sn_ack s) false else s
  | _ => λ _ s, s
  end.

(** A message of the topic is numbered only after an open window was seen. *)
Definition commit_owes (X : Type) (c : call X) (s : seen) : Prop :=
  match c with
  | CCommit t' _ => t' = t → sn_open s = true
  | CRestoreBuffer _ => False
  | _ => True
  end.

Definition polite {A} (s : seen) (p : prog A) (Q : A → seen → Prop) : Prop :=
  obeys commit_owes (λ X, look (X:=X)) s p Q.

Lemma polite_bind {A B} s (p : prog A) (f : A → prog B) Q :
  polite s p (λ a s', polite s' (f a) Q) → polite s (p ≫= f) Q.
Proof. apply obeys_bind. Qed.

End discipline.

Arguments polite W t {A} s p Q.

(** The waiting loop leaves with an open window seen for its own topic.  Without
    acknowledgements it compares with zero. *)
Lemma polite_rounds o t topic n s :
  (rpcS_acks o = false → sn_ack s = 0%Z) →
  polite (ReplWindow o) t s (publish_rounds o topic n)
    (λ w s', topic = t → w = Some Proceed → sn_open s' = true).
Proof.
  revert s. induction n as [|n IH]; intros s Hs; cbn [publish_rounds]; [done|].
  assert (∀ s1 acked, (topic = t → sn_ack s1 = from_option (λ a, get0 a topic) 0%Z acked) →
    (rpcS_acks o = false → sn_ack s1 = 0%Z) →
    polite (ReplWindow o) t s1 (cur ← ask (CSeq topic);
      if window_open (ReplWindow o) cur (from_option (λ a, get0 a topic) 0%Z acked)
      then Ret (Some Proceed)
      else cancelled ← ask CWait;
        match cancelled with Some e => Ret (Some (Cancelled e)) | None => publish_rounds o topic n end)
      (λ w s', topic = t → w = Some Proceed → sn_open s' = true)) as Hround.
  { intros s1 acked Ha H0. split; [done|]. intros cur. cbn [look mbind prog_mbind prog_bind].
    destruct (window_open (ReplWindow o) cur (from_option _ _ _)) eqn:Ew.
    - intros -> _. rewrite decide_True by done. cbn [sn_open]. by rewrite (Ha eq_refl), Ew.
    - split; [done|]. intros []; [done|]. cbn [look mbind prog_mbind prog_bind]. apply IH. intros E.
      case_decide; cbn [sn_ack]; auto. }
  destruct (rpcS_acks o) eqn:E.
  - split; [done|]. intros acked. apply (Hround _ acked); [|done]. intros ->. cbn. by destruct acked.
  - apply (Hround s None); [|done]. intros _. cbn. auto.
Qed.

Lemma polite_fan_out o W t topic data s : polite W t s (fan_out o topic data) (λ _ _, True).
Proof.
  unfold fan_out. destruct (has_rpcC o && has_mem o); [|done]. split; [done|]. intros ms. cbn [prog_bind].
  apply (obeys_each _ _ _ _ _ (λ _, True)); [|done]. intros m s' _ _. case_decide; cbn; done.
Qed.

Lemma polite_Publish o t topic data n : polite (ReplWindow o) t seen_none (Publish o topic data n) (λ _ _, True).
Proof.
  assert (∀ s, (topic = t → sn_open s = true) → polite (ReplWindow o) t s
    (s0 ← ask (CCommit topic (default EmptyString data));
     do! CMetricInc ReplicationPublishedTotal [topic]; do! CMetricSet ReplicationSeq [topic] s0;
     n0 ← (if rpcS_broadcast o then ask (CBroadcastWithSeq topic (default EmptyString data) s0) else Ret 0%Z);
     if (0 <? n0)%Z then Ret (Some (None : option string)) else _ ← fan_out o topic data; Ret (Some None))
    (λ _ _, True)) as Hpub.
  { intros s Hs. split; [done|]. intros s0. cbn [prog_bind]. split; [done|]. intros []. split; [done|]. intros [].
    apply polite_bind. eapply obeys_mono with (Q := λ _ _, True); [|by destruct (rpcS_broadcast o)].
    intros k s1 _. destruct (0 <? k)%Z; [done|]. apply polite_bind.
    eapply obeys_mono; [|apply polite_fan_out]. done. }
  unfold Publish, isLeader. apply polite_bind.
  eapply obeys_mono with (Q := λ _ s, s = seen_none); [|by destruct (has_cons o)].
  intros [] s ->; [|done]. apply polite_bind. eapply obeys_mono; [|by apply polite_rounds].
  intros [[]|] s Hs; try done. apply polite_bind.
  eapply obeys_mono with (Q := λ _ s', topic = t → sn_open s' = true).
  - intros [] s1 Hs1. by apply Hpub.
  - destruct (has_app o); cbn; auto.
Qed.

(** ** Publishers on one buffer *)

(** A running [Publish]: its program and, per topic, what it has seen. *)
Record publisher := mkPublisher { pb_prog : prog (option (option string)); pb_seen : string → seen }.

(** The buffer, the replication service, and the running calls.  [sh_past] is history: the
    states the service has been in, the present one first. *)
Record shared := mkShared {
  sh_rep : rep; sh_disk : disk; sh_srv : Server; sh_past : list Server; sh_pubs : list publisher }.

(** The highest the least acknowledged number of a topic has been. *)
Definition peak (t : string) (past : list Server) : Z := foldr (λ x m, Z.max (minAck x t) m) 0%Z past.

Section system.
  Context (o : Options) (dir : string) (w : write_outcome).
  (** the number of calls of [Publish] that may run at the same time *)
  Context (P : nat).

(** The calls that read or write the shared state; all others get any answer and leave it
    alone. *)
Definition answers_call {X} (c : call X) : X → shared → shared → Prop :=
  match c in call X return X → shared → shared → Prop with
  | CAckedAll => λ a s s', a = Some (AckedAll (sh_srv s)) ∧ s' = s
  | CSeq t => λ cur s s', cur = get0 (seq (sh_rep s)) t ∧ s' = s
  | CCommit t data => λ n s s',
      let '(n', r, d) := publish_commit dir w t data (sh_rep s) (sh_disk s) in
      n = n' ∧ s' = mkShared r d (sh_srv s) (sh_past s) (sh_pubs s)
  | _ => λ _ s s', s' = s
  end.

Inductive shared_step : shared → shared → Prop :=
  (** the application calls [Publish] *)
  | sh_spawn topic data n s :
      length (sh_pubs s) < P →
      shared_step s (mkShared (sh_rep s) (sh_disk s) (sh_srv s) (sh_past s)
        (mkPublisher (Publish o topic data n) (λ _, seen_none) :: sh_pubs s))
  (** a call of a running [Publish] *)
  | sh_call s s' ps1 ps2 X (c : call X) k f x :
      sh_pubs s = ps1 ++ mkPublisher (Vis c k) f :: ps2 → answers_call c x s s' →
      shared_step s (mkShared (sh_rep s') (sh_disk s') (sh_srv s') (sh_past s')
        (ps1 ++ mkPublisher (k x) (λ t, look (ReplWindow o) t c x (f t)) :: ps2))
  (** a [Publish] that has returned *)
  | sh_return s ps1 ps2 r f :
      sh_pubs s = ps1 ++ mkPublisher (Ret r) f :: ps2 →
      shared_step s (mkShared (sh_rep s) (sh_disk s) (sh_srv s) (sh_past s) (ps1 ++ ps2))
  (** a node acknowledges any number, higher or lower than before, that is far from
      overflowing *)
  | sh_ack s a m :
      (0 ≤ a_seq a)%Z → (a_seq a + window_of (ReplWindow o) + Z.of_nat P < 2 ^ 63)%Z →
      shared_step s (mkShared (sh_rep s) (sh_disk s) (Ack a (sh_srv s) m).1
        ((Ack a (sh_srv s) m).1 :: sh_past s) (sh_pubs s))
  (** streams come and go and messages are broadcast, which leaves the acknowledgements *)
  | sh_streams s x :
      ack x = ack (sh_srv s) → shared_step s (mkShared (sh_rep s) (sh_disk s) x (x :: sh_past s) (sh_pubs s))
  (** the retry tick forgets messages; the numbers stay *)
  | sh_retry s r d :
      seq r = seq (sh_rep s) → shared_step s (mkShared r d (sh_srv s) (sh_past s) (sh_pubs s)).

(** ** The bound *)

(** Publishers that have seen an open window for the topic and not yet used it. *)
Definition open_count (t : string) (ps : list publisher) : Z :=
  Z.of_nat (length (filter (λ p, sn_open (pb_seen p t) = true) ps)).

(** The largest number a topic may reach: what it had at the start, or the window beyond
    the acknowledged number and one per further concurrent publisher. *)
Definition limit (s0 ack : Z) : Z := Z.max s0 (ack + window_of (ReplWindow o) + Z.of_nat P - 1)%Z.

Definition pub_ok (t : string) (ack : Z) (p : publisher) : Prop :=
  polite (ReplWindow o) t (pb_seen p t) (pb_prog p) (λ _ _, True) ∧ (0 ≤ sn_ack (pb_seen p t) ≤ ack)%Z.

(** The acknowledgements of a topic are far from overflowing. *)
Definition acks_small (t : string) (x : Server) : Prop :=
  ∀ n v, getm (ack x) t !! n = Some v →
    (0 ≤ v)%Z ∧ (v + window_of (ReplWindow o) + Z.of_nat P < 2 ^ 63)%Z.

Record window_inv (t : string) (s0 : Z) (s : shared) : Prop := {
  wi_pubs : Forall (pub_ok t (peak t (sh_past s))) (sh_pubs s);
  wi_number : length (sh_pubs s) ≤ P;
  wi_acks : acks_small t (sh_srv s);
  wi_now : (0 ≤ minAck (sh_srv s) t ≤ peak t (sh_past s))%Z;
  wi_peak : (limit s0 (peak t (sh_past s)) < 2 ^ 63)%Z;
  wi_seq : (0 ≤ get0 (seq (sh_rep s)) t)%Z;
  wi_bound : (get0 (seq (sh_rep s)) t + open_count t (sh_pubs s) ≤ limit s0 (peak t (sh_past s)))%Z;
}.

Lemma window_pos : (1 ≤ window_of (ReplWindow o))%Z.
Proof using Type. unfold window_of. destruct (Z.leb_spec (ReplWindow o) 0); lia. Qed.

Lemma min_small t x :
  acks_small t x →
  minAck x t = 0%Z ∨ (0 ≤ minAck x t)%Z ∧ (minAck x t + window_of (ReplWindow o) + Z.of_nat P < 2 ^ 63)%Z.
Proof using Type.
  intros Hx. destruct (minAck_is_min x t) as [[_ ->]|[[n Hn] _]]; [by left|right]. by apply (Hx n).
Qed.

Lemma acks_small_Ack t a x m :
  acks_small t x → (0 ≤ a_seq a)%Z → (a_seq a + window_of (ReplWindow o) + Z.of_nat P < 2 ^ 63)%Z →
  acks_small t (Ack a x m).1.
Proof using Type.
  intros Hx H0 H1. unfold Ack. case_decide; [done|]. destruct (min_loop _ _ _) as [first mn].
  assert (acks_small t (mkServer (srv x) (subs x) (rseq x)
    (<[a_topic a := <[a_node a := a_seq a]> (getm (ack x) (a_topic a))]> (ack x)))); [|by destruct (_ && _)].
  intros n v. cbn [ack]. destruct (decide (t = a_topic a)) as [->|Hne].
  - rewrite getm_insert_eq. intros [[_ <-]|[_ ?]]%lookup_insert_Some; [done|by apply (Hx n)].
  - rewrite getm_insert_ne by done. apply Hx.
Qed.

Lemma window_open_spec W cur ack :
  (0 ≤ cur < 2 ^ 63)%Z → (0 ≤ ack < 2 ^ 63)%Z → window_open W cur ack = (cur - ack <? window_of W)%Z.
Proof.
  intros Hc Ha. unfold window_open. destruct (Z.le_gt_cases ack cur).
  - rewrite u64_small by (unfold is_u64, w64; lia). by rewrite int_of_u64_small by lia.
  - assert (u64 (cur - ack) = cur - ack + w64)%Z as ->.
    { unfold u64. rewrite <-(Z_mod_plus_full _ 1), Z.mul_1_l. apply Z.mod_small. unfold w64. lia. }
    unfold int_of_u64. rewrite (proj2 (Z.ltb_ge (cur - ack + w64) (2 ^ 63))) by (unfold w64; lia).
    f_equal. lia.
Qed.

Lemma open_count_app t ps1 p ps2 :
  open_count t (ps1 ++ p :: ps2) =
  (open_count t ps1 + (if sn_open (pb_seen p t) then 1 else 0) + open_count t ps2)%Z.
Proof.
  unfold open_count. rewrite filter_app, filter_cons, length_app.
  destruct (sn_open (pb_seen p t)); [rewrite decide_True by done|rewrite decide_False by done]; cbn [length]; lia.
Qed.

Lemma open_count_le t ps : (0 ≤ open_count t ps ≤ Z.of_nat (length ps))%Z.
Proof. unfold open_count. pose proof (length_filter (λ p, sn_open (pb_seen p t) = true) ps). lia. Qed.

Lemma limit_mono s0 a a' : (a ≤ a')%Z → (limit s0 a ≤ limit s0 a')%Z.
Proof. unfold limit. lia. Qed.

(** The calls that matter for a topic, and what they change. *)
Lemma answers_call_cases {X} (c : call X) x s s' t (sn : seen) :
  answers_call c x s s' → commit_owes t X c sn →
  (sh_srv s' = sh_srv s ∧ sh_past s' = sh_past s) ∧
  (look (ReplWindow o) t c x sn = sn ∧ get0 (seq (sh_rep s')) t = get0 (seq (sh_rep s)) t ∨
   look (ReplWindow o) t c x sn = mkSeen (minAck (sh_srv s) t) false ∧ sh_rep s' = sh_rep s ∨
   look (ReplWindow o) t c x sn =
     mkSeen (sn_ack sn) (window_open (ReplWindow o) (get0 (seq (sh_rep s)) t) (sn_ack sn)) ∧
     sh_rep s' = sh_rep s ∨
   look (ReplWindow o) t c x sn = mkSeen (sn_ack sn) false ∧ sn_open sn = true ∧
     get0 (seq (sh_rep s')) t = u64 (get0 (seq (sh_rep s)) t + 1)).
Proof.
  destruct c; cbn; try (intros -> _; split; [done|by left]).
  - intros [-> ->] _. split; [done|]. cbn. rewrite get0_AckedAll. auto.
  - intros [-> ->] _. split; [done|]. case_decide; [subst; auto 6|auto].
  - intros [-> ->] Ho. cbn. split; [done|]. case_decide as E.
    + subst. right; right; right. rewrite get0_insert_eq. auto.
    + left. by rewrite get0_insert_ne.
Qed.

Lemma pub_ok_mono t a a' ps : (a ≤ a')%Z → Forall (pub_ok t a) ps → Forall (pub_ok t a') ps.
Proof. intros Hle H. eapply Forall_impl; [exact H|]. intros p [? ?]. split; [done|lia]. Qed.

Lemma window_inv_call t s0 s s' ps1 ps2 X (c : call X) k f x :
  window_inv t s0 s → sh_pubs s = ps1 ++ mkPublisher (Vis c k) f :: ps2 → answers_call c x s s' →
  window_inv t s0 (mkShared (sh_rep s') (sh_disk s') (sh_srv s') (sh_past s')
    (ps1 ++ mkPublisher (k x) (λ t, look (ReplWindow o) t c x (f t)) :: ps2)).
Proof.
  intros [Hp Hn Hm Ha Hl Hs Hb] E Hc. rewrite E in Hp, Hn, Hb.
  apply Forall_app in Hp as [Hp1 [[[Ho Hk] Hf] Hp2]%Forall_cons]. cbn [pb_seen pb_prog] in *.
  rewrite open_count_app in Hb. cbn [pb_seen] in Hb. rewrite length_app in Hn. cbn [length] in Hn.
  pose proof (open_count_le t ps1). pose proof (open_count_le t ps2).
  pose proof Hl as Hl'. unfold limit in Hl'.
  assert (0 ≤ (if sn_open (f t) then 1 else 0))%Z as Hif by (by destruct (sn_open (f t))).
  pose proof window_pos.
  destruct (answers_call_cases c x s s' t (f t) Hc Ho) as [[Esrv Epast] Hcase].
  assert (∀ sn', look (ReplWindow o) t c x (f t) = sn' → (0 ≤ sn_ack sn' ≤ peak t (sh_past s))%Z →
    (0 ≤ get0 (seq (sh_rep s')) t)%Z →
    (get0 (seq (sh_rep s')) t + (open_count t ps1 + (if sn_open sn' then 1 else 0) + open_count t ps2) ≤
      limit s0 (peak t (sh_past s)))%Z →
    window_inv t s0 (mkShared (sh_rep s') (sh_disk s') (sh_srv s') (sh_past s')
      (ps1 ++ mkPublisher (k x) (λ t, look (ReplWindow o) t c x (f t)) :: ps2))) as Hdone.
  { intros sn' El Hsn Hs' Hb'. split; cbn [sh_rep sh_srv sh_past sh_pubs]; rewrite ?Esrv, ?Epast; [|by rewrite length_app|done..|].
    - apply Forall_app. split; [done|]. apply Forall_cons. split; [|done]. split; cbn [pb_seen pb_prog]; [apply Hk|].
      by rewrite El.
    - rewrite open_count_app. cbn [pb_seen]. by rewrite El. }
  destruct Hcase as [[El Er]|[[El Er]|[[El Er]|(El & Eo & Er)]]]; (eapply Hdone; [exact El|cbn [sn_ack]..]).
  all: rewrite ?Er; try (done || lia).
  - cbn [sn_open]. destruct (sn_open (f t)); lia.
  - cbn [sn_open]. rewrite window_open_spec by lia.
    destruct (Z.ltb_spec (get0 (seq (sh_rep s)) t - sn_ack (f t)) (window_of (ReplWindow o)));
      [|destruct (sn_open (f t)); lia]. unfold limit. lia.
  - apply u64_is_u64.
  - rewrite Eo in Hb. rewrite u64_small by (unfold is_u64, w64; lia). cbn [sn_open]. lia.
Qed.

(** A new state of the service. *)
Lemma window_inv_srv t s0 s x :
  window_inv t s0 s → acks_small t x →
  window_inv t s0 (mkShared (sh_rep s) (sh_disk s) x (x :: sh_past s) (sh_pubs s)).
Proof using Type.
  intros [Hp Hn Hm Ha Hl Hs Hb] Hx. pose proof (min_small t x Hx) as Hmin. pose proof window_pos.
  assert (peak t (x :: sh_past s) = Z.max (minAck x t) (peak t (sh_past s))) as Ep by done.
  assert (peak t (sh_past s) ≤ peak t (x :: sh_past s))%Z as Hle by lia.
  pose proof (limit_mono s0 _ _ Hle).
  split; cbn [sh_rep sh_srv sh_past sh_pubs]; [by eapply pub_ok_mono|done|done|lia| |done|lia].
  unfold limit in *. lia.
Qed.

Lemma window_inv_step t s0 s s' : window_inv t s0 s → shared_step s s' → window_inv t s0 s'.
Proof using Type.
  intros Hi Hs. destruct Hs as [topic data n s Hlt|s s' ps1 ps2 X c k f x E Hc|s ps1 ps2 r f E|s a m H0 H1|s x Ex|s r d Er].
  - destruct Hi as [Hp Hn Hm Ha Hl Hs Hb]. split; cbn [sh_rep sh_srv sh_past sh_pubs length]; [|lia|done..|].
    + apply Forall_cons. split; [|done]. split; cbn; [apply polite_Publish|]. lia.
    + change (mkPublisher ?p ?f :: sh_pubs s) with ([] ++ mkPublisher p f :: sh_pubs s).
      rewrite open_count_app. cbn [pb_seen]. change (open_count t []) with 0%Z. cbn. lia.
  - by eapply window_inv_call.
  - destruct Hi as [Hp Hn Hm Ha Hl Hs Hb]. rewrite E in *. rewrite length_app in Hn. cbn in Hn.
    apply Forall_app in Hp as [Hp1 [_ Hp2]%Forall_cons].
    split; cbn [sh_rep sh_srv sh_past sh_pubs]; [by apply Forall_app|rewrite length_app; lia|done..|].
    rewrite open_count_app in Hb. cbn [pb_seen] in Hb. unfold open_count in *. rewrite filter_app, length_app.
    destruct (sn_open (f t)); lia.
  - apply window_inv_srv; [done|]. apply acks_small_Ack; [by destruct Hi|done..].
  - apply window_inv_srv; [done|]. intros n v. rewrite Ex. apply (wi_acks _ _ _ Hi).
  - destruct Hi as [Hp Hn Hm Ha Hl Hs Hb]. split; cbn [sh_rep sh_srv sh_past sh_pubs]; rewrite ?Er; done.
Qed.

(** C7. The window bounds what is in flight.  However many calls of [Publish] run at the
    same time, at most [P], and however their steps, the acknowledgements (of any number,
    also lower ones than before) and the retry ticks interleave, the numbers assigned on a
    topic never go more than the window and one less than [P] beyond the highest value the
    least acknowledged number has had, unless they started beyond it: a single publisher
    keeps to the window, and each further one may overshoot it by one. *)
Theorem window_bound r d x t s :
  (0 ≤ get0 (seq r) t)%Z → acks_small t x → (limit (get0 (seq r) t) (minAck x t) < 2 ^ 63)%Z →
  rtc shared_step (mkShared r d x [x] []) s →
  (get0 (seq (sh_rep s)) t ≤
    Z.max (get0 (seq r) t) (peak t (sh_past s) + window_of (ReplWindow o) + Z.of_nat P - 1))%Z.
Proof using Type.
  intros Hr Hx Hl Hs. assert (window_inv t (get0 (seq r) t) s) as [_ _ _ _ _ _ Hb].
  { revert Hs. apply rtc_ind_r; [|intros s1 s2 _ H12 Hi; by eapply window_inv_step].
    pose proof (min_small t x Hx). pose proof window_pos. unfold limit in *.
    split; cbn [sh_rep sh_srv sh_past sh_pubs length peak foldr]; [by apply Forall_nil|lia|done|lia|unfold limit; lia|done|].
    change (open_count t []) with 0%Z. unfold limit. lia. }
  pose proof (open_count_le t (sh_pubs s)). unfold limit in Hb. lia.
Qed.

End system.

(** ** Termination of the waiting loop *)

Definition wait_call X (c : call X) : X → option () :=
  match c in call X return X → option () with
  | CWait => λ cancelled, if cancelled then None else Some ()
  | _ => λ _, None
  end.

(** How often an execution waited and found its context alive. *)
Definition waits (tr : list action) : nat := length (select wait_call tr).

Lemma waits_app tr1 tr2 : waits (tr1 ++ tr2) = waits tr1 + waits tr2.
Proof. unfold waits. by rewrite select_app, length_app. Qed.

(** The body of a round, before the loop goes on. *)
Lemma rounds_cases o topic n tr w :
  exec (publish_rounds o topic (S n)) tr (Some w) →
  ∃ tr1 tr2, tr = tr1 ++ tr2 ∧
    ((is_Some w ∧ tr2 = [] ∧ waits tr1 = 0 ∧ ∀ m, exec (publish_rounds o topic (S m)) tr1 (Some w)) ∨
     (waits tr1 = 1 ∧ exec (publish_rounds o topic n) tr2 (Some w) ∧
      ∀ m tr' w', exec (publish_rounds o topic m) tr' (Some w') →
        exec (publish_rounds o topic (S m)) (tr1 ++ tr') (Some w'))).
Proof.
  cbn [publish_rounds]. intros H. apply exec_bind in H as [(t1 & t2 & acked & -> & H1 & H)|[? _]]; [|done].
  assert (waits t1 = 0) as Hw1 by (destruct (rpcS_acks o); walk; done).
  cbn [mbind prog_mbind prog_bind ask exec] in H. destruct H as (cur & t3 & -> & H).
  assert (∀ m tr' w', exec (if window_open (ReplWindow o) cur (from_option (λ a, get0 a topic) 0%Z acked)
      then Ret (Some Proceed) else cancelled ← ask CWait;
        match cancelled with Some e => Ret (Some (Cancelled e)) | None => publish_rounds o topic m end) tr' (Some w') →
    exec (publish_rounds o topic (S m)) (t1 ++ Act (CSeq topic) cur :: tr') (Some w')) as Hround.
  { intros m tr' w' Hr. cbn [publish_rounds]. apply exec_bind. left.
    exists t1, (Act (CSeq topic) cur :: tr'), acked. split_and!; [done..|]. cbn. by exists cur, tr'. }
  destruct (window_open _ cur _).
  - destruct H as [-> [= ->]]. exists (t1 ++ [Act (CSeq topic) cur]), []. split; [by rewrite app_nil_r|]. left.
    split_and!; [by eexists|done|by rewrite waits_app, Hw1|]. intros m. by apply Hround.
  - cbn [mbind prog_mbind prog_bind ask exec] in H. destruct H as ([e|] & t4 & -> & H).
    + destruct H as [-> [= ->]]. exists (t1 ++ [Act (CSeq topic) cur; Act CWait (Some e)]), []. split; [by rewrite app_nil_r|].
      left. split_and!; [by eexists|done|by rewrite waits_app, Hw1|]. intros m. apply Hround. by exists (Some e), [].
    + exists (t1 ++ [Act (CSeq topic) cur; Act CWait None]), t4. split; [by rewrite <-app_assoc|]. right.
      split_and!; [by rewrite waits_app, Hw1|done|]. intros m tr' w' Hr. rewrite <-app_assoc. apply Hround. by exists None, tr'.
Qed.

Lemma rounds_fuel o topic n tr w :
  exec (publish_rounds o topic n) tr (Some w) →
  (w = None → waits tr = n) ∧ (is_Some w → waits tr < n ∧ ∀ m, exec (publish_rounds o topic (n + m)) tr (Some w)).
Proof.
  revert tr. induction n as [|n IH]; intros tr H.
  { destruct H as [-> [= ->]]. split; [done|]. by intros [? ?]. }
  apply rounds_cases in H as (tr1 & tr2 & -> & [(Hw & -> & H0 & Hm)|(H1 & H2 & Hm)]).
  - rewrite app_nil_r. split; [destruct Hw; congruence|]. intros _. split; [lia|]. intros m. apply (Hm (n + m)).
  - destruct (IH tr2 H2) as [IH1 IH2]. rewrite waits_app. split; [intros E; rewrite (IH1 E); lia|].
    intros Hw. destruct (IH2 Hw) as [? ?]. split; [lia|]. intros m. cbn [Nat.add]. by apply Hm.
Qed.

(** Once the loop has let the message through, [Publish] returns. *)
Lemma rounds_result o topic n tr w : exec (publish_rounds o topic n) tr (Some (Some w)) → w ≠ Blocked.
Proof.
  revert tr. induction n as [|n IH]; intros tr H; cbn [publish_rounds] in H; [by destruct H|].
  apply exec_bind in H as [(t1 & t2 & acked & -> & _ & H)|[? _]]; [|done].
  cbn [mbind prog_mbind prog_bind ask exec] in H. destruct H as (cur & t3 & -> & H).
  destruct (window_open _ _ _); [by destruct H as [_ [= ->]]|].
  cbn [mbind prog_mbind prog_bind ask exec] in H. destruct H as ([] & t4 & -> & H); [by destruct H as [_ [= ->]]|].
  eauto.
Qed.

Lemma proceed_returns o topic data tr r :
  exec (_ ← (if has_app o then do! CHandleSync topic data; Ret () else Ret ());
        s ← ask (CCommit topic (default EmptyString data));
        do! CMetricInc ReplicationPublishedTotal [topic];
        do! CMetricSet ReplicationSeq [topic] s;
        n ← (if rpcS_broadcast o
             then ask (CBroadcastWithSeq topic (default EmptyString data) s) else Ret 0%Z);
        if (0 <? n)%Z then Ret (Some (None : option string))
        else _ ← fan_out o topic data; Ret (Some None)) tr (Some r) → r = Some None.
Proof.
  intros H. apply exec_bind in H as [(t1 & t2 & [] & -> & _ & H)|[? _]]; [|done].
  cbn [mbind prog_mbind prog_bind ask exec] in H.
  destruct H as (s & t3 & -> & [] & t4 & -> & [] & t5 & -> & H).
  apply exec_bind in H as [(t6 & t7 & k & -> & _ & H)|[? _]]; [|done].
  destruct (0 <? k)%Z; [by destruct H as [_ [= ->]]|].
  apply exec_bind in H as [(t8 & t9 & [] & -> & _ & H)|[? _]]; [|done]. by destruct H as [_ [= ->]].
Qed.

Lemma publish_outcome o topic data n tr r :
  exec (Publish o topic data n) tr (Some r) →
  match r with
  | None => waits tr = n
  | Some _ => ∀ m, exec (Publish o topic data (n + m)) tr (Some r)
  end.
Proof.
  unfold Publish. intros H. apply exec_bind in H as [(t1 & t2 & led & -> & H1 & H)|[? _]]; [|done].
  assert (waits t1 = 0) as Hw by (unfold isLeader in H1; destruct (has_cons o); walk; done).
  destruct led.
  2: { destruct H as [-> [= ->]]. intros m. apply exec_bind. left. by exists t1, [], false. }
  apply exec_bind in H as [(t3 & t4 & w & -> & H2 & H)|[? _]]; [|done].
  pose proof (rounds_fuel _ _ _ _ _ H2) as [Hn Hs]. destruct w as [w|].
  2: { destruct H as [-> [= ->]]. by rewrite app_nil_r, waits_app, Hw, Hn. }
  destruct Hs as [_ Hm]; [by eexists|]. apply rounds_result in H2.
  assert (is_Some r) as [e ->].
  { destruct w; [apply proceed_returns in H|destruct H as [_ [= ->]]|]; subst; by eauto. }
  intros m. apply exec_bind. left. exists t1, (t3 ++ t4), true. split_and!; [done..|].
  apply exec_bind. left. by exists t3, t4, (Some w).
Qed.

(** C19. [Publish] returns: an execution of at most [n] rounds that waited fewer than [n]
    times with its context alive has returned (so a context that is done by the [k]-th wait
    makes [k] rounds enough, and a window that opens makes enough the rounds up to it); one that
    has not returned waited in every round; and more rounds change nothing, neither the
    calls nor the result. *)
Theorem publish_returns o topic data n tr r :
  exec (Publish o topic data n) tr (Some r) →
  (waits tr < n → is_Some r) ∧ (r = None → waits tr = n) ∧
  (is_Some r → ∀ m, exec (Publish o topic data (n + m)) tr (Some r)).
Proof.
  intros H. assert (match r with None => waits tr = n
    | Some _ => ∀ m, exec (Publish o topic data (n + m)) tr (Some r) end) as Hr by by apply publish_outcome.
  destruct r as [e|]; split_and!; [by eauto|done|by intros _|lia|done|by intros [? ?]].
Qed.

(** ** Witnesses *)

(** A leader with a window of one. *)
Definition narrow_opts : Options :=
  mkOptions "n1" true true true true true true true true false false true false false
    1 EmptyString false false false.

(** Evaluate the programs and the state, but not the window. *)
Ltac tidy := cbn -[window_open u64 get0 insert].

(** Two publishers that both find the window open: the bound is reached. *)
Lemma overshoot_reachable :
  ∃ s, rtc (shared_step narrow_opts EmptyString Written 2) (mkShared rep_new ∅ NewServer [NewServer] []) s ∧
    get0 (seq (sh_rep s)) "t" = 2%Z ∧ peak "t" (sh_past s) = 0%Z.
Proof.
  eexists. split.
  - eapply rtc_l; [apply (sh_spawn _ _ _ _ "t" (Some "x") 1); cbn; lia|].
    eapply rtc_l; [apply (sh_spawn _ _ _ _ "t" (Some "x") 1); cbn; lia|]. tidy.
    eapply rtc_l; [eapply (sh_call _ _ _ _ _ _ [] _ bool) with (x := true); reflexivity|]. tidy.
    eapply rtc_l; [eapply (sh_call _ _ _ _ _ _ [_] [] bool) with (x := true); reflexivity|]. tidy.
    eapply rtc_l; [eapply (sh_call _ _ _ _ _ _ [] _ Z) with (x := 0%Z); [reflexivity|split; reflexivity]|]. tidy.
    eapply rtc_l; [eapply (sh_call _ _ _ _ _ _ [_] [] Z) with (x := 0%Z); [reflexivity|split; reflexivity]|]. tidy.
    eapply rtc_l; [eapply (sh_call _ _ _ _ _ _ [] _ Z) with (x := 1%Z); [reflexivity|split; reflexivity]|]. tidy.
    eapply rtc_l; [eapply (sh_call _ _ _ _ _ _ [_] [] Z) with (x := 2%Z); [reflexivity|split; reflexivity]|]. tidy.
    apply rtc_refl.
  - cbn [sh_rep sh_past seq]. rewrite !get0_insert_eq. split; reflexivity.
Qed.

(** The bound is on the highest acknowledgement and not on the present one: a topic at five
    with a window of one, all acknowledged by the only node; a message gets number six, and
    then the node acknowledges an old message that was sent to it again.  Now five messages
    are unacknowledged with one publisher and a window of one. *)
Definition acked_opts : Options :=
  mkOptions "n1" true true true true true true true true true true true false false
    1 EmptyString false false false.

Definition all_acked : Server := (Ack (mkRepAck "t" 5 "b") (server_start NewServer) ∅).1.
Definition rep_at_five : rep := mkRep {["t" := 5%Z]} ∅.

Lemma stale_ack_widens :
  ∃ s, rtc (shared_step acked_opts EmptyString Written 1) (mkShared rep_at_five ∅ all_acked [all_acked] []) s ∧
    get0 (seq (sh_rep s)) "t" = 6%Z ∧ minAck (sh_srv s) "t" = 1%Z.
Proof.
  eexists. split.
  - eapply rtc_l; [apply (sh_spawn _ _ _ _ "t" (Some "x") 1); cbn; lia|]. tidy.
    eapply rtc_l; [eapply (sh_call _ _ _ _ _ _ [] _ bool) with (x := true); reflexivity|]. tidy.
    eapply rtc_l; [eapply (sh_call _ _ _ _ _ _ [] _ (option _)); [reflexivity|split; reflexivity]|]. tidy.
    eapply rtc_l; [eapply (sh_call _ _ _ _ _ _ [] _ Z) with (x := 5%Z); [reflexivity|split; reflexivity]|]. tidy.
    assert (window_open 1 5 (get0 (AckedAll all_acked) "t") = true) as -> by (vm_compute; reflexivity). tidy.
    eapply rtc_l; [eapply (sh_call _ _ _ _ _ _ [] _ Z) with (x := 6%Z); [reflexivity|split; reflexivity]|]. tidy.
    eapply rtc_l; [apply (sh_ack _ _ _ _ _ (mkRepAck "t" 1 "b") ∅); cbn; lia|].
    apply rtc_refl.
  - split; vm_compute; reflexivity.
Qed.

Lemma window_bound_witness :
  ∃ s, get0 (seq (sh_rep s)) "t" = 2%Z ∧
    (get0 (seq (sh_rep s)) "t" ≤ Z.max 0 (peak "t" (sh_past s) + 1 + Z.of_nat 2 - 1))%Z.
Proof.
  destruct overshoot_reachable as (s & Hs & Hq & _). exists s. split; [exact Hq|].
  apply (window_bound narrow_opts EmptyString Written 2 rep_new ∅ NewServer "t" s);
    [vm_compute; discriminate| |vm_compute; reflexivity|exact Hs].
  intros n v. unfold getm, NewServer. cbn [ack]. rewrite lookup_empty. cbn [default]. by rewrite lookup_empty.
Defined.

(** One wait while the window is full, then the context is done. *)
Definition cancelled_wait : list action :=
  [Act CIsLeader true; Act (CSeq "t") 1%Z; Act CWait None; Act (CSeq "t") 1%Z; Act CWait (Some "context deadline exceeded")].

Lemma publish_returns_witness :
  exec (Publish narrow_opts "t" None 7) cancelled_wait (Some (Some (Some "context deadline exceeded"))).
Proof.
  apply (publish_returns narrow_opts "t" None 2 cancelled_wait (Some (Some "context deadline exceeded"))) with (m := 5);
    [|by eexists].
  unfold cancelled_wait. cbn. repeat (eexists; eexists; split; [reflexivity|]; cbn). done.
Defined.
