(* ===== verification/ReplRefine.v ===== *)
(** * The code refines the replication protocol

    [ReplProtocol] splits [Publish] and the retry loop into steps by hand.  Here the
    programs of the facade themselves, [Cluster.Publish] and [Cluster.retry_tick], run as
    goroutines on the leader's store, call by call, beside followers that subscribe, read,
    acknowledge and break off; and every run of them is a run of the protocol.  The
    management server is the gRPC one: it has [AckedAll] and [BroadcastWithSeq]. *)
From S2P Require Import Prelude GoStrings Metrics RepServer Replication ReplProtocol Utf8 Json.
From S2P Require Import Types JsonCodec Effects Cluster ClusterSpec.
From stdpp Require Import options.

(** ** The course of the programs *)

(** Where a call of [Publish] is in the protocol: not yet in it, at a point, or out of it. *)
Inductive ppc : Type := PNew | PAt (pc : pubpc) | PDone.

(** The same of a tick of the retry loop. *)
Inductive tpc : Type := KNew | KRead (acked : gmap string Z) | KSend (out : list (string * bytes * Z)).

Section course.
  Context (W : Z) (t : string) (d : bytes).

Definition pub_next X (c : call X) : X → ppc → ppc :=
  match c in call X return X → ppc → ppc with
  | CAckedAll => λ a _, PAt (Polled t d (default ∅ a))
  | CSeq _ => λ cur pc,
      match pc with
      | PAt (Polled _ _ a) => PAt (if window_open W cur (get0 a t) then Ready t d else Waiting t d)
      | _ => pc
      end
  | CWait => λ cancelled pc, if cancelled then PDone else pc
  | CCommit _ _ => λ s _, PAt (Committed t d s)
  | CBroadcastWithSeq _ _ _ => λ _ _, PDone
  | _ => λ _ pc, pc
  end.

Definition pub_owes X (c : call X) (pc : ppc) : Prop :=
  match c with
  | CAckedAll => pc = PNew ∨ pc = PAt (Waiting t d)
  | CSeq t' => t' = t ∧ ∃ a, pc = PAt (Polled t d a)
  | CWait => pc = PAt (Waiting t d)
  | CCommit t' d' => t' = t ∧ d' = d ∧ pc = PAt (Ready t d)
  | CBroadcastWithSeq t' d' s => t' = t ∧ d' = d ∧ pc = PAt (Committed t d s)
  | CRetryPass _ | CRestoreBuffer _ => False
  | _ => True
  end.

(** A call that has returned is not in the protocol any more. *)
Definition pub_left (r : option (option string)) (pc : ppc) : Prop := is_Some r → pc = PNew ∨ pc = PDone.

Definition pub_follows (pc : ppc) (p : prog (option (option string))) : Prop :=
  obeys pub_owes pub_next pc p pub_left.

End course.

Definition tick_next X (c : call X) : X → tpc → tpc :=
  match c in call X return X → tpc → tpc with
  | CAckedAll => λ a _, KRead (default ∅ a)
  | CRetryPass _ => λ out _, KSend out
  | CBroadcastWithSeq _ _ _ => λ _ pc, match pc with KSend out => KSend (tail out) | _ => pc end
  | _ => λ _ pc, pc
  end.

Definition tick_owes X (c : call X) (pc : tpc) : Prop :=
  match c with
  | CAckedAll => pc = KNew
  | CRetryPass acked => pc = KRead acked
  | CBroadcastWithSeq t d s => ∃ out, pc = KSend ((t, d, s) :: out)
  | CIsLeader => True
  | _ => False
  end.

Definition tick_left (_ : unit) (pc : tpc) : Prop := pc = KNew ∨ pc = KSend [].

Definition tick_follows (pc : tpc) (p : prog unit) : Prop := obeys tick_owes tick_next pc p tick_left.

(** ** The programs follow it *)

Lemma rounds_follow o t d n pc :
  rpcS_acks o = true → (pc = PNew ∨ pc = PAt (Waiting t d)) →
  obeys (pub_owes t d) (pub_next (ReplWindow o) t d) pc (publish_rounds o t n)
    (λ w pc', match w with
              | Some Proceed => pc' = PAt (Ready t d)
              | Some (Cancelled _) => pc' = PDone
              | _ => True
              end).
Proof.
  intros Ea. revert pc. induction n as [|n IH]; intros pc Hpc; cbn [publish_rounds]; [done|].
  rewrite Ea. cbn [mbind prog_mbind prog_bind ask obeys]. split; [done|]. intros acked. cbn [pub_next].
  cbn [obeys]. split; [split; [done|by eexists]|]. intros cur. cbn [pub_next].
  assert (from_option (λ a, get0 a t) 0%Z acked = get0 (default ∅ acked) t) as -> by by destruct acked.
  destruct (window_open _ _ _); [done|]. cbn [mbind prog_mbind prog_bind ask obeys]. split; [done|].
  intros []; [done|]. cbn [pub_next]. apply IH. by right.
Qed.

Lemma fan_out_follows o W t d topic data :
  obeys (pub_owes t d) (pub_next W t d) PDone (fan_out o topic data) (λ _ pc, pc = PDone).
Proof.
  unfold fan_out. destruct (has_rpcC o && has_mem o); [|done]. split; [done|]. intros ms. cbn [prog_bind pub_next].
  apply (obeys_each _ _ _ _ _ (λ pc, pc = PDone)); [|done]. intros m pc _ ->. by case_decide.
Qed.

Lemma Publish_follows o t data n :
  rpcS_acks o = true → rpcS_broadcast o = true →
  pub_follows (ReplWindow o) t (default EmptyString data) PNew (Publish o t data n).
Proof.
  intros Ea Eb. unfold pub_follows, Publish, isLeader. apply obeys_bind.
  eapply obeys_mono with (Q := λ _ pc, pc = PNew); [|by destruct (has_cons o)].
  intros [] pc ->; [|by left]. apply obeys_bind.
  eapply obeys_mono; [|apply rounds_follow; [done|by left]].
  intros [[]|] pc Hpc; [subst pc|by right|by intros [? ?]..]. apply obeys_bind.
  eapply obeys_mono with (Q := λ _ pc, pc = PAt (Ready t (default EmptyString data))); [|by destruct (has_app o)].
  intros [] pc ->. rewrite Eb. split; [done|]. intros s. cbn [prog_bind pub_next]. split; [done|]. intros [].
  split; [done|]. intros []. split; [done|]. intros k. cbn [pub_next prog_mbind prog_bind].
  destruct (0 <? k)%Z; [intros _; by right|]. apply obeys_bind. eapply obeys_mono; [|apply fan_out_follows].
  intros _ pc -> _. by right.
Qed.

Lemma retry_tick_follows o :
  rpcS_acks o = true → rpcS_broadcast o = true → tick_follows KNew (retry_tick o).
Proof.
  intros Ea Eb. unfold tick_follows, retry_tick, isLeader. rewrite Ea, Eb. apply obeys_bind.
  eapply obeys_mono with (Q := λ _ pc, pc = KNew); [|by destruct (has_cons o)].
  intros [] pc ->; [|by left]. split; [done|]. intros acked. cbn [prog_bind tick_next]. split; [done|].
  intros out. cbn [tick_next prog_bind]. induction out as [|[[t d] s] out IH]; cbn [each]; [by right|].
  split; [by eexists|]. intros k. cbn [prog_bind tick_next tail]. apply IH.
Qed.

(** ** The running code *)

(** What the goroutines share. *)
Record store := mkStore {
  so_leader : rep;
  so_server : Server;
  so_mets : Metrics;
  so_streams : gmap nat subinfo;
}.

(** A running call of [Publish], with its place in the protocol. *)
Record pthread := mkPthread {
  pt_topic : string;
  pt_data : bytes;
  pt_prog : prog (option (option string));
  pt_pc : ppc;
}.

(** The retry loop is between two ticks or in one. *)
Record code := mkCode {
  cd_store : store;
  cd_pubs : list pthread;
  cd_tick : option (prog unit * tpc);
}.

Definition code_init : code := mkCode (mkStore rep_new (server_start NewServer) ∅ ∅) [] None.

(** The tick holds the mutex from its pass over the buffers to its end. *)
Definition locked (c : code) : bool :=
  match cd_tick c with Some (_, KSend _) => true | _ => false end.

Definition set_leader (r : rep) (s : store) : store := mkStore r (so_server s) (so_mets s) (so_streams s).
Definition set_server (srv : Server) (mt : Metrics) (str : gmap nat subinfo) (s : store) : store :=
  mkStore (so_leader s) srv mt str.

(** [BroadcastWithSeq]: the streams that accept the message get it. *)
Definition store_broadcast (send_ok : nat → bool) (m : repMsg) (s : store) : Z * store :=
  let '(srv, mt, sent, k) :=
    BroadcastWithSeq send_ok (m_topic m) (m_data m) (m_seq m) (so_server s) (so_mets s) in
  (k, set_server srv mt (map_imap (λ σ i, Some (if decide (σ ∈ sent) then push m i else i)) (so_streams s)) s).

(** The calls on the store; [lk] says whether another goroutine holds the mutex.  All
    other calls get any answer and leave the store alone. *)
Definition answer (lk : bool) {X} (c : call X) : X → store → store → Prop :=
  match c in call X return X → store → store → Prop with
  | CAckedAll => λ a s s', a = Some (AckedAll (so_server s)) ∧ s' = s
  | CSeq t => λ cur s s', lk = false ∧ cur = get0 (seq (so_leader s)) t ∧ s' = s
  | CCommit t d => λ q s s', lk = false ∧ (get0 (seq (so_leader s)) t < w64 - 2)%Z ∧
      ∃ r' dk, publish_commit "" Written t d (so_leader s) ∅ = (q, r', dk) ∧ s' = set_leader r' s
  | CRetryPass acked => λ out s s', ∃ order r' dk,
      order ≡ₚ elements (dom (buf (so_leader s))) ∧
      retry_topics "" (λ _, true) true acked order (so_leader s) ∅ = Some (r', dk, out) ∧ s' = set_leader r' s
  | CBroadcastWithSeq t d q => λ k s s', ∃ send_ok, store_broadcast send_ok (mkRepMsg t d q) s = (k, s')
  | CMetricSet m labels v => λ _ s s', s' = set_server (so_server s) (mSet m labels v (so_mets s)) (so_streams s) s
  | CMetricInc m labels => λ _ s s', s' = set_server (so_server s) (mInc m labels (so_mets s)) (so_streams s) s
  | _ => λ _ s s', s' = s
  end.

(** What the followers do to the store. *)
Inductive follower_step : store → store → Prop :=
  | fo_subscribe s σ n srv mt :
      so_streams s !! σ = None → addSub σ (so_server s) (so_mets s) = (srv, mt) →
      follower_step s (set_server srv mt (<[σ := mkSub n (seq (so_leader s)) [] [] None]> (so_streams s)) s)
  | fo_recv s σ i i' :
      so_streams s !! σ = Some i → sub_recv i = Some i' →
      follower_step s (set_server (so_server s) (so_mets s) (<[σ := i']> (so_streams s)) s)
  | fo_ack s σ i a srv mt :
      so_streams s !! σ = Some i → si_pend i = Some a → Ack (ack_read a) (so_server s) (so_mets s) = (srv, mt) →
      follower_step s (set_server srv mt (<[σ := sub_acked i]> (so_streams s)) s)
  | fo_ack_lost s σ i :
      so_streams s !! σ = Some i →
      follower_step s (set_server (so_server s) (so_mets s) (<[σ := sub_acked i]> (so_streams s)) s)
  | fo_close s σ i srv mt :
      so_streams s !! σ = Some i → removeSub σ (so_server s) (so_mets s) = (srv, mt) →
      follower_step s (set_server srv mt (<[σ := sub_closed i]> (so_streams s)) s).

Section code.
  Context (o : Options) (serial : bool).

Definition advance (th : pthread) {X} (c : call X) (k : X → prog (option (option string))) (x : X) : pthread :=
  mkPthread (pt_topic th) (pt_data th) (k x) (pub_next (ReplWindow o) (pt_topic th) (pt_data th) X c x (pt_pc th)).

Inductive code_step : code → code → Prop :=
  (** the application calls [Publish]; when [serial], not on a topic that is being published *)
  | cs_publish c t data n :
      (serial = true → t ∉ pt_topic <$> cd_pubs c) →
      code_step c (mkCode (cd_store c)
        (mkPthread t (default EmptyString data) (Publish o t data n) PNew :: cd_pubs c) (cd_tick c))
  | cs_call c l1 th l2 X (k : call X) f x s' :
      cd_pubs c = l1 ++ th :: l2 → pt_prog th = Vis k f → answer (locked c) k x (cd_store c) s' →
      code_step c (mkCode s' (l1 ++ advance th k f x :: l2) (cd_tick c))
  | cs_return c l1 th l2 r :
      cd_pubs c = l1 ++ th :: l2 → pt_prog th = Ret (Some r) →
      code_step c (mkCode (cd_store c) (l1 ++ l2) (cd_tick c))
  (** the ticker fires *)
  | cs_tick c :
      cd_tick c = None → code_step c (mkCode (cd_store c) (cd_pubs c) (Some (retry_tick o, KNew)))
  | cs_tick_call c X (k : call X) f pc x s' :
      cd_tick c = Some (Vis k f, pc) → answer false k x (cd_store c) s' →
      code_step c (mkCode s' (cd_pubs c) (Some (f x, tick_next X k x pc)))
  | cs_tick_return c pc :
      cd_tick c = Some (Ret (), pc) → code_step c (mkCode (cd_store c) (cd_pubs c) None)
  | cs_follower c s' :
      follower_step (cd_store c) s' → code_step c (mkCode s' (cd_pubs c) (cd_tick c)).

(** ** Simulation *)

Definition protocol_pc (th : pthread) : option pubpc := match pt_pc th with PAt pc => Some pc | _ => None end.

Definition thread_ok (th : pthread) : Prop :=
  pub_follows (ReplWindow o) (pt_topic th) (pt_data th) (pt_pc th) (pt_prog th) ∧
  ∀ pc, pt_pc th = PAt pc → pub_topic pc = pt_topic th.

Definition tick_sim (k : option (prog unit * tpc)) (y : sys) : Prop :=
  match k with
  | None => tick y = TIdle
  | Some (p, pc) => tick_follows pc p ∧
      match pc with
      | KNew => tick y = TIdle
      | KRead acked => ∃ tables, tick y = TRead tables ∧ acked = AckedAll tables
      | KSend out => tick y = TSend out
      end
  end.

Definition store_of (y : sys) : store := mkStore (leader y) (server y) (mets y) (streams y).

Record sim (c : code) (y : sys) : Prop := mkSim {
  sim_store : store_of y = cd_store c;
  sim_pubs : pubs y ≡ₚ omap protocol_pc (cd_pubs c);
  sim_threads : Forall thread_ok (cd_pubs c);
  sim_tick : tick_sim (cd_tick c) y;
  sim_serial : serial = true → NoDup (pt_topic <$> cd_pubs c);
}.

Lemma omap_threads l1 th l2 :
  omap protocol_pc (l1 ++ th :: l2) ≡ₚ
    match protocol_pc th with Some pc => [pc] | None => [] end ++ omap protocol_pc l1 ++ omap protocol_pc l2.
Proof.
  rewrite omap_app. cbn [omap list_omap]. destruct (protocol_pc th); [|done].
  by rewrite <-Permutation_middle.
Qed.

(** The publisher of a thread in the protocol, and the others. *)
Lemma pubs_split c y l1 th l2 pc :
  sim c y → cd_pubs c = l1 ++ th :: l2 → pt_pc th = PAt pc →
  ∃ ps1 ps2, pubs y = ps1 ++ pc :: ps2 ∧ ps1 ++ ps2 ≡ₚ omap protocol_pc l1 ++ omap protocol_pc l2.
Proof.
  intros Hs Hc Hpc. pose proof (sim_pubs c y Hs) as Hp. rewrite Hc, omap_threads in Hp.
  unfold protocol_pc at 1 in Hp. rewrite Hpc in Hp.
  destruct (list_elem_of_split (pubs y) pc) as (ps1 & ps2 & E); [rewrite Hp; set_solver|].
  exists ps1, ps2. split; [done|]. rewrite E, <-Permutation_middle in Hp. by apply Permutation_cons_inv in Hp.
Qed.

Lemma topics_of_pubs ths t :
  Forall thread_ok ths → t ∈ pub_topic <$> omap protocol_pc ths → t ∈ pt_topic <$> ths.
Proof.
  intros Ht (pc & -> & (th & Hth & E)%list_elem_of_omap)%list_elem_of_fmap.
  apply list_elem_of_fmap. exists th. split; [|done]. rewrite Forall_forall in Ht. apply (Ht th Hth).
  unfold protocol_pc in E. by destruct (pt_pc th); simplify_eq.
Qed.

Lemma sim_unlocked c y : sim c y → locked c = false → unlocked y = true.
Proof.
  intros Hs. pose proof (sim_tick c y Hs) as Ht. unfold locked, unlocked, tick_sim in *.
  destruct (cd_tick c) as [[p [|a|out]]|]; [..|by rewrite Ht]; destruct Ht as [_ Ht]; [by rewrite Ht| |done].
  destruct Ht as (tables & -> & _). done.
Qed.

Lemma store_broadcast_sys ok m y k s' :
  store_broadcast ok m (store_of y) = (k, s') → store_of (sys_broadcast ok m y) = s' ∧ reached ok m y = k.
Proof.
  unfold store_broadcast, sys_broadcast, reached. cbn [so_server so_mets so_streams store_of].
  destruct (BroadcastWithSeq _ _ _ _ _ _) as [[[srv mt] sent] k']. by intros [= <- <-].
Qed.

(** A thread whose publisher in the protocol moves from [pc]. *)
Ltac at_pc Hs Hc Hpc ps1 ps2 Hy Hp := destruct (pubs_split _ _ _ _ _ _ Hs Hc Hpc) as (ps1 & ps2 & Hy & Hp).

(** What a call of [Publish] does in the protocol. *)
Definition matches (y : sys) (s' : store) (ths : list pthread) : Prop :=
  ∃ y', rtc (step (ReplWindow o) serial) y y' ∧ store_of y' = s' ∧
    pubs y' ≡ₚ omap protocol_pc ths ∧ tick y' = tick y.

Lemma matches_same c y l1 th th' l2 :
  sim c y → cd_pubs c = l1 ++ th :: l2 → protocol_pc th' = protocol_pc th →
  matches y (cd_store c) (l1 ++ th' :: l2).
Proof.
  intros Hs Hc E. exists y. split_and!; [done|apply Hs| |done].
  rewrite (sim_pubs c y Hs), Hc, !omap_threads. by rewrite E.
Qed.

Lemma matches_step y y' s' l1 th' l2 ps1 ps2 :
  step (ReplWindow o) serial y y' → store_of y' = s' → tick y' = tick y →
  ps1 ++ ps2 ≡ₚ omap protocol_pc l1 ++ omap protocol_pc l2 →
  pubs y' ≡ₚ match protocol_pc th' with Some pc => [pc] | None => [] end ++ ps1 ++ ps2 →
  matches y s' (l1 ++ th' :: l2).
Proof.
  intros Hstep Hst Ht Hp Hy'. exists y'. split_and!; [by apply rtc_once|done| |done].
  rewrite Hy', omap_threads. by rewrite Hp.
Qed.

Lemma start_allowed c y l1 th l2 :
  sim c y → cd_pubs c = l1 ++ th :: l2 → protocol_pc th = None → serial = true →
  pt_topic th ∉ pub_topic <$> pubs y.
Proof.
  intros Hs Hc E Eser Hin. pose proof (sim_threads c y Hs) as Hok. pose proof (sim_serial c y Hs Eser) as Hnd.
  rewrite (sim_pubs c y Hs), Hc, omap_threads, E in Hin. cbn [app] in Hin. rewrite <-omap_app in Hin.
  rewrite Hc in Hok, Hnd. rewrite fmap_app in Hnd. cbn [fmap list_fmap] in Hnd.
  apply topics_of_pubs in Hin.
  - rewrite fmap_app in Hin. apply NoDup_app in Hnd as (_ & H1 & [H2 _]%NoDup_cons). set_solver.
  - apply Forall_app in Hok as [? [_ ?]%Forall_cons]. by apply Forall_app.
Qed.

Lemma acked_matches c y l1 th l2 th' :
  sim c y → cd_pubs c = l1 ++ th :: l2 → pt_pc th = PNew ∨ pt_pc th = PAt (Waiting (pt_topic th) (pt_data th)) →
  protocol_pc th' = Some (Polled (pt_topic th) (pt_data th) (AckedAll (so_server (cd_store c)))) →
  matches y (cd_store c) (l1 ++ th' :: l2).
Proof.
  intros Hs Hc Hpc E. pose proof (sim_store c y Hs) as Est. rewrite <-Est in E |- *. destruct Hpc as [Hpc|Hpc].
  - assert (protocol_pc th = None) as En by (unfold protocol_pc; by rewrite Hpc).
    eapply matches_step with (ps1 := omap protocol_pc l1) (ps2 := omap protocol_pc l2);
      [apply (step_start _ _ y (pt_topic th) (pt_data th)); intros; by eapply start_allowed|done..|].
    rewrite E. cbn. rewrite (sim_pubs c y Hs), Hc, omap_threads, En. done.
  - at_pc Hs Hc Hpc ps1 ps2 Hy Hp.
    eapply matches_step; [by apply step_wait|done|done|done|]. rewrite E. cbn. by rewrite <-Permutation_middle.
Qed.

Lemma seq_matches c y l1 th l2 th' a :
  sim c y → cd_pubs c = l1 ++ th :: l2 → locked c = false → pt_pc th = PAt (Polled (pt_topic th) (pt_data th) a) →
  protocol_pc th' = Some (if window_open (ReplWindow o) (get0 (seq (so_leader (cd_store c))) (pt_topic th)) (get0 a (pt_topic th))
    then Ready (pt_topic th) (pt_data th) else Waiting (pt_topic th) (pt_data th)) →
  matches y (cd_store c) (l1 ++ th' :: l2).
Proof.
  intros Hs Hc Hl Hpc E. pose proof (sim_store c y Hs) as Est. rewrite <-Est in E |- *.
  at_pc Hs Hc Hpc ps1 ps2 Hy Hp.
  eapply matches_step; [apply step_poll; [done|by eapply sim_unlocked]|done|done|done|].
  rewrite E. cbn. by rewrite <-Permutation_middle.
Qed.

Lemma commit_matches c y l1 th l2 th' q r' dk :
  sim c y → cd_pubs c = l1 ++ th :: l2 → locked c = false → pt_pc th = PAt (Ready (pt_topic th) (pt_data th)) →
  (get0 (seq (so_leader (cd_store c))) (pt_topic th) < w64 - 2)%Z →
  publish_commit "" Written (pt_topic th) (pt_data th) (so_leader (cd_store c)) ∅ = (q, r', dk) →
  protocol_pc th' = Some (Committed (pt_topic th) (pt_data th) q) →
  matches y (set_leader r' (cd_store c)) (l1 ++ th' :: l2).
Proof.
  intros Hs Hc Hl Hpc Hlt Hcm E. pose proof (sim_store c y Hs) as Est. rewrite <-Est in Hlt, Hcm |- *.
  at_pc Hs Hc Hpc ps1 ps2 Hy Hp.
  eapply matches_step; [eapply step_commit; [done|by eapply sim_unlocked|done|done]|done|done|done|].
  rewrite E. cbn. by rewrite <-Permutation_middle.
Qed.

Lemma bcast_matches c y l1 th l2 th' q ok k s' :
  sim c y → cd_pubs c = l1 ++ th :: l2 → pt_pc th = PAt (Committed (pt_topic th) (pt_data th) q) →
  store_broadcast ok (mkRepMsg (pt_topic th) (pt_data th) q) (cd_store c) = (k, s') →
  protocol_pc th' = None → matches y s' (l1 ++ th' :: l2).
Proof.
  intros Hs Hc Hpc Hb E. rewrite <-(sim_store c y Hs) in Hb. apply store_broadcast_sys in Hb as [Est _].
  at_pc Hs Hc Hpc ps1 ps2 Hy Hp.
  destruct (sys_broadcast_frame ok (mkRepMsg (pt_topic th) (pt_data th) q) y) as (_ & _ & Et & _).
  eapply matches_step; [by apply (step_bcast _ _ y ps1 ps2 (pt_topic th) (pt_data th) q ok)|done|done|done|].
  by rewrite E.
Qed.

Lemma metrics_matches c y l1 th l2 th' mt :
  sim c y → cd_pubs c = l1 ++ th :: l2 → protocol_pc th' = protocol_pc th →
  matches y (set_server (so_server (cd_store c)) mt (so_streams (cd_store c)) (cd_store c)) (l1 ++ th' :: l2).
Proof.
  intros Hs Hc E. rewrite <-(sim_store c y Hs).
  exists (set_streams (server y) mt (streams y) y). split_and!; [apply rtc_once, step_metrics|done| |done].
  rewrite !omap_threads, E. cbn [pubs set_streams]. by rewrite (sim_pubs c y Hs), Hc, omap_threads.
Qed.

(** Every call of a running [Publish] is matched by the protocol. *)
Lemma pub_call c y l1 th l2 X (k : call X) f x s' :
  sim c y → cd_pubs c = l1 ++ th :: l2 → pt_prog th = Vis k f → answer (locked c) k x (cd_store c) s' →
  matches y s' (l1 ++ advance th k f x :: l2).
Proof.
  intros Hs Hc Hv Ha. assert (thread_ok th) as [Hf _].
  { pose proof (sim_threads c y Hs) as Ht. rewrite Hc, Forall_app, Forall_cons in Ht. apply Ht. }
  unfold pub_follows in Hf. rewrite Hv in Hf. destruct Hf as [Ho _].
  destruct k; cbn [answer pub_owes] in Ha, Ho; try (subst s'; by eapply matches_same).
  - destruct Ha as [-> ->]. by eapply acked_matches.
  - destruct Ho as (-> & -> & Hpc), Ha as [ok Hb]. by eapply bcast_matches.
  - subst s'. by eapply metrics_matches.
  - subst s'. by eapply metrics_matches.
  - destruct Ho as [-> [a Hpc]], Ha as (Hl & -> & ->). eapply seq_matches; [done..|].
    unfold protocol_pc, advance. cbn [pt_pc]. rewrite Hpc. done.
  - destruct Ho as (-> & -> & Hpc), Ha as (Hl & Hlt & r' & dk & Hcm & ->). by eapply commit_matches.
  - done.
  - subst s'. destruct x; [|by eapply matches_same].
    at_pc Hs Hc Ho ps1 ps2 Hy Hp. eapply matches_step; [exact (step_cancel _ _ y ps1 ps2 _ _ Hy)|apply Hs|done|done|done].
Qed.

Lemma advance_ok th X (k : call X) f x : thread_ok th → pt_prog th = Vis k f → thread_ok (advance th k f x).
Proof.
  intros [Hf Ht] Hv. unfold pub_follows in Hf. rewrite Hv in Hf. destruct Hf as [Ho Hk].
  split; [apply Hk|]. intros pc. cbn [advance pt_pc pt_topic].
  destruct k; cbn [pub_next pub_owes] in *; try apply Ht; try by intros [= <-].
  - destruct Ho as [_ [a ->]]. intros [= <-]. by destruct (window_open _ _ _).
  - destruct x; [done|]. apply Ht.
Qed.

(** What the tick does in the protocol. *)
Lemma tick_call c y X (k : call X) f pc x s' :
  sim c y → cd_tick c = Some (Vis k f, pc) → answer false k x (cd_store c) s' →
  ∃ y', rtc (step (ReplWindow o) serial) y y' ∧ store_of y' = s' ∧ pubs y' = pubs y ∧
    tick_sim (Some (f x, tick_next X k x pc)) y'.
Proof.
  intros Hs Hk Ha. pose proof (sim_tick c y Hs) as Ht. rewrite Hk in Ht. destruct Ht as [[Ho Hf] Hpc].
  specialize (Hf x). pose proof (sim_store c y Hs) as Est. rewrite <-Est in Ha.
  destruct k; try done; cbn [answer tick_owes tick_next] in *.
  - subst s'. exists y. split_and!; [done..|]. split; [exact Hf|exact Hpc].
  - destruct Ha as [-> ->]. subst pc. exists (set_tick (leader y) (TRead (server y)) y).
    split_and!; [apply rtc_once; by apply step_tick|done|done|]. split; [exact Hf|]. by exists (server y).
  - destruct Ho as [out ->], Ha as [ok Hb].
    exists (sys_broadcast ok (mkRepMsg topic data seq) (set_tick (leader y) (TSend out) y)).
    apply (store_broadcast_sys ok _ (set_tick (leader y) (TSend out) y)) in Hb as [Es _].
    destruct (sys_broadcast_frame ok (mkRepMsg topic data seq) (set_tick (leader y) (TSend out) y))
      as (_ & Ep & Et & _).
    split_and!; [apply rtc_once; by apply step_resend|done|done|]. split; [exact Hf|exact Et].
  - subst pc. destruct Hpc as (tables & Htk & ->), Ha as (order & r' & dk & Hord & Hr & ->).
    exists (set_tick r' (TSend x) y). split_and!; [apply rtc_once; by eapply step_lock|done|done|].
    split; [exact Hf|done].
Qed.

Lemma follower_sim s y s' :
  store_of y = s → follower_step s s' →
  ∃ y', step (ReplWindow o) serial y y' ∧ store_of y' = s' ∧ pubs y' = pubs y ∧ tick y' = tick y.
Proof.
  intros <- Hf. inversion Hf; subst; eexists.
  - split; [by apply (step_subscribe _ _ y σ n)|done].
  - split; [by eapply (step_recv _ _ y σ)|done].
  - split; [by eapply (step_ack _ _ y σ)|done].
  - split; [by eapply (step_ack_lost _ _ y σ)|done].
  - split; [by eapply (step_close _ _ y σ)|done].
Qed.

Lemma tick_sim_tick k y y' : tick y' = tick y → tick_sim k y → tick_sim k y'.
Proof. unfold tick_sim. by intros ->. Qed.

(** A step of a publishing goroutine. *)
Lemma sim_call c y l1 th l2 X (k : call X) f x s' :
  sim c y → cd_pubs c = l1 ++ th :: l2 → pt_prog th = Vis k f → answer (locked c) k x (cd_store c) s' →
  ∃ y', rtc (step (ReplWindow o) serial) y y' ∧ sim (mkCode s' (l1 ++ advance th k f x :: l2) (cd_tick c)) y'.
Proof.
  intros Hs Hc Hv Ha. destruct (pub_call _ _ _ _ _ _ _ _ _ _ Hs Hc Hv Ha) as (y' & Hr & Est & Hp & Ht).
  exists y'. split; [done|]. constructor; cbn [cd_store cd_pubs cd_tick]; [done|done| | |].
  - pose proof (sim_threads c y Hs) as Hok. rewrite Hc, Forall_app, Forall_cons in Hok.
    destruct Hok as (H1 & H2 & H3). apply Forall_app. split; [done|]. apply Forall_cons. split; [by apply advance_ok|done].
  - by apply (tick_sim_tick _ y), (sim_tick c y Hs).
  - intros Eser. pose proof (sim_serial c y Hs Eser) as Hnd. rewrite Hc in Hnd. by rewrite !fmap_app in Hnd |- *.
Qed.

Lemma sim_return c y l1 th l2 r :
  sim c y → cd_pubs c = l1 ++ th :: l2 → pt_prog th = Ret (Some r) →
  sim (mkCode (cd_store c) (l1 ++ l2) (cd_tick c)) y.
Proof.
  intros Hs Hc Hv. pose proof (sim_threads c y Hs) as Hok. rewrite Hc, Forall_app, Forall_cons in Hok.
  destruct Hok as (H1 & [Hf _] & H3). unfold pub_follows in Hf. rewrite Hv in Hf. cbn [obeys] in Hf.
  assert (protocol_pc th = None) as En.
  { unfold protocol_pc. by destruct Hf as [->| ->]; [by eexists|..]. }
  constructor; cbn [cd_store cd_pubs cd_tick]; [apply Hs| |by apply Forall_app|apply Hs|].
  - rewrite (sim_pubs c y Hs), Hc, omap_threads, En. by rewrite omap_app.
  - intros Eser. pose proof (sim_serial c y Hs Eser) as Hnd. rewrite Hc, fmap_app in Hnd. rewrite fmap_app.
    apply NoDup_app in Hnd as (N1 & N2 & [_ N3]%NoDup_cons). apply NoDup_app. set_solver.
Qed.

Lemma sim_step c y c' :
  rpcS_acks o = true → rpcS_broadcast o = true → sim c y → code_step c c' →
  ∃ y', rtc (step (ReplWindow o) serial) y y' ∧ sim c' y'.
Proof.
  intros Ea Eb Hs Hstep. destruct Hstep as [c t data n Hser|c l1 th l2 X k f x s' Hc Hv Ha|c l1 th l2 r Hc Hv
    |c Hk|c X k f pc x s' Hk Ha|c pc Hk|c s' Hf].
  - exists y. split; [done|]. constructor; cbn [cd_store cd_pubs cd_tick]; try apply Hs.
    + apply Forall_cons. split; [|apply Hs]. split; [by apply Publish_follows|done].
    + intros Eser. apply NoDup_cons. split; [by apply Hser|by apply (sim_serial c y Hs)].
  - by eapply sim_call.
  - exists y. split; [done|]. by eapply sim_return.
  - exists y. split; [done|]. pose proof (sim_tick c y Hs) as Ht. rewrite Hk in Ht.
    constructor; cbn [cd_store cd_pubs cd_tick]; try apply Hs. split; [by apply retry_tick_follows|done].
  - destruct (tick_call c y X k f pc x s' Hs Hk Ha) as (y' & Hr & Est & Ep & Ht). exists y'. split; [done|].
    constructor; cbn [cd_store cd_pubs cd_tick]; [done|rewrite Ep; apply Hs|apply Hs|done|apply Hs].
  - pose proof (sim_tick c y Hs) as Ht. rewrite Hk in Ht. destruct Ht as [Hl Ht]. destruct Hl as [->| ->].
    + exists y. split; [done|]. by constructor; cbn [cd_store cd_pubs cd_tick]; try apply Hs.
    + exists (set_tick (leader y) TIdle y). split; [apply rtc_once; by apply step_unlock|].
      by constructor; cbn [cd_store cd_pubs cd_tick]; try apply Hs.
  - destruct (follower_sim _ y _ (sim_store c y Hs) Hf) as (y' & Hr & Est & Ep & Et). exists y'.
    split; [by apply rtc_once|]. constructor; cbn [cd_store cd_pubs cd_tick]; [done|rewrite Ep; apply Hs|apply Hs| |apply Hs].
    by apply (tick_sim_tick _ y), (sim_tick c y Hs).
Qed.

Lemma code_reachable_sim c :
  rpcS_acks o = true → rpcS_broadcast o = true → rtc code_step code_init c →
  ∃ y, reachable (ReplWindow o) serial y ∧ sim c y.
Proof.
  intros Ea Eb. apply (rtc_ind_r (λ c, ∃ y, reachable (ReplWindow o) serial y ∧ sim c y)).
  - exists sys_init. split; [apply rtc_refl|]. by constructor; try constructor.
  - intros c1 c2 _ Hstep (y & Hr & Hs). destruct (sim_step c1 y c2 Ea Eb Hs Hstep) as (y' & Hr' & Hs').
    exists y'. split; [by unfold reachable in *; etrans|done].
Qed.

(** C23. The facade refines the replication protocol: whatever calls of [Publish] the
    application makes, however their calls interleave with those of the retry loop, with
    each other and with the followers, the leader's buffer, the tables of the server and the
    streams are those of a run of the protocol, in which each running call is at the point
    its program has reached; and in a run without overlapping publishers of a topic when the
    application makes no overlapping calls on one. *)
Theorem code_refines_protocol c :
  rpcS_acks o = true → rpcS_broadcast o = true → rtc code_step code_init c →
  ∃ y, reachable (ReplWindow o) serial y ∧ store_of y = cd_store c ∧
    pubs y ≡ₚ omap protocol_pc (cd_pubs c).
Proof.
  intros Ea Eb Hr. destruct (code_reachable_sim c Ea Eb Hr) as (y & Hy & Hs). exists y. split; [done|].
  split; apply Hs.
Qed.

(** C24. Acknowledgements on the running code are cumulative when the application does not
    call [Publish] on a topic it is already publishing and no other published topic is read as
    [t], as when topics are UTF-8: when the server holds acknowledgement [a] of node [n] for
    topic [t], some stream of [n] has handed over every message of [t] up to [a] that was
    numbered since that stream was opened.  A node's name is the one JSON makes of it. *)
Theorem code_acks_cumulative c t n a :
  rpcS_acks o = true → rpcS_broadcast o = true → serial = true → rtc code_step code_init c →
  read_alone (so_leader (cd_store c)) t → getm (ack (so_server (cd_store c))) t !! n = Some a →
  ∃ σ i, so_streams (cd_store c) !! σ = Some i ∧ repair_string (si_node i) = n ∧
    ∀ s, (get0 (si_since i) t < s ≤ a)%Z → has (si_log i) t s.
Proof.
  intros Ea Eb Eser Hr Hone Hack. destruct (code_reachable_sim c Ea Eb Hr) as (y & [Hi Hser]%reachable_good & Hs).
  rewrite <-(sim_store c y Hs) in Hone, Hack |- *. by eapply acked_on_stream; [done|apply Hser|apply (inv_ack y Hi)|..].
Qed.

End code.

(** ** An executable scheduler *)

(** The leader answers, every send succeeds; [None] for calls this scheduler does not make. *)
Definition respond {X} (c : call X) : store → option (X * store) :=
  match c in call X return store → option (X * store) with
  | CIsLeader => λ s, Some (true, s)
  | CAckedAll => λ s, Some (Some (AckedAll (so_server s)), s)
  | CSeq t => λ s, Some (get0 (seq (so_leader s)) t, s)
  | CCommit t d => λ s,
      if decide (get0 (seq (so_leader s)) t < w64 - 2)%Z then
        let '(q, r', _) := publish_commit "" Written t d (so_leader s) ∅ in Some (q, set_leader r' s)
      else None
  | CRetryPass acked => λ s,
      '(r', _, out) ← retry_topics "" (λ _, true) true acked (elements (dom (buf (so_leader s)))) (so_leader s) ∅;
      Some (out, set_leader r' s)
  | CBroadcastWithSeq t d q => λ s, Some (store_broadcast (λ _, true) (mkRepMsg t d q) s)
  | CMetricSet m labels v => λ s, Some ((), set_server (so_server s) (mSet m labels v (so_mets s)) (so_streams s) s)
  | CMetricInc m labels => λ s, Some ((), set_server (so_server s) (mInc m labels (so_mets s)) (so_streams s) s)
  | _ => λ _, None
  end.

Lemma respond_answer lk X (c : call X) s x s' : lk = false → respond c s = Some (x, s') → answer lk c x s s'.
Proof.
  intros ->. destruct c; cbn [respond answer]; try done.
  - by intros [= <- <-].
  - by intros [= <- <-].
  - intros [= E]. by exists (λ _, true).
  - by intros [= <- <-].
  - by intros [= <- <-].
  - by intros [= <- <-].
  - case_decide; [|done]. destruct (publish_commit _ _ _ _ _ _) as [[q r'] dk] eqn:E. intros [= <- <-].
    split_and!; [done..|]. by exists r', dk.
  - destruct (retry_topics _ _ _ _ _ _ _) as [[[r' dk] out]|] eqn:E; [|done]. intros [= <- <-].
    by exists (elements (dom (buf (so_leader s)))), r', dk.
Qed.

Inductive action : Type :=
  | ASubscribe (σ : nat) (n : string)
  | APublish (t : string) (data : option bytes) (rounds : nat)
  | ACall (p : nat)        (** the [p]-th running [Publish] makes its next call *)
  | ATick
  | ATickCall
  | ARecv (σ : nat)
  | AAck (σ : nat).

Definition act (o : Options) (a : action) (c : code) : option code :=
  let s := cd_store c in
  match a with
  | ASubscribe σ n =>
      match so_streams s !! σ with
      | Some _ => None
      | None => let '(srv, mt) := addSub σ (so_server s) (so_mets s) in
          Some (mkCode (set_server srv mt (<[σ := mkSub n (seq (so_leader s)) [] [] None]> (so_streams s)) s)
            (cd_pubs c) (cd_tick c))
      end
  | APublish t data n =>
      if decide (t ∈ pt_topic <$> cd_pubs c) then None
      else Some (mkCode s (mkPthread t (default EmptyString data) (Publish o t data n) PNew :: cd_pubs c) (cd_tick c))
  | ACall p =>
      th ← cd_pubs c !! p;
      match pt_prog th with
      | Vis k f =>
          if locked c then None
          else '(x, s') ← respond k s;
               Some (mkCode s' (take p (cd_pubs c) ++ advance o th k f x :: drop (S p) (cd_pubs c)) (cd_tick c))
      | _ => None
      end
  | ATick => match cd_tick c with None => Some (mkCode s (cd_pubs c) (Some (retry_tick o, KNew))) | _ => None end
  | ATickCall =>
      match cd_tick c with
      | Some (Vis k f, pc) => '(x, s') ← respond k s; Some (mkCode s' (cd_pubs c) (Some (f x, tick_next _ k x pc)))
      | _ => None
      end
  | ARecv σ =>
      i ← so_streams s !! σ; i' ← sub_recv i;
      Some (mkCode (set_server (so_server s) (so_mets s) (<[σ := i']> (so_streams s)) s) (cd_pubs c) (cd_tick c))
  | AAck σ =>
      i ← so_streams s !! σ; a ← si_pend i;
      let '(srv, mt) := Ack (ack_read a) (so_server s) (so_mets s) in
      Some (mkCode (set_server srv mt (<[σ := sub_acked i]> (so_streams s)) s) (cd_pubs c) (cd_tick c))
  end.

Fixpoint acts (o : Options) (l : list action) (c : code) : option code :=
  match l with
  | [] => Some c
  | a :: l' => c' ← act o a c; acts o l' c'
  end.

Lemma act_step o serial a c c' : act o a c = Some c' → code_step o serial c c'.
Proof.
  destruct a; cbn [act].
  - destruct (so_streams _ !! σ) eqn:E; [done|]. destruct (addSub _ _ _) eqn:Ea. intros [= <-].
    apply cs_follower. by apply fo_subscribe.
  - case_decide; [done|]. intros [= <-]. by apply cs_publish.
  - destruct (cd_pubs c !! p) as [th|] eqn:E; [|done]. cbn [mbind option_bind].
    destruct (pt_prog th) as [|X k f|] eqn:Ev; try done. destruct (locked c) eqn:El; [done|].
    destruct (respond k _) as [[x s']|] eqn:Er; [|done]. intros [= <-].
    eapply cs_call; [by symmetry; apply take_drop_middle|done|by apply respond_answer].
  - destruct (cd_tick c) eqn:E; [done|]. intros [= <-]. by apply cs_tick.
  - destruct (cd_tick c) as [[[|X k f|] pc]|] eqn:E; try done.
    destruct (respond k _) as [[x s']|] eqn:Er; [|done]. intros [= <-].
    eapply cs_tick_call; [done|by apply respond_answer].
  - destruct (so_streams _ !! σ) as [i|] eqn:E; [|done]. cbn [mbind option_bind].
    destruct (sub_recv i) eqn:Er; [|done]. intros [= <-]. apply cs_follower. by eapply fo_recv.
  - destruct (so_streams _ !! σ) as [i|] eqn:E; [|done]. cbn [mbind option_bind].
    destruct (si_pend i) eqn:Ep; [|done]. cbn [mbind option_bind]. destruct (Ack _ _ _) eqn:Ea. intros [= <-].
    apply cs_follower. by eapply fo_ack.
Qed.

Lemma acts_steps o serial l c c' : acts o l c = Some c' → rtc (code_step o serial) c c'.
Proof.
  revert c. induction l as [|a l IH]; intros c; cbn [acts]; [by intros [= ->]|].
  destruct (act o a c) as [c1|] eqn:E; [|done]. intros Hr. eapply rtc_l; [by eapply act_step|by apply IH].
Qed.

(** ** Witnesses *)

Definition wire_opts : Options :=
  mkOptions "a" true true true true true true true true true true false false false
    16 EmptyString false false false.

(** A follower subscribes; [Publish] asks whether it leads, reads the acknowledgements and
    the sequence, stores and broadcasts the message; the follower receives and acknowledges
    it, and a tick begins. *)
Definition demo_actions : list action :=
  [ASubscribe 0 "n"; APublish "t" (Some "x") 1; ACall 0; ACall 0; ACall 0; ACall 0; ACall 0; ACall 0; ACall 0;
   ARecv 0; AAck 0; ATick; ATickCall; ATickCall; ATickCall].

Definition demo_code : code := default code_init (acts wire_opts demo_actions code_init).

Lemma demo_code_reachable : rtc (code_step wire_opts true) code_init demo_code.
Proof.
  apply (acts_steps _ _ demo_actions). unfold demo_code.
  destruct (acts wire_opts demo_actions code_init) eqn:E; [done|]. vm_compute in E. discriminate.
Qed.

Lemma code_refines_protocol_witness :
  ∃ y, reachable 16 true y ∧ store_of y = cd_store demo_code ∧
    pubs y ≡ₚ omap protocol_pc (cd_pubs demo_code).
Proof. apply (code_refines_protocol wire_opts true demo_code); [reflexivity..|apply demo_code_reachable]. Defined.

Lemma code_acks_cumulative_witness :
  ∃ σ i, so_streams (cd_store demo_code) !! σ = Some i ∧ repair_string (si_node i) = "n" ∧
    ∀ s, (get0 (si_since i) "t" < s ≤ 1)%Z → has (si_log i) "t" s.
Proof.
  apply (code_acks_cumulative wire_opts true demo_code "t" "n" 1); [reflexivity..|apply demo_code_reachable| |].
  - apply utf8_read_alone.
    assert (seq (so_leader (cd_store demo_code)) = {["t" := 1%Z]}) as -> by (vm_compute; reflexivity).
    apply singleton_utf8. vm_compute. reflexivity.
  - vm_compute. reflexivity.
Defined.
