(* ===== verification/RepWire.v ===== *)
(** * Replication on the wire

    The messages of the replication service as the JSON codec of the gRPC transport carries
    them ([server.go] lines 224 to 226), the handlers of the service descriptor (lines 240
    to 250 and 337 to 369) and the receive loop of the subscriber
    ([replication_client.go]), between the bytes of the stream and the states of
    [RepServer]. *)
From S2P Require Import Prelude GoStrings Metrics RepServer Replication Utf8 Json ReplProtocol Types JsonCodec.
From stdpp Require Import options.

(** ** Messages *)

(** [repMsg] as it travels: the data may be nil. *)
Record wireMsg := mkWireMsg { wm_topic : string; wm_data : option bytes; wm_seq : Z }.

Definition repMsg_codec : codec wireMsg :=
  struct_codec (mkWireMsg EmptyString None 0)
    [fld "topic" string_codec wm_topic (λ x s, mkWireMsg x (wm_data s) (wm_seq s));
     fld "data" bytes_codec wm_data (λ x s, mkWireMsg (wm_topic s) x (wm_seq s));
     fld "seq" uint64_codec wm_seq (λ x s, mkWireMsg (wm_topic s) (wm_data s) x)].

(** [repSubReq]: the identifier of the subscribing node. *)
Definition repSubReq_codec : codec string :=
  struct_codec EmptyString [fld_omit empty_string "nodeId" string_codec id (λ x _, x)].

Definition repAck_codec : codec repAck :=
  struct_codec (mkRepAck EmptyString 0 EmptyString)
    [fld "topic" string_codec a_topic (λ x s, mkRepAck x (a_seq s) (a_node s));
     fld "seq" uint64_codec a_seq (λ x s, mkRepAck (a_topic s) x (a_node s));
     fld_omit empty_string "nodeId" string_codec a_node (λ x s, mkRepAck (a_topic s) (a_seq s) x)].

Definition wireMsg_wf (m : wireMsg) : bool := utf8_valid (wm_topic m) && u64_wf (wm_seq m).
Definition repAck_wf (a : repAck) : bool :=
  utf8_valid (a_topic a) && u64_wf (a_seq a) && utf8_valid (a_node a).

Lemma dec_u64 n : u64_wf n = true → c_dec uint64_codec (c_enc uint64_codec n) 0%Z = (n, true).
Proof. intros. by apply (dec_enc (c:=uint64_codec)). Qed.

Global Instance repMsg_codec_ok : CodecOk repMsg_codec wireMsg_wf 1.
Proof.
  split; intros [t d s]; unfold wireMsg_wf; cbn [wm_topic wm_seq]; intros; split_wf; eval_struct.
  - rewrite (enc_jwf (c:=bytes_codec) d), (enc_jwf (c:=uint64_codec) s) by done. by use_wf.
  - pose proof (enc_depth (c:=bytes_codec) d). pose proof (enc_depth (c:=uint64_codec) s). lia.
  - rewrite dec_bytes. eval_struct. by rewrite dec_u64.
Qed.

Global Instance repSubReq_codec_ok : CodecOk repSubReq_codec utf8_valid 1.
Proof. split; intros [|a n]; intros; eval_struct; by use_wf. Qed.

Global Instance repAck_codec_ok : CodecOk repAck_codec repAck_wf 1.
Proof.
  split; intros [t s n]; unfold repAck_wf; cbn [a_topic a_seq a_node]; intros; split_wf; destruct n; eval_struct.
  all: try (rewrite (enc_jwf (c:=uint64_codec) s) by done; by use_wf).
  all: try (pose proof (enc_depth (c:=uint64_codec) s); lia).
  all: by rewrite dec_u64.
Qed.

(** ** The service *)

(** What a subscriber is sent: [sub.ss.SendMsg(msg)]. *)
Definition message_bytes (topic : string) (data : option bytes) (seq : Z) : bytes :=
  Marshal repMsg_codec (mkWireMsg topic data seq).

(** [replicationImpl.Subscribe] until the client disconnects: the stream becomes a
    subscriber under the node its request names. *)
Definition Subscribe (sub : nat) (nodeID : string) (s : Server) (m : Metrics) : string * Server * Metrics :=
  let '(s', m') := addSub sub s m in (nodeID, s', m').

(** [_Replication_Subscribe_Handler]: a request that cannot be read ends the stream. *)
Definition Subscribe_Handler (sub : nat) (body : bytes) (s : Server) (m : Metrics)
    : gores string * Server * Metrics :=
  match Unmarshal repSubReq_codec body with
  | None => (Err "decode", s, m)
  | Some nodeID => let '(node, s', m') := Subscribe sub nodeID s m in (Ok node, s', m')
  end.

(** The deferred [removeSub] when the stream's context is done. *)
Definition Subscribe_done (sub : nat) (s : Server) (m : Metrics) : Server * Metrics := removeSub sub s m.

(** [_Replication_Ack_Handler]: decode, run [Ack], answer the empty message. *)
Definition Ack_Handler (body : bytes) (s : Server) (m : Metrics) : gores unit * Server * Metrics :=
  match Unmarshal repAck_codec body with
  | None => (Err "decode", s, m)
  | Some a => let '(s', m') := Ack a s m in (Ok (), s', m')
  end.

(** The unary methods of [_Replication_serviceDesc] by full name. *)
Definition Replication_call (name : string) (body : bytes) (s : Server) (m : Metrics)
    : gores unit * Server * Metrics :=
  if decide (name = "/cluster.v1.Replication/Ack") then Ack_Handler body s m
  else (Err "unimplemented", s, m).

(** ** The subscriber *)

(** One round of the receive loop: [None] when the message cannot be read and the loop
    ends, else what the application is given and the acknowledgement that is sent. *)
Definition receive (nodeID : string) (body : bytes) : option ((string * option bytes) * (string * bytes)) :=
  m ← Unmarshal repMsg_codec body;
  Some ((wm_topic m, wm_data m),
        ("/cluster.v1.Replication/Ack", Marshal repAck_codec (mkRepAck (wm_topic m) (wm_seq m) nodeID))).

(** The receive loop on the bodies the stream carries until [RecvMsg] fails with [e]: what
    the application is given, the acknowledgements sent, and the error returned. *)
Fixpoint recv_loop (nodeID : string) (bodies : list bytes) (e : string)
    : list (string * option bytes) * list (string * bytes) * string :=
  match bodies with
  | [] => ([], [], e)
  | b :: bs =>
      match receive nodeID b with
      | None => ([], [], "decode")
      | Some (d, a) => let '(ds, acks, e') := recv_loop nodeID bs e in (d :: ds, a :: acks, e')
      end
  end.

(** What the library answers: whether the stream opens and takes the request, then the
    bodies and the error that ends them. *)
Record streamEnv := mkStreamEnv {
  se_open : option string;
  se_send : option string;
  se_bodies : list bytes;
  se_end : string;
}.

(** [Client.Subscribe] on its connection: the request sent, if any, and the outcome of the
    loop.  The error of [CloseSend] and those of the acknowledgements are dropped. *)
Definition subscribe_stream (nodeID : string) (env : streamEnv)
    : option bytes * (list (string * option bytes) * list (string * bytes) * string) :=
  match se_open env, se_send env with
  | Some e, _ | None, Some e => (None, ([], [], e))
  | None, None => (Some (Marshal repSubReq_codec nodeID), recv_loop nodeID (se_bodies env) (se_end env))
  end.

(** ** A message there and its acknowledgement back *)

Lemma ack_recorded a s m :
  a_topic a ≠ EmptyString → a_node a ≠ EmptyString →
  getm (ack (Ack a s m).1) (a_topic a) !! a_node a = Some (a_seq a) ∧
  ∀ t, t ≠ a_topic a → getm (ack (Ack a s m).1) t = getm (ack s) t.
Proof.
  intros Ht Hn. unfold Ack. rewrite decide_False by naive_solver.
  destruct (min_loop _ true 0) as [first min].
  assert (∀ (b : bool) (s1 : Server) (m1 m2 : Metrics), (if b then (s1, m1) else (s1, m2)).1 = s1) as Hif by by intros [].
  rewrite Hif. cbn [ack]. split.
  - by rewrite getm_insert_eq, lookup_insert_eq.
  - intros t Hne. by rewrite getm_insert_ne.
Qed.

(** A message that the leader broadcasts on a stream reaches the subscriber's
    application with the topic and data it was published with, and the acknowledgement
    that comes back records exactly the message's number for that topic and node, and
    nothing for any other topic: for topics and node names in UTF-8. *)
Lemma message_acknowledged topic data n nodeID s m :
  utf8_valid topic = true → is_u64 n → utf8_valid nodeID = true →
  topic ≠ EmptyString → nodeID ≠ EmptyString →
  ∃ name body,
    receive nodeID (message_bytes topic data n) = Some ((topic, data), (name, body)) ∧
    let '(r, s', m') := Replication_call name body s m in
    r = Ok () ∧ getm (ack s') topic !! nodeID = Some n ∧
    ∀ t, t ≠ topic → getm (ack s') t = getm (ack s) t.
Proof.
  intros Ht Hn Hid Hte Hne. assert (u64_wf n = true) as Hu by by apply bool_decide_eq_true_2.
  exists "/cluster.v1.Replication/Ack", (Marshal repAck_codec (mkRepAck topic n nodeID)).
  unfold receive, message_bytes. rewrite (Unmarshal_Marshal repMsg_codec wireMsg_wf 1);
    [|apply _|done|unfold wireMsg_wf; cbn [wm_topic wm_seq]; by rewrite Ht, Hu]. split; [done|].
  unfold Replication_call, Ack_Handler. rewrite decide_True by done.
  rewrite (Unmarshal_Marshal repAck_codec repAck_wf 1);
    [|apply _|done|unfold repAck_wf; cbn [a_topic a_seq a_node]; by rewrite Ht, Hu, Hid].
  destruct (Ack (mkRepAck topic n nodeID) s m) as [s' m'] eqn:Ea.
  destruct (ack_recorded (mkRepAck topic n nodeID) s m Hte Hne) as [H1 H2]. rewrite Ea in H1, H2. done.
Qed.

(** ** A whole stream *)

Definition wire_bytes (w : wireMsg) : bytes := message_bytes (wm_topic w) (wm_data w) (wm_seq w).
Definition sendable (w : wireMsg) : Prop := wireMsg_wf w = true ∧ wm_topic w ≠ EmptyString.

(** The call that acknowledges a message. *)
Definition ack_call (nodeID : string) (w : wireMsg) : string * bytes :=
  ("/cluster.v1.Replication/Ack", Marshal repAck_codec (mkRepAck (wm_topic w) (wm_seq w) nodeID)).

(** The server answers these calls one after the other. *)
Definition handle_calls (calls : list (string * bytes)) (s : Server) (m : Metrics) : Server * Metrics :=
  foldl (λ sm c, let '(_, s', m') := Replication_call c.1 c.2 sm.1 sm.2 in (s', m')) (s, m) calls.

(** The number last seen for a topic, else what was known before. *)
Definition last_seq (t : string) (ws : list wireMsg) (before : option Z) : option Z :=
  foldl (λ v w, if decide (wm_topic w = t) then Some (wm_seq w) else v) before ws.

Lemma receive_sendable nodeID w : sendable w →
  receive nodeID (wire_bytes w) = Some ((wm_topic w, wm_data w), ack_call nodeID w).
Proof.
  intros [Hw _]. unfold receive, wire_bytes, message_bytes. destruct w as [t d n]. cbn [wm_topic wm_data wm_seq].
  by rewrite (Unmarshal_Marshal repMsg_codec wireMsg_wf 1); [|apply _|done|].
Qed.

Lemma recv_loop_sendable nodeID ws e : Forall sendable ws →
  recv_loop nodeID (wire_bytes <$> ws) e =
    ((λ w, (wm_topic w, wm_data w)) <$> ws, ack_call nodeID <$> ws, e).
Proof.
  induction 1 as [|w ws Hw _ IH]; [done|]. cbn [fmap list_fmap recv_loop].
  rewrite receive_sendable by done. change (list_fmap _ _ wire_bytes ws) with (wire_bytes <$> ws). by rewrite IH.
Qed.

Lemma ack_call_recorded nodeID w s m : utf8_valid nodeID = true → nodeID ≠ EmptyString → sendable w →
  let '(_, s', _) := Replication_call (ack_call nodeID w).1 (ack_call nodeID w).2 s m in
  getm (ack s') (wm_topic w) !! nodeID = Some (wm_seq w) ∧
  ∀ t, t ≠ wm_topic w → getm (ack s') t = getm (ack s) t.
Proof.
  intros Hid Hne [Hw Ht]. apply andb_true_iff in Hw as [Hv Hu]. apply bool_decide_eq_true_1 in Hu.
  destruct (message_acknowledged (wm_topic w) (wm_data w) (wm_seq w) nodeID s m Hv Hu Hid Ht Hne)
    as (name & body & Hr & H). change (message_bytes _ _ _) with (wire_bytes w) in Hr.
  rewrite receive_sendable in Hr by (split; [apply andb_true_iff; split; [done|by apply bool_decide_eq_true_2]|done]).
  injection Hr as <- <-. cbn [ack_call fst snd]. destruct (Replication_call _ _ s m) as [[? ?] ?]. apply H.
Qed.

Lemma calls_recorded nodeID ws s m t : utf8_valid nodeID = true → nodeID ≠ EmptyString → Forall sendable ws →
  getm (ack (handle_calls (ack_call nodeID <$> ws) s m).1) t !! nodeID = last_seq t ws (getm (ack s) t !! nodeID).
Proof.
  intros Hid Hne Hws. revert s m. induction Hws as [|w ws Hw _ IH]; intros s m; [done|].
  cbn [fmap list_fmap]. change (list_fmap _ _ (ack_call nodeID) ws) with (ack_call nodeID <$> ws).
  unfold handle_calls, last_seq. cbn [foldl fst snd].
  pose proof (ack_call_recorded nodeID w s m Hid Hne Hw) as Hc.
  cbn [fst snd] in Hc |- *. destruct (Replication_call _ _ s m) as [[? s'] m'] eqn:E. destruct Hc as [H1 H2].
  fold (handle_calls (ack_call nodeID <$> ws) s' m'). rewrite IH. unfold last_seq. f_equal.
  case_decide as Ht; [by rewrite <-Ht|]. by rewrite H2.
Qed.


(** ** Topics that are not UTF-8 *)

Lemma repMsg_dec_keeps : dec_keeps repMsg_codec (λ m, utf8_valid (wm_topic m)).
Proof.
  apply struct_dec_keeps. intros f v [t d n] Hf Hv Ht. cbn [wm_topic] in Ht.
  rewrite !elem_of_cons, elem_of_nil in Hf.
  destruct Hf as [->|[->|[->|[]]]]; cbn [f_dec fld wm_topic wm_data wm_seq].
  - pose proof (string_dec_keeps v t Hv Ht) as Hk. by destruct (c_dec string_codec v t).
  - by destruct (c_dec bytes_codec v d).
  - by destruct (c_dec uint64_codec v n).
Qed.

Lemma repAck_dec_keeps : dec_keeps repAck_codec (λ a, utf8_valid (a_topic a)).
Proof.
  apply struct_dec_keeps. intros f v [t n nd] Hf Hv Ht. cbn [a_topic] in Ht.
  rewrite !elem_of_cons, elem_of_nil in Hf.
  destruct Hf as [->|[->|[->|[]]]]; cbn [f_dec fld fld_omit a_topic a_seq a_node].
  - pose proof (string_dec_keeps v t Hv Ht) as Hk. by destruct (c_dec string_codec v t).
  - by destruct (c_dec uint64_codec v n).
  - by destruct (c_dec string_codec v nd).
Qed.

Lemma ack_other_topic a s m t : t ≠ a_topic a → getm (ack (Ack a s m).1) t = getm (ack s) t.
Proof.
  intros Hne. destruct (decide (a_topic a = EmptyString ∨ a_node a = EmptyString)) as [He|He].
  - unfold Ack. by rewrite decide_True.
  - apply ack_recorded; naive_solver.
Qed.

(** What is decoded of a value whose text the encoder has repaired. *)
Lemma Unmarshal_repaired {A} (c : codec A) wf depth a a' :
  CodecOk c wf depth → (depth ≤ max_depth)%Z → wf a' = true → jnums (c_enc c a) = true →
  repair (c_enc c a) = c_enc c a' → Unmarshal c (Marshal c a) = Some a'.
Proof.
  intros [Hj Hd He] Hmax Hw Hn Hr. unfold Unmarshal, Unmarshal_into, Marshal.
  rewrite parse_print_repair; [by rewrite Hr, He|done|]. specialize (Hd a). lia.
Qed.

Lemma repair_string_empty s : empty_string (repair_string s) = empty_string s.
Proof.
  destruct s as [|b s]; [done|]. unfold repair_string.
  destruct (runes (String b s)) as [|r l] eqn:E; [|by destruct r].
  pose proof (unrunes_runes (String b s)) as H. by rewrite E in H.
Qed.

Local Arguments repair_string : simpl never.

(** The codec does to every message what [msg_read] says and to every acknowledgement what
    [ack_read] says, whatever the topic and the node. *)
Lemma receive_read nodeID t d n :
  is_u64 n →
  receive nodeID (message_bytes t d n) =
    Some ((repair_string t, d), ack_call nodeID (mkWireMsg (repair_string t) d n)).
Proof.
  intros Hn. assert (u64_wf n = true) as Hu by by apply bool_decide_eq_true_2.
  destruct (jwf_jnums _ (enc_jwf (c:=bytes_codec) d eq_refl)) as [Hd Rd].
  destruct (jwf_jnums _ (enc_jwf (c:=uint64_codec) n Hu)) as [Hz Rz].
  unfold receive, message_bytes.
  rewrite (Unmarshal_repaired repMsg_codec wireMsg_wf 1 _ (mkWireMsg (repair_string t) d n));
    [done|apply _|done| | |].
  - unfold wireMsg_wf. cbn [wm_topic wm_seq]. by rewrite repair_string_valid, Hu.
  - eval_struct. by rewrite Hd, Hz.
  - eval_struct. by rewrite Rd, Rz.
Qed.

Lemma ack_handled a s m :
  is_u64 (a_seq a) →
  Replication_call "/cluster.v1.Replication/Ack" (Marshal repAck_codec a) s m =
    (Ok (), (Ack (ack_read a) s m).1, (Ack (ack_read a) s m).2).
Proof.
  intros Hn. assert (u64_wf (a_seq a) = true) as Hu by by apply bool_decide_eq_true_2.
  destruct (jwf_jnums _ (enc_jwf (c:=uint64_codec) (a_seq a) Hu)) as [Hz Rz].
  unfold Replication_call, Ack_Handler. rewrite decide_True by done.
  rewrite (Unmarshal_repaired repAck_codec repAck_wf 1 a (ack_read a));
    [by destruct (Ack (ack_read a) s m)|apply _|done| | |].
  - unfold repAck_wf. cbn [ack_read a_topic a_seq a_node]. by rewrite !repair_string_valid, Hu.
  - destruct a as [t n [|b nd]]; cbn [a_seq] in Hz; eval_struct; by rewrite Hz.
  - destruct a as [t n nd]. unfold ack_read. cbn [a_topic a_seq a_node] in *.
    pose proof (repair_string_empty nd) as He. destruct nd as [|b nd]; [|destruct (repair_string (String b nd)) eqn:Er];
      try done; eval_struct; by rewrite Rz, ?Er.
Qed.

(** A message on a topic that is not valid UTF-8 is never acknowledged: JSON repairs the
    text, so the subscriber sees, and acknowledges, another topic, and whatever it is sent,
    the leader's acknowledgements of the topic stay as they are. *)
Theorem invalid_topic_never_acknowledged topic data n nodeID s m t' d' name body :
  utf8_valid topic = false →
  receive nodeID (message_bytes topic data n) = Some ((t', d'), (name, body)) →
  t' ≠ topic ∧ getm (ack (Replication_call name body s m).1.2) topic = getm (ack s) topic.
Proof.
  intros Hbad. unfold receive. destruct (Unmarshal repMsg_codec _) as [w|] eqn:Ew; [|done].
  intros [= <- <- <- <-]. apply (Unmarshal_wf _ _ _ _ repMsg_dec_keeps eq_refl) in Ew as Hw.
  split; [intros E; rewrite E in Hw; congruence|].
  unfold Replication_call, Ack_Handler. rewrite decide_True by done.
  destruct (Unmarshal repAck_codec _) as [a|] eqn:Ea; [|done].
  apply (Unmarshal_wf _ _ _ _ repAck_dec_keeps eq_refl) in Ea as Ha.
  pose proof (ack_other_topic a s m topic) as Hk. destruct (Ack a s m). apply Hk.
  intros ->. congruence.
Qed.

(** ** Witnesses *)

Definition two_messages : list wireMsg := [mkWireMsg "orders" (Some "x") 7; mkWireMsg "orders" None 8].

Lemma two_messages_sendable : Forall sendable two_messages.
Proof. repeat constructor; try discriminate; vm_compute; reflexivity. Qed.


Definition latin1_topic : string := String "233" "t".

Lemma invalid_topic_never_acknowledged_witness :
  ∃ t' d' name body, receive "n2" (message_bytes latin1_topic (Some "x") 7) = Some ((t', d'), (name, body)) ∧
    getm (ack (Replication_call name body (server_start NewServer) ∅).1.2) latin1_topic = ∅.
Proof.
  eexists _, _, _, _. split; [vm_compute; reflexivity|].
  eapply (invalid_topic_never_acknowledged latin1_topic (Some "x") 7 "n2" (server_start NewServer) ∅);
    vm_compute; reflexivity.
Defined.
