(* ===== verification/Lifecycle.v ===== *)
(** * Starting and stopping the management servers

    [Start] and [Stop] of [httpjson/server.go] (lines 136 to 167) and of [grpc/server.go]
    (lines 164 to 218).  Both keep the running server in the field [srv], which the caller,
    the goroutine that waits for the context and the goroutine that serves read and write
    without a lock: each access to the field is a step of its own, and all goroutines
    interleave.  A server and its listener are named by a number. *)
From S2P Require Import Prelude.
From stdpp Require Import options.

(** ** HTTP *)

Module HttpLifecycle.

(** Where a goroutine is. *)
Inductive goroutine : Type :=
  | WaitCtx                 (** [<-ctx.Done()], then [Stop] *)
  | ServeRead (g : nat)     (** about to evaluate [s.srv] of [s.srv.Serve(ln)] *)
  | Serving (g : nat) (by_ : nat)  (** listener [g] served by server [by_] *)
  | StopTest                (** [if s.srv == nil] *)
  | StopRead                (** about to evaluate [s.srv] of [s.srv.Shutdown(c)] *)
  | StopShutdown (g : nat)  (** in [Shutdown] *)
  | StopClear.              (** [s.srv = nil] *)

Record server := mkServer {
  srv : option nat;
  next : nat;
  listening : gset nat;     (** open listeners *)
  shut : gset nat;          (** servers on which [Shutdown] was called *)
  running : list goroutine;
  panicked : bool;
}.

Definition NewServer : server := mkServer None 0 ∅ ∅ [] false.

Definition set_running (ts : list goroutine) (s : server) : server :=
  mkServer (srv s) (next s) (listening s) (shut s) ts (panicked s).
Definition panic (ts : list goroutine) (s : server) : server :=
  mkServer (srv s) (next s) (listening s) (shut s) ts true.

(** The next step of a goroutine, with the goroutines [ts] besides it. *)
Definition advance (t : goroutine) (ts : list goroutine) (s : server) : option server :=
  match t with
  | WaitCtx => Some (set_running (StopTest :: ts) s)
  | ServeRead g =>
      match srv s with
      | None => Some (panic ts s)
      | Some b => Some (set_running (Serving g b :: ts) s)
      end
  | Serving g b =>
      (** a server that was shut down returns from [Serve] and closes the listener *)
      if bool_decide (b ∈ shut s)
      then Some (mkServer (srv s) (next s) (listening s ∖ {[g]}) (shut s) ts (panicked s))
      else None
  | StopTest =>
      match srv s with
      | None => Some (set_running ts s)
      | Some _ => Some (set_running (StopRead :: ts) s)
      end
  | StopRead =>
      match srv s with
      | None => Some (panic ts s)
      | Some g => Some (mkServer (srv s) (next s) (listening s) ({[g]} ∪ shut s) (StopShutdown g :: ts) (panicked s))
      end
  | StopShutdown g => Some (set_running (StopClear :: ts) s)
  | StopClear => Some (mkServer None (next s) (listening s) (shut s) ts (panicked s))
  end.

(** [Start]: the server is stored before the listener is opened; [listens] says whether
    [net.Listen] succeeds. *)
Definition start (listens : bool) (s : server) : server :=
  let g := next s in
  if listens
  then mkServer (Some g) (S g) ({[g]} ∪ listening s) (shut s) (WaitCtx :: ServeRead g :: running s) (panicked s)
  else mkServer (Some g) (S g) (listening s) (shut s) (running s) (panicked s).

(** The caller enters [Stop]. *)
Definition call_stop (s : server) : server := set_running (StopTest :: running s) s.

Inductive step : server → server → Prop :=
  | st_start listens s : panicked s = false → step s (start listens s)
  | st_stop s : panicked s = false → step s (call_stop s)
  | st_advance s ts1 t ts2 s' :
      panicked s = false → running s = ts1 ++ t :: ts2 → advance t (ts1 ++ ts2) s = Some s' → step s s'.

(** *** One at a time *)

Definition stopping (t : goroutine) : bool :=
  match t with StopTest | StopRead | StopShutdown _ | StopClear => true | _ => false end.
Definition unread (t : goroutine) : bool := match t with ServeRead _ => true | _ => false end.

(** No [Stop] is running and the serving goroutine has read the field. *)
Definition settled (s : server) : Prop := Forall (λ t, stopping t = false ∧ unread t = false) (running s).

(** The same steps when [Start] is not called on a running server and [Start], [Stop] and
    the end of the context come one after the other, each after the goroutines of the
    previous one have run. *)
Inductive serial_step : server → server → Prop :=
  | ser_start listens s : settled s → srv s = None → serial_step s (start listens s)
  | ser_stop s : settled s → serial_step s (call_stop s)
  | ser_advance s ts1 t ts2 s' :
      running s = ts1 ++ t :: ts2 → advance t (ts1 ++ ts2) s = Some s' →
      (t = WaitCtx → settled s) → serial_step s s'.

(** Goroutines of which there is at most one in a serial run. *)
Definition special (t : goroutine) : bool := stopping t || unread t.
Definition specials (ts : list goroutine) : nat := length (filter (λ t, special t = true) ts).

(** What a goroutine relies on. *)
Definition goroutine_ok (v : option nat) (sh : gset nat) (t : goroutine) : Prop :=
  match t with
  | WaitCtx | StopTest => True
  | ServeRead g => v = Some g
  | Serving g b => b = g ∧ (v = Some g ∨ g ∈ sh)
  | StopRead => is_Some v
  | StopShutdown g => v = Some g ∧ g ∈ sh
  | StopClear => ∃ g, v = Some g ∧ g ∈ sh
  end.

Record serial_inv (s : server) : Prop := {
  si_panic : panicked s = false;
  si_ok : Forall (goroutine_ok (srv s) (shut s)) (running s);
  si_one : specials (running s) ≤ 1;
  si_open g : g ∈ listening s → Serving g g ∈ running s ∨ ServeRead g ∈ running s;
}.

Lemma specials_cons t ts : specials (t :: ts) = (if special t then 1 else 0) + specials ts.
Proof. unfold specials. rewrite filter_cons. by destruct (special t); cbn. Qed.

Lemma specials_perm ts ts' : ts ≡ₚ ts' → specials ts = specials ts'.
Proof. intros E. unfold specials. by rewrite E. Qed.

Lemma settled_specials s : settled s → specials (running s) = 0.
Proof.
  unfold settled. generalize (running s) as ts. induction 1 as [|t ts [H1 H2] _ IH]; [done|].
  rewrite specials_cons, IH. unfold special. by rewrite H1, H2.
Qed.

(** Without a [Stop] or an unread server, only the waiting and the serving are left. *)
Lemma specials_none ts t : specials ts = 0 → t ∈ ts → special t = false.
Proof.
  induction ts as [|t' ts IH]; [by intros _ ?%elem_of_nil|]. rewrite specials_cons.
  intros E [->|Hin]%elem_of_cons; [by destruct (special t')|]. apply IH; [|done]. lia.
Qed.

(** A goroutine that is not special relies only on the servers that are current or shut
    down. *)
Lemma goroutines_kept v sh v' sh' ts :
  specials ts = 0 → Forall (goroutine_ok v sh) ts →
  (∀ g, v = Some g ∨ g ∈ sh → v' = Some g ∨ g ∈ sh') → Forall (goroutine_ok v' sh') ts.
Proof.
  intros H0 Hok Hv. apply Forall_forall. intros t Ht. pose proof (specials_none ts t H0 Ht) as Hsp.
  rewrite Forall_forall in Hok. specialize (Hok t Ht). destruct t; try done.
  destruct Hok as [-> ?]. split; [done|]. by apply Hv.
Qed.

(** Put back together after a step of the goroutine [t]: [new] takes its place. *)
Lemma serial_inv_advance s ts t v sh l new :
  serial_inv s → running s ≡ₚ t :: ts →
  (v = srv s ∧ sh = shut s ∨
   special t = true ∧ ∀ g, srv s = Some g ∨ g ∈ shut s → v = Some g ∨ g ∈ sh) →
  Forall (goroutine_ok v sh) new →
  (specials new ≤ if special t then 1 else 0) ∨ specials new = 1 ∧ settled s →
  (∀ g, g ∈ l → g ∈ listening s ∧ (t = Serving g g ∨ t = ServeRead g → Serving g g ∈ new)) →
  serial_inv (mkServer v (next s) l sh (new ++ ts) (panicked s)).
Proof.
  intros Hi E Hv Hnew Hspn Hl.
  assert (specials (t :: ts) = 0 ∨ ¬ settled s) as Hset.
  { destruct (decide (settled s)) as [H|]; [left|by right].
    rewrite <-(specials_perm _ _ E). by apply settled_specials. }
  destruct Hi as [Hp Hok Hone Hopen]. rewrite E in Hok. apply Forall_cons in Hok as [Ht Hts].
  rewrite (specials_perm _ _ E), specials_cons in Hone. rewrite specials_cons in Hset.
  split; cbn [panicked running srv shut listening]; [done| | |].
  - apply Forall_app. split; [done|]. destruct Hv as [[-> ->]|[Es Hv]]; [done|].
    rewrite Es in Hone. eapply goroutines_kept; [|exact Hts|done]. lia.
  - assert (specials (new ++ ts) = specials new + specials ts) as ->.
    { unfold specials. by rewrite filter_app, length_app. }
    destruct (special t), Hspn as [?|[? ?]], Hset; try done; lia.
  - intros g Hg. destruct (Hl g Hg) as [Hin Hnow]. setoid_rewrite elem_of_app.
    destruct (Hopen g Hin) as [Hg'|Hg']; rewrite E in Hg'; apply elem_of_cons in Hg' as [<-|?]; auto.
Qed.

(** The side conditions of a step that opens nothing. *)
Ltac routine :=
  try solve [ auto | by apply Forall_nil | by apply Forall_singleton | left; apply Nat.le_0_l | left; exact (le_n 1)
            | intros ? ?; split; [done|by intros [?|?]] ].

Lemma serial_inv_step s s' : serial_inv s → serial_step s s' → serial_inv s'.
Proof.
  intros Hi Hs. destruct Hs as [[] s Hst Hv|s Hst|s ts1 t ts2 s' E Ha Hw].
  - pose proof (settled_specials s Hst) as H0. destruct Hi as [Hp Hok Hone Hopen].
    split; cbn [start panicked running srv shut listening]; [done| | |].
    + apply Forall_cons. split; [done|]. apply Forall_cons. split; [done|].
      eapply goroutines_kept; [done|exact Hok|]. rewrite Hv. intros g [?|?]; [done|by right].
    + rewrite !specials_cons, H0. cbn. lia.
    + intros g [->%elem_of_singleton|Hg]%elem_of_union; [right; set_solver|].
      destruct (Hopen g Hg); [left|right]; set_solver.
  - pose proof (settled_specials s Hst) as H0. destruct Hi as [Hp Hok Hone Hopen].
    split; cbn [start panicked running srv shut listening]; [done| |lia|done].
    eapply goroutines_kept; [done|exact Hok|]. rewrite Hv. intros g [?|?]; [done|by right].
  - pose proof (settled_specials s Hst) as H0. destruct Hi as [Hp Hok Hone Hopen].
    split; cbn [call_stop set_running panicked running srv shut listening]; [done| | |].
    + by apply Forall_cons.
    + rewrite specials_cons, H0. cbn. lia.
    + intros g Hg. destruct (Hopen g Hg); [left|right]; set_solver.
  - assert (running s ≡ₚ t :: ts1 ++ ts2) as Ep by (rewrite E; symmetry; apply Permutation_middle).
    pose proof (si_ok s Hi) as Hok. rewrite Ep in Hok. apply Forall_cons in Hok as [Ht _].
    pose proof (serial_inv_advance s (ts1 ++ ts2) t) as Hadv.
    destruct t as [|g|g b| | |g|]; cbn [advance goroutine_ok] in *.
    + simplify_eq. apply (Hadv (srv s) (shut s) (listening s) [StopTest]); routine.
    + rewrite Ht in Ha. simplify_eq. apply (Hadv (srv s) (shut s) (listening s) [Serving g g]); routine.
      * apply Forall_singleton. cbn. auto.
      * intros g' Hg'. split; [done|]. intros [?|[= ->]]; set_solver.
    + case_bool_decide as Hb; [|done]. simplify_eq. destruct Ht as [-> _].
      apply (Hadv (srv s) (shut s) (listening s ∖ {[g]}) []); routine. intros g' Hg'. split; set_solver.
    + destruct (srv s) as [g|] eqn:Ev; simplify_eq; rewrite <-Ev in *.
      * apply (Hadv (srv s) (shut s) (listening s) [StopRead]); routine.
        apply Forall_singleton. cbn. by rewrite Ev.
      * apply (Hadv (srv s) (shut s) (listening s) []); routine.
    + destruct Ht as [g Ev]. rewrite Ev in Ha. simplify_eq. rewrite <-Ev.
      apply (Hadv (srv s) ({[g]} ∪ shut s) (listening s) [StopShutdown g]); routine.
      * right. split; [done|]. intros g' [?|?]; [by left|right; set_solver].
      * apply Forall_singleton. cbn. split; [done|set_solver].
    + simplify_eq. apply (Hadv (srv s) (shut s) (listening s) [StopClear]); routine.
      apply Forall_singleton. cbn. eauto.
    + destruct Ht as (g & Ev & Hg). simplify_eq. apply (Hadv None (shut s) (listening s) []); routine.
      right. split; [done|]. rewrite Ev. intros g' [[= ->]|?]; by right.
Qed.

Lemma serial_reachable_inv s : rtc serial_step NewServer s → serial_inv s.
Proof.
  apply rtc_ind_r; [|intros s1 s2 _ Hs Hi; by eapply serial_inv_step].
  split; [done|by apply Forall_nil|cbn; lia|]. cbn. set_solver.
Qed.

Lemma stopped_served s g :
  serial_inv s → srv s = None → g ∈ listening s → Serving g g ∈ running s ∧ g ∈ shut s.
Proof.
  intros [_ Hok _ Hopen] Hv Hg. rewrite Forall_forall in Hok.
  destruct (Hopen g Hg) as [Hin|Hin]; specialize (Hok _ Hin); cbn in Hok; [|congruence].
  split; [done|]. destruct Hok as [_ [?|?]]; [congruence|done].
Qed.

Lemma ports_released s :
  serial_inv s → srv s = None → ∃ s', rtc serial_step s s' ∧ listening s' = ∅ ∧ srv s' = None.
Proof.
  remember (size (listening s)) as n eqn:En. revert s En.
  induction n as [|n IH]; intros s En Hi Hv.
  { exists s. split_and!; [done| |done]. apply leibniz_equiv, size_empty_inv. lia. }
  destruct (decide (listening s = ∅)) as [He|He]; [by exists s|].
  apply set_choose_L in He as [g Hg]. destruct (stopped_served s g Hi Hv Hg) as [Hin Hsh].
  apply list_elem_of_split in Hin as (ts1 & ts2 & E).
  set (s1 := mkServer (srv s) (next s) (listening s ∖ {[g]}) (shut s) (ts1 ++ ts2) (panicked s)).
  assert (serial_step s s1) as Hstep.
  { apply (ser_advance s ts1 (Serving g g) ts2); [done| |done]. cbn. by rewrite bool_decide_eq_true_2. }
  destruct (IH s1) as (s' & H1 & H2 & H3); [|by eapply serial_inv_step|done|].
  - cbn. rewrite size_difference by set_solver. rewrite size_singleton. lia.
  - exists s'. split; [|done]. by eapply rtc_l.
Qed.

(** C36. The HTTP server started and stopped one call at a time (a server is started when
    none runs, and [Start], [Stop] and the end of the context each come after the
    goroutines of the previous one have run): no goroutine dereferences the nil server, and
    after [Stop] every listener can be, and once its goroutine has run is, closed. *)
Theorem serial_lifecycle_safe s :
  rtc serial_step NewServer s →
  panicked s = false ∧
  (srv s = None → (∀ g, g ∈ listening s → Serving g g ∈ running s ∧ g ∈ shut s) ∧
    ∃ s', rtc serial_step s s' ∧ listening s' = ∅ ∧ srv s' = None).
Proof.
  intros Hi%serial_reachable_inv. split; [apply (si_panic s Hi)|]. intros Hv.
  split; [intros g; by apply stopped_served|by apply ports_released].
Qed.

(** *** Races *)

(** Pick the next goroutine that moves by its position. *)
Ltac go n :=
  eapply rtc_l;
  [ let s := lazymatch goal with |- step ?s _ => s end in
    let r := eval vm_compute in (running s) in
    let l := eval vm_compute in (take n r) in
    let rest := eval vm_compute in (drop n r) in
    lazymatch rest with
    | ?t :: ?ts => eapply (st_advance s l t ts); [reflexivity|vm_compute; reflexivity|reflexivity]
    end
  | cbn ].

(** Two [Stop]s at once, the caller's and that of the context, when both have tested the
    field: the first sets it to nil and the second calls [Shutdown] on nil, which ends the
    process. *)
Theorem concurrent_stop_panics :
  ∃ s, rtc step (call_stop (start true NewServer)) s ∧ panicked s = true.
Proof.
  eexists. split.
  - go 2. go 2. go 0. go 2. go 0. go 0. go 0. go 0. apply rtc_refl.
  - reflexivity.
Qed.

(** A [Stop] that finishes before the goroutine that serves has run: that goroutine calls
    [Serve] on nil. *)
Theorem stop_before_serve_panics :
  ∃ s, rtc step (call_stop (start true NewServer)) s ∧ panicked s = true.
Proof.
  eexists. split.
  - go 0. go 0. go 0. go 0. go 1. apply rtc_refl.
  - reflexivity.
Qed.

End HttpLifecycle.

(** ** gRPC *)

Module GrpcLifecycle.

(** Where the caller of [Stop] is, and the goroutine it launches. *)
Inductive main_pc : Type :=
  | MIdle
  | MTest     (** [if s.srv == nil] *)
  | MSelect   (** [select] on the goroutine and the context *)
  | MHard     (** about to evaluate [s.srv] of [s.srv.Stop()] *)
  | MClear.   (** [s.srv = nil], and the listener is closed *)

Inductive helper_pc : Type :=
  | HNone
  | HRead     (** about to evaluate [s.srv] of [s.srv.GracefulStop()] *)
  | HGrace    (** in [GracefulStop] *)
  | HDone.    (** [close(ch)] *)

(** The fields [srv] and [lis], set or nil, and the goroutines of a [Stop].  The goroutines
    of [Start] use their own copy of the server. *)
Record server := mkServer {
  srv : bool;
  lis : bool;
  main : main_pc;
  helper : helper_pc;
  panicked : bool;
}.

Definition NewServer : server := mkServer false false MIdle HNone false.

Section steps.
  (** whether the context of [Stop] may end *)
  Context (ctx_ends : bool).

(** One call of [Stop] at a time. *)
Inductive step : server → server → Prop :=
  | st_start s : main s = MIdle → (helper s = HNone ∨ helper s = HDone) → panicked s = false →
      step s (mkServer true true MIdle HNone false)
  | st_stop s : main s = MIdle → (helper s = HNone ∨ helper s = HDone) → panicked s = false →
      step s (mkServer (srv s) (lis s) MTest HNone false)
  | st_test s : main s = MTest → panicked s = false →
      step s (if srv s then mkServer true (lis s) MSelect HRead false
              else mkServer false (lis s) MIdle HNone false)
  | st_read s : helper s = HRead → panicked s = false →
      step s (mkServer (srv s) (lis s) (main s) (if srv s then HGrace else HDone) (negb (srv s)))
  | st_grace s : helper s = HGrace → panicked s = false →
      step s (mkServer (srv s) (lis s) (main s) HDone false)
  | st_done s : main s = MSelect → helper s = HDone → panicked s = false →
      step s (mkServer (srv s) (lis s) MClear HDone false)
  | st_ctx s : main s = MSelect → ctx_ends = true → panicked s = false →
      step s (mkServer (srv s) (lis s) MHard (helper s) false)
  | st_hard s : main s = MHard → panicked s = false →
      step s (mkServer (srv s) (lis s) MClear (helper s) (negb (srv s)))
  | st_clear s : main s = MClear → panicked s = false →
      step s (mkServer false false MIdle (helper s) false).

(** With a context that does not end: the field is set while the goroutine has still to
    read it, and a cleared server has no listener. *)
Record stop_inv (s : server) : Prop := {
  gi_panic : panicked s = false;
  gi_fields : lis s = srv s;
  gi_helper : (helper s = HRead ∨ helper s = HGrace) → main s = MSelect;
  gi_main : main s = MSelect ∨ main s = MClear → srv s = true;
  gi_select : main s = MSelect → helper s ≠ HNone;
  gi_hard : main s ≠ MHard;
}.

Lemma stop_inv_step s s' : ctx_ends = false → stop_inv s → step s s' → stop_inv s'.
Proof.
  intros Hc [H1 H2 H3 H4 H5 H6] Hs.
  destruct Hs as [s Hm Hh _|s Hm Hh _|s Hm _|s Hh _|s Hh _|s Hm Hh _|s Hm Hx _|s Hm _|s Hm _];
    destruct s as [sv li m h p]; cbn [srv lis main helper panicked] in *; subst; try congruence.
  - split; cbn; naive_solver.
  - split; cbn; naive_solver.
  - destruct sv; split; cbn; naive_solver.
  - rewrite H3 in H4 |- * by auto. rewrite H4 by auto. split; cbn; naive_solver.
  - split; cbn; naive_solver.
  - split; cbn; naive_solver.
  - split; cbn; naive_solver.
Qed.

(** Every [Stop] in progress can be completed. *)
Lemma stop_completes s :
  stop_inv s → main s = MSelect ∨ main s = MClear → ∃ s', rtc step s s' ∧ main s' = MIdle ∧ srv s' = false ∧ lis s' = false.
Proof.
  intros [H1 H2 H3 H4 H5 H6] Hm. destruct s as [sv li m h p]; cbn [srv lis main helper panicked] in *; subst.
  rewrite H4 by done.
  assert (∃ s', rtc step (mkServer true true MClear HDone false) s' ∧ main s' = MIdle ∧ srv s' = false ∧ lis s' = false)
    as Hclear by (eexists; split; [apply rtc_once; by apply st_clear|done]).
  destruct Hm as [->| ->].
  - destruct Hclear as (s' & Hr & Hs').
    assert (rtc step (mkServer true true MSelect HDone false) s') as Hd
      by (eapply rtc_l; [by apply st_done|done]).
    assert (rtc step (mkServer true true MSelect HGrace false) s') as Hg
      by (eapply rtc_l; [by apply st_grace|done]).
    exists s'. split; [|done]. destruct h; [by specialize (H5 eq_refl)| |done|done].
    eapply rtc_l; [by apply st_read|]. done.
  - eexists. split; [apply rtc_once; by apply st_clear|]. done.
Qed.

(** The gRPC server, stopped one call at a time with a context that does not end: the
    graceful stop never finds the server gone, [Stop] can always finish, and when it has,
    the server is cleared and its listener closed. *)
Theorem graceful_stop_safe s :
  ctx_ends = false → rtc step NewServer s →
  panicked s = false ∧ lis s = srv s ∧
  (main s = MSelect ∨ main s = MClear →
    ∃ s', rtc step s s' ∧ main s' = MIdle ∧ srv s' = false ∧ lis s' = false).
Proof.
  intros Hc Hs. assert (stop_inv s) as Hi.
  { revert Hs. apply rtc_ind_r; [by split; cbn; naive_solver|].
    intros s1 s2 _ H12 Hi. by eapply stop_inv_step. }
  split_and!; [apply Hi|apply Hi|by apply stop_completes].
Qed.

(** [Stop] with a context that is done before the graceful stop begins: [Stop] clears the
    field, and the goroutine it launched then calls [GracefulStop] on nil, which ends the
    process. *)
Theorem cancelled_stop_panics :
  ctx_ends = true → ∃ s, rtc step (mkServer true true MIdle HNone false) s ∧ panicked s = true.
Proof.
  intros Hc. eexists. split.
  - eapply rtc_l; [by apply st_stop; auto|]. eapply rtc_l; [by apply st_test|]. cbn.
    eapply rtc_l; [by apply st_ctx|]. cbn. eapply rtc_l; [by apply st_hard|]. cbn.
    eapply rtc_l; [by apply st_clear|]. cbn. eapply rtc_l; [by apply st_read|]. cbn. apply rtc_refl.
  - reflexivity.
Qed.

End steps.
End GrpcLifecycle.

(** ** Witnesses *)

Definition http_stopped : HttpLifecycle.server :=
  HttpLifecycle.mkServer None 1 {[0]} {[0]} [HttpLifecycle.Serving 0 0; HttpLifecycle.WaitCtx] false.

Lemma http_stopped_reachable : rtc HttpLifecycle.serial_step HttpLifecycle.NewServer http_stopped.
Proof.
  eapply rtc_l; [apply (HttpLifecycle.ser_start true); [by apply Forall_nil|done]|]. cbn.
  eapply rtc_l; [eapply (HttpLifecycle.ser_advance _ [_] _ []); [reflexivity|reflexivity|done]|]. cbn.
  eapply rtc_l; [apply HttpLifecycle.ser_stop; repeat constructor|]. cbn.
  eapply rtc_l; [eapply (HttpLifecycle.ser_advance _ []); [reflexivity|reflexivity|done]|]. cbn.
  eapply rtc_l; [eapply (HttpLifecycle.ser_advance _ []); [reflexivity|reflexivity|done]|]. cbn.
  eapply rtc_l; [eapply (HttpLifecycle.ser_advance _ []); [reflexivity|reflexivity|done]|]. cbn.
  eapply rtc_l; [eapply (HttpLifecycle.ser_advance _ []); [reflexivity|reflexivity|done]|]. cbn.
  rewrite !(right_id_L ∅ (∪)). apply rtc_refl.
Qed.

Lemma serial_lifecycle_safe_witness :
  HttpLifecycle.panicked http_stopped = false ∧
  ∃ s', rtc HttpLifecycle.serial_step http_stopped s' ∧ HttpLifecycle.listening s' = ∅.
Proof.
  destruct (HttpLifecycle.serial_lifecycle_safe http_stopped http_stopped_reachable) as [H1 H2].
  split; [exact H1|]. destruct (H2 eq_refl) as (_ & s' & H3 & H4 & _). by exists s'.
Defined.

Lemma graceful_stop_safe_witness :
  ∃ s', rtc (GrpcLifecycle.step false)
    (GrpcLifecycle.mkServer true true GrpcLifecycle.MSelect GrpcLifecycle.HRead false) s' ∧ GrpcLifecycle.lis s' = false.
Proof.
  destruct (GrpcLifecycle.graceful_stop_safe false
    (GrpcLifecycle.mkServer true true GrpcLifecycle.MSelect GrpcLifecycle.HRead false)) as (_ & _ & H).
  - reflexivity.
  - eapply rtc_l; [apply GrpcLifecycle.st_start; auto|]. eapply rtc_l; [apply GrpcLifecycle.st_stop; auto|].
    eapply rtc_l; [by apply GrpcLifecycle.st_test|]. apply rtc_refl.
  - destruct H as (s' & H1 & _ & _ & H2); [by left|]. by exists s'.
Defined.

Lemma cancelled_stop_panics_witness :
  ∃ s, rtc (GrpcLifecycle.step true)
    (GrpcLifecycle.mkServer true true GrpcLifecycle.MIdle GrpcLifecycle.HNone false) s ∧ GrpcLifecycle.panicked s = true.
Proof. apply (GrpcLifecycle.cancelled_stop_panics true). reflexivity. Defined.
