(* ===== verification/RaftLifecycle.v ===== *)
(** * The goroutines of a Raft node

    [Start] of [raft.go] (lines 46 to 164) launches three goroutines: one follows the library's
    observations of the leader, one reports the leader once after a moment, and one stops the
    node when the context of [Start] is done.  These, the loops of the facade and [Stop] all use
    the field [r] without a lock: a method tests it and then reads it again.  Each read is a
    step of its own and all goroutines interleave; an instance of the library is a number. *)
From S2P Require Import Prelude Types RaftNode.
From stdpp Require Import options.

(** Who called [Leader]: the two goroutines of [Start] go on with [Term] and report. *)
Inductive caller : Type := Observer | Initial | Facade.

(** Where a goroutine is. *)
Inductive goroutine : Type :=
  | Observing                                   (** [for range obsCh] *)
  | Sleeping                                    (** [time.Sleep(50 * time.Millisecond)] *)
  | WaitCtx (g : nat)                           (** [<-ctx.Done()] of the [Start] that made [g], then [Stop] *)
  | LeaderTest (w : caller) | LeaderUse (w : caller)
  | TermTest (w : caller) (id addr : string) | TermUse (w : caller) (id addr : string)
  | Emit (w : caller) (li : LeaderInfo)
  | MethodTest                                  (** [IsLeader], [Apply], [AddVoter], [RemoveServer] *)
  | MethodUse (more : nat)                      (** and how many uses of [n.r] may follow *)
  | StopTest | StopUse | StopShutdown | StopClear.

Record raftNode := mkRaftNode {
  inst : option nat;        (** [n.r] *)
  fresh : nat;
  channel : list LeaderInfo;  (** [n.lch] *)
  running : list goroutine;
  panicked : bool;
}.

Definition new_node : raftNode := mkRaftNode None 0 [] [] false.

(** What the caller of [Leader] does with no leader, and with one. *)
Definition back (w : caller) : list goroutine := match w with Observer => [Observing] | _ => [] end.
Definition known (w : caller) (id addr : string) : list goroutine :=
  match w with Facade => [] | _ => [TermTest w id addr] end.

(** A step of a goroutine that does not dereference nil: the field, the channel and what the
    goroutine is then. *)
Inductive moves (v : option nat) (ch : list LeaderInfo) : goroutine → option nat → list LeaderInfo → list goroutine → Prop :=
  | mv_observe : moves v ch Observing v ch [LeaderTest Observer]
  | mv_wake : moves v ch Sleeping v ch [LeaderTest Initial]
  | mv_ctx g : moves v ch (WaitCtx g) v ch [StopTest]
  | mv_leader_nil w : v = None → moves v ch (LeaderTest w) v ch (back w)
  | mv_leader_test w : is_Some v → moves v ch (LeaderTest w) v ch [LeaderUse w]
  | mv_leader_none w : is_Some v → moves v ch (LeaderUse w) v ch (back w)
  | mv_leader_some w id addr : is_Some v → id ≠ EmptyString → moves v ch (LeaderUse w) v ch (known w id addr)
  | mv_term_nil w id addr : v = None → moves v ch (TermTest w id addr) v ch [Emit w (mkLeaderInfo id addr 0)]
  | mv_term_test w id addr : is_Some v → moves v ch (TermTest w id addr) v ch [TermUse w id addr]
  | mv_term_use w id addr term : is_Some v → moves v ch (TermUse w id addr) v ch [Emit w (mkLeaderInfo id addr term)]
  | mv_emit w li : moves v ch (Emit w li) v (emitLeader li ch) (back w)
  | mv_method_nil : v = None → moves v ch MethodTest v ch []
  | mv_method_test more : is_Some v → moves v ch MethodTest v ch [MethodUse more]
  | mv_method_more more : is_Some v → moves v ch (MethodUse (S more)) v ch [MethodUse more]
  | mv_method_end more : is_Some v → moves v ch (MethodUse more) v ch []
  | mv_stop_nil : v = None → moves v ch StopTest v ch []
  | mv_stop_test : is_Some v → moves v ch StopTest v ch [StopUse]
  | mv_stop_use : is_Some v → moves v ch StopUse v ch [StopShutdown]
  | mv_stop_error : moves v ch StopShutdown v ch []
  | mv_stop_done : moves v ch StopShutdown v ch [StopClear]
  | mv_stop_clear : moves v ch StopClear None ch [].

(** About to use [n.r] after the test. *)
Definition derefs (t : goroutine) : bool :=
  match t with LeaderUse _ | TermUse _ _ _ | MethodUse _ | StopUse => true | _ => false end.

(** A successful [Start]; when bootstrapping fails the instance stays but nobody waits for the
    context. *)
Definition start (boots : bool) (s : raftNode) : raftNode :=
  mkRaftNode (Some (fresh s)) (S (fresh s)) (channel s)
    ((if boots then [WaitCtx (fresh s)] else []) ++ [Sleeping; Observing] ++ running s) (panicked s).

Definition enter (t : goroutine) (s : raftNode) : raftNode :=
  mkRaftNode (inst s) (fresh s) (channel s) (t :: running s) (panicked s).

Inductive step : raftNode → raftNode → Prop :=
  | st_start boots s : inst s = None → step s (start boots s)
  | st_call t s : t ∈ [LeaderTest Facade; MethodTest; StopTest] → step s (enter t s)
  | st_move s ts1 t ts2 v ch ts :
      running s = ts1 ++ t :: ts2 → moves (inst s) (channel s) t v ch ts →
      step s (mkRaftNode v (fresh s) ch (ts1 ++ ts ++ ts2) (panicked s))
  | st_panic s ts1 t ts2 :
      running s = ts1 ++ t :: ts2 → derefs t = true → inst s = None →
      step s (mkRaftNode None (fresh s) (channel s) (ts1 ++ ts2) true).

(** ** With a lock *)

(** Between the test of the field and the end of the method. *)
Definition inside (t : goroutine) : bool :=
  derefs t || match t with StopShutdown | StopClear => true | _ => false end.
Definition insiders (ts : list goroutine) : nat := length (filter (λ t, inside t = true) ts).

(** The same steps when the methods hold a mutex from their test on. *)
Inductive locked_step : raftNode → raftNode → Prop :=
  | lk_start boots s : inst s = None → insiders (running s) = 0 → locked_step s (start boots s)
  | lk_call t s : t ∈ [LeaderTest Facade; MethodTest; StopTest] → locked_step s (enter t s)
  | lk_move s ts1 t ts2 v ch ts :
      running s = ts1 ++ t :: ts2 → moves (inst s) (channel s) t v ch ts →
      (inside t = false → insiders ts = 0 ∨ insiders (ts1 ++ ts2) = 0) →
      locked_step s (mkRaftNode v (fresh s) ch (ts1 ++ ts ++ ts2) (panicked s))
  | lk_panic s ts1 t ts2 :
      running s = ts1 ++ t :: ts2 → derefs t = true → inst s = None →
      locked_step s (mkRaftNode None (fresh s) (channel s) (ts1 ++ ts2) true).

Lemma insiders_app ts ts' : insiders (ts ++ ts') = insiders ts + insiders ts'.
Proof. unfold insiders. by rewrite filter_app, length_app. Qed.

Lemma insiders_cons t ts : insiders (t :: ts) = (if inside t then 1 else 0) + insiders ts.
Proof. unfold insiders. rewrite filter_cons. by destruct (inside t). Qed.

Lemma insiders_none ts t : insiders ts = 0 → t ∈ ts → inside t = false.
Proof.
  induction ts as [|t' ts IH]; [by intros _ ?%elem_of_nil|]. rewrite insiders_cons.
  intros E [->|Hin]%elem_of_cons; [by destruct (inside t')|]. apply IH; [lia|done].
Qed.

Record locked_inv (s : raftNode) : Prop := {
  li_panic : panicked s = false;
  li_one : insiders (running s) ≤ 1;
  li_some t : t ∈ running s → inside t = true → is_Some (inst s);
  li_cap : length (channel s) ≤ lch_cap;
}.

(** A move turns a goroutine into at most one, keeps the field for the others unless it ends a
    [Stop], and is inside only with an instance. *)
Lemma moves_inside v ch t v' ch' ts :
  moves v ch t v' ch' ts → (inside t = true → is_Some v) →
  insiders ts ≤ 1 ∧ (v' = v ∨ (inside t = true ∧ ts = [])) ∧ (∀ u, u ∈ ts → inside u = true → is_Some v') ∧
  (length ch ≤ lch_cap → length ch' ≤ lch_cap).
Proof.
  assert (∀ w, insiders (back w) = 0 ∧ ∀ u, u ∈ back w → inside u = true → is_Some v) as Hb.
  { intros []; (split; [done|]); intros u Hu; cbn in Hu; try (by apply elem_of_nil in Hu).
    by apply list_elem_of_singleton in Hu as ->. }
  intros Hm Ht. destruct Hm; cbn in Ht; split_and!; try (rewrite ?insiders_cons; cbn; lia); try (by left); try done;
    try (rewrite (proj1 (Hb w)); lia); try (apply (Hb w));
    try (intros u ->%list_elem_of_singleton; cbn; by auto); try (by intros u ?%elem_of_nil).
  - destruct w; cbn [known]; rewrite ?insiders_cons; cbn; lia.
  - intros Hc. unfold emitLeader, try_send. case_decide; [|done]. rewrite length_app. cbn. lia.
  - by right.
Qed.

Lemma locked_inv_step s s' : locked_inv s → locked_step s s' → locked_inv s'.
Proof.
  intros [Hp Hone Hsome Hcap] Hs. destruct Hs as [boots s Hv H0|t s Ht|s ts1 t ts2 v ch ts E Hm Hl|s ts1 t ts2 E Hd Hv].
  - split; cbn [start panicked running inst channel]; [done| |by eauto|done].
    rewrite !insiders_app, H0, !insiders_cons. destruct boots; rewrite ?insiders_cons; cbn; lia.
  - assert (inside t = false) as Hi by (by repeat (apply elem_of_cons in Ht as [->|Ht]; [done|]); apply elem_of_nil in Ht).
    split; cbn [enter panicked running inst channel]; [done| |  |done].
    + rewrite insiders_cons, Hi. lia.
    + intros u [->|Hu]%elem_of_cons Hin; [congruence|eauto].
  - rewrite E in Hsome, Hone. rewrite insiders_app, insiders_cons in Hone.
    destruct (moves_inside _ _ _ _ _ _ Hm) as (Hts & Hv & Hu & Hc); [intros; apply (Hsome t); set_solver|].
    rewrite insiders_app in Hl. split; cbn [panicked running inst channel]; [done| | |by auto].
    + rewrite !insiders_app. destruct (inside t) eqn:Ei; [lia|]. destruct Hl as [?|?]; [done|lia|lia].
    + intros u Hin Hiu. rewrite !elem_of_app in Hin. destruct Hin as [Hin|[Hin|Hin]]; [|by eauto|].
      all: destruct Hv as [->|[Ei _]]; [apply (Hsome u); [set_solver|done]|].
      all: rewrite Ei in Hone; exfalso; pose proof (insiders_none (ts1 ++ ts2) u) as Hn; rewrite insiders_app in Hn;
        rewrite Hn in Hiu; [done|lia|set_solver].
  - destruct (Hsome t) as [g Hg]; [rewrite E; set_solver|unfold inside; by rewrite Hd|congruence].
Qed.

(** A lock around the methods would be enough: then nobody dereferences nil, however the
    goroutines interleave and whenever the node is stopped and started again, and the channel of
    leaders keeps its bound. *)
Theorem locked_methods_safe s :
  rtc locked_step new_node s → panicked s = false ∧ length (channel s) ≤ lch_cap.
Proof.
  intros Hr. assert (locked_inv s) as [H1 _ _ H2]; [|done].
  revert Hr. apply rtc_ind_r; [|intros s1 s2 _ Hs Hi; by eapply locked_inv_step].
  split; [done|cbn; lia|by intros t ?%elem_of_nil|cbn; unfold lch_cap; lia].
Qed.

(** ** Without it *)

(** Move the goroutine at a position. *)
Lemma move_at n s t v ch ts :
  running s !! n = Some t → moves (inst s) (channel s) t v ch ts →
  step s (mkRaftNode v (fresh s) ch (take n (running s) ++ ts ++ drop (S n) (running s)) (panicked s)).
Proof. intros Hn Hm. eapply st_move; [symmetry; by apply take_drop_middle|done]. Qed.

(** A started node on which one loop of the facade is in [IsLeader]. *)
Definition polled_node : raftNode := enter MethodTest (start true new_node).

(** [IsLeader] has tested the field when the context is done: [Stop] clears the field, and the
    loop, which the facade runs until its own context is done, dereferences nil. *)
Theorem stop_races_read : ∃ s, rtc step polled_node s ∧ panicked s = true.
Proof.
  eexists. split.
  - eapply rtc_l; [eapply (move_at 0); [done|by apply (mv_method_test _ _ 0)]|]. cbn.
    eapply rtc_l; [eapply (move_at 1); [done|apply mv_ctx]|]. cbn.
    eapply rtc_l; [eapply (move_at 1); [done|by apply mv_stop_test]|]. cbn.
    eapply rtc_l; [eapply (move_at 1); [done|by apply mv_stop_use]|]. cbn.
    eapply rtc_l; [eapply (move_at 1); [done|apply mv_stop_done]|]. cbn.
    eapply rtc_l; [eapply (move_at 1); [done|apply mv_stop_clear]|]. cbn.
    apply rtc_once. by eapply (st_panic _ [] (MethodUse 0)).
  - done.
Qed.

(** A list in which one place is taken by another element. *)
Lemma replaced_at {A} (l : list A) n t :
  n < length l →
  let l' := take n l ++ [t] ++ drop (S n) l in
  l' !! n = Some t ∧ take n l' = take n l ∧ drop (S n) l' = drop (S n) l.
Proof.
  intros Hlt. assert (length (take n l) = n) as El by (rewrite length_take; lia). cbn zeta. split_and!.
  - rewrite lookup_app_r by lia. by rewrite El, Nat.sub_diag.
  - rewrite take_app_le by lia. by rewrite take_take, Nat.min_id.
  - rewrite drop_app_ge by lia. by replace (S n - length (take n l)) with 1 by lia.
Qed.

(** A whole [Stop] by the goroutine at a position that is about to enter it. *)
Lemma stop_at n s g :
  running s !! n = Some StopTest → inst s = Some g →
  rtc step s (mkRaftNode None (fresh s) (channel s) (take n (running s) ++ drop (S n) (running s)) (panicked s)).
Proof.
  intros Hn Hg. assert (is_Some (inst s)) as Hs by by rewrite Hg.
  pose proof (lookup_lt_Some _ _ _ Hn) as Hlt.
  assert (∀ t, _) as Hx by (intros t; exact (replaced_at (running s) n t Hlt)).
  eapply rtc_l; [by eapply (move_at n), mv_stop_test|].
  destruct (Hx StopUse) as (H1 & H2 & H3).
  eapply rtc_l; [by eapply (move_at n), mv_stop_use|]. cbn [running fresh channel panicked inst]. rewrite H2, H3.
  destruct (Hx StopShutdown) as (H4 & H5 & H6).
  eapply rtc_l; [by eapply (move_at n), mv_stop_done|]. cbn [running fresh channel panicked inst]. rewrite H5, H6.
  destruct (Hx StopClear) as (H7 & H8 & H9).
  eapply rtc_l; [by eapply (move_at n), mv_stop_clear|]. cbn [running fresh channel panicked inst]. rewrite H8, H9.
  done.
Qed.

(** The goroutine that waits for the context of the first [Start] outlives [Stop]: when the node
    has been started again under another context, the end of the first one stops it, while its
    own context goes on. *)
Theorem old_context_stops_restarted :
  ∃ s s', rtc step new_node s ∧ inst s = Some 1 ∧ WaitCtx 0 ∈ running s ∧ WaitCtx 1 ∈ running s ∧
    rtc step s s' ∧ inst s' = None ∧ WaitCtx 1 ∈ running s' ∧ panicked s' = false.
Proof.
  set (a := enter StopTest (start true new_node)).
  set (s := start true (mkRaftNode None 1 [] [WaitCtx 0; Sleeping; Observing] false)).
  exists s, (mkRaftNode None 2 [] [WaitCtx 1; Sleeping; Observing; Sleeping; Observing] false). split_and!.
  - eapply rtc_l; [by apply (st_start true)|]. eapply rtc_l; [apply (st_call StopTest); set_solver|].
    eapply rtc_trans; [by apply (stop_at 0 a 0)|]. by apply rtc_once, (st_start true).
  - done.
  - cbn. set_solver.
  - cbn. set_solver.
  - eapply rtc_l; [by eapply (move_at 3), mv_ctx|]. cbn.
    by apply (stop_at 3 (mkRaftNode (Some 1) 2 [] [WaitCtx 1; Sleeping; Observing; StopTest; Sleeping; Observing] false) 1).
  - done.
  - cbn. set_solver.
  - done.
Qed.

(** ** Witnesses *)

Lemma locked_methods_safe_witness : panicked polled_node = false.
Proof.
  apply locked_methods_safe. eapply rtc_l; [by apply (lk_start true)|]. apply rtc_once, (lk_call MethodTest). set_solver.
Defined.
