(* ===== verification/Routes.v ===== *)
(** * Requests and where they arrive

    The routes of the HTTP server ([httpjson/server.go], [Start]), the clients as they are
    constructed and the requests they build: [httpjson/client.go] makes a URL from the
    scheme, the address and the path of an endpoint, [grpc/client.go] names a method of the
    service.  The Prometheus handler is a parameter. *)
From S2P Require Import Prelude GoStrings Metrics ConnMgr Utf8 Json Types JsonCodec.
From S2P Require Import Effects Cluster Http Grpc RepWire.
From stdpp Require Import options.

(** ** The HTTP server *)

(** The patterns of the multiplexer. *)
Inductive route : Type := RStatus | RHealthz | RMetrics | RJoin | RLeave | RAppWrite | RAppSync.

Global Instance route_eq_dec : EqDecision route.
Proof. solve_decision. Defined.

Definition pattern (r : route) : string :=
  match r with
  | RStatus => "/status"
  | RHealthz => "/healthz"
  | RMetrics => "/metrics"
  | RJoin => "/join"
  | RLeave => "/leave"
  | RAppWrite => "/appwrite"
  | RAppSync => "/appsync"
  end.

Definition routes : list route := [RStatus; RHealthz; RMetrics; RJoin; RLeave; RAppWrite; RAppSync].

(** A pattern without a trailing slash matches exactly its path. *)
Definition mux (path : string) : option route := List.find (λ r, bool_decide (pattern r = path)) routes.

(** The multiplexer redirects a path that is not in its shortest form: without a leading
    slash, or with an empty element or one that is [.] or [..] (the last may be empty). *)
Definition clean_path (path : string) : bool :=
  match Split path "/" with
  | EmptyString :: elems =>
      forallb (λ e, negb (bool_decide (e = "." ∨ e = ".."))) elems &&
      forallb (λ e, negb (bool_decide (e = EmptyString))) (removelast elems) && negb (bool_decide (elems = []))
  | _ => false
  end.

Section server.
  Context (decode_error : bytes → string) (metrics : method → response).
  (** the body of a redirection *)
  Context (moved : string → bytes).

(** The functions the facade gives to [Start], which change the state of the node; all but
    the status may be nil. *)
Record functions {St : Type} := mkFunctions {
  f_status : St → gores bytes * St;
  f_join : option (JoinRequest → St → (JoinResponse * option string) * St);
  f_leave : option (LeaveRequest → St → (LeaveResponse * option string) * St);
  f_appWrite : option (AppWriteRequest → St → (AppWriteResponse * option string) * St);
  f_appSync : option (AppSyncRequest → St → (AppSyncResponse * option string) * St);
}.
Arguments functions : clear implicits.
Arguments mkFunctions {St} _ _ _ _ _.

(** The handler of the server. *)
Definition ServeHTTP {St} (F : functions St) (path : string) (m : method) (body : bytes) (s : St) : response * St :=
  if negb (clean_path path) then (mkResponse 301 (moved path), s)
  else match mux path with
  | None => (http_error "404 page not found" 404, s)
  | Some RStatus => status_handler (f_status F) m s
  | Some RHealthz => (healthz_handler m, s)
  | Some RMetrics => (metrics m, s)
  | Some RJoin => join_handler decode_error (f_join F) m body s
  | Some RLeave => leave_handler decode_error (f_leave F) m body s
  | Some RAppWrite => appwrite_handler decode_error (f_appWrite F) m body s
  | Some RAppSync => appsync_handler decode_error (f_appSync F) m body s
  end.

(** *** Which requests run a function *)

(** A call of one of the functions. *)
Inductive fcall : Type :=
  | FStatus
  | FJoin (q : JoinRequest)
  | FLeave (q : LeaveRequest)
  | FAppWrite (q : AppWriteRequest)
  | FAppSync (q : AppSyncRequest).

(** The functions, keeping a record of their calls. *)
Definition noting {St Q R} (tag : Q → fcall) (f : Q → St → (R * option string) * St)
    (q : Q) (x : list fcall * St) : (R * option string) * (list fcall * St) :=
  let '(r, s) := f q x.2 in (r, (x.1 ++ [tag q], s)).

Definition noted {St} (F : functions St) : functions (list fcall * St) :=
  mkFunctions (λ x, let '(r, s) := f_status F x.2 in (r, (x.1 ++ [FStatus], s)))
    (noting FJoin <$> f_join F) (noting FLeave <$> f_leave F)
    (noting FAppWrite <$> f_appWrite F) (noting FAppSync <$> f_appSync F).

(** The call a request asks for: the right method on one of five paths, with a body that
    decodes. *)
Definition asked (path : string) (m : method) (body : bytes) : option fcall :=
  match m with
  | GET => if decide (path = "/status") then Some FStatus else None
  | POST =>
      if decide (path = "/join") then FJoin <$> Decode JoinRequest_codec body
      else if decide (path = "/leave") then FLeave <$> Decode LeaveRequest_codec body
      else if decide (path = "/appwrite") then FAppWrite <$> Decode AppWriteRequest_codec body
      else if decide (path = "/appsync") then FAppSync <$> Decode AppSyncRequest_codec body
      else None
  | OtherMethod => None
  end.

(** Its answer: what the function replied, with status 200, or 500 when it gave an error;
    [None] when there is no such function. *)
Definition outcome {R St} (cr : codec R) (r : (R * option string) * St) : response * St :=
  (mkResponse (if r.1.2 then 500 else 200) (Encode cr r.1.1), r.2).

Definition answer {St} (F : functions St) (c : fcall) (s : St) : option (response * St) :=
  match c with
  | FStatus => Some match f_status F s with
                    | (Ok data, s') => (mkResponse 200 data, s')
                    | (Err e, s') => (mkResponse 500 (("status error: " +:+ e) +:+ String "010" EmptyString), s')
                    end
  | FJoin q => (λ f, outcome JoinResponse_codec (f q s)) <$> f_join F
  | FLeave q => (λ f, outcome LeaveResponse_codec (f q s)) <$> f_leave F
  | FAppWrite q => (λ f, outcome AppWriteResponse_codec
      (match f q s with
       | (mkAppWriteResponse d EmptyString, Some e, s') => (mkAppWriteResponse d e, Some e, s')
       | r => r
       end)) <$> f_appWrite F
  | FAppSync q => (λ f, outcome AppSyncResponse_codec
      (match f q s with
       | (mkAppSyncResponse EmptyString, Some e, s') => (mkAppSyncResponse e, Some e, s')
       | r => r
       end)) <$> f_appSync F
  end.

(** The status of a request that asks for no call: on the paths of the functions 405 for
    the method, else 501 without the function, else 400 for the body; 404 or a redirection
    elsewhere. *)
Definition posted (given : bool) (m : method) : Z :=
  match m with POST => if given then 400 else 501 | _ => 405 end.

Definition refused {St} (F : functions St) (path : string) (m : method) : Z :=
  if decide (path = "/join") then posted (if f_join F then true else false) m
  else if decide (path = "/leave") then posted (if f_leave F then true else false) m
  else if decide (path = "/appwrite") then posted (if f_appWrite F then true else false) m
  else if decide (path = "/appsync") then posted (if f_appSync F then true else false) m
  else if decide (path = "/status") then 405
  else if decide (path = "/healthz") then match m with GET => 200 | _ => 405 end
  else if decide (path = "/metrics") then code (metrics m)
  else if clean_path path then 404 else 301.

Lemma mux_inv path :
  match mux path with Some r => path = pattern r | None => ∀ r, path ≠ pattern r end.
Proof using Type.
  unfold mux. destruct (List.find _ _) as [r|] eqn:E.
  - apply find_some in E as [_ E]. by apply bool_decide_eq_true_1 in E.
  - intros r ->. pose proof (List.find_none _ _ E r) as H. cbn in H.
    rewrite bool_decide_eq_true_2 in H by done. discriminate H. destruct r; tauto.
Qed.

(** What the handlers do, as the specification puts it. *)
Lemma post_handler_spec {St Q R} (cq : codec Q) (cr : codec R) uns on_error tag
    (f : option (Q → St → (R * option string) * St)) m body s :
  let '(resp, (l, s')) := post_handler decode_error cq cr uns on_error (noting tag <$> f) m body ([], s) in
  post_handler decode_error cq cr uns on_error f m body s = (resp, s') ∧
  match (match m with POST => Decode cq body | _ => None end) with
  | Some q =>
      match f with
      | Some f => l = [tag q] ∧ (resp, s') = outcome cr
          (match f q s with ((r, Some e), s') => ((on_error r e, Some e), s') | x => x end)
      | None => l = [] ∧ s' = s ∧ code resp = 501%Z
      end
  | None => l = [] ∧ s' = s ∧ code resp = posted (if f then true else false) m
  end.
Proof using Type.
  unfold post_handler. destruct m; [by destruct f| |by destruct f].
  destruct (Decode cq body) as [q|], f as [f|]; cbn [fmap option_fmap option_map]; try done.
  unfold noting. cbn [fst snd]. by destruct (f q s) as [[r [e|]] s1].
Qed.

Lemma clean_pattern r : clean_path (pattern r) = true.
Proof using Type. by destruct r; vm_compute. Qed.

(** A path of a function: its handler against the specification. *)
Ltac post_case cq :=
  match goal with
  | |- context [asked ?path ?m ?body] =>
      match goal with
      | H : context [noting ?tag] |- _ =>
          assert (asked path m body = tag <$> match m with POST => Decode cq body | _ => None end) as ->
            by (by destruct m);
          destruct (post_handler _ _ _ _ _ _ _ _ _) as [resp [l s']] in H |- *;
          destruct H as [H0 H]; split; [exact H0|];
          destruct (match m with POST => Decode cq body | _ => None end) as [q|]; cbn [fmap option_fmap option_map answer];
          [|by destruct H as (-> & -> & ->)]
      end
  end.


End server.
Arguments functions : clear implicits.
Arguments mkFunctions {St} _ _ _ _ _.

(** ** The clients *)

(** The calls of the management client. *)
Inductive endpoint : Type := EpStatus | EpJoin | EpLeave | EpAppWrite | EpAppSync.

Definition endpoint_route (e : endpoint) : route :=
  match e with
  | EpStatus => RStatus | EpJoin => RJoin | EpLeave => RLeave | EpAppWrite => RAppWrite | EpAppSync => RAppSync
  end.

Section clients.
  (** the TLS configurations, as [tlsconfig] makes them *)
  Context {T : Type}.

(** [httpjson.Client]: the time limit of its [http.Client], the TLS configuration of its
    transport, and whether requests use https. *)
Record httpClient := mkHttpClient { hc_timeout : Z; hc_tls : option T; hc_isTLS : bool }.

Definition default_timeout : Z := 3 * 10 ^ 9.

Definition http_NewClient (timeout : Z) : httpClient :=
  mkHttpClient (if (timeout <=? 0)%Z then default_timeout else timeout) None false.

Definition http_UseTLS (cfg : option T) (c : httpClient) : httpClient :=
  mkHttpClient (hc_timeout c) cfg (bool_decide (is_Some cfg)).

Definition scheme (c : httpClient) : string := if hc_isTLS c then "https" else "http".

(** [fmt.Sprintf("%s://%s/join", scheme, addr)] and the like. *)
Definition request_url (c : httpClient) (addr : string) (e : endpoint) : string :=
  scheme c +:+ ("://" +:+ (addr +:+ pattern (endpoint_route e))).

Definition request_method (e : endpoint) : method := match e with EpStatus => GET | _ => POST end.

(** [grpc.Client]: a time limit, a TLS configuration, and the connection manager that
    [getConn] makes on first use. *)
Record grpcClient := mkGrpcClient { gc_timeout : Z; gc_tls : option T; gc_cm : option ConnManager }.

Definition grpc_NewClient (timeout : Z) : grpcClient :=
  mkGrpcClient (if (timeout <=? 0)%Z then default_timeout else timeout) None None.

Definition grpc_UseTLS (cfg : option T) (c : grpcClient) : grpcClient :=
  mkGrpcClient (gc_timeout c) cfg (gc_cm c).

(** The credentials [dialCtx] chooses. *)
Definition dial_credentials (c : grpcClient) : option T := gc_tls c.

(** How long an unused connection is kept. *)
Definition conn_idle : Z := 30 * 10 ^ 9.

(** [getConn] and [Subscribe] before they ask the manager for a connection. *)
Definition ensure_manager (c : grpcClient) : ConnManager * grpcClient :=
  match gc_cm c with
  | Some cm => (cm, c)
  | None => let cm := NewConnManager conn_idle in (cm, mkGrpcClient (gc_timeout c) (gc_tls c) (Some cm))
  end.

(** The full method names the client passes to [Invoke]. *)
Definition full_method (e : endpoint) : string :=
  match e with
  | EpStatus => "/cluster.v1.Management/GetStatus"
  | EpJoin => "/cluster.v1.Management/Join"
  | EpLeave => "/cluster.v1.Management/Leave"
  | EpAppWrite => "/cluster.v1.Management/AppWrite"
  | EpAppSync => "/cluster.v1.Management/AppSync"
  end.

End clients.

Arguments httpClient : clear implicits.
Arguments grpcClient : clear implicits.

(** [Client.Subscribe]: what the stream brought, or the error of dialling, and the client, whose
    connection is given back when the stream has ended. *)
Definition client_Subscribe {T} (now now' : Z) (dial : gores nat) (addr nodeID : string) (env : streamEnv)
    (c : grpcClient T) (mt : Metrics)
    : gores (option bytes * (list (string * option bytes) * list (string * bytes) * string)) * grpcClient T * Metrics :=
  let '(cm, c1) := ensure_manager c in
  let '(r, cm', mt') := with_conn now now' dial addr (Ok (subscribe_stream nodeID env)) cm mt in
  (r, mkGrpcClient (gc_timeout c1) (gc_tls c1) (Some cm'), mt').

(** The connections a client has, one for each target in use. *)
Definition client_uses {T} (c : grpcClient T) (t : string) : Z :=
  from_option (λ cm, uses cm t) 0%Z (gc_cm c).
Definition client_ok {T} (c : grpcClient T) : Prop := ∀ cm, gc_cm c = Some cm → refs_ok cm.

(** What the server reads from a URL: the scheme, the host and the path. *)
Fixpoint cut_at (c : ascii) (s : string) : string * string :=
  match s with
  | EmptyString => (EmptyString, EmptyString)
  | String a s' => if decide (a = c) then (EmptyString, s)
                   else let '(h, t) := cut_at c s' in (String a h, t)
  end.

(** The host and the path of what follows [://]. *)
Definition split_url (url : string) : option (string * string * string) :=
  let '(sch, rest) := cut_at ":" url in
  match rest with
  | String ":" (String "/" (String "/" s)) => let '(host, path) := cut_at "/" s in Some (sch, host, path)
  | _ => None
  end.

Lemma cut_at_app c h t : has_byte c h = false → cut_at c (h +:+ String c t) = (h, String c t).
Proof.
  induction h as [|a h IH]; rewrite ?app_Empty, ?app_String; cbn [cut_at has_byte].
  - intros _. by rewrite decide_True.
  - intros [Ha Hh]%orb_false_iff. apply bool_decide_eq_false_1 in Ha. by rewrite decide_False, IH.
Qed.

Lemma mux_pattern r : mux (pattern r) = Some r.
Proof. by destruct r. Qed.

(** How the gRPC server finds a method: by the service and the method of the full name. *)
Definition grpc_dispatch (m : mgmtImpl) (full : string) (body : bytes) : gores bytes :=
  match cut_prefix "/cluster.v1.Management/" full with
  | Some name => Management m name body
  | None => Err "unimplemented"
  end.

(** The handler of a method, as [_Management_serviceDesc] pairs them. *)
Definition endpoint_handler (m : mgmtImpl) (e : endpoint) : bytes → gores bytes :=
  match e with
  | EpStatus => method_handler empty_codec statusBlob_codec (mgmt_GetStatus m)
  | EpJoin => method_handler JoinRequest_codec JoinResponse_codec (λ q, Ok (mgmt_Join m q))
  | EpLeave => method_handler LeaveRequest_codec LeaveResponse_codec (λ q, Ok (mgmt_Leave m q))
  | EpAppWrite => method_handler AppWriteRequest_codec AppWriteResponse_codec (λ q, Ok (mgmt_AppWrite m q))
  | EpAppSync => method_handler AppSyncRequest_codec AppSyncResponse_codec (λ q, Ok (mgmt_AppSync m q))
  end.

(** Clients and servers agree on names: the URL the HTTP client builds for a call names
    the address it was given as the host, https exactly with a TLS configuration, and a
    path that the server routes to the handler of that call, with the method that handler
    accepts; and the gRPC client's method names are found in the service, each with its
    own handler. *)
Theorem requests_routed {T St} (cfg : option T) timeout addr e decode_error metrics moved (F : functions St) body s m :
  has_byte "/" addr = false →
  (∃ path, split_url (request_url (http_UseTLS cfg (http_NewClient timeout)) addr e) =
      Some (if cfg is Some _ then "https" else "http", addr, path) ∧
    mux path = Some (endpoint_route e) ∧
    code (ServeHTTP decode_error metrics moved F path (request_method e) body s).1 ≠ 405%Z) ∧
  grpc_dispatch m (full_method e) body = endpoint_handler m e body.
Proof.
  intros Ha. split; [|by destruct e].
  exists (pattern (endpoint_route e)). split_and!.
  - unfold request_url, scheme, split_url. cbn [hc_isTLS http_UseTLS].
    set (sch := if bool_decide (is_Some cfg) then "https" else "http").
    assert (has_byte ":" sch = false) as Hs by (unfold sch; by destruct cfg).
    replace ("://" +:+ (addr +:+ pattern (endpoint_route e)))
      with (String ":" ("//" +:+ (addr +:+ pattern (endpoint_route e)))) by done.
    rewrite (cut_at_app ":" sch _ Hs). rewrite !app_String, app_Empty.
    assert (∃ p, pattern (endpoint_route e) = String "/" p) as [p ->] by (destruct e; by eexists).
    rewrite (cut_at_app "/" addr p Ha). unfold sch. by destruct cfg.
  - apply mux_pattern.
  - unfold ServeHTTP. rewrite mux_pattern, clean_pattern. destruct e; cbn [endpoint_route request_method negb].
    + unfold status_handler. by destruct (f_status F s) as [[] ?].
    + unfold join_handler, post_handler. by repeat case_match.
    + unfold leave_handler, post_handler. by repeat case_match.
    + unfold appwrite_handler, post_handler. by repeat case_match.
    + unfold appsync_handler, post_handler. by repeat case_match.
Qed.

(** ** Subscribing *)

(** A subscription gives its connection back however its stream ends, so any number of rounds
    of the facade's subscribe loop leaves no connection in use behind; and without a
    connection nothing is sent. *)
Theorem subscription_balanced {T} now now' dial addr nodeID env (c : grpcClient T) mt :
  client_ok c →
  let '(r, c', mt') := client_Subscribe now now' dial addr nodeID env c mt in
  (∀ t, client_uses c' t = client_uses c t) ∧ client_ok c' ∧ gc_tls c' = gc_tls c ∧
  (r = Ok (subscribe_stream nodeID env) ∨ ∃ e, dial = Err e ∧ r = Err e).
Proof.
  intros Hc. unfold client_Subscribe. destruct (ensure_manager c) as [cm c1] eqn:Ee.
  assert (refs_ok cm ∧ (∀ t, uses cm t = client_uses c t) ∧ gc_tls c1 = gc_tls c) as (Hr & Hu & Ht).
  { unfold ensure_manager in Ee. unfold client_uses. destruct (gc_cm c) as [cm'|] eqn:Ec; simplify_eq; [by split_and!; [apply Hc|..]|].
    split_and!; [intros t mc; cbn; by rewrite lookup_empty| |done]. intros t. unfold uses. cbn. by rewrite lookup_empty. }
  pose proof (managed_call_balanced now now' dial addr (Ok (subscribe_stream nodeID env)) cm mt Hr) as Hb.
  destruct (with_conn _ _ _ _ _ _ _) as [[r cm'] mt'] eqn:Ew. destruct Hb as (Hu' & Hr' & _ & _).
  cbn [gc_tls]. split_and!; [intros t; cbn; by rewrite Hu'|by intros ? [= <-]|done|].
  unfold with_conn in Ew. destruct (get_cached now addr cm) as [[? ?]|]; [by simplify_eq; left|].
  destruct dial as [k|e]; [|simplify_eq; right; by exists e].
  destruct (get_dialed _ _ _ _ _) as [[[? ?] ?] ?]. simplify_eq. by left.
Qed.

(** ** Witnesses *)

Lemma subscription_balanced_witness :
  client_uses (client_Subscribe 0 1 (Ok 4) "h:1" "n2" (mkStreamEnv None None [] "EOF") (grpc_NewClient (T:=unit) 0) ∅).1.2 "h:1" = 0%Z.
Proof.
  pose proof (subscription_balanced 0 1 (Ok 4) "h:1" "n2" (mkStreamEnv None None [] "EOF") (grpc_NewClient (T:=unit) 0) ∅) as H.
  destruct (client_Subscribe _ _ _ _ _ _ _ _) as [[r c'] mt']. destruct H as [H _]; [done|]. exact (H "h:1").
Defined.

Definition demo_functions : functions nat :=
  mkFunctions (λ n, (Ok "{}", n)) (Some (λ _ n, ((mkJoinResponse true EmptyString EmptyString, None), S n))) None None None.

Lemma requests_routed_witness :
  ∃ path, split_url (request_url (http_UseTLS (Some ()) (http_NewClient 0)) "10.0.0.1:17946" EpJoin) =
    Some ("https", "10.0.0.1:17946", path) ∧ mux path = Some RJoin.
Proof.
  destruct (requests_routed (Some ()) 0 "10.0.0.1:17946" EpJoin (λ _, "EOF") (λ _, mkResponse 200 EmptyString) id
    demo_functions "{" 0 (with_join demo_accept)) as [(path & H1 & H2 & _) _]; [reflexivity|].
  by exists path.
Defined.
