(* ===== verification/Cli.v ===== *)
(** * The command line

    [pkg/cli/cli.go]: the bodies of the commands [run], [status], [join] and [leave], with
    the defaults of their flags, over the clients of [Routes], the node of [Bootstrap] and
    the facade.  A command starts from the record of its flags, which [Flags] fills.  Its outcome is an error or what it wrote to standard output. *)
From S2P Require Import Prelude GoStrings Metrics ConnMgr Utf8 Json Types JsonCodec.
From S2P Require Import Logging Effects Cluster ClusterSpec Network Discovery RaftNode Gossip Tls.
From S2P Require Import Bootstrap Http Grpc Routes.
From stdpp Require Import options.

Definition newline : string := String "010" EmptyString.

(** The flags the commands share for TLS. *)
Record tlsFlags := mkTlsFlags {
  fl_enable : bool; fl_ca : string; fl_cert : string; fl_key : string; fl_skip : bool; fl_serverName : string;
}.

Definition tls_defaults : tlsFlags := mkTlsFlags false EmptyString EmptyString EmptyString false EmptyString.

(** ** Running a node *)

Record runFlags := mkRunFlags {
  rf_id : string; rf_raftAddr : string; rf_memBind : string; rf_memAdv : string; rf_join : string;
  rf_mgmtAddr : string; rf_mgmtProto : string; rf_discovery : string; rf_dnsNames : string; rf_dnsPort : Z;
  rf_discRefresh : Z; rf_filePath : string; rf_fileEnv : string; rf_tls : tlsFlags; rf_trace : bool;
  rf_bootstrap : bool; rf_data : string;
}.

Definition run_defaults : runFlags :=
  mkRunFlags EmptyString ":9520" ":7946" EmptyString EmptyString ":17946" "http" "static" EmptyString 7946
    (5 * 10 ^ 9) EmptyString EmptyString tls_defaults false false EmptyString.

(** The configuration [run] makes of its flags. *)
Definition run_config (f : runFlags) : Config :=
  mkConfig (rf_id f) (rf_raftAddr f) (rf_memBind f) (rf_memAdv f) (rf_mgmtAddr f) (rf_mgmtProto f) (rf_discovery f)
    (rf_join f) (rf_dnsNames f) (rf_dnsPort f) (rf_discRefresh f) (rf_filePath f) (rf_fileEnv f) (rf_data f)
    (rf_bootstrap f)
    (Tls.mkOptions (fl_enable (rf_tls f)) (fl_ca (rf_tls f)) (fl_cert (rf_tls f)) (fl_key (rf_tls f))
       (fl_skip (rf_tls f)) (fl_serverName (rf_tls f)))
    false 0 EmptyString false false false.

Section run.
  Context {R M C : Type} (ReadFile : string → gores bytes).

(** The tracing branch of [run] around the rest [p]: an error of the set-up is only logged,
    else the deferred shutdown follows. *)
Definition with_tracing {A} (enable : bool) (p : prog A) : prog A :=
  if enable then
    e ← ask CTracingSetup;
    match e with
    | Some e => do! CStdLog ("tracing setup error: " +:+ e); p
    | None => a ← p; do! CTracingShutdown; Ret a
    end
  else p.

(** [run]: the node runs until the signal context ends, and is closed, then the traces; the
    result is the error. *)
Definition run_cmd (f : runFlags) : prog (option string) :=
  if decide (rf_id f = EmptyString) then Ret (Some "missing -id")
  else
    with_tracing (rf_trace f)
      (r ← Run (R:=R) (M:=M) (C:=C) ReadFile (run_config f);
       match r with
       | Err e => Ret (Some e)
       | Ok cl =>
           do! CPrintln "cluster running. Press Ctrl+C to exit.";
           do! CCtxDone;
           _ ← Cluster.Close cl;
           Ret None
       end).

End run.

(** ** Asking a node *)

(** The client a command chooses: the protocol by its name, everything else being HTTP. *)
Inductive client (T : Type) : Type :=
  | ViaHTTP (c : httpClient T)
  | ViaGRPC (c : grpcClient T).
Arguments ViaHTTP {T}.
Arguments ViaGRPC {T}.

Definition client_secure {T} (c : client T) : bool :=
  match c with
  | ViaHTTP h => hc_isTLS h
  | ViaGRPC g => bool_decide (is_Some (dial_credentials g))
  end.

Definition make_client {T} (proto : string) (timeout : Z) (cliTLS : option T) : client T :=
  if decide (proto = "grpc") then
    let cli := grpc_NewClient timeout in
    ViaGRPC (match cliTLS with Some _ => grpc_UseTLS cliTLS cli | None => cli end)
  else
    let cli := http_NewClient timeout in
    ViaHTTP (match cliTLS with Some _ => http_UseTLS cliTLS cli | None => cli end).

Definition cli_addr : string := "127.0.0.1:17946".
Definition cli_timeout : Z := 3 * 10 ^ 9.

(** The flags of [join] and [leave]; [leave] has no Raft address. *)
Record askFlags := mkAskFlags {
  af_id : string; af_raftAddr : string; af_addr : string; af_proto : string; af_timeout : Z; af_tls : tlsFlags;
}.

Definition ask_defaults : askFlags :=
  mkAskFlags EmptyString EmptyString cli_addr "http" cli_timeout tls_defaults.

Section ask.
  Context {C : Type} (ReadFile : string → gores bytes) (LoadX509KeyPair : string → string → gores C).

Definition tls_flags_options (t : tlsFlags) : Tls.Options :=
  Tls.mkOptions true (fl_ca t) (fl_cert t) (fl_key t) (fl_skip t) (fl_serverName t).

(** The TLS configuration of the client. *)
Definition client_tls (t : tlsFlags) : gores (option (tlsConfig C)) :=
  if fl_enable t then
    match Tls.Client ReadFile LoadX509KeyPair (tls_flags_options t) with
    | Err e => Err ("tls client config: " +:+ e)
    | Ok cfg => Ok cfg
    end
  else Ok None.

(** A command that asks a node: [post] is the call over the client it makes, [what] names
    it in the error. *)
Definition ask_cmd {Q A} (what : string) (cr : codec A) (post : client (tlsConfig C) → string → Q → gores A)
    (q : Q) (f : askFlags) : gores bytes :=
  match client_tls (af_tls f) with
  | Err e => Err e
  | Ok cfg =>
      match post (make_client (af_proto f) (af_timeout f) cfg) (af_addr f) q with
      | Err e => Err (what +:+ (" error: " +:+ e))
      | Ok resp => Ok (Encode cr resp)
      end
  end.

Definition join_cmd (post : client (tlsConfig C) → string → JoinRequest → gores JoinResponse) (f : askFlags)
    : gores bytes :=
  if decide (af_id f = EmptyString ∨ af_raftAddr f = EmptyString)
  then Err "missing required flags: -id and -raft-addr"
  else ask_cmd "join" JoinResponse_codec post (mkJoinRequest (af_id f) (af_raftAddr f)) f.

(** Both clients have [PostLeave]. *)
Definition leave_cmd (post : client (tlsConfig C) → string → LeaveRequest → gores LeaveResponse) (f : askFlags)
    : gores bytes :=
  if decide (af_id f = EmptyString) then Err "missing required flag: -id"
  else ask_cmd "leave" LeaveResponse_codec post (mkLeaveRequest (af_id f)) f.

End ask.

(** The last byte. *)
Fixpoint last_byte (s : string) : option ascii :=
  match s with
  | EmptyString => None
  | String a EmptyString => Some a
  | String _ s' => last_byte s'
  end.

(** [status] always asks over HTTP; a newline is added when there is none. *)
Definition status_output (data : bytes) : bytes :=
  if decide (last_byte data = Some "010"%char) then data else data +:+ newline.

Definition status_cmd (get : string → bytes + option clientErr) (text : option clientErr → string) (addr : string)
    : gores bytes :=
  match get addr with
  | inr e => Err ("status error: " +:+ text e)
  | inl data => Ok (status_output data)
  end.

(** ** What the commands report *)

Lemma make_client_secure {T} proto timeout (cfg : option T) :
  client_secure (make_client proto timeout cfg) = bool_decide (is_Some cfg).
Proof. unfold make_client. case_decide; by destruct cfg. Qed.

Lemma client_tls_enabled {C} ReadFile (Load : string → string → gores C) t cfg :
  client_tls ReadFile Load t = Ok cfg → bool_decide (is_Some cfg) = fl_enable t.
Proof.
  unfold client_tls, Tls.Client, tls_flags_options. cbn [Tls.Enable negb].
  destruct (fl_enable t); [|by intros [= <-]].
  destruct (if decide (Tls.CAFile _ = _) then _ else _) as [roots|e]; [|done].
  destruct (if decide (Tls.CertFile _ ≠ _ ∧ _) then _ else _) as [certs|e]; [|done]. by intros [= <-].
Qed.

(** A command that asks a node prints what the node's handler answered. *)
Lemma ask_cmd_output {C Q A} ReadFile (Load : string → string → gores C) what (cr : codec A) wfr dr
    post (q : Q) (g : A) f out :
  CodecOk cr wfr dr → (dr ≤ max_depth)%Z → wfr g = true →
  (∀ c r, client_secure c = fl_enable (af_tls f) → post c (af_addr f) q = Ok r → r = g) →
  ask_cmd ReadFile Load what cr post q f = Ok out → Unmarshal cr out = Some g.
Proof.
  intros Hok Hd Hw Hpost. unfold ask_cmd.
  destruct (client_tls _ _ _) as [cfg|e] eqn:Et; [|done].
  destruct (post _ _ _) as [r|e] eqn:Ep; [|done]. intros [= <-].
  apply Hpost in Ep as ->; [by eapply Unmarshal_Encode|].
  rewrite make_client_secure. by eapply client_tls_enabled.
Qed.

(** C37. The command [join] tells the truth over either protocol: for a node name and an
    address in UTF-8, whatever transport that keeps the interface of a management client
    it is given, when it succeeds both required flags were set, the request went out over
    TLS exactly when the flag asks for it, and the JSON on standard output decodes to what
    the handler of the node answered to this request. *)
Theorem join_cmd_truthful {C} ReadFile (Load : string → string → gores C)
    (answers : (JoinRequest → JoinResponse) → JoinRequest → gores JoinResponse → Prop)
    `{!HonestRPC JoinRequest_wf JoinResponse_wf jp_error answers} handler post f out :
  let q := mkJoinRequest (af_id f) (af_raftAddr f) in
  JoinRequest_wf q = true → JoinResponse_wf (handler q) = true →
  (∀ c r, client_secure c = fl_enable (af_tls f) → post c (af_addr f) q = r → answers handler q r) →
  join_cmd ReadFile Load post f = Ok out →
  af_id f ≠ EmptyString ∧ af_raftAddr f ≠ EmptyString ∧
  Unmarshal JoinResponse_codec out = Some (handler q).
Proof.
  intros q Hq Hr Hpost. unfold join_cmd. case_decide as Hd; [done|]. intros Hc. split_and!; [naive_solver..|].
  eapply (ask_cmd_output ReadFile Load "join" JoinResponse_codec JoinResponse_wf 1 post q (handler q) f out _);
    [done|done| |done].
  intros c r Hs Hp. eapply honest_reply; [done|done|]. by eapply Hpost.
Qed.

(** *** Status *)

Lemma get_loop_inl srv attempts lastErr data :
  get_loop srv attempts lastErr = inl data → data = rbody srv ∧ code srv = 200%Z.
Proof.
  revert lastErr. induction attempts as [|[fate c] rest IH]; intros lastErr; cbn [get_loop]; [done|].
  destruct fate; [destruct c; [done|apply IH]..|].
  case_decide; [by intros [= <-]|]. destruct c; [done|apply IH].
Qed.

Lemma status_output_decodes {A} (c : codec A) wf depth a :
  CodecOk c wf depth → (depth ≤ max_depth)%Z → wf a = true →
  Unmarshal c (status_output (Marshal c a)) = Some a.
Proof.
  intros Hok Hd Hw. unfold status_output. case_decide; [by eapply Unmarshal_Marshal|].
  change (Marshal c a +:+ newline) with (Encode c a). by eapply Unmarshal_Encode.
Qed.

(** The command [status] prints what the node reports: whatever happens to its
    attempts, when it succeeds the text on standard output decodes to the status the node's
    facade gave to its server. *)
Theorem status_cmd_truthful st plan text addr out :
  ClusterStatus_wf st = true →
  status_cmd (λ _, Http.GetStatus (status_handler (λ s, (Ok (Marshal ClusterStatus_codec st), s)) GET ()).1 plan) text addr = Ok out →
  Unmarshal ClusterStatus_codec out = Some st.
Proof.
  intros Hw. unfold status_cmd, Http.GetStatus.
  destruct (get_loop _ _ _) as [data|e] eqn:E; [|done]. intros [= <-].
  apply get_loop_inl in E as [-> _]. cbn [status_handler fst rbody].
  by apply (status_output_decodes ClusterStatus_codec ClusterStatus_wf 4 st _).
Qed.

(** *** Running *)

Definition is_stop X (c : call X) : bool :=
  match c with CConsStop | CMemLeave | CMemStop | CSrvStop => true | _ => false end.

Lemma Start_stops_nothing c : avoids is_stop (Cluster.Start c).
Proof. unfold Cluster.Start, start_buffer, or_else, start_mem, start_cons, start_rpcS. avoid. Qed.

Lemma Start_keeps c tr e k :
  exec (Cluster.Start c) tr (Some (e, k)) → Cluster.opts k = Cluster.opts c ∧ Cluster.closed k = Cluster.closed c.
Proof.
  unfold Cluster.Start. destruct (started c); [by intros [_ [= -> ->]]|]. cbn [exec].
  intros (x & tr1 & _ & H).
  apply exec_bind in H as [(t1 & t2 & [] & _ & _ & H)|[? _]]; [|done].
  by apply exec_bind in H as [(t3 & t4 & r & _ & _ & [_ [= _ ->]])|[? _]].
Qed.

Section running.
  Context {R M C : Type} (ReadFile : string → gores bytes).

Lemma Build_cluster c (b : built R M C) :
  Build ReadFile c = Ok b → b_cluster b = mkCluster (cluster_options c) false false false false.
Proof.
  unfold Build. destruct (RaftNode.New _); [|done]. destruct (Gossip.New _); [|done].
  destruct (tls_of _ _) as [[s cl]|]; [|done]. unfold Cluster.New.
  destruct (Validate _); [done|]. by intros [= <-].
Qed.

(** The calls before and after the rest of [run] that tracing makes: none without it, the
    set-up and in the end the shutdown, or only the set-up that failed and the line for it. *)
Definition traced (enable : bool) (before after : list action) : Prop :=
  if enable
  then (∃ e, before = [Act CTracingSetup None] ∧ after = [Act CTracingShutdown e]) ∨
       (∃ e, before = [Act CTracingSetup (Some e); Act (CStdLog ("tracing setup error: " +:+ e)) ()] ∧ after = [])
  else before = [] ∧ after = [].

Lemma with_tracing_exec {A} enable (p : prog A) tr a :
  exec (with_tracing enable p) tr (Some a) →
  ∃ before mid after, tr = before ++ mid ++ after ∧ traced enable before after ∧ exec p mid (Some a).
Proof using Type.
  unfold with_tracing, traced. destruct enable; [|intros H; by exists [], tr, []; rewrite app_nil_r].
  intros ([e|] & tr1 & -> & H).
  - destruct H as ([] & tr2 & -> & H). exists [Act CTracingSetup (Some e); Act (CStdLog ("tracing setup error: " +:+ e)) ()], tr2, [].
    rewrite app_nil_r. split_and!; [done| |done]. right. by exists e.
  - cbn in H. apply exec_bind in H as [(t1 & t2 & x & -> & H1 & (e & t3 & -> & -> & [= ->]))|[? _]]; [|done].
    exists [Act CTracingSetup None], t1, [Act CTracingShutdown e]. split_and!; [done| |done]. left. by exists e.
Qed.

(** C38. The calls of the command [run].  Without a name it makes none.  When it ends without an
    error, the node was built from the flags and started without an error, the message was
    printed, and only when the context had ended consensus, gossip and the management
    server were stopped, once each and in that order.  When it ends with another error, the
    command stopped nothing.  With tracing enabled, the provider is set up before all this
    and, when that succeeded, shut down after it, also on an error. *)
Theorem run_cmd_lifecycle f tr out :
  exec (run_cmd (R:=R) (M:=M) (C:=C) ReadFile f) tr (Some out) →
  (rf_id f = EmptyString ∧ tr = [] ∧ out = Some "missing -id") ∨
  rf_id f ≠ EmptyString ∧ ∃ before mid after, tr = before ++ mid ++ after ∧ traced (rf_trace f) before after ∧
  match out with
  | None => ∃ (b : built R M C) k tr1 e1 e2 e3 e4,
      Build ReadFile (run_config f) = Ok b ∧ exec (Cluster.Start (b_cluster b)) tr1 (Some (None, k)) ∧
      mid = tr1 ++ [Act (CPrintln "cluster running. Press Ctrl+C to exit.") (); Act CCtxDone ();
                    Act CConsStop e1; Act CMemLeave e2; Act CMemStop e3; Act CSrvStop e4]
  | Some e => ∀ a, a ∈ mid → action_bad is_stop a = false
  end.
Proof.
  unfold run_cmd. case_decide as Hid; [by intros [-> [= ->]]; left|]. right. split; [done|].
  apply with_tracing_exec in H as (before & mid & after & -> & Ht & H). exists before, mid, after.
  split_and!; [done..|].
  apply exec_bind in H as [(t1 & t2 & r & -> & H1 & H2)|[? _]]; [|done].
  unfold Run in H1. destruct (Build ReadFile (run_config f)) as [b|e] eqn:Eb.
  2: { destruct H1 as [-> [= ->]]. destruct H2 as [-> [= ->]]. by intros a ?%elem_of_nil. }
  apply exec_bind in H1 as [(t3 & t4 & [[e|] k] & -> & Hs & Hr)|[? _]]; [| |done].
  - destruct Hr as [-> [= ->]]. destruct H2 as [-> [= ->]]. rewrite !app_nil_r.
    intros a Ha. eapply avoids_exec; [apply Start_stops_nothing|exact Hs|exact Ha].
  - destruct Hr as [-> [= ->]]. rewrite app_nil_r. destruct H2 as ([] & t5 & -> & [] & t6 & -> & H2).
    apply exec_bind in H2 as [(t7 & t8 & q & -> & Hq & [-> [= ->]])|[? _]]; [|done].
    destruct (Start_keeps _ _ _ _ Hs) as [Ho Hc]. rewrite (Build_cluster _ _ Eb) in Ho, Hc. cbn in Ho, Hc.
    destruct (stop_order _ _ _ Hq) as (c' & _ & _ & Hstop). rewrite Hc in Hstop.
    destruct Hstop as (e1 & e2 & e3 & e4 & ->). rewrite Ho, app_nil_r. unfold stop_calls. cbn.
    by exists b, k, t3, e1, e2, e3, e4.
Qed.

(** [Run] of a node whose consensus engine does not start returns an error and no node,
    with the gossip membership running: nothing stops it and the caller has nothing to
    close. *)
Theorem failed_run_leaks c (b : built R M C) e :
  Build ReadFile c = Ok b → cfg_ReplBufferDir c = EmptyString →
  ∃ tr, exec (Run (R:=R) (M:=M) (C:=C) ReadFile c) tr (Some (Err e)) ∧ Act CMemStart None ∈ tr ∧
    ∀ a, a ∈ tr → action_bad is_stop a = false.
Proof.
  intros Hb Hd. set (tr := [Act CRegisterMetrics (); Act CMemStart None; Act CSeeds []; Act CConsStart (Some e)]).
  assert (exec (Run (R:=R) (M:=M) (C:=C) ReadFile c) tr (Some (Err e))) as He.
  { unfold Run. rewrite Hb, (Build_cluster c b Hb). unfold Cluster.Start, start_buffer. cbn [started Cluster.opts].
    cbn [cluster_options ReplBufferDir]. rewrite Hd. rewrite decide_True by done. cbn.
    repeat (eexists _, _; split; [reflexivity|]; cbn). done. }
  exists tr. split_and!; [done|set_solver|]. intros a Ha.
  unfold tr in Ha. rewrite !elem_of_cons, elem_of_nil in Ha. by destruct Ha as [->|[->|[->|[->|[]]]]].
Qed.

End running.

(** ** Witnesses *)

Definition demo_run : runFlags :=
  mkRunFlags "n1" ":9520" ":7946" EmptyString EmptyString ":17946" "http" "static" EmptyString 7946
    (5 * 10 ^ 9) EmptyString EmptyString tls_defaults true true EmptyString.

Definition demo_join : askFlags := mkAskFlags "n2" "10.0.0.2:9520" cli_addr "http" cli_timeout tls_defaults.

Lemma join_cmd_truthful_witness :
  Unmarshal JoinResponse_codec (Encode JoinResponse_codec (mkJoinResponse true EmptyString EmptyString)) =
  Some (demo_accept (mkJoinRequest "n2" "10.0.0.2:9520")).
Proof.
  apply (join_cmd_truthful (C:=nat) (λ _, Err EmptyString) (λ _ _, Err EmptyString) grpc_join demo_accept
    (λ _ _ q, Ok (demo_accept q)) demo_join (Encode JoinResponse_codec (mkJoinResponse true EmptyString EmptyString)));
    [vm_compute; reflexivity|vm_compute; reflexivity| |reflexivity].
  intros c r _ <-. apply can_reply; vm_compute; reflexivity.
Defined.

Definition demo_status : ClusterStatus := mkStatus true 3 "n1" ":17946" (Some []) None.

Lemma status_cmd_truthful_witness :
  Unmarshal ClusterStatus_codec (status_output (Marshal ClusterStatus_codec demo_status)) = Some demo_status.
Proof.
  apply (status_cmd_truthful demo_status [(Refused, false); (Delivered, false)] (λ _, EmptyString) cli_addr);
    vm_compute; reflexivity.
Defined.

Lemma run_cmd_lifecycle_witness :
  ∃ before (mid after : list action), traced true before after ∧ Act CCtxDone () ∈ mid.
Proof.
  destruct (run_cmd_lifecycle (R:=nat) (M:=nat) (C:=nat) demo_read demo_run
    ([Act CTracingSetup None] ++
     [Act CRegisterMetrics (); Act CMemStart None; Act CSeeds []; Act CConsStart None; Act (CGo GoReconcile) ();
      Act (CGo GoMembershipEvents) (); Act (CGo GoReplicationSubscribe) (); Act (CGo GoReplicationRetry) ();
      Act (CGo GoElectionWatch) (); Act (CGo GoLeaderWatch) (); Act CSrvStart None;
      Act CSrvAddr ":17946"; Act (CLog (LListening ":17946")) ()] ++
     [Act (CPrintln "cluster running. Press Ctrl+C to exit.") (); Act CCtxDone ();
      Act CConsStop None; Act CMemLeave None; Act CMemStop None; Act CSrvStop None; Act CTracingShutdown None])
    None) as [(E & _)|(_ & before & mid & after & E & Ht & b & k & tr1 & e1 & e2 & e3 & e4 & Hb & Hs & Em)].
  - cbn. repeat (eexists _, _; split; [reflexivity|]; cbn). done.
  - discriminate E.
  - exists before, mid, after. split; [exact Ht|]. rewrite Em. apply elem_of_app. right. right. left.
Defined.

Lemma failed_run_leaks_witness :
  ∃ tr, exec (Run (R:=nat) (M:=nat) (C:=nat) demo_read (run_config demo_run)) tr (Some (Err "address in use")) ∧
    Act CMemStart None ∈ tr.
Proof.
  destruct (failed_run_leaks (R:=nat) (M:=nat) (C:=nat) demo_read (run_config demo_run) _ "address in use"
    eq_refl eq_refl) as (tr & H1 & H2 & _).
  by exists tr.
Defined.
