(* ===== verification/Flags.v ===== *)
(** * Flags of the command line

    The flags [pkg/cli/cli.go] registers for its commands, and the commands themselves as
    [AddAll], [NewClusterCommand] and [cmd/clusterctl/main.go] put them together.  The cobra
    library splits the arguments into names and values and converts numbers, booleans and
    durations; it is a parameter.  What is modelled is which variable each flag sets. *)
From S2P Require Import Prelude GoStrings Types Tls Bootstrap Cli.
From stdpp Require Import options.

(** ** Flag sets *)

(** [StringVar], [IntVar], [BoolVar] and [DurationVar] with the variable they are given. *)
Inductive setter (F : Type) : Type :=
  | StringVar (set : string → F → F)
  | IntVar (set : Z → F → F)
  | BoolVar (set : bool → F → F)
  | DurationVar (set : Z → F → F).
Arguments StringVar {F}.
Arguments IntVar {F}.
Arguments BoolVar {F}.
Arguments DurationVar {F}.

(** The value of a variable. *)
Inductive value : Type := VString (s : string) | VInt (n : Z) | VBool (b : bool) | VDuration (n : Z).

Inductive flagErr : Type := UnknownFlag (name : string) | BadValue (name text : string).

Section parsing.
  Context (Atoi : string → option Z) (ParseBool : string → option bool) (ParseDuration : string → option Z).
  Context {F : Type}.

(** The value a text stands for, and the variables after it was assigned. *)
Definition convert (s : setter F) (text : string) : option value :=
  match s with
  | StringVar _ => Some (VString text)
  | IntVar _ => VInt <$> Atoi text
  | BoolVar _ => VBool <$> ParseBool text
  | DurationVar _ => VDuration <$> ParseDuration text
  end.

Definition assign (s : setter F) (text : string) (f : F) : option F :=
  match s with
  | StringVar set => Some (set text f)
  | IntVar set => (λ n, set n f) <$> Atoi text
  | BoolVar set => (λ b, set b f) <$> ParseBool text
  | DurationVar set => (λ n, set n f) <$> ParseDuration text
  end.

Fixpoint find_flag (name : string) (tbl : list (string * setter F)) : option (setter F) :=
  match tbl with
  | [] => None
  | (n, s) :: tbl' => if decide (n = name) then Some s else find_flag name tbl'
  end.

(** The assignments of a command line, from left to right. *)
Fixpoint apply_flags (tbl : list (string * setter F)) (args : list (string * string)) (f : F) : flagErr + F :=
  match args with
  | [] => inr f
  | (name, text) :: args' =>
      match find_flag name tbl with
      | None => inl (UnknownFlag name)
      | Some s => match assign s text f with
                  | None => inl (BadValue name text)
                  | Some f' => apply_flags tbl args' f'
                  end
      end
  end.

(** What a variable holds in the end: the last assignment to its flag, or its default. *)
Fixpoint final_value (s : setter F) (name : string) (args : list (string * string)) (cur : value) : value :=
  match args with
  | [] => cur
  | (n, text) :: args' =>
      final_value s name args' (if decide (n = name) then default cur (convert s text) else cur)
  end.

End parsing.

(** ** The commands' flags *)

Definition set_tls (g : tlsFlags → tlsFlags) (f : runFlags) : runFlags :=
  mkRunFlags (rf_id f) (rf_raftAddr f) (rf_memBind f) (rf_memAdv f) (rf_join f) (rf_mgmtAddr f) (rf_mgmtProto f)
    (rf_discovery f) (rf_dnsNames f) (rf_dnsPort f) (rf_discRefresh f) (rf_filePath f) (rf_fileEnv f) (g (rf_tls f))
    (rf_trace f) (rf_bootstrap f) (rf_data f).

Definition tls_enable v t := mkTlsFlags v (fl_ca t) (fl_cert t) (fl_key t) (fl_skip t) (fl_serverName t).
Definition tls_ca v t := mkTlsFlags (fl_enable t) v (fl_cert t) (fl_key t) (fl_skip t) (fl_serverName t).
Definition tls_cert v t := mkTlsFlags (fl_enable t) (fl_ca t) v (fl_key t) (fl_skip t) (fl_serverName t).
Definition tls_key v t := mkTlsFlags (fl_enable t) (fl_ca t) (fl_cert t) v (fl_skip t) (fl_serverName t).
Definition tls_skip v t := mkTlsFlags (fl_enable t) (fl_ca t) (fl_cert t) (fl_key t) v (fl_serverName t).
Definition tls_serverName v t := mkTlsFlags (fl_enable t) (fl_ca t) (fl_cert t) (fl_key t) (fl_skip t) v.

(** [NewRunCmd]. *)
Definition run_flagset : list (string * setter runFlags) :=
  [("id", StringVar (λ v '(mkRunFlags _ a2 a3 a4 a5 a6 a7 a8 a9 b1 b2 b3 b4 b5 b6 b7 b8),
      mkRunFlags v a2 a3 a4 a5 a6 a7 a8 a9 b1 b2 b3 b4 b5 b6 b7 b8));
   ("raft-addr", StringVar (λ v '(mkRunFlags a1 _ a3 a4 a5 a6 a7 a8 a9 b1 b2 b3 b4 b5 b6 b7 b8),
      mkRunFlags a1 v a3 a4 a5 a6 a7 a8 a9 b1 b2 b3 b4 b5 b6 b7 b8));
   ("mem-bind", StringVar (λ v '(mkRunFlags a1 a2 _ a4 a5 a6 a7 a8 a9 b1 b2 b3 b4 b5 b6 b7 b8),
      mkRunFlags a1 a2 v a4 a5 a6 a7 a8 a9 b1 b2 b3 b4 b5 b6 b7 b8));
   ("mem-adv", StringVar (λ v '(mkRunFlags a1 a2 a3 _ a5 a6 a7 a8 a9 b1 b2 b3 b4 b5 b6 b7 b8),
      mkRunFlags a1 a2 a3 v a5 a6 a7 a8 a9 b1 b2 b3 b4 b5 b6 b7 b8));
   ("join", StringVar (λ v '(mkRunFlags a1 a2 a3 a4 _ a6 a7 a8 a9 b1 b2 b3 b4 b5 b6 b7 b8),
      mkRunFlags a1 a2 a3 a4 v a6 a7 a8 a9 b1 b2 b3 b4 b5 b6 b7 b8));
   ("mgmt-addr", StringVar (λ v '(mkRunFlags a1 a2 a3 a4 a5 _ a7 a8 a9 b1 b2 b3 b4 b5 b6 b7 b8),
      mkRunFlags a1 a2 a3 a4 a5 v a7 a8 a9 b1 b2 b3 b4 b5 b6 b7 b8));
   ("mgmt-proto", StringVar (λ v '(mkRunFlags a1 a2 a3 a4 a5 a6 _ a8 a9 b1 b2 b3 b4 b5 b6 b7 b8),
      mkRunFlags a1 a2 a3 a4 a5 a6 v a8 a9 b1 b2 b3 b4 b5 b6 b7 b8));
   ("discovery", StringVar (λ v '(mkRunFlags a1 a2 a3 a4 a5 a6 a7 _ a9 b1 b2 b3 b4 b5 b6 b7 b8),
      mkRunFlags a1 a2 a3 a4 a5 a6 a7 v a9 b1 b2 b3 b4 b5 b6 b7 b8));
   ("dns-names", StringVar (λ v '(mkRunFlags a1 a2 a3 a4 a5 a6 a7 a8 _ b1 b2 b3 b4 b5 b6 b7 b8),
      mkRunFlags a1 a2 a3 a4 a5 a6 a7 a8 v b1 b2 b3 b4 b5 b6 b7 b8));
   ("dns-port", IntVar (λ v '(mkRunFlags a1 a2 a3 a4 a5 a6 a7 a8 a9 _ b2 b3 b4 b5 b6 b7 b8),
      mkRunFlags a1 a2 a3 a4 a5 a6 a7 a8 a9 v b2 b3 b4 b5 b6 b7 b8));
   ("disc-refresh", DurationVar (λ v '(mkRunFlags a1 a2 a3 a4 a5 a6 a7 a8 a9 b1 _ b3 b4 b5 b6 b7 b8),
      mkRunFlags a1 a2 a3 a4 a5 a6 a7 a8 a9 b1 v b3 b4 b5 b6 b7 b8));
   ("file-path", StringVar (λ v '(mkRunFlags a1 a2 a3 a4 a5 a6 a7 a8 a9 b1 b2 _ b4 b5 b6 b7 b8),
      mkRunFlags a1 a2 a3 a4 a5 a6 a7 a8 a9 b1 b2 v b4 b5 b6 b7 b8));
   ("file-env", StringVar (λ v '(mkRunFlags a1 a2 a3 a4 a5 a6 a7 a8 a9 b1 b2 b3 _ b5 b6 b7 b8),
      mkRunFlags a1 a2 a3 a4 a5 a6 a7 a8 a9 b1 b2 b3 v b5 b6 b7 b8));
   ("tls-enable", BoolVar (λ v, set_tls (tls_enable v)));
   ("tls-ca", StringVar (λ v, set_tls (tls_ca v)));
   ("tls-cert", StringVar (λ v, set_tls (tls_cert v)));
   ("tls-key", StringVar (λ v, set_tls (tls_key v)));
   ("tls-skip-verify", BoolVar (λ v, set_tls (tls_skip v)));
   ("tls-server-name", StringVar (λ v, set_tls (tls_serverName v)));
   ("trace", BoolVar (λ v '(mkRunFlags a1 a2 a3 a4 a5 a6 a7 a8 a9 b1 b2 b3 b4 b5 _ b7 b8),
      mkRunFlags a1 a2 a3 a4 a5 a6 a7 a8 a9 b1 b2 b3 b4 b5 v b7 b8));
   ("bootstrap", BoolVar (λ v '(mkRunFlags a1 a2 a3 a4 a5 a6 a7 a8 a9 b1 b2 b3 b4 b5 b6 _ b8),
      mkRunFlags a1 a2 a3 a4 a5 a6 a7 a8 a9 b1 b2 b3 b4 b5 b6 v b8));
   ("data", StringVar (λ v '(mkRunFlags a1 a2 a3 a4 a5 a6 a7 a8 a9 b1 b2 b3 b4 b5 b6 b7 _),
      mkRunFlags a1 a2 a3 a4 a5 a6 a7 a8 a9 b1 b2 b3 b4 b5 b6 b7 v))].

(** [NewStatusCmd]. *)
Record statusFlags := mkStatusFlags { sf_addr : string; sf_timeout : Z }.
Definition status_defaults : statusFlags := mkStatusFlags cli_addr cli_timeout.
Definition status_flagset : list (string * setter statusFlags) :=
  [("addr", StringVar (λ v '(mkStatusFlags _ t), mkStatusFlags v t));
   ("timeout", DurationVar (λ v '(mkStatusFlags a _), mkStatusFlags a v))].

Definition ask_set_tls (g : tlsFlags → tlsFlags) (f : askFlags) : askFlags :=
  mkAskFlags (af_id f) (af_raftAddr f) (af_addr f) (af_proto f) (af_timeout f) (g (af_tls f)).

(** [NewLeaveCmd]; [NewJoinCmd] has the Raft address besides. *)
Definition leave_flagset : list (string * setter askFlags) :=
  [("id", StringVar (λ v '(mkAskFlags _ r a p t s), mkAskFlags v r a p t s));
   ("addr", StringVar (λ v '(mkAskFlags i r _ p t s), mkAskFlags i r v p t s));
   ("mgmt-proto", StringVar (λ v '(mkAskFlags i r a _ t s), mkAskFlags i r a v t s));
   ("timeout", DurationVar (λ v '(mkAskFlags i r a p _ s), mkAskFlags i r a p v s));
   ("tls-enable", BoolVar (λ v, ask_set_tls (tls_enable v)));
   ("tls-ca", StringVar (λ v, ask_set_tls (tls_ca v)));
   ("tls-cert", StringVar (λ v, ask_set_tls (tls_cert v)));
   ("tls-key", StringVar (λ v, ask_set_tls (tls_key v)));
   ("tls-skip-verify", BoolVar (λ v, ask_set_tls (tls_skip v)));
   ("tls-server-name", StringVar (λ v, ask_set_tls (tls_serverName v)))].

Definition join_flagset : list (string * setter askFlags) :=
  ("raft-addr", StringVar (λ v '(mkAskFlags i _ a p t s), mkAskFlags i v a p t s)) :: leave_flagset.

(** ** The commands *)

Inductive command : Type := RunCmd | StatusCmd | JoinCmd | LeaveCmd.

Definition command_use (c : command) : string :=
  match c with RunCmd => "run" | StatusCmd => "status" | JoinCmd => "join" | LeaveCmd => "leave" end.

(** A command with its subcommands; [AddAll] attaches the four to a root. *)
Inductive cobra : Type := Cobra (use : string) (subs : list command).
Definition AddAll (root : cobra) : cobra :=
  match root with Cobra use subs => Cobra use (subs ++ [RunCmd; StatusCmd; JoinCmd; LeaveCmd]) end.
Definition NewClusterCommand : cobra := Cobra "cluster" [RunCmd; StatusCmd; JoinCmd; LeaveCmd].
Definition newRoot : cobra := AddAll (Cobra "clusterctl" []).

(** ** Each flag sets its own variable *)

(** The variables behind the flags of a set, in the order of the flags; assigning a flag
    changes its variable and no other. *)
Class FlagSet {F} (tbl : list (string * setter F)) (vars : list (string * (F → value))) : Prop := {
  fs_names : tbl.*1 = vars.*1;
  fs_unique : NoDup tbl.*1;
  fs_bound : ∀ Atoi ParseBool ParseDuration n s m g text f f',
    (n, s) ∈ tbl → (m, g) ∈ vars → assign Atoi ParseBool ParseDuration s text f = Some f' →
    g f' = if decide (n = m) then default (g f) (convert Atoi ParseBool ParseDuration s text) else g f;
}.

(** The configuration fields and settings behind the flags of [run]. *)
Definition run_vars : list (string * (runFlags → value)) :=
  let cfg sel := λ f, VString (sel (run_config f)) in
  [("id", cfg cfg_NodeID); ("raft-addr", cfg cfg_RaftAddr); ("mem-bind", cfg cfg_MemBind); ("mem-adv", cfg cfg_MemAdv);
   ("join", cfg cfg_SeedsCSV); ("mgmt-addr", cfg cfg_MgmtAddr); ("mgmt-proto", cfg cfg_MgmtProto);
   ("discovery", cfg cfg_DiscoveryKind); ("dns-names", cfg cfg_DNSNamesCSV);
   ("dns-port", λ f, VInt (cfg_DNSPort (run_config f))); ("disc-refresh", λ f, VDuration (cfg_DiscRefresh (run_config f)));
   ("file-path", cfg cfg_FilePath); ("file-env", cfg cfg_FileEnv);
   ("tls-enable", λ f, VBool (Tls.Enable (cfg_TLS (run_config f)))); ("tls-ca", cfg (λ c, CAFile (cfg_TLS c)));
   ("tls-cert", cfg (λ c, CertFile (cfg_TLS c))); ("tls-key", cfg (λ c, KeyFile (cfg_TLS c)));
   ("tls-skip-verify", λ f, VBool (InsecureSkipVerify (cfg_TLS (run_config f))));
   ("tls-server-name", cfg (λ c, ServerName (cfg_TLS c))); ("trace", λ f, VBool (rf_trace f));
   ("bootstrap", λ f, VBool (cfg_Bootstrap (run_config f))); ("data", cfg cfg_DataDir)].

Definition status_vars : list (string * (statusFlags → value)) :=
  [("addr", λ f, VString (sf_addr f)); ("timeout", λ f, VDuration (sf_timeout f))].

Definition leave_vars : list (string * (askFlags → value)) :=
  let opt sel := λ f, VString (sel (tls_flags_options (af_tls f))) in
  [("id", λ f, VString (af_id f)); ("addr", λ f, VString (af_addr f)); ("mgmt-proto", λ f, VString (af_proto f));
   ("timeout", λ f, VDuration (af_timeout f)); ("tls-enable", λ f, VBool (fl_enable (af_tls f)));
   ("tls-ca", opt CAFile); ("tls-cert", opt CertFile); ("tls-key", opt KeyFile);
   ("tls-skip-verify", λ f, VBool (InsecureSkipVerify (tls_flags_options (af_tls f))));
   ("tls-server-name", opt ServerName)].

Definition join_vars : list (string * (askFlags → value)) :=
  ("raft-addr", λ f, VString (af_raftAddr f)) :: leave_vars.


Lemma assign_record {F} Atoi ParseBool ParseDuration (s : setter F) text f f' :
  assign Atoi ParseBool ParseDuration s text f = Some f' →
  match s with
  | StringVar set => f' = set text f
  | IntVar set => ∃ n, Atoi text = Some n ∧ f' = set n f
  | BoolVar set => ∃ b, ParseBool text = Some b ∧ f' = set b f
  | DurationVar set => ∃ n, ParseDuration text = Some n ∧ f' = set n f
  end.
Proof. destruct s; cbn [assign]; [by intros [= <-]|..]; intros (? & -> & ->)%fmap_Some; eauto. Qed.

(** One flag and the variables: decided by computation once the record is taken apart. *)
Definition sets_only {F} (n : string) (s : setter F) (vars : list (string * (F → value))) : Prop :=
  ∀ f, match s with
       | StringVar set => ∀ v, (λ x, x.2 (set v f)) <$> vars = (λ x, if decide (n = x.1) then VString v else x.2 f) <$> vars
       | IntVar set => ∀ v, (λ x, x.2 (set v f)) <$> vars = (λ x, if decide (n = x.1) then VInt v else x.2 f) <$> vars
       | BoolVar set => ∀ v, (λ x, x.2 (set v f)) <$> vars = (λ x, if decide (n = x.1) then VBool v else x.2 f) <$> vars
       | DurationVar set => ∀ v, (λ x, x.2 (set v f)) <$> vars = (λ x, if decide (n = x.1) then VDuration v else x.2 f) <$> vars
       end.

Lemma fmap_at {A B} (h k : A → B) (l : list A) x : h <$> l = k <$> l → x ∈ l → h x = k x.
Proof.
  induction l as [|y l IH]; [set_solver|]. cbn. intros [= E1 E2] [->|Hx]%elem_of_cons; auto.
Qed.

Lemma FlagSet_intro {F} (tbl : list (string * setter F)) vars :
  tbl.*1 = vars.*1 → NoDup tbl.*1 → Forall (λ x, sets_only x.1 x.2 vars) tbl → FlagSet tbl vars.
Proof.
  intros Hn Hu Hs. split; [done..|]. intros Atoi PB PD n s m g text f f' Hin Hg Ha.
  rewrite Forall_forall in Hs. specialize (Hs _ Hin f). cbn [fst snd] in Hs. apply assign_record in Ha.
  destruct s as [set|set|set|set]; cbn [convert] in *.
  - subst f'. by apply (fmap_at _ _ _ (m, g) (Hs text)).
  - destruct Ha as (v & -> & ->). by apply (fmap_at _ _ _ (m, g) (Hs v)).
  - destruct Ha as (v & -> & ->). by apply (fmap_at _ _ _ (m, g) (Hs v)).
  - destruct Ha as (v & -> & ->). by apply (fmap_at _ _ _ (m, g) (Hs v)).
Qed.

Ltac flag_set :=
  apply FlagSet_intro; [reflexivity|apply (bool_decide_unpack _); by vm_compute|];
  repeat (apply Forall_cons_2; [intros [] ?; reflexivity|]); apply Forall_nil_2.

Global Instance run_flags_ok : FlagSet run_flagset run_vars.
Proof. flag_set. Qed.
Global Instance status_flags_ok : FlagSet status_flagset status_vars.
Proof. flag_set. Qed.
Global Instance leave_flags_ok : FlagSet leave_flagset leave_vars.
Proof. flag_set. Qed.
Global Instance join_flags_ok : FlagSet join_flagset join_vars.
Proof. flag_set. Qed.

Lemma find_flag_elem {F} n s (l : list (string * setter F)) : find_flag n l = Some s → (n, s) ∈ l.
Proof.
  induction l as [|[n' s'] l IH]; [done|]. cbn [find_flag]. case_decide as E; [|by right; apply IH].
  intros [= <-]. subst. by left.
Qed.

Lemma find_flag_name {F} m (l : list (string * setter F)) : m ∈ l.*1 → ∃ s, find_flag m l = Some s.
Proof.
  induction l as [|[n s] l IH]; [set_solver|]. cbn. rewrite elem_of_cons. case_decide; [by eexists|].
  intros [->|Hm]; [done|auto].
Qed.

Lemma assign_convert {F} Atoi ParseBool ParseDuration (s : setter F) text f :
  is_Some (assign Atoi ParseBool ParseDuration s text f) ↔ is_Some (convert Atoi ParseBool ParseDuration s text).
Proof.
  destruct s; cbn [assign convert]; rewrite ?fmap_is_Some; [split; by eexists|done..].
Qed.

(** The flags of a command line are accepted exactly when each is registered and its text can
    be converted, whatever the variables hold. *)
Lemma flags_accepted {F} Atoi ParseBool ParseDuration (tbl : list (string * setter F)) args f0 :
  (∃ f, apply_flags Atoi ParseBool ParseDuration tbl args f0 = inr f) ↔
  Forall (λ a, ∃ s, find_flag a.1 tbl = Some s ∧ is_Some (convert Atoi ParseBool ParseDuration s a.2)) args.
Proof.
  revert f0. induction args as [|[n text] args IH]; intros f0; [split; by eauto|]. cbn [apply_flags].
  rewrite Forall_cons. cbn [fst snd]. destruct (find_flag n tbl) as [s|]; [|naive_solver].
  pose proof (assign_convert Atoi ParseBool ParseDuration s text f0) as Hc. destruct (assign _ _ _ s text f0) as [f1|].
  - rewrite (IH f1). assert (is_Some (convert Atoi ParseBool ParseDuration s text)) by by apply Hc.
    split; [eauto|by intros [_ ?]].
  - split; [by intros [? ?]|]. intros [(s' & [= <-] & [??]%Hc) _]. done.
Qed.

Section bound.
  Context (Atoi : string → option Z) (ParseBool : string → option bool) (ParseDuration : string → option Z).
  Context {F : Type} (tbl : list (string * setter F)) (vars : list (string * (F → value))) `{!FlagSet tbl vars}.

(** The variables of an accepted command line are what the last assignments say. *)
Lemma flag_set_binds args f0 f m g :
  apply_flags Atoi ParseBool ParseDuration tbl args f0 = inr f → (m, g) ∈ vars →
  ∃ s, find_flag m tbl = Some s ∧ g f = final_value Atoi ParseBool ParseDuration s m args (g f0).
Proof using Type*.
  intros Ha Hg. destruct (find_flag_name m tbl) as [s Hs].
  { rewrite (fs_names (tbl:=tbl)). apply list_elem_of_fmap. by exists (m, g). }
  exists s. split; [done|]. revert f0 Ha. induction args as [|[n text] args IH]; intros f0; cbn [apply_flags final_value].
  - by intros [= ->].
  - destruct (find_flag n tbl) as [s'|] eqn:En; [|done].
    destruct (assign _ _ _ s' text f0) as [f1|] eqn:Ea; [|done]. intros Ha. rewrite (IH f1 Ha). f_equal.
    rewrite (fs_bound _ _ _ n s' m g text f0 f1 (find_flag_elem _ _ _ En) Hg Ea).
    case_decide as E; [|done]. subst. by rewrite En in Hs; simplify_eq.
Qed.

End bound.

(** Every accepted command line leaves in the variable behind each flag the value of the last
    assignment to that flag, or its default when there is none. *)
Definition binds Atoi ParseBool ParseDuration {F} (tbl : list (string * setter F))
    (vars : list (string * (F → value))) (f0 : F) : Prop :=
  ∀ args f m g, apply_flags Atoi ParseBool ParseDuration tbl args f0 = inr f → (m, g) ∈ vars →
    ∃ s, find_flag m tbl = Some s ∧ g f = final_value Atoi ParseBool ParseDuration s m args (g f0).

(** C32. Every flag of the four commands sets its own variable and no other: when a command line
    is accepted, the configuration field or setting behind each flag holds the value of the
    last assignment to that flag, or its default.  Whether it is accepted depends only on its
    names and on whether its texts can be converted. *)
Theorem flags_bound Atoi ParseBool ParseDuration :
  binds Atoi ParseBool ParseDuration run_flagset run_vars run_defaults ∧
  binds Atoi ParseBool ParseDuration status_flagset status_vars status_defaults ∧
  binds Atoi ParseBool ParseDuration join_flagset join_vars ask_defaults ∧
  binds Atoi ParseBool ParseDuration leave_flagset leave_vars ask_defaults ∧
  ∀ args, (∃ f, apply_flags Atoi ParseBool ParseDuration run_flagset args run_defaults = inr f) ↔
    Forall (λ a, ∃ s, find_flag a.1 run_flagset = Some s ∧
                   is_Some (convert Atoi ParseBool ParseDuration s a.2)) args.
Proof.
  split_and!; [..|intros args; apply flags_accepted]; intros args f m g Ha Hg;
    by eapply flag_set_binds; try apply _.
Qed.

(** ** Witnesses *)

(** [--id n1 --tls-cert c.pem --id n2]. *)
Definition demo_args : list (string * string) := [("id", "n1"); ("tls-cert", "c.pem"); ("id", "n2")].
Definition no_int (s : string) : option Z := None.
Definition no_bool (s : string) : option bool := None.

Lemma flags_bound_witness :
  ∃ f, apply_flags no_int no_bool no_int run_flagset demo_args run_defaults = inr f ∧
    cfg_NodeID (run_config f) = "n2" ∧ CertFile (cfg_TLS (run_config f)) = "c.pem" ∧
    KeyFile (cfg_TLS (run_config f)) = EmptyString.
Proof.
  eexists. assert (apply_flags no_int no_bool no_int run_flagset demo_args run_defaults = inr _) as E by reflexivity.
  split; [exact E|].
  destruct (proj1 (flags_bound no_int no_bool no_int) demo_args _ "id"
    (λ f, VString (cfg_NodeID (run_config f))) E) as (s & [= <-] & H); [by left|].
  split; [exact (f_equal (λ v, match v with VString x => x | _ => EmptyString end) H)|]. by split.
Defined.

(** The subcommands have different names, so each is reached by its own. *)
Example commands_distinct :
  match newRoot, NewClusterCommand with
  | Cobra _ l, Cobra _ l' => l = l' ∧ NoDup (command_use <$> l)
  end.
Proof. split; [done|]. apply (bool_decide_unpack _). by vm_compute. Qed.
