(* ===== verification/Library.v ===== *)
(** * The example applications

    [examples/library/main.go]: a service that embeds a node through [bootstrap.Run] and offers
    it over HTTP.  Its endpoints are programs over the facade; the requests it gets, the
    interrupt signal and the end of its listener come in any order.  The other example, [examples/hello/main.go],
    only prints. *)
From S2P Require Import Prelude GoStrings Types JsonCodec Logging Effects Cluster ClusterSpec Network.
From S2P Require Import Http Gossip Tls Bootstrap Cli.
From stdpp Require Import options.

(** ** The node *)

Definition library_config : Config :=
  Bootstrap.mkConfig "svc-1" ":9521" ":7946" EmptyString ":17946" EmptyString "static" "127.0.0.1:7946"
    EmptyString 0 0 EmptyString EmptyString EmptyString true
    (Tls.mkOptions false EmptyString EmptyString EmptyString false EmptyString) true 0 EmptyString false false false.

(** [demoHandlers]: the echo of a write with the time in seconds, a fixed answer to a read, and
    nothing but a line of the log for a replicated message. *)
Module demoHandlers.
Definition HandleWrite (now : Z) (op : string) (req : bytes) : gores bytes :=
  Ok ("op=" +:+ (op +:+ (" t=" +:+ (FormatInt now +:+ (" payload=" +:+ req))))).
Definition HandleRead (op : string) (req : bytes) : gores bytes := Ok "read-not-impl".
Definition HandleSync (topic : string) (data : bytes) : option string := None.
End demoHandlers.

(** ** Endpoints *)

Definition write_endpoint (o : Cluster.Options) : prog response :=
  r ← AppWrite o "demo" (Some "hello");
  match r with
  | Err e => Ret (mkResponse 500 e)
  | Ok out => Ret (mkResponse 200 (default EmptyString out))
  end.

(** [None] while the waiting loop of [Publish] has not ended after [rounds] rounds. *)
Definition publish_endpoint (o : Cluster.Options) (rounds : nat) : prog (option response) :=
  r ← Publish o "demo.topic" (Some "sync-data") rounds;
  match r with
  | None => Ret None
  | Some (Some e) => Ret (Some (mkResponse 500 e))
  | Some None => Ret (Some (mkResponse 200 "ok"))
  end.

Definition status_endpoint (o : Cluster.Options) : prog response :=
  s ← Status o;
  Ret (mkResponse 200 ("leader=" +:+ (LeaderID s +:+ (" term=" +:+ (FormatUint (Term s) +:+ (" members=" +:+
    (FormatUint (Z.of_nat (length (default [] (Types.Members s)))) +:+ String "010" EmptyString))))))).

(** The default mux of [net/http] with the four patterns. *)
Definition endpoint (o : Cluster.Options) (path : string) (rounds : nat) : prog (option response) :=
  if decide (path = "/write") then r ← write_endpoint o; Ret (Some r)
  else if decide (path = "/publish") then publish_endpoint o rounds
  else if decide (path = "/status") then r ← status_endpoint o; Ret (Some r)
  else if decide (path = "/healthz") then Ret (Some (mkResponse 200 "ok"))
  else Ret (Some (http_error "404 page not found" 404)).

(** ** The log of events *)

(** The texts of the event types. *)
Definition event_type_text (t : EventType) : string :=
  match t with
  | EventLeaderChanged => "leader_changed" | EventElectionStart => "election_start"
  | EventElectionEnd => "election_end" | EventMemberJoin => "member_join"
  | EventMemberLeave => "member_leave" | EventMemberFailed => "member_failed"
  end.

(** [%v] of a pointer to a structure, with the keys of a map in order. *)
Definition leader_text (l : option LeaderInfo) : string :=
  match l with
  | None => "<nil>"
  | Some li => "&{" +:+ (join_with " " [li_id li; li_addr li; FormatUint (li_term li)] +:+ "}")
  end.
Definition member_text (m : option MemberInfo) : string :=
  match m with
  | None => "<nil>"
  | Some mi =>
      let meta := (λ kv, kv.1 +:+ (":" +:+ kv.2)) <$> from_option sorted_entries [] (Types.Meta mi) in
      "&{" +:+ (join_with " " [ID mi; Addr mi; "map[" +:+ (join_with " " meta +:+ "]")] +:+ "}")
  end.

(** The line of an event, without the newline the format ends in. *)
Definition event_text (e : Event) : string :=
  "EVENT type=" +:+ (event_type_text (ev_type e) +:+ (" term=" +:+ (FormatUint (ev_term e) +:+
    (" leader=" +:+ (leader_text (ev_leader e) +:+ (" member=" +:+ member_text (ev_member e))))))).

(** The goroutine that reads the events: what it writes through the logger, with the times it
    reads. *)
Fixpoint log_events (file : string) (l : logger) (evs : list (instant * Event)) : bytes :=
  match evs with
  | [] => EmptyString
  | (now, e) :: evs' =>
      Output l now file 54 (event_text e +:+ String nl EmptyString) +:+ log_events file l evs'
  end.

(** With a logger that adds nothing, events whose texts hold no newline are logged one per line,
    in the order in which they are received. *)
Theorem events_logged file l evs :
  lg_flags l = 0%Z → lg_prefix l = EmptyString → Forall (λ e, has_byte nl (event_text e.2) = false) evs →
  lines_of (log_events file l evs) = (λ e, event_text e.2) <$> evs.
Proof.
  intros Hf Hp. induction 1 as [|[now e] evs He _ IH]; [done|]. cbn [log_events fmap list_fmap snd] in *.
  unfold Output. rewrite plain_header by done. rewrite ends_nl_app, str_app_nil_r, app_Empty, str_app_assoc.
  change (String nl EmptyString +:+ ?b) with (String nl b). by rewrite lines_of_line, IH.
Qed.

(** ** The program *)

Inductive libEvent : Type := Request (path : string) (rounds : nat) | Interrupt | ListenError.

Global Instance libEvent_eq_dec : EqDecision libEvent.
Proof. solve_decision. Defined.

Inductive libOutcome : Type := Fatal (e : string) | Listening | Ended.

(** [http.ListenAndServe] until its listener fails: [false] when it still listens after [evs].
    The signal ends the context of the node but not the listener. *)
Fixpoint serve_requests (o : Cluster.Options) (evs : list libEvent) : prog bool :=
  match evs with
  | [] => Ret false
  | Request path rounds :: evs' => _ ← endpoint o path rounds; serve_requests o evs'
  | Interrupt :: evs' => serve_requests o evs'
  | ListenError :: _ => Ret true
  end.

Section main.
  Context {R M C : Type} (ReadFile : string → gores bytes).

Definition library_main (evs : list libEvent) : prog libOutcome :=
  r ← Run (R:=R) (M:=M) (C:=C) ReadFile library_config;
  match r with
  | Err e => Ret (Fatal e)
  | Ok cl =>
      ended ← serve_requests (Cluster.opts cl) evs;
      if ended : bool then _ ← Cluster.Close cl; Ret Ended else Ret Listening
  end.

End main.

(** ** Its life *)

Lemma endpoint_stops_nothing o path rounds : avoids is_stop (endpoint o path rounds).
Proof.
  unfold endpoint. repeat case_decide; [| | |done|done].
  - apply avoids_bind; [|done]. unfold write_endpoint, AppWrite, isLeader, leaderMgmt, leader_by_status, lookupMemberAddr. avoid.
  - unfold publish_endpoint, Publish, isLeader. apply avoids_bind; [|avoid].
    apply avoids_bind; [avoid|]. intros []; [|done]. apply avoids_bind.
    + induction rounds as [|n IH]; cbn [publish_rounds]; [done|]. avoid. exact IH.
    + unfold fan_out. avoid.
  - apply avoids_bind; [|done]. unfold status_endpoint, Status, status_local, isLeader, lookupMemberAddr. avoid.
Qed.

Lemma serve_stops_nothing o evs : avoids is_stop (serve_requests o evs).
Proof.
  induction evs as [|[path rounds| |] evs IH]; cbn [serve_requests]; [done| |done|done].
  apply avoids_bind; [apply endpoint_stops_nothing|done].
Qed.

Lemma serve_ends o evs tr b : exec (serve_requests o evs) tr (Some b) → b = bool_decide (ListenError ∈ evs).
Proof.
  revert tr. induction evs as [|[path rounds| |] evs IH]; intros tr; cbn [serve_requests].
  - intros [_ [= ->]]. symmetry. apply bool_decide_eq_false. set_solver.
  - intros H. apply exec_bind in H as [(t1 & t2 & r & -> & _ & H)|[? _]]; [|done].
    rewrite (IH _ H). apply bool_decide_ext. rewrite elem_of_cons. naive_solver.
  - intros H. rewrite (IH _ H). apply bool_decide_ext. rewrite elem_of_cons. naive_solver.
  - intros [_ [= ->]]. symmetry. apply bool_decide_eq_true. set_solver.
Qed.

Section life.
  Context {R M C : Type} (ReadFile : string → gores bytes).

(** The example's node can always be built, and whether it is running is decided by its
    start: afterwards the program serves until its listener fails, whatever requests and
    interrupts it gets, and only then stops consensus, gossip and the management server, once
    each and in that order.  An interrupt alone never ends it. *)
Theorem library_lifecycle evs tr out :
  exec (library_main (R:=R) (M:=M) (C:=C) ReadFile evs) tr (Some out) →
  (∃ b : built R M C, Build ReadFile library_config = Ok b) ∧
  match out with
  | Fatal _ => ∀ a, a ∈ tr → action_bad is_stop a = false
  | Listening => ListenError ∉ evs ∧ ∀ a, a ∈ tr → action_bad is_stop a = false
  | Ended => ListenError ∈ evs ∧ ∃ tr1 e1 e2 e3 e4,
      tr = tr1 ++ [Act CConsStop e1; Act CMemLeave e2; Act CMemStop e3; Act CSrvStop e4] ∧
      ∀ a, a ∈ tr1 → action_bad is_stop a = false
  end.
Proof.
  intros H. assert (∃ b : built R M C, Build ReadFile library_config = Ok b) as [b Hb] by by eexists.
  split; [by eexists|]. unfold library_main, Run in H. rewrite Hb in H.
  apply exec_bind in H as [(t1 & t2 & r & -> & H1 & H2)|[? _]]; [|done].
  apply exec_bind in H1 as [(t3 & t4 & [[e|] k] & -> & Hs & [-> [= ->]])|[? _]]; [| |done];
    rewrite app_nil_r;
    assert (∀ a, a ∈ t3 → action_bad is_stop a = false) as Ht3
      by (intros a Ha; eapply avoids_exec; [apply Start_stops_nothing|exact Hs|exact Ha]).
  - destruct H2 as [-> [= ->]]. by rewrite app_nil_r.
  - apply exec_bind in H2 as [(t5 & t6 & ended & -> & H5 & H6)|[? _]]; [|done].
    assert (∀ a, a ∈ t3 ++ t5 → action_bad is_stop a = false) as Ht5.
    { intros a [Ha|Ha]%elem_of_app; [auto|]. eapply avoids_exec; [apply serve_stops_nothing|exact H5|exact Ha]. }
    apply serve_ends in H5. destruct ended; symmetry in H5.
    + apply bool_decide_eq_true in H5.
      apply exec_bind in H6 as [(t7 & t8 & q & -> & Hq & [-> [= ->]])|[? _]]; [|done]. split; [done|].
      destruct (Start_keeps _ _ _ _ Hs) as [Ho Hc]. rewrite (Build_cluster ReadFile _ b Hb) in Ho, Hc. cbn in Hc.
      destruct (stop_order _ _ _ Hq) as (c' & _ & _ & Hstop). rewrite Hc in Hstop.
      destruct Hstop as (e1 & e2 & e3 & e4 & ->). rewrite Ho, app_nil_r.
      exists (t3 ++ t5), e1, e2, e3, e4. split; [by rewrite app_assoc|done].
    + apply bool_decide_eq_false in H5. destruct H6 as [-> [= ->]]. by rewrite app_nil_r.
Qed.

End life.

(** ** [examples/hello] *)

(** The lines of the loop from [i] to 5. *)
Fixpoint hello_loop (rounds : nat) (i : Z) : list string :=
  match rounds with
  | 0 => []
  | S rounds' => if decide (i ≤ 5)%Z then ("i = " +:+ FormatInt (100 ÷ i)) :: hello_loop rounds' (i + 1) else []
  end.

Definition hello_main (rounds : nat) : list string := "Hello and welcome, gopher!" :: hello_loop rounds 1.

(** The loop ends after five rounds, and more change nothing. *)
Lemma hello_ends n : hello_main (5 + n) = ["Hello and welcome, gopher!"; "i = 100"; "i = 50"; "i = 33"; "i = 25"; "i = 20"].
Proof. destruct n; reflexivity. Qed.

(** ** Examples and witnesses *)

(** On the leader [/write] answers with the echo of its handler. *)
Example library_echo now :
  exec (endpoint (cluster_options library_config) "/write" 0)
    [Act CIsLeader true;
     Act (CHandleWrite "demo" (Some "hello")) (out ← demoHandlers.HandleWrite now "demo" "hello"; Ok (Some out))]
    (Some (Some (mkResponse 200 ("op=demo t=" +:+ (FormatInt now +:+ " payload=hello"))))).
Proof. cbn. repeat (eexists _, _; split; [reflexivity|]; cbn). done. Qed.

Example event_text_demo :
  event_text (mkEvent EventMemberJoin 0 None (Some (mkMember "n2" "h:1" (Some (<["mgmt" := "h:2"]> {["a" := "b"]})))) 0) =
  "EVENT type=member_join term=0 leader=<nil> member=&{n2 h:1 map[a:b mgmt:h:2]}".
Proof. vm_compute. reflexivity. Qed.

Lemma events_logged_witness :
  lines_of (log_events "main.go" demo_logger [(demo_time, mkEvent EventElectionStart 0 None None 0)]) =
  ["EVENT type=election_start term=0 leader=<nil> member=<nil>"].
Proof.
  rewrite (events_logged "main.go" demo_logger); [vm_compute; reflexivity|reflexivity|reflexivity|].
  apply Forall_singleton. vm_compute. reflexivity.
Defined.

Definition library_start : list action :=
  [Act CRegisterMetrics (); Act CMemStart None; Act CSeeds []; Act CConsStart None; Act (CGo GoReconcile) ();
   Act (CGo GoMembershipEvents) (); Act (CGo GoReplicationSubscribe) (); Act (CGo GoReplicationRetry) ();
   Act (CGo GoElectionWatch) (); Act (CGo GoLeaderWatch) (); Act CSrvStart None; Act CSrvAddr ":17946"; Act (CLog (LListening ":17946")) ()].

Lemma library_lifecycle_witness :
  ListenError ∉ [Request "/healthz" 0; Interrupt].
Proof.
  destruct (library_lifecycle (R:=nat) (M:=nat) (C:=nat) demo_read [Request "/healthz" 0; Interrupt]
    library_start Listening) as (_ & H & _).
  - cbn. repeat (eexists _, _; split; [reflexivity|]; cbn). done.
  - exact H.
Defined.
